(* ===== verification/_CoqProject ===== *)
-Q . S2P
Prelude.v
Errors.v
GoIO.v
GoStrings.v
Protocol.v
GoOS.v
State.v
Control.v
GoPath.v
GoNet.v
Dns.v
DnsSpec.v
DnsExchange.v
Engine.v
Bridge.v
EngineLife.v
Sniff.v
Connect.v
Tunnel.v
Hdc.v
Daemon.v
Session.v
SessionSpec.v
Handlers.v
Handshake.v
Run.v
Serve.v
Device.v
Channel.v
DataPlane.v
Stop.v
Logging.v
RuntimePath.v
ProxyFiles.v
ProxySession.v
Cli.v
Status.v
EndToEnd.v
