(* ===== verification/Prelude.v ===== *)
(** * HarmonyNetBridge: a verification development

    HarmonyNetBridge lets a HarmonyOS device use a Mac's network over USB.  A
    command line (src/cmd/harmony-netbridge) starts one daemon per user.  The
    daemon (src/internal/daemon) maps a device port to a loopback port with
    hdc (src/internal/hdc), speaks the framed protocol HNB/1
    (src/internal/protocol) on that port, and runs each VPN session's IPv4
    packets through a user-space relay (src/internal/relay): TCP and UDP flows
    are dialled from the Mac, DNS goes to the Mac's resolvers.  In proxy mode
    selected TCP flows go through a managed mitmweb (src/internal/proxy).  The
    daemon publishes its state (src/internal/state) to a file and over a local
    control socket (src/internal/control), and logs to a bounded file
    (src/internal/logging) under per-user paths (src/internal/runtimepath).

    ** Files, and what they model

    The language and its library:
    - [Prelude] (this file): tactics, the rewrite database [zlen] of lengths, bytes, big-endian
      integers, lists and the [result] type with its monad;
    - [Errors]: Go error chains and src/internal/apperror/error.go;
    - [GoIO]: readers, writers with short writes; [GoStrings]: strings,
      strconv, UTF-8, hex; [GoPath]: path/filepath; [GoNet]: addresses;
      [GoOS]: time and a file system with injected faults.

    The program, one Module per component, named after it:
    - [Protocol] (protocol.go): headers, [ReadFrame], [WriteFrame], tokens;
    - [State] (state.go): [Snapshot], the store, [WriteFile], [ReadFile];
    - [Control] (control.go): [Read], [Write], [Call];
    - [Dns], [DnsExchange] (dns.go, and the DNS framing of engine.go): question
      names, resolver selection, the scutil parser, [Exchange] and its cache;
      [DnsSpec] is the reference grammar of names, and RFC 1035's part of it;
    - [Engine] (engine.go): packet checks, the forwarder callbacks, the DNS
      servers; [Bridge] (engine.go): the goroutines of the bridges;
      [EngineLife] (engine.go): the whole engine from [New] to [Close], with
      its output copier, flow goroutines, queues and wait group;
    - [Sniff], [Connect], [Tunnel] (proxy/connect.go): host name sniffing, the
      CONNECT dialler, the lazy connection, the buffered tunnel;
    - [ProxyFiles], [ProxySession] (proxy/session.go): the mitmweb session;
    - [Hdc] (manager.go): discovery, targets, reverse mappings; [Device]: the
      manager against a device, as an instance of the daemon's [Forwarder];
    - [Daemon] (server.go): configuration, frame writer, heartbeats, handshake
      checks, the HTTP side port; [Session]: the fields under [Server.mu] and
      the critical sections of the handlers as an interleaving machine;
      [Handlers]: the same release paths as straight-line functions, and what
      they do to the fields;
      [SessionSpec]: the abstract session automaton; [Handshake]: a connection
      from its first byte to an established session; [Channel]: the frame loops
      and heartbeats of an established one; [Stop]: the STOP_REQUEST exchange,
      also with a session that is still opening, write by write; [DataPlane]: a data connection
      and the packet engine behind it; [Run]: [Run], the mapping monitor,
      [shutdown], [handleControl] in sequence; [Serve]: the accept loops, the
      monitor, the select of [Run] and [shutdown] as goroutines;
    - [Logging] (rotate.go), [RuntimePath] (paths.go);
    - [Cli], [Status] (main.go): arguments, commands, output, exit codes;
      [EndToEnd]: CLI and daemon over the control socket.

    State is a record with the code's fields; an operation is a function that
    returns the new state, with errors as values of [result] or [option error].
    Where [option] is used on top, [None] is a run-time panic (an index out of
    range) and is proved impossible.  Concurrent code is a transition system
    whose steps are the critical sections and the channel operations; theorems
    quantify over all interleavings.

    ** What the theorems show

    - Sessions: consistency of the slots, no leaked relay, published data state
      backed by a connection, published states among the declared ones, handlers
      that end; refinement of a six-action automaton; the effect of every
      release path on slots, connections, relays and published states; what a
      new connection can become, and that a conforming App gets through; the
      stop exchange with the frames it sends, and what the peer reads when its
      writes mix with those of HELLO_ACK.
    - Protocol and channels: round trips of frames under any short writes,
      canonical decoding; packets delivered in order and once in both
      directions, between the device's frames and Netstack; what an App can do
      on a control channel.
    - Life cycle: ownership of the hdc mapping, reporting of failures (which a
      stop command handled during the cleanup can hide); every interleaving of
      the daemon's goroutines equals the sequential [Run] as far as hdc can
      tell, and ends with no goroutine left; the local control socket end to
      end; exit codes; the daemon process gets the settings the user chose.
    - Relay: packet checks, TCP and UDP routing, DNS service, bridge goroutines
      that end with both connections closed; an engine that hands every packet
      Netstack emits to the device while it is open, panics at most when a flow
      starts while its [Close] is about to return, and whose [Close] returns;
      the DNS name parser total and exact against the grammar of names;
      resolver selection; response validity.
    - Proxy: sniffing total and finding every server name; the lazy connection
      sends CONNECT to the sniffed host and then every accepted byte once, or
      holds it back until it is closed; no intercepted destination is dialled
      directly; tunnel bytes independent of segmentation; private files.
    - HTTP side port: what it discloses.  State file: atomic replacement, and
      what a failure leaves of the temporary file.  Log: a bound on both files
      for any lines.

    ** Bounds and fuel

    Loops that are not structural carry fuel that covers every run: 34 rounds
    per byte of a DNS message (at most 32 jumps, each followed by at most the
    message's length), one round per byte of a ClientHello or a DNS stream, the
    32 KiB limit of a CONNECT header; the lemmas [..._returns] and [..._total]
    show that it never runs out.  Transition systems that must end have a
    weight that every step lowers ([measure_completes]).  Polling loops take a list with one element per
    poll before the deadline.  Integers are [Z] with their width written out
    ([u16], [u32], [u64], [i64], saturation in [time_Sub]); a byte count that becomes
    a float64 is rounded as the conversion rounds.

    ** Parameters

    Code outside the repository is an argument with its documented behaviour as
    hypotheses, each met by a concrete instance in a witness: the JSON codec
    ([protocol.JSON]), the Unicode case tables ([Unicode]), gVisor's two header
    constants ([engine.Netstack]), http.ReadRequest ([HTTPRequests]), url.Parse,
    PEM and X.509 parsing, SHA-256, the hdc program ([run.Forwarder], whose laws
    [Device] discharges from the manager), the DNS exchanger as the engine sees
    it, and [err.Error()] texts of wrapped errors.

    ** Not modelled

    Log lines; gVisor's Netstack, whose packets and requests are events;
    process spawning ([ExecRunner], exec.Command) beyond its arguments and
    outcome; the HarmonyOS App, scripts and documentation; what mitmweb does to
    its files once they are being protected; what the Go runtime prints to the
    daemon's log file.  Interleavings inside one frame write are excluded by the
    frame writer's lock; HELLO_ACK and DATA_ACK are written outside it, in the
    uninterrupted [Handshake]; [Stop] mixes the writes of HELLO_ACK and of
    STOP_REQUEST.  Liveness is stated as bounded steps that are always possible,
    without a scheduler. *)
From stdpp Require Export base list gmap sets strings.
From Stdlib Require Export ZArith Lia.
From Stdlib.Strings Require Export Byte.

(** * Automation shared by every file *)

(** Split every conjunction in the context and every existential. *)
Ltac destruct_all :=
  repeat match goal with
  | H : _ ∧ _ |- _ => destruct H
  | H : ∃ _, _ |- _ => destruct H
  end.

(** Case-split on every [match]/[if] scrutinee of the goal or of the context
    and close the absurd branches. *)
Ltac split_cases := repeat (case_match; simplify_eq/=; try done).

(** Split on the first boolean condition of the goal, or of a hypothesis. *)
Tactic Notation "case_if" "as" ident(E) :=
  match goal with
  | |- context [if ?b then _ else _] =>
      lazymatch type of b with bool => destruct b eqn:E end
  end.
Ltac case_if_auto :=
  match goal with
  | |- context [if ?b then _ else _] =>
      lazymatch type of b with bool => destruct b eqn:? end
  end.
Tactic Notation "case_if" := case_if_auto.
Tactic Notation "case_if" "in" hyp(H) "as" ident(E) :=
  match type of H with
  | context [if ?b then _ else _] =>
      lazymatch type of b with bool => destruct b eqn:E end
  end.

(** Boolean connectives to propositions. *)
Ltac bool_to_prop :=
  repeat match goal with
  | H : (_ && _) = true |- _ => apply andb_true_iff in H as [? ?]
  | H : (_ || _) = false |- _ => apply orb_false_iff in H as [? ?]
  | H : negb _ = true |- _ => apply negb_true_iff in H
  | H : negb _ = false |- _ => apply negb_false_iff in H
  | H : bool_decide _ = true |- _ => apply bool_decide_eq_true in H
  | H : bool_decide _ = false |- _ => apply bool_decide_eq_false in H
  | H : (_ <? _)%Z = true |- _ => apply Z.ltb_lt in H
  | H : (_ <? _)%Z = false |- _ => apply Z.ltb_ge in H
  | H : (_ <=? _)%Z = true |- _ => apply Z.leb_le in H
  | H : (_ <=? _)%Z = false |- _ => apply Z.leb_gt in H
  | H : (_ =? _)%Z = true |- _ => apply Z.eqb_eq in H
  | H : (_ =? _)%Z = false |- _ => apply Z.eqb_neq in H
  end.

(** A closed decidable proposition, by evaluating its decision procedure. *)
Ltac decide_now := apply (bool_decide_unpack _); vm_compute; exact I.

(** Comparisons of literals are evaluated. *)
Ltac literals :=
  repeat match goal with
  | |- context [bool_decide (?a ∈ ?l)] =>
      let v := eval vm_compute in (bool_decide (a ∈ l)) in
      match v with true => idtac | false => idtac end; change (bool_decide (a ∈ l)) with v
  | |- context [bool_decide (?a = ?b)] =>
      let v := eval vm_compute in (bool_decide (a = b)) in
      match v with true => idtac | false => idtac end; change (bool_decide (a = b)) with v
  end.

(** * Bytes: [byte] is the standard 256-value type *)

Open Scope Z_scope.

#[global] Instance byte_eq_dec : EqDecision byte := Byte.byte_eq_dec.

Definition b2z (b : byte) : Z := Z.of_N (Byte.to_N b).

(** Go's conversion [byte(v)]: the low eight bits of [v]. *)
Definition z2b (v : Z) : byte :=
  match Byte.of_N (Z.to_N (v mod 256)) with Some b => b | None => x00 end.

Lemma b2z_range b : 0 ≤ b2z b < 256.
Proof.
  unfold b2z. pose proof (Byte.to_N_bounded b) as H. split; [lia|].
  apply N2Z.inj_le in H. lia.
Qed.

Lemma b2z_z2b v : b2z (z2b v) = v mod 256.
Proof.
  unfold z2b, b2z. pose proof (Z.mod_pos_bound v 256 eq_refl) as Hb.
  destruct (Byte.of_N _) as [b|] eqn:E.
  - apply Byte.to_of_N in E. rewrite E. lia.
  - apply Byte.of_N_None_iff in E. lia.
Qed.

Lemma z2b_b2z b : z2b (b2z b) = b.
Proof.
  unfold z2b. rewrite Z.mod_small by apply b2z_range.
  unfold b2z. by rewrite N2Z.id, Byte.of_to_N.
Qed.

#[global] Instance b2z_inj : Inj (=) (=) b2z.
Proof. intros b1 b2 H. by rewrite <-(z2b_b2z b1), H, z2b_b2z. Qed.

#[global] Instance byte_countable : Countable byte.
Proof. apply (inj_countable' b2z z2b). exact z2b_b2z. Defined.

(** * Go strings and byte slices

    A Go [string] and a Go [[]byte] are both byte sequences; a literal is
    written [str "..."]. *)

Abbreviation gostring := (list byte).

Definition str (s : string) : gostring := String.list_byte_of_string s.

(** Go's [==] on strings, as a boolean. *)
Abbreviation streq a b := (bool_decide (a = b :> list byte)).

Definition zlen {A} (l : list A) : Z := Z.of_nat (length l).

(** Go's slice expression [l[lo:hi]] for in-range bounds. *)
Definition slice {A} (l : list A) (lo hi : nat) : list A := take (hi - lo) (drop lo l).

(** Indexing and slicing with Go's run-time checks: [None] is the panic. *)
Definition idx {A} (l : list A) (i : Z) : option A :=
  if 0 <=? i then l !! Z.to_nat i else None.

Definition sub {A} (l : list A) (lo hi : Z) : option (list A) :=
  if (0 <=? lo) && (lo <=? hi) && (hi <=? zlen l)
  then Some (slice l (Z.to_nat lo) (Z.to_nat hi)) else None.

(** * Unsigned machine integers: reduction to width *)

Definition u8 (v : Z) : Z := v mod 2^8.
Definition u16 (v : Z) : Z := v mod 2^16.
Definition u32 (v : Z) : Z := v mod 2^32.
Definition u64 (v : Z) : Z := v mod 2^64.

Definition max_uint32 : Z := 2^32 - 1.
Definition max_int64 : Z := 2^63 - 1.
Definition min_int64 : Z := - 2^63.

(** Arithmetic on int64 wraps around. *)
Definition i64 (v : Z) : Z := (v + 2^63) mod 2^64 - 2^63.
Lemma i64_small v : min_int64 ≤ v ≤ max_int64 → i64 v = v.
Proof. unfold i64, min_int64, max_int64. intros Hv. rewrite Z.mod_small; lia. Qed.

Lemma u32_small v : 0 ≤ v < 2^32 → u32 v = v.
Proof. apply Z.mod_small. Qed.

Lemma u32_range v : 0 ≤ u32 v < 2^32.
Proof. by apply Z.mod_pos_bound. Qed.

Lemma zlen_nonneg {A} (l : list A) : 0 ≤ zlen l.
Proof. unfold zlen; lia. Qed.

Lemma zlen_app {A} (l k : list A) : zlen (l ++ k) = zlen l + zlen k.
Proof. unfold zlen. rewrite length_app. lia. Qed.

Lemma zlen_cons {A} (x : A) l : zlen (x :: l) = 1 + zlen l.
Proof. unfold zlen. simpl. lia. Qed.

(** Linear arithmetic with lengths: they are distributed over the list
    constructors and known not to be negative. *)
#[export] Hint Rewrite @zlen_app @zlen_cons : zlen.

Ltac zlen_lia :=
  autorewrite with zlen in *;
  repeat match goal with
  | |- context [zlen ?l] => lazymatch goal with H : 0 ≤ zlen l |- _ => fail | _ => pose proof (zlen_nonneg l) end
  | _ : context [zlen ?l] |- _ => lazymatch goal with H : 0 ≤ zlen l |- _ => fail | _ => pose proof (zlen_nonneg l) end
  end;
  change (zlen (@nil byte)) with 0 in *; lia.

Lemma length_slice {A} (l : list A) lo hi :
  (lo ≤ hi)%nat → (hi ≤ length l)%nat → length (slice l lo hi) = (hi - lo)%nat.
Proof. intros. unfold slice. rewrite length_take, length_drop. lia. Qed.

Lemma slice_app_r {A} (l k : list A) lo hi :
  (length l ≤ lo)%nat → slice (l ++ k) lo hi = slice k (lo - length l) (hi - length l).
Proof.
  intros. unfold slice. rewrite drop_app_ge by lia.
  f_equal; lia.
Qed.

Lemma idx_is_Some {A} (l : list A) i : 0 ≤ i < zlen l → ∃ x, idx l i = Some x.
Proof.
  unfold idx, zlen. intros [H1 H2]. rewrite (proj2 (Z.leb_le _ _)) by done.
  apply lookup_lt_is_Some. lia.
Qed.

Lemma idx_Some {A} (l : list A) i x : idx l i = Some x → 0 ≤ i < zlen l ∧ l !! Z.to_nat i = Some x.
Proof.
  unfold idx, zlen. case_match; [|done]. bool_to_prop. intros E. split; [|done].
  apply lookup_lt_Some in E. lia.
Qed.

Lemma idx_nat {A} (l : list A) n : idx l (Z.of_nat n) = l !! n.
Proof. unfold idx. rewrite (proj2 (Z.leb_le _ _)) by lia. by rewrite Nat2Z.id. Qed.

Lemma idx_app_r {A} (l k : list A) i : zlen l ≤ i → idx (l ++ k) i = idx k (i - zlen l).
Proof.
  unfold idx, zlen. intros H. rewrite !(proj2 (Z.leb_le _ _)) by lia.
  rewrite lookup_app_r by lia. f_equal. lia.
Qed.

Lemma sub_Some {A} (l : list A) lo hi :
  0 ≤ lo → lo ≤ hi → hi ≤ zlen l →
  sub l lo hi = Some (slice l (Z.to_nat lo) (Z.to_nat hi)).
Proof. intros. unfold sub. by rewrite !(proj2 (Z.leb_le _ _)) by done. Qed.

Lemma sub_inv {A} (l : list A) lo hi k :
  sub l lo hi = Some k →
  0 ≤ lo ∧ lo ≤ hi ∧ hi ≤ zlen l ∧ zlen k = hi - lo.
Proof.
  unfold sub. case_match; [|done]. intros [= <-]. bool_to_prop. unfold zlen in *.
  rewrite length_slice by lia. lia.
Qed.

Lemma sub_app {A} (p l k : list A) lo hi :
  lo = zlen p → hi = zlen p + zlen l → sub (p ++ l ++ k) lo hi = Some l.
Proof.
  intros -> ->. rewrite sub_Some by zlen_lia.
  unfold slice, zlen. f_equal. rewrite Nat2Z.id, drop_app_length.
  rewrite take_app_le by lia. apply take_ge. lia.
Qed.

Lemma idx_off {A} (p l : list A) k : 0 ≤ k → idx (p ++ l) (zlen p + k) = idx l k.
Proof. intros. rewrite idx_app_r by lia. f_equal. lia. Qed.

Lemma sub_off {A} (p l : list A) a b :
  0 ≤ a → sub (p ++ l) (zlen p + a) (zlen p + b) = sub l a b.
Proof.
  intros. unfold sub. pose proof (zlen_nonneg p). rewrite zlen_app.
  assert ((0 <=? zlen p + a) && (zlen p + a <=? zlen p + b) && (zlen p + b <=? zlen p + zlen l)
          = (0 <=? a) && (a <=? b) && (b <=? zlen l)) as -> by (apply eq_true_iff_eq;
    rewrite !andb_true_iff, !Z.leb_le; lia).
  case_if; [|done]. bool_to_prop. f_equal. unfold zlen in *. rewrite slice_app_r by lia.
  f_equal; lia.
Qed.

(** Reads that succeed are unchanged when more data follows. *)
Lemma idx_mono {A} (l k : list A) i x : idx l i = Some x → idx (l ++ k) i = Some x.
Proof. unfold idx. case_if; [|done]. apply lookup_app_l_Some. Qed.

Lemma sub_mono {A} (l k s : list A) lo hi : sub l lo hi = Some s → sub (l ++ k) lo hi = Some s.
Proof.
  intros E. pose proof (sub_inv _ _ _ _ E) as (? & ? & ? & _). pose proof (zlen_nonneg k).
  rewrite sub_Some in E |- * by (rewrite ?zlen_app; lia). injection E as <-.
  f_equal. unfold slice, zlen in *. rewrite drop_app_le by lia.
  apply take_app_le. rewrite length_drop. lia.
Qed.

Lemma slice_prefix {A} (l k : list A) n : n = length l → slice (l ++ k) 0 n = l.
Proof. intros ->. unfold slice. rewrite drop_0, Nat.sub_0_r. apply take_app_length. Qed.

(** * Big-endian encoding ([encoding/binary]) *)

(** [be_put n v] is [PutUint16]/[PutUint32]/[PutUint64] for [n = 2, 4, 8]:
    byte [i] is [byte(v >> (8*(n-1-i)))]. *)
Fixpoint be_put (n : nat) (v : Z) : list byte :=
  match n with
  | O => []
  | S n' => z2b (Z.shiftr v (8 * Z.of_nat n')) :: be_put n' v
  end.

(** [be_get l] is [Uint16]/[Uint32]/[Uint64] on the bytes [l]. *)
Definition be_get (l : list byte) : Z :=
  foldl (λ acc b, Z.lor (Z.shiftl acc 8) (b2z b)) 0 l.

(** Two bytes combined as the code writes it: [int(a)<<8 | int(b)]. *)
Definition be16 (a b : byte) : Z := Z.lor (Z.shiftl (b2z a) 8) (b2z b).

Lemma length_be_put n v : length (be_put n v) = n.
Proof. induction n; simpl; congruence. Qed.

Lemma lor_shiftl_add acc b : Z.lor (Z.shiftl acc 8) (b2z b) = acc * 256 + b2z b.
Proof.
  pose proof (b2z_range b). pose proof (Z.add_lor_land (Z.shiftl acc 8) (b2z b)) as E.
  assert (Z.land (Z.shiftl acc 8) (b2z b) = 0) as E0.
  { apply Z.bits_inj_0. intros i. rewrite Z.land_spec.
    destruct (Z.ltb_spec i 0); [by rewrite !Z.testbit_neg_r by lia|].
    destruct (Z.ltb_spec i 8); [by rewrite Z.shiftl_spec_low by lia|].
    rewrite (Z.bits_above_log2 (b2z b) i); [by rewrite andb_false_r|lia|].
    destruct (Z.eqb_spec (b2z b) 0) as [->|]; [simpl; lia|].
    apply Z.log2_lt_pow2; [lia|].
    assert (2^8 ≤ 2^i) by (apply Z.pow_le_mono_r; lia). lia. }
  rewrite E0, Z.shiftl_mul_pow2 in * by lia. lia.
Qed.

Lemma be16_arith a b : be16 a b = b2z a * 256 + b2z b.
Proof. apply lor_shiftl_add. Qed.

Lemma be16_range a b : 0 ≤ be16 a b < 65536.
Proof. rewrite be16_arith. pose proof (b2z_range a). pose proof (b2z_range b). lia. Qed.

Lemma be_get_acc l acc :
  foldl (λ acc b, Z.lor (Z.shiftl acc 8) (b2z b)) acc l
  = acc * 256 ^ zlen l + be_get l.
Proof.
  unfold be_get. revert acc. induction l as [|b l IH]; intros acc; cbn [foldl].
  - unfold zlen; simpl. lia.
  - rewrite IH, (IH (Z.lor (Z.shiftl 0 8) (b2z b))), !lor_shiftl_add.
    unfold zlen. cbn [length]. rewrite Nat2Z.inj_succ, Z.pow_succ_r by lia. ring.
Qed.

Lemma be_get_cons b l : be_get (b :: l) = b2z b * 256 ^ zlen l + be_get l.
Proof. unfold be_get at 1. cbn [foldl]. rewrite be_get_acc, lor_shiftl_add. ring. Qed.

Lemma be_get_range l : 0 ≤ be_get l < 256 ^ zlen l.
Proof.
  induction l as [|b l IH]; [cbv; split; congruence|].
  rewrite be_get_cons. unfold zlen in *. cbn [length].
  rewrite Nat2Z.inj_succ, Z.pow_succ_r by lia.
  pose proof (b2z_range b). nia.
Qed.

Lemma be_get_put n v : be_get (be_put n v) = v mod 256 ^ Z.of_nat n.
Proof.
  induction n as [|n IH]; [simpl; by rewrite Z.mod_1_r|].
  cbn [be_put]. rewrite be_get_cons, IH, b2z_z2b. unfold zlen. rewrite length_be_put.
  rewrite Nat2Z.inj_succ, Z.pow_succ_r by lia.
  rewrite Z.shiftr_div_pow2 by lia.
  replace (2 ^ (8 * Z.of_nat n)) with (256 ^ Z.of_nat n)
    by (rewrite Z.pow_mul_r by lia; reflexivity).
  rewrite (Z.mul_comm 256), Z.rem_mul_r by lia. lia.
Qed.

Lemma pow256 n : 2 ^ (8 * Z.of_nat n) = 256 ^ Z.of_nat n.
Proof. by rewrite Z.pow_mul_r by lia. Qed.

(** The low [n] bytes do not see what is added above them. *)
Lemma be_put_high n m c v : (n ≤ m)%nat → be_put n (c * 256 ^ Z.of_nat m + v) = be_put n v.
Proof.
  induction n as [|n IH]; intros Hn; [done|]. cbn [be_put]. rewrite IH by lia. f_equal.
  apply (inj b2z). rewrite !b2z_z2b, !Z.shiftr_div_pow2, !pow256 by lia.
  replace (256 ^ Z.of_nat m) with (256 ^ (Z.of_nat m - Z.of_nat n - 1) * 256 * 256 ^ Z.of_nat n).
  - rewrite !Z.mul_assoc, Z.div_add_l by lia. by rewrite Z.add_comm, Z.mod_add by lia.
  - rewrite <-Z.mul_assoc, <-Z.pow_succ_r, <-Z.pow_add_r by lia. f_equal. lia.
Qed.

Lemma be_put_get l n : n = length l → be_put n (be_get l) = l.
Proof.
  intros ->. induction l as [|b l IH]; [done|].
  cbn [length be_put]. rewrite be_get_cons. unfold zlen. f_equal.
  - apply (inj b2z). rewrite b2z_z2b, Z.shiftr_div_pow2, pow256 by lia.
    pose proof (be_get_range l) as Hr. unfold zlen in Hr. pose proof (b2z_range b).
    rewrite Z.div_add_l, (Z.div_small (be_get l)), Z.add_0_r, Z.mod_small by lia. done.
  - by rewrite be_put_high.
Qed.

(** * Lists *)

Lemma filter_none {A} (P : A → Prop) `{!∀ x, Decision (P x)} l :
  Forall (λ x, ¬ P x) l → filter P l = [].
Proof. induction 1; [done|]. rewrite filter_cons. by case_decide. Qed.

(** * Runs that end *)

(** A step relation with an invariant and a measure that every step lowers:
    runs are bounded, and when a state that is not final can step, they reach
    a final one. *)
Section measure.
Context {S : Type} (R : S → S → Prop) (weight : S → nat) (I : S → Prop).
Hypothesis Hstep : ∀ s s', I s → R s s' → (weight s' < weight s)%nat ∧ I s'.

Lemma measure_bounds n s s' : I s → nsteps R n s s' → (n ≤ weight s)%nat.
Proof.
  intros Hi Hn. induction Hn as [s|n s s1 s' Hs _ IH]; [lia|].
  destruct (Hstep _ _ Hi Hs) as [Hw Hi1]. specialize (IH Hi1). lia.
Qed.

Lemma measure_completes (final : S → Prop) s :
  (∀ s, I s → final s ∨ ∃ s', R s s') → I s →
  ∃ n s', (n ≤ weight s)%nat ∧ nsteps R n s s' ∧ final s'.
Proof.
  intros Hp. remember (weight s) as k eqn:Hk. revert s Hk.
  induction k as [k IH] using lt_wf_ind. intros s -> Hi.
  destruct (Hp s Hi) as [Hf|[s1 Hs]]; [exists 0%nat, s; split_and!; [lia|constructor|done]|].
  destruct (Hstep _ _ Hi Hs) as [Hw Hi1]. destruct (IH _ Hw s1 eq_refl Hi1) as (n & s' & Hn & Hr & Hf).
  exists (Datatypes.S n), s'. split_and!; [lia|by econstructor|done].
Qed.
End measure.
