(* ===== verification/Errors.v ===== *)
(** Go error values and the [apperror] package
    (src/internal/apperror/error.go).

    [error] is the tree of wrapped errors the program builds: sentinels of the
    standard library, [errors.New], [fmt.Errorf] with [%w], [net.OpError],
    [protocol.ProtocolError] and [apperror.Error].  [errors.Is] and
    [errors.As] walk the chain the way the library does. *)
From S2P Require Import Prelude.

(** A Go [(T, error)] pair that is either a value or an error. *)
Inductive result (E A : Type) : Type :=
| Ok (a : A)
| Err (e : E).
Arguments Ok {E A} a.
Arguments Err {E A} e.

#[global] Instance result_ret E : MRet (result E) := λ A a, Ok a.
#[global] Instance result_bind E : MBind (result E) := λ A B k r,
  match r with Ok a => k a | Err e => Err e end.
#[global] Instance result_fmap E : FMap (result E) := λ A B f r,
  match r with Ok a => Ok (f a) | Err e => Err e end.

Lemma result_bind_ok {E A B} (r : result E A) (k : A → result E B) b :
  (r ≫= k) = Ok b → ∃ a, r = Ok a ∧ k a = Ok b.
Proof. destruct r; simpl; [eauto|discriminate]. Qed.

(** Invert every successful bind in the context. *)
Ltac inv_ok :=
  repeat match goal with
  | H : (_ ≫= _) = Ok _ |- _ => apply result_bind_ok in H as (? & ? & H)
  | H : Ok _ = Ok _ |- _ => injection H as H
  | H : Err _ = Ok _ |- _ => discriminate H
  end.

Inductive sentinel :=
| EOF | ErrUnexpectedEOF | ErrShortWrite | ErrNetClosed | ErrOsClosed
| ErrDeadlineExceeded | ErrNotExist | ErrExist | ECONNREFUSED | ErrProcessDone.

#[global] Instance sentinel_eq_dec : EqDecision sentinel.
Proof. solve_decision. Defined.

Abbreviation Code := gostring.

Inductive error :=
| ESentinel (s : sentinel)
| ENew (text : gostring)
| EWrapf (context : gostring) (e : error)
| EOpError (e : error)
| EProtocol (code message : gostring)
| EApp (code : Code) (message : gostring) (cause : option error).

(** [errors.Unwrap] *)
Definition Unwrap (e : error) : option error :=
  match e with
  | EWrapf _ e => Some e
  | EOpError e => Some e
  | EApp _ _ c => c
  | _ => None
  end.

(** [errors.Is(err, target)] for a library sentinel. *)
Fixpoint errors_Is (e : error) (target : sentinel) : bool :=
  match e with
  | ESentinel s => bool_decide (s = target)
  | EWrapf _ e => errors_Is e target
  | EOpError e => errors_Is e target
  | EApp _ _ (Some e) => errors_Is e target
  | _ => false
  end.

(** [errors.As(err, *apperror.Error)] *)
Fixpoint errors_As_App (e : error) : option (Code * gostring) :=
  match e with
  | EApp c m _ => Some (c, m)
  | EWrapf _ e => errors_As_App e
  | EOpError e => errors_As_App e
  | _ => None
  end.

(** [errors.As(err, *protocol.ProtocolError)] *)
Fixpoint errors_As_Protocol (e : error) : option (gostring * gostring) :=
  match e with
  | EProtocol c m => Some (c, m)
  | EWrapf _ e => errors_As_Protocol e
  | EOpError e => errors_As_Protocol e
  | EApp _ _ (Some e) => errors_As_Protocol e
  | _ => None
  end.

(** [errors.As(err, *net.OpError)] *)
Fixpoint errors_As_Op (e : error) : bool :=
  match e with
  | EOpError _ => true
  | EWrapf _ e => errors_As_Op e
  | EApp _ _ (Some e) => errors_As_Op e
  | _ => false
  end.

Module apperror.

Definition CodeHDCNotFound : Code := str "HDC_NOT_FOUND".
Definition CodeNoDevice : Code := str "NO_DEVICE".
Definition CodeDeviceOffline : Code := str "DEVICE_OFFLINE".
Definition CodeMultipleDevices : Code := str "MULTIPLE_DEVICES".
Definition CodeDeviceNotFound : Code := str "DEVICE_NOT_FOUND".
Definition CodePortConflict : Code := str "PORT_CONFLICT".
Definition CodeRPortFailed : Code := str "RPORT_FAILED".
Definition CodeHandshakeTimeout : Code := str "HANDSHAKE_TIMEOUT".
Definition CodeVersionUnsupported : Code := str "VERSION_UNSUPPORTED".
Definition CodeAppDisconnected : Code := str "APP_DISCONNECTED".
Definition CodeVPNDenied : Code := str "VPN_DENIED".
Definition CodeVPNAlreadyActive : Code := str "VPN_ALREADY_ACTIVE".
Definition CodeVPNCreateFailed : Code := str "VPN_CREATE_FAILED".
Definition CodeVPNProtectFailed : Code := str "VPN_PROTECT_FAILED".
Definition CodeProxyUnavailable : Code := str "PROXY_UNAVAILABLE".
Definition CodeDaemonRunning : Code := str "DAEMON_ALREADY_RUNNING".
Definition CodeDaemonUnavailable : Code := str "DAEMON_UNAVAILABLE".
Definition CodeInternal : Code := str "INTERNAL_ERROR".

Definition New (code : Code) (message : gostring) : error := EApp code message None.

Definition Wrap (code : Code) (message : gostring) (err : option error) : error :=
  EApp code message err.

Definition Details (err : error) : Code * gostring :=
  match errors_As_App err with
  | Some cm => cm
  | None =>
      (CodeInternal,
       str "An unexpected error occurred. Check the HarmonyNetBridge log for details.")
  end.

(** A context added with [fmt.Errorf("...: %w", err)] never changes what the
    CLI reports. *)
Lemma Details_wrapf ctx e : Details (EWrapf ctx e) = Details e.
Proof. done. Qed.

(** The outermost application error decides, whatever it wraps. *)
Lemma Details_app code m c : Details (EApp code m c) = (code, m).
Proof. done. Qed.

End apperror.
