(* ===== verification/GoIO.v ===== *)
(** Byte streams as the program uses them: [io.Reader] through
    [io.ReadFull]/[bufio], [io.Writer] with short writes and errors. *)
From S2P Require Import Prelude Errors.

(** A reader is the bytes the peer will deliver followed by the error that
    ends the stream ([EOF], a deadline, a reset).  How the bytes are split
    into packets is invisible to [io.ReadFull]. *)
Record Reader := mkReader { r_data : list byte; r_end : error }.

(** [io.ReadFull(r, buf)] with [len(buf) = n]. *)
Definition ReadFull (r : Reader) (n : nat) : result error (list byte) * Reader :=
  if decide (n ≤ length (r_data r))%nat then
    (Ok (take n (r_data r)), mkReader (drop n (r_data r)) (r_end r))
  else
    (Err (match r_data r, r_end r with
          | _ :: _, ESentinel EOF => ESentinel ErrUnexpectedEOF
          | _, e => e
          end), mkReader [] (r_end r)).

(** [io.MultiReader(bytes.NewReader(prefix), r)] *)
Definition MultiReader (prefix : list byte) (r : Reader) : Reader :=
  mkReader (prefix ++ r_data r) (r_end r).

Lemma ReadFull_app p d e n :
  n = length p → ReadFull (mkReader (p ++ d) e) n = (Ok p, mkReader d e).
Proof.
  intros ->. unfold ReadFull. simpl. rewrite decide_True by (rewrite length_app; lia).
  by rewrite take_app_length, drop_app_length.
Qed.

Lemma ReadFull_ok r n b r' :
  ReadFull r n = (Ok b, r') →
  r_data r = b ++ r_data r' ∧ length b = n ∧ r_end r' = r_end r.
Proof.
  unfold ReadFull. case_decide; intros [= <- <-]. simpl.
  by rewrite take_drop, length_take_le by lia.
Qed.

(** After a failed [ReadFull] nothing is left to read. *)
Lemma ReadFull_err r n e r' : ReadFull r n = (Err e, r') → r_data r' = [].
Proof. unfold ReadFull. case_decide; by intros [= <- <-]. Qed.

(** A writer is what has reached the peer plus the outcomes of the coming
    [Write] calls: how many bytes are taken and the error returned.  With no
    planned outcome left a call takes everything. *)
Abbreviation WritePlan := (list (nat * option error)).

Record Writer := mkWriter { w_out : list byte; w_plan : WritePlan }.

Definition Write (w : Writer) (p : list byte) : nat * option error * Writer :=
  match w_plan w with
  | [] => (length p, None, mkWriter (w_out w ++ p) [])
  | (k, e) :: plan =>
      let n := Nat.min k (length p) in
      (n, e, mkWriter (w_out w ++ take n p) plan)
  end.

(** The write loop shared by [protocol.writeAll] and [control.Write]: repeat
    [Write] on the rest until it is empty, fail on an error or on a write
    that makes no progress.  Structural in the plan: each round uses up one
    outcome and the last one takes the rest. *)
Fixpoint write_rounds (out : list byte) (plan : WritePlan) (payload : list byte)
    : option error * Writer :=
  match payload, plan with
  | [], _ => (None, mkWriter out plan)
  | _ :: _, [] => (None, mkWriter (out ++ payload) [])
  | _ :: _, (k, e) :: plan' =>
      let written := Nat.min k (length payload) in
      match e with
      | Some err => (Some err, mkWriter (out ++ take written payload) plan')
      | None =>
          if decide (written = 0%nat) then
            (Some (ESentinel ErrShortWrite), mkWriter (out ++ take written payload) plan')
          else write_rounds (out ++ take written payload) plan' (drop written payload)
      end
  end.

Definition writeAll (w : Writer) (payload : list byte) : option error * Writer :=
  write_rounds (w_out w) (w_plan w) payload.

(** One round of the loop in terms of [Write]. *)
Lemma writeAll_round w payload :
  writeAll w payload =
    match payload with
    | [] => (None, w)
    | _ =>
        let '(written, err, w') := Write w payload in
        match err with
        | Some e => (Some e, w')
        | None =>
            if decide (written = 0%nat) then (Some (ESentinel ErrShortWrite), w')
            else writeAll w' (drop written payload)
        end
    end.
Proof.
  destruct w as [out plan]. unfold writeAll, Write. simpl.
  destruct payload as [|b p]; [by destruct plan|].
  destruct plan as [|[k e] plan]; simpl; [|by destruct e].
  by rewrite drop_all.
Qed.

Lemma write_rounds_spec plan out payload e w :
  write_rounds out plan payload = (e, w) →
  match e with
  | None => w_out w = out ++ payload
  | Some _ => ∃ n, (n ≤ length payload)%nat ∧ w_out w = out ++ take n payload
  end.
Proof.
  revert out payload. induction plan as [|[k oe] plan IH]; intros out [|b p]; simpl.
  - intros [= <- <-]. simpl. by rewrite app_nil_r.
  - by intros [= <- <-].
  - intros [= <- <-]. simpl. by rewrite app_nil_r.
  - destruct oe as [err|].
    + intros [= <- <-]. eexists (Nat.min k (length (b :: p))). split; [simpl; lia|done].
    + case_decide as Hz.
      * intros [= <- <-]. eexists (Nat.min k (length (b :: p))). split; [simpl; lia|done].
      * intros Hrec. apply IH in Hrec. revert Hrec. simpl.
        set (n := Nat.min k (S (length p))). destruct e.
        -- intros (m & Hm & ->). exists (n + m)%nat. rewrite length_drop in Hm. simpl in *.
           split; [lia|]. rewrite <-app_assoc. f_equal. by rewrite take_take_drop.
        -- intros ->. rewrite <-app_assoc. by rewrite take_drop.
Qed.

(** Success means the whole payload reached the peer, in order, whatever the
    pattern of short writes. *)
Lemma writeAll_ok w payload w' :
  writeAll w payload = (None, w') → w_out w' = w_out w ++ payload.
Proof. apply write_rounds_spec. Qed.

(** A failure leaves a prefix on the wire, never reordered bytes. *)
Lemma writeAll_err w payload e w' :
  writeAll w payload = (Some e, w') →
  ∃ n, (n ≤ length payload)%nat ∧ w_out w' = w_out w ++ take n payload.
Proof. apply write_rounds_spec. Qed.

Lemma writeAll_plain out payload :
  writeAll (mkWriter out []) payload = (None, mkWriter (out ++ payload) []).
Proof. unfold writeAll. simpl. destruct payload; simpl; by rewrite ?app_nil_r. Qed.
