(* ===== verification/GoStrings.v ===== *)
(** The part of Go's [strings], [strconv], [unicode/utf8] and [encoding/hex]
    the program uses, on byte strings.

    UTF-8 decoding, white space and the ASCII case rules are defined in full.
    The case tables of non-ASCII code points are a parameter ([Unicode]). *)
From S2P Require Import Prelude Errors.

(** * Characters *)

(** The byte of an ASCII character, for literals. *)
Definition chr (s : string) : byte :=
  match str s with b :: _ => b | [] => x00 end.

Definition in_range (lo hi v : Z) : bool := (lo <=? v) && (v <=? hi).

Definition is_digit (b : byte) : bool := in_range 48 57 (b2z b).
Definition is_lower (b : byte) : bool := in_range 97 122 (b2z b).
Definition is_upper (b : byte) : bool := in_range 65 90 (b2z b).

Definition lower_byte (b : byte) : byte := if is_upper b then z2b (b2z b + 32) else b.

Lemma lower_byte_idemp b : lower_byte (lower_byte b) = lower_byte b.
Proof. by destruct b. Qed.

Definition is_ascii (b : byte) : bool := b2z b <? 128.

Lemma lower_byte_ascii b : is_ascii (lower_byte b) = is_ascii b.
Proof. by destruct b. Qed.

(** * UTF-8 *)

Definition RuneError : Z := 65533.

Definition cont (b : byte) : bool := in_range 128 191 (b2z b).

(** Range of the second byte of a multi-byte sequence. *)
Definition second_ok (b0 b1 : byte) : bool :=
  let v := b2z b0 in
  if v =? 224 then in_range 160 191 (b2z b1)
  else if v =? 237 then in_range 128 159 (b2z b1)
  else if v =? 240 then in_range 144 191 (b2z b1)
  else if v =? 244 then in_range 128 143 (b2z b1)
  else cont b1.

(** The runes of a string, each with the bytes it came from; an invalid byte
    is [RuneError] with its one byte, as [range] over a Go string yields. *)
Fixpoint runes (s : gostring) : list (Z * list byte) :=
  match s with
  | [] => []
  | b0 :: s1 =>
      let v := b2z b0 in
      if v <? 128 then (v, [b0]) :: runes s1
      else
        match s1 with
        | b1 :: s2 =>
            if in_range 194 223 v && cont b1 then
              (Z.lor (Z.shiftl (Z.land v 31) 6) (Z.land (b2z b1) 63), [b0; b1]) :: runes s2
            else
              match s2 with
              | b2 :: s3 =>
                  if in_range 224 239 v && second_ok b0 b1 && cont b2 then
                    (Z.lor (Z.shiftl (Z.land v 15) 12)
                       (Z.lor (Z.shiftl (Z.land (b2z b1) 63) 6) (Z.land (b2z b2) 63)),
                     [b0; b1; b2]) :: runes s3
                  else
                    match s3 with
                    | b3 :: s4 =>
                        if in_range 240 244 v && second_ok b0 b1 && cont b2 && cont b3 then
                          (Z.lor (Z.shiftl (Z.land v 7) 18)
                             (Z.lor (Z.shiftl (Z.land (b2z b1) 63) 12)
                                (Z.lor (Z.shiftl (Z.land (b2z b2) 63) 6) (Z.land (b2z b3) 63))),
                           [b0; b1; b2; b3]) :: runes s4
                        else (RuneError, [b0]) :: runes s1
                    | [] => (RuneError, [b0]) :: runes s1
                    end
              | [] => (RuneError, [b0]) :: runes s1
              end
        | [] => (RuneError, [b0]) :: runes s1
        end
  end.

Definition rune_bytes (rs : list (Z * list byte)) : gostring := concat (map snd rs).

(** [utf8.AppendRune] *)
Definition encode_rune (r : Z) : list byte :=
  if in_range 0 127 r then [z2b r]
  else if in_range 128 2047 r then
    [z2b (Z.lor 192 (Z.shiftr r 6)); z2b (Z.lor 128 (Z.land r 63))]
  else if in_range 55296 57343 r || negb (in_range 0 1114111 r) then
    [z2b 239; z2b 191; z2b 189]
  else if in_range 2048 65535 r then
    [z2b (Z.lor 224 (Z.shiftr r 12)); z2b (Z.lor 128 (Z.land (Z.shiftr r 6) 63));
     z2b (Z.lor 128 (Z.land r 63))]
  else
    [z2b (Z.lor 240 (Z.shiftr r 18)); z2b (Z.lor 128 (Z.land (Z.shiftr r 12) 63));
     z2b (Z.lor 128 (Z.land (Z.shiftr r 6) 63)); z2b (Z.lor 128 (Z.land r 63))].

(** [unicode.IsSpace] *)
Definition IsSpace (r : Z) : bool :=
  in_range 9 13 r || (r =? 32) || (r =? 133) || (r =? 160) || (r =? 5760) ||
  in_range 8192 8202 r || (r =? 8232) || (r =? 8233) || (r =? 8239) ||
  (r =? 8287) || (r =? 12288).

(** The case tables of the [unicode] package above ASCII: the simple lower
    case of a code point, whether two distinct code points, one of them above
    ASCII, lie on one [SimpleFold] orbit, and [strconv.Quote] (the [%q] verb),
    which consults the table of printable code points. *)
Class Unicode := {
  uni_lower : Z → Z;
  uni_fold : Z → Z → bool;
  Quote : gostring → gostring;
}.

(** * [strings] *)

Definition HasPrefix (s p : gostring) : bool := bool_decide (p `prefix_of` s).
Definition HasSuffix (s p : gostring) : bool := bool_decide (p `suffix_of` s).

Definition TrimPrefix (s p : gostring) : gostring :=
  if HasPrefix s p then drop (length p) s else s.
Definition TrimSuffix (s p : gostring) : gostring :=
  if HasSuffix s p then take (length s - length p) s else s.

(** [strings.Index] *)
Fixpoint Index (s sep : gostring) : option nat :=
  if HasPrefix s sep then Some 0%nat
  else match s with [] => None | _ :: s' => S <$> Index s' sep end.

Definition Contains (s sub : gostring) : bool := bool_decide (is_Some (Index s sub)).

Definition IndexByte (s : gostring) (b : byte) : option nat := Index s [b].

Definition Cut (s sep : gostring) : gostring * gostring * bool :=
  match Index s sep with
  | Some i => (take i s, drop (i + length sep) s, true)
  | None => (s, [], false)
  end.

(** [strings.Split] on a one-byte separator: at least one segment. *)
Fixpoint Split (s : gostring) (sep : byte) : list gostring :=
  match s with
  | [] => [[]]
  | b :: s' =>
      if decide (b = sep) then [] :: Split s' sep
      else match Split s' sep with
           | seg :: rest => (b :: seg) :: rest
           | [] => [[b]]
           end
  end.

Fixpoint Join (segs : list gostring) (sep : gostring) : gostring :=
  match segs with
  | [] => []
  | [x] => x
  | x :: rest => x ++ sep ++ Join rest sep
  end.

Fixpoint drop_while {A} (f : A → bool) (l : list A) : list A :=
  match l with
  | [] => []
  | x :: l' => if f x then drop_while f l' else l
  end.

Definition trim_both {A} (f : A → bool) (l : list A) : list A :=
  reverse (drop_while f (reverse (drop_while f l))).

(** [strings.TrimSpace] *)
Definition TrimSpace (s : gostring) : gostring :=
  rune_bytes (trim_both (λ r, IsSpace r.1) (runes s)).

(** [strings.Trim] with a cutset of ASCII characters. *)
Definition Trim (s cutset : gostring) : gostring :=
  trim_both (λ b, bool_decide (b ∈ cutset)) s.

(** [strings.ContainsAny] with ASCII characters. *)
Definition ContainsAny (s chars : gostring) : bool :=
  existsb (λ b, bool_decide (b ∈ chars)) s.

(** [strings.Fields]: the maximal runs of non-space runes.  [cur] is the run
    being read. *)
Fixpoint fields_go (rs : list (Z * list byte)) (cur : list byte) : list gostring :=
  match rs with
  | [] => if decide (cur = []) then [] else [cur]
  | (r, raw) :: rs' =>
      if IsSpace r then
        if decide (cur = []) then fields_go rs' [] else cur :: fields_go rs' []
      else fields_go rs' (cur ++ raw)
  end.

Definition Fields (s : gostring) : list gostring := fields_go (runes s) [].

Definition lower_rune `{Unicode} (r : Z) : Z :=
  if r <? 128 then if in_range 65 90 r then r + 32 else r else uni_lower r.

(** [strings.ToLower] *)
Definition ToLower `{Unicode} (s : gostring) : gostring :=
  if forallb is_ascii s then map lower_byte s
  else concat (map (λ r, encode_rune (lower_rune r.1)) (runes s)).

Definition rune_fold_eq `{Unicode} (a b : Z) : bool :=
  (a =? b) ||
  (if (a <? 128) && (b <? 128) then
     (in_range 65 90 a && (b =? a + 32)) || (in_range 65 90 b && (a =? b + 32))
   else uni_fold a b).

(** [strings.EqualFold] *)
Definition EqualFold `{Unicode} (s t : gostring) : bool :=
  let fix go (xs ys : list (Z * list byte)) :=
    match xs, ys with
    | [], [] => true
    | (a, _) :: xs, (b, _) :: ys => rune_fold_eq a b && go xs ys
    | _, _ => false
    end
  in go (runes s) (runes t).

(** [strings.ReplaceAll]: left to right, without overlap; an empty pattern
    matches before every rune and at the end. *)
Fixpoint replace_go (fuel : nat) (s old new : gostring) : gostring :=
  match fuel with
  | O => s
  | S fuel =>
      match Index s old with
      | Some i => take i s ++ new ++ replace_go fuel (drop (i + length old) s) old new
      | None => s
      end
  end.

Definition ReplaceAll (s old new : gostring) : gostring :=
  if decide (old = []) then concat (map (λ r, new ++ r.2) (runes s)) ++ new
  else replace_go (S (length s)) s old new.

(** * [strconv] *)

Definition digit_val (b : byte) : Z := b2z b - 48.

Definition digits_val (acc : Z) (s : gostring) : Z :=
  foldl (λ a b, a * 10 + digit_val b) acc s.

(** A non-empty run of decimal digits. *)
Definition parse_digits (s : gostring) : option Z :=
  if bool_decide (s ≠ []) && forallb is_digit s then Some (digits_val 0 s) else None.

(** [strconv.ParseUint(s, 10, bits)] *)
Definition ParseUint (s : gostring) (bits : Z) : option Z :=
  match parse_digits s with
  | Some v => if v <? 2 ^ bits then Some v else None
  | None => None
  end.

(** [strconv.Atoi] on a 64-bit platform. *)
Definition Atoi (s : gostring) : option Z :=
  let '(neg, body) :=
    match s with
    | b :: s' =>
        if decide (b = chr "-") then (true, s')
        else if decide (b = chr "+") then (false, s') else (false, s)
    | [] => (false, s)
    end in
  match parse_digits body with
  | Some v =>
      let v := if neg : bool then - v else v in
      if in_range min_int64 max_int64 v then Some v else None
  | None => None
  end.

Fixpoint digits_go (fuel : nat) (n : Z) (acc : gostring) : gostring :=
  match fuel with
  | O => acc
  | S fuel =>
      let acc := z2b (48 + n mod 10) :: acc in
      if n <? 10 then acc else digits_go fuel (n / 10) acc
  end.

Definition utoa (n : Z) : gostring := digits_go (S (Z.to_nat (Z.log2 n))) n [].

(** [strconv.Itoa], and [%d] *)
Definition Itoa (n : Z) : gostring :=
  if n <? 0 then chr "-" :: utoa (- n) else utoa n.

(** * [encoding/hex], and [%02x] *)

Definition hex_digit (v : Z) : byte := if v <? 10 then z2b (48 + v) else z2b (87 + v).

Definition hex_byte (b : byte) : gostring :=
  [hex_digit (b2z b / 16); hex_digit (b2z b mod 16)].

(** [hex.EncodeToString] *)
Definition hex_encode (bs : list byte) : gostring := concat (map hex_byte bs).

Definition hex_val (b : byte) : option Z :=
  if is_digit b then Some (b2z b - 48)
  else if in_range 97 102 (b2z b) then Some (b2z b - 87)
  else if in_range 65 70 (b2z b) then Some (b2z b - 55)
  else None.

(** [hex.DecodeString] *)
Fixpoint hex_decode (s : gostring) : option (list byte) :=
  match s with
  | [] => Some []
  | a :: b :: s' =>
      match hex_val a, hex_val b, hex_decode s' with
      | Some x, Some y, Some rest => Some (z2b (x * 16 + y) :: rest)
      | _, _, _ => None
      end
  | _ => None
  end.

(** * Lemmas *)

Lemma in_range_spec lo hi v : in_range lo hi v = true ↔ lo ≤ v ≤ hi.
Proof. unfold in_range. rewrite andb_true_iff, !Z.leb_le. lia. Qed.

Lemma in_range_false lo hi v : in_range lo hi v = false ↔ v < lo ∨ hi < v.
Proof. unfold in_range. rewrite andb_false_iff, !Z.leb_gt. lia. Qed.

(** ** Decimal numbers *)

Lemma digits_val_app acc s t : digits_val acc (s ++ t) = digits_val (digits_val acc s) t.
Proof. apply foldl_app. Qed.

Lemma digit_val_z2b d : 0 ≤ d < 10 → digit_val (z2b (48 + d)) = d.
Proof. intros. unfold digit_val. rewrite b2z_z2b, Z.mod_small by lia. lia. Qed.

Lemma is_digit_z2b d : 0 ≤ d < 10 → is_digit (z2b (48 + d)) = true.
Proof.
  intros. unfold is_digit. rewrite b2z_z2b, Z.mod_small by lia. apply in_range_spec. lia.
Qed.

(** [digits_go] prepends the decimal digits of [n], given enough fuel. *)
Lemma digits_go_spec fuel n acc :
  0 ≤ n < 10 ^ Z.of_nat fuel → (0 < fuel)%nat →
  ∃ ds, digits_go fuel n acc = ds ++ acc ∧ ds ≠ [] ∧
        forallb is_digit ds = true ∧ digits_val 0 ds = n.
Proof.
  revert n acc. induction fuel as [|fuel IH]; intros n acc Hn Hf; [lia|].
  cbn [digits_go]. pose proof (Z.mod_pos_bound n 10 ltac:(lia)).
  destruct (Z.ltb_spec n 10).
  - exists [z2b (48 + n mod 10)]. repeat split; [done| |].
    + simpl. by rewrite is_digit_z2b by lia.
    + cbn. rewrite digit_val_z2b, Z.mod_small by lia. lia.
  - destruct (IH (n / 10) (z2b (48 + n mod 10) :: acc)) as (ds & -> & Hne & Hd & Hv).
    + rewrite Nat2Z.inj_succ, Z.pow_succ_r in Hn by lia.
      split; [apply Z.div_pos; lia|apply Z.div_lt_upper_bound; lia].
    + destruct fuel; [simpl in Hn; lia|lia].
    + exists (ds ++ [z2b (48 + n mod 10)]). rewrite <-app_assoc. repeat split.
      * by destruct ds.
      * rewrite forallb_app, Hd. simpl. by rewrite is_digit_z2b by lia.
      * rewrite digits_val_app, Hv. cbn. rewrite digit_val_z2b by lia.
        pose proof (Z.div_mod n 10). lia.
Qed.

Lemma utoa_spec n :
  0 ≤ n → utoa n ≠ [] ∧ forallb is_digit (utoa n) = true ∧ digits_val 0 (utoa n) = n.
Proof.
  intros Hn. unfold utoa.
  destruct (digits_go_spec (S (Z.to_nat (Z.log2 n))) n []) as (ds & E & ? & ? & ?); [|lia|].
  - split; [lia|]. rewrite Nat2Z.inj_succ, Z2Nat.id by apply Z.log2_nonneg.
    destruct (Z.eqb_spec n 0) as [->|]; [by cbv|].
    eapply Z.lt_le_trans; [apply Z.log2_spec; lia|].
    apply Z.pow_le_mono_l. lia.
  - rewrite app_nil_r in E. by rewrite E.
Qed.

Lemma parse_digits_utoa n : 0 ≤ n → parse_digits (utoa n) = Some n.
Proof.
  intros Hn. destruct (utoa_spec n Hn) as (? & Hd & Hv). unfold parse_digits.
  rewrite bool_decide_true by done. simpl. by rewrite Hd, Hv.
Qed.

Lemma digit_not_sign b : is_digit b = true → b ≠ chr "-" ∧ b ≠ chr "+".
Proof. by destruct b. Qed.

Lemma Atoi_Itoa n : min_int64 ≤ n ≤ max_int64 → Atoi (Itoa n) = Some n.
Proof.
  intros Hn. unfold Itoa, Atoi. destruct (Z.ltb_spec n 0).
  - rewrite decide_True by done. rewrite parse_digits_utoa by lia.
    rewrite Z.opp_involutive. by rewrite (proj2 (in_range_spec _ _ _)) by lia.
  - destruct (utoa_spec n) as (Hne & Hd & _); [lia|].
    pose proof (parse_digits_utoa n ltac:(lia)) as Hp.
    destruct (utoa n) as [|b t]; [done|]. simpl in Hd. apply andb_true_iff in Hd as [Hd _].
    apply digit_not_sign in Hd as [? ?]. rewrite !decide_False by done.
    rewrite Hp. by rewrite (proj2 (in_range_spec _ _ _)) by lia.
Qed.

Lemma ParseUint_Itoa n bits : 0 ≤ n < 2 ^ bits → ParseUint (Itoa n) bits = Some n.
Proof.
  intros. unfold ParseUint, Itoa. destruct (Z.ltb_spec n 0); [lia|].
  rewrite parse_digits_utoa by lia. by destruct (Z.ltb_spec n (2 ^ bits)); [|lia].
Qed.

Lemma Atoi_range s n : Atoi s = Some n → min_int64 ≤ n ≤ max_int64.
Proof.
  unfold Atoi. intros H. repeat case_match; simplify_eq; by apply in_range_spec.
Qed.

(** Decimal rendering is injective, so equal port texts are equal ports. *)
Lemma Itoa_inj m n :
  min_int64 ≤ m ≤ max_int64 → min_int64 ≤ n ≤ max_int64 → Itoa m = Itoa n → m = n.
Proof. intros Hm Hn E. apply Atoi_Itoa in Hm, Hn. rewrite E in Hm. congruence. Qed.

(** ** Hexadecimal *)

Lemma length_hex_encode bs : length (hex_encode bs) = (2 * length bs)%nat.
Proof. induction bs as [|b bs IH]; [done|]. unfold hex_encode in *. simpl in *. lia. Qed.

Lemma hex_decode_encode bs : hex_decode (hex_encode bs) = Some bs.
Proof.
  induction bs as [|b bs IH]; [done|].
  unfold hex_encode in *. cbn [map concat hex_byte app hex_decode]. rewrite IH.
  by destruct b.
Qed.

Definition lower_hex (b : byte) : bool := is_digit b || in_range 97 102 (b2z b).

Lemma hex_encode_lower bs : forallb lower_hex (hex_encode bs) = true.
Proof.
  induction bs as [|b bs IH]; [done|].
  unfold hex_encode in *. cbn [map concat hex_byte app forallb]. rewrite IH. by destruct b.
Qed.

Lemma lower_hex_ascii b : lower_hex b = true → is_ascii b = true.
Proof. by destruct b. Qed.

(** ** UTF-8 and ASCII *)

Lemma runes_ascii s :
  forallb is_ascii s = true → runes s = map (λ b, (b2z b, [b])) s.
Proof.
  induction s as [|b s IH]; [done|]. cbn [forallb]. intros [Hb Hs]%andb_true_iff.
  cbn [runes map]. unfold is_ascii in Hb. rewrite Hb. by rewrite IH.
Qed.

(** Decoding loses no byte. *)
Lemma rune_bytes_runes s : rune_bytes (runes s) = s.
Proof.
  induction s as [s IH] using (induction_ltof1 _ (@length byte)). unfold ltof in IH.
  destruct s as [|b0 s1]; [done|]. cbn [runes]. unfold rune_bytes in *.
  repeat case_match; subst; cbn [map concat snd app];
    rewrite IH by (simpl; lia); done.
Qed.

(** ** Search *)

Lemma Index_Some s sep i :
  Index s sep = Some i → s = take i s ++ sep ++ drop (i + length sep) s.
Proof.
  revert i. induction s as [|b s IH]; intros i; cbn [Index]; unfold HasPrefix; case_bool_decide as Hp.
  - intros [= <-]. destruct Hp as [k Hk]. apply (f_equal length) in Hk as Hl.
    rewrite length_app in Hl. simpl in Hl. destruct sep; [done|simpl in Hl; lia].
  - done.
  - intros [= <-]. destruct Hp as [k Hk]. rewrite Hk. simpl. by rewrite drop_app_length.
  - intros (j & Hj & ->)%fmap_Some. simpl. f_equal. by apply IH.
Qed.

Lemma Index_None s sep a b : Index s sep = None → s ≠ a ++ sep ++ b.
Proof.
  revert a. induction s as [|c s IH]; intros a; cbn [Index]; unfold HasPrefix;
    case_bool_decide as Hp; try done; intros Hi E.
  - destruct a; [|done]. apply Hp. by exists b.
  - destruct a as [|x a].
    + apply Hp. by exists b.
    + simplify_eq/=. apply fmap_None in Hi. by eapply IH.
Qed.

Lemma Contains_spec s sub : Contains s sub = true ↔ ∃ a b, s = a ++ sub ++ b.
Proof.
  unfold Contains. rewrite bool_decide_eq_true. split.
  - intros [i Hi]. eauto using Index_Some.
  - intros (a & b & E). destruct (Index s sub) eqn:Ei; [done|].
    by apply (Index_None _ _ a b) in Ei.
Qed.

(** ** Split and Join *)

Lemma Split_nonempty s sep : Split s sep ≠ [].
Proof. destruct s; simpl; [done|]. repeat case_match; done. Qed.

Lemma Join_Split s sep : Join (Split s sep) [sep] = s.
Proof.
  induction s as [|b s IH]; [done|]. cbn [Split]. pose proof (Split_nonempty s sep) as Hne.
  case_decide; subst.
  - destruct (Split s sep) as [|seg rest]; [done|]. cbn [Join app]. by rewrite <-IH.
  - destruct (Split s sep) as [|seg rest]; [done|]. cbn [Join] in *.
    destruct rest; simpl in *; by rewrite <-IH.
Qed.

Lemma Split_no_sep s sep : Forall (λ seg, sep ∉ seg) (Split s sep).
Proof.
  induction s as [|b s IH]; simpl.
  - constructor; [set_solver|constructor].
  - case_decide; [constructor; [set_solver|done]|].
    destruct (Split s sep) as [|seg rest]; [repeat constructor; set_solver|].
    inversion IH; subst. constructor; [set_solver|done].
Qed.

(** ** Trimming *)

Lemma drop_while_head {A} (f : A → bool) l x k : drop_while f l = x :: k → f x = false.
Proof. induction l as [|y l IH]; simpl; [done|]. case_match; [done|]. congruence. Qed.

Lemma drop_while_id {A} (f : A → bool) x l : f x = false → drop_while f (x :: l) = x :: l.
Proof. simpl. by intros ->. Qed.

Lemma drop_while_suffix {A} (f : A → bool) l : drop_while f l `suffix_of` l.
Proof.
  induction l as [|x l IH]; simpl; [done|]. case_match; [by apply suffix_cons_r|done].
Qed.

(** A code point read from a non-ASCII first byte is not ASCII. *)
Lemma lor_ge_128 a b : 0 ≤ a → 0 ≤ b → 128 ≤ a ∨ 128 ≤ b → 128 ≤ Z.lor a b.
Proof.
  intros Ha Hb Hor. assert (0 < Z.lor a b).
  { assert (0 ≤ Z.lor a b) by (by apply Z.lor_nonneg).
    destruct (Z.eqb_spec (Z.lor a b) 0) as [E|]; [|lia].
    apply Z.lor_eq_0_iff in E. lia. }
  apply (Z.log2_le_pow2 _ 7); [done|]. rewrite Z.log2_lor by done.
  destruct Hor; [apply Z.max_le_iff; left|apply Z.max_le_iff; right];
    apply Z.log2_le_pow2; lia.
Qed.

Lemma land_shiftl_nonneg a m k : 0 ≤ m → 0 ≤ Z.shiftl (Z.land a m) k.
Proof. intros. apply Z.shiftl_nonneg, Z.land_nonneg. by right. Qed.

Lemma two_byte_ge b0 : in_range 194 223 (b2z b0) = true → 128 ≤ Z.shiftl (Z.land (b2z b0) 31) 6.
Proof. destruct b0; vm_compute; congruence. Qed.

Lemma three_byte_ge b0 b1 :
  in_range 224 239 (b2z b0) = true → second_ok b0 b1 = true →
  128 ≤ Z.shiftl (Z.land (b2z b0) 15) 12 ∨ 128 ≤ Z.shiftl (Z.land (b2z b1) 63) 6.
Proof.
  intros H0 H1. destruct (decide (b0 = xe0)) as [->|Hne].
  - right. revert H1. clear. destruct b1; vm_compute; congruence.
  - left. revert H0 Hne. clear. destruct b0; vm_compute; congruence.
Qed.

Lemma four_byte_ge b0 b1 :
  in_range 240 244 (b2z b0) = true → second_ok b0 b1 = true →
  128 ≤ Z.shiftl (Z.land (b2z b0) 7) 18 ∨ 128 ≤ Z.shiftl (Z.land (b2z b1) 63) 12.
Proof.
  intros H0 H1. destruct (decide (b0 = xf0)) as [->|Hne].
  - right. revert H1. clear. destruct b1; vm_compute; congruence.
  - left. revert H0 Hne. clear. destruct b0; vm_compute; congruence.
Qed.

Ltac rune_nonneg :=
  repeat first [ apply land_shiftl_nonneg; lia | apply Z.land_nonneg; right; lia
               | apply Z.lor_nonneg; split ].

Lemma runes_nonascii b0 s1 :
  is_ascii b0 = false → ∃ r raw rest, runes (b0 :: s1) = (r, raw) :: rest ∧ 128 ≤ r.
Proof.
  unfold is_ascii. intros Hb. cbn [runes]. rewrite Hb.
  repeat case_match; bool_to_prop; (eexists _, _, _; split; [reflexivity|]);
    try (unfold RuneError; lia).
  - apply lor_ge_128; [rune_nonneg..|]. left. by apply two_byte_ge.
  - apply lor_ge_128; [rune_nonneg..|].
    edestruct three_byte_ge; [done|done|by left|right].
    apply lor_ge_128; [rune_nonneg..|by left].
  - apply lor_ge_128; [rune_nonneg..|].
    edestruct four_byte_ge; [done|done|by left|right].
    apply lor_ge_128; [rune_nonneg..|by left].
Qed.

(** ** Trimming keeps rune boundaries *)

Lemma runes_take n s : runes (rune_bytes (take n (runes s))) = take n (runes s).
Proof.
  revert n. induction s as [s IH] using (induction_ltof1 _ (@length byte)). unfold ltof in IH.
  intros [|n]; [done|]. destruct s as [|b0 s1]; [done|].
  assert (Hq : ∀ rest, (length rest < length (b0 :: s1))%nat → ∃ q q',
    rest = q ++ q' ∧ rune_bytes (take n (runes rest)) = q ∧ runes q = take n (runes rest)).
  { intros rest Hl. exists (rune_bytes (take n (runes rest))), (rune_bytes (drop n (runes rest))).
    split_and!; [|done|by apply IH]. unfold rune_bytes. rewrite <-concat_app, <-map_app, take_drop.
    symmetry. apply rune_bytes_runes. }
  cbn [runes]. destruct (b2z b0 <? 128) eqn:E0.
  { cbn [take]. unfold rune_bytes. cbn [map concat snd app]. fold (rune_bytes (take n (runes s1))).
    destruct (Hq s1) as (q & q' & _ & -> & <-); [cbn; lia|]. cbn [runes]. by rewrite E0. }
  repeat case_match; subst; cbn [take]; unfold rune_bytes; cbn [map concat snd app];
    match goal with |- context [runes ?rest] =>
      fold (rune_bytes (take n (runes rest)));
      destruct (Hq rest) as (q & q' & Eq & -> & <-); [cbn; lia|] end;
    cbn [runes]; rewrite E0;
    try (repeat match goal with H : (_ && _) = _ |- _ => rewrite H end; done);
    destruct q as [|c1 [|c2 [|c3 q]]]; cbn [app] in Eq; simplify_eq; try done;
    repeat match goal with H : (_ && _) = _ |- _ => rewrite H end; try done;
    repeat case_match; congruence.
Qed.

Lemma runes_drop n s : ∃ s', drop n (runes s) = runes s'.
Proof.
  revert s. induction n as [|n IH]; intros s; [by exists s|].
  destruct s as [|b0 s1]; [by exists []|]. cbn [runes].
  repeat case_match; subst; cbn [drop]; apply IH.
Qed.

Lemma drop_while_drop {A} (f : A → bool) l : ∃ n, drop_while f l = drop n l.
Proof.
  induction l as [|x l [n IH]]; [by exists 0%nat|]. cbn [drop_while].
  destruct (f x); [by exists (S n)|by exists 0%nat].
Qed.

Lemma trim_both_take {A} (f : A → bool) l : ∃ m n, trim_both f l = take n (drop m l).
Proof.
  unfold trim_both. destruct (drop_while_drop f l) as [m ->].
  destruct (drop_while_drop f (reverse (drop m l))) as [k ->].
  exists m, (length (drop m l) - k)%nat.
  by rewrite drop_reverse, reverse_involutive.
Qed.

Lemma runes_TrimSpace s : runes (TrimSpace s) = trim_both (λ r, IsSpace r.1) (runes s).
Proof.
  unfold TrimSpace. destruct (trim_both_take (λ r : Z * list byte, IsSpace r.1) (runes s)) as (m & n & ->).
  destruct (runes_drop m s) as [s' ->]. apply runes_take.
Qed.

Lemma trim_both_head {A} (f : A → bool) l : trim_both f l ≠ [] → ∃ x k, trim_both f l = x :: k ∧ f x = false.
Proof.
  unfold trim_both. intros Hne. destruct (drop_while f l) as [|x l'] eqn:E; [done|].
  apply drop_while_head in E as Hx. rewrite reverse_cons in *.
  assert (∀ r, ∃ p, drop_while f (r ++ [x]) = p ++ [x]) as Hs.
  { induction r as [|y r [p IH]]; cbn [app drop_while]; [exists []; by rewrite Hx|].
    destruct (f y); [by exists p|by exists (y :: r)]. }
  destruct (Hs (reverse l')) as [p ->]. rewrite reverse_snoc. eauto.
Qed.

Lemma drop_while_snoc {A} (f : A → bool) l x : f x = false → ∃ k, drop_while f (l ++ [x]) = k ++ [x].
Proof.
  intros Hx. induction l as [|y l [k IH]]; cbn [app drop_while].
  - rewrite Hx. by exists [].
  - destruct (f y); [by exists k|by exists (y :: l)].
Qed.

Lemma trim_both_cons {A} (f : A → bool) x l : f x = false → ∃ k, trim_both f (x :: l) = x :: k.
Proof.
  intros Hx. unfold trim_both. rewrite drop_while_id by done. rewrite reverse_cons.
  destruct (drop_while_snoc f (reverse l) x Hx) as [k ->]. exists (reverse k). apply reverse_snoc.
Qed.

Lemma fields_go_cur rs cur : cur ≠ [] → fields_go rs cur ≠ [].
Proof.
  revert cur. induction rs as [|[r raw] rs IH]; intros cur Hc; cbn [fields_go].
  - by rewrite decide_False.
  - destruct (IsSpace r); [by rewrite decide_False|]. apply IH. by destruct cur.
Qed.

Lemma runes_raw s : Forall (λ r, r.2 ≠ []) (runes s).
Proof.
  induction s as [s IH] using (induction_ltof1 _ (@length byte)). unfold ltof in IH.
  destruct s as [|b0 s1]; [constructor|]. cbn [runes].
  repeat case_match; subst; constructor; try done; apply IH; cbn; lia.
Qed.

(** A trimmed non-empty string has a field. *)
Lemma Fields_TrimSpace s : TrimSpace s ≠ [] → Fields (TrimSpace s) ≠ [].
Proof.
  intros Hne. unfold Fields. pose proof (runes_raw (TrimSpace s)) as Hraw. revert Hraw.
  rewrite runes_TrimSpace. destruct (trim_both_head (λ r : Z * list byte, IsSpace r.1) (runes s)) as ([r raw] & k & E & Hr).
  { intros E. apply Hne. unfold TrimSpace. by rewrite E. }
  rewrite E. intros [Hw _]%Forall_cons. cbn [fields_go]. cbn in Hr, Hw. rewrite Hr. by apply fields_go_cur.
Qed.

(** ASCII-only case tables, for evaluating the definitions on samples. *)
Definition ascii_unicode : Unicode := {|
  uni_lower r := r; uni_fold _ _ := false; Quote s := str "'" ++ s ++ str "'" |}.
