(* ===== verification/Protocol.v ===== *)
(** The HNB/1 framed transport (src/internal/protocol/protocol.go).

    A frame is a 16-byte big-endian header and a payload.  [WriteFrame] and
    [ReadFrame] are the code's functions over the byte streams of [GoIO];
    JSON payloads go through the interface [JSON]. *)
From S2P Require Import Prelude Errors GoIO GoStrings.

Module protocol.

Definition HeaderSize : nat := 16.
Definition CurrentVersion : Z := 1.
Definition MaxControlPayload : Z := 16 * 1024.
Definition MaxPacketPayload : Z := 65535.

Definition magic : list byte := str "HNB1".

(** [type Type uint8] *)
Abbreviation Type_ := Z.

Definition TypeHello : Type_ := 0x01.
Definition TypeHelloAck : Type_ := 0x02.
Definition TypeError : Type_ := 0x03.
Definition TypeStopRequest : Type_ := 0x04.
Definition TypeStopAck : Type_ := 0x05.
Definition TypeDataHello : Type_ := 0x10.
Definition TypeDataAck : Type_ := 0x11.
Definition TypeVPNStatus : Type_ := 0x12.
Definition TypeIPPacket : Type_ := 0x20.
Definition TypePing : Type_ := 0x30.
Definition TypePong : Type_ := 0x31.

Record Frame := mkFrame {
  Type' : Type_;
  Flags : Z;
  Sequence : Z;
  Payload : list byte;
}.

Definition ProtocolError (code message : gostring) : error := EProtocol code message.

(** * Control payloads *)

Record Hello := mkHello {
  Hello_Role : gostring;
  Hello_Mode : gostring;
  Hello_AppVersion : gostring;
  Hello_SupportedVersions : list Z;
  Hello_Capabilities : list gostring;
  Hello_Message : gostring;
}.

Record HelloAck := mkHelloAck {
  HelloAck_SelectedVersion : Z;
  HelloAck_SessionToken : gostring;
  HelloAck_Capabilities : list gostring;
  HelloAck_MTU : Z;
  HelloAck_Message : gostring;
}.

Record ErrorPayload := mkErrorPayload {
  ErrorPayload_Code : gostring;
  ErrorPayload_Message : gostring;
  ErrorPayload_Fatal : bool;
}.

Record StopRequest := mkStopRequest { StopRequest_Reason : gostring }.

Record DataHello := mkDataHello {
  DataHello_SessionToken : gostring;
  DataHello_Role : gostring;
}.

Record VPNStatusPayload := mkVPNStatusPayload {
  VPNStatus_State : gostring;
  VPNStatus_Message : gostring;
}.

(** [encoding/json] at one payload type. *)
Class JSON (A : Type) := {
  json_Marshal : A → result error (list byte);
  json_Unmarshal : list byte → result error A;
}.

Definition MarshalJSONPayload `{JSON A} (value : A) : result error (list byte) :=
  match json_Marshal value with
  | Err err => Err (EWrapf (str "encode control payload") err)
  | Ok payload =>
      if MaxControlPayload <? zlen payload then
        Err (ProtocolError (str "PAYLOAD_TOO_LARGE") (str "control payload exceeds 16 KiB"))
      else Ok payload
  end.

Definition UnmarshalJSONPayload `{JSON A} (payload : list byte) : result error A :=
  if MaxControlPayload <? zlen payload then
    Err (ProtocolError (str "PAYLOAD_TOO_LARGE") (str "control payload exceeds 16 KiB"))
  else
    match json_Unmarshal payload with
    | Err _ =>
        Err (ProtocolError (str "INVALID_JSON") (str "control payload is not valid JSON"))
    | Ok value => Ok value
    end.

Fixpoint SupportsVersion (versions : list Z) : bool :=
  match versions with
  | [] => false
  | candidate :: rest => if candidate =? CurrentVersion then true else SupportsVersion rest
  end.

(** * Session tokens *)

(** [rand] is the cryptographic random source. *)
Definition NewSessionToken (rand : Reader) : result error gostring * Reader :=
  match ReadFull rand 16 with
  | (Err err, rand') => (Err (EWrapf (str "generate session token") err), rand')
  | (Ok random, rand') => (Ok (hex_encode random), rand')
  end.

Definition token_rune_bad (character : Z) : bool :=
  ((character <? 48) || (57 <? character)) && ((character <? 97) || (102 <? character)).

Definition ValidSessionToken (token : gostring) : bool :=
  if negb (zlen token =? 32) then false
  else if existsb (λ r, token_rune_bad r.1) (runes token) then false
  else match hex_decode token with Some _ => true | None => false end.

(** * Frames *)

Definition knownType (t : Type_) : bool :=
  existsb (Z.eqb t)
    [TypeHello; TypeHelloAck; TypeError; TypeStopRequest; TypeStopAck;
     TypeDataHello; TypeDataAck; TypeVPNStatus; TypeIPPacket; TypePing; TypePong].

Definition validateLength (frameType : Type_) (length : Z) : option error :=
  let limit := if frameType =? TypeIPPacket then MaxPacketPayload else MaxControlPayload in
  if limit <? length then
    Some (ProtocolError (str "PAYLOAD_TOO_LARGE")
            (str "frame payload " ++ Itoa length ++ str " exceeds limit " ++ Itoa limit))
  else None.

Definition validateHeader (frameType : Type_) (flags sequence payloadLength : Z)
    : option error :=
  if negb (knownType frameType) then
    Some (ProtocolError (str "UNKNOWN_FRAME_TYPE")
            (str "unknown frame type 0x" ++ hex_byte (z2b frameType)))
  else if negb (flags =? 0) then
    Some (ProtocolError (str "INVALID_FLAGS") (str "HNB/1 flags must be zero"))
  else if sequence =? 0 then
    Some (ProtocolError (str "INVALID_SEQUENCE") (str "HNB/1 sequence zero is reserved"))
  else validateLength frameType payloadLength.

Definition validateFrame (frame : Frame) : option error :=
  validateHeader (Type' frame) (Flags frame) (Sequence frame) (u32 (zlen (Payload frame))).

(** The 16 bytes [WriteFrame] builds. *)
Definition frame_header (frame : Frame) : list byte :=
  magic ++ [z2b CurrentVersion; z2b (Type' frame)] ++ be_put 2 (Flags frame) ++
  be_put 4 (u32 (zlen (Payload frame))) ++ be_put 4 (Sequence frame).

Definition WriteFrame (writer : Writer) (frame : Frame) : option error * Writer :=
  match validateFrame frame with
  | Some err => (Some err, writer)
  | None =>
      match writeAll writer (frame_header frame) with
      | (Some err, writer) => (Some (EWrapf (str "write HNB header") err), writer)
      | (None, writer) =>
          match writeAll writer (Payload frame) with
          | (Some err, writer) => (Some (EWrapf (str "write HNB payload") err), writer)
          | (None, writer) => (None, writer)
          end
      end
  end.

Definition ReadFrame (reader : Reader) : result error Frame * Reader :=
  match ReadFull reader HeaderSize with
  | (Err err, reader) => (Err err, reader)
  | (Ok header, reader) =>
      if negb (streq (slice header 0 4) magic) then
        (Err (ProtocolError (str "INVALID_MAGIC") (str "frame magic is not HNB1")), reader)
      else if negb (be_get (slice header 4 5) =? CurrentVersion) then
        (Err (ProtocolError (str "VERSION_UNSUPPORTED")
                (str "unsupported HNB version " ++ Itoa (be_get (slice header 4 5)))), reader)
      else
        let frameType := be_get (slice header 5 6) in
        let flags := be_get (slice header 6 8) in
        let sequence := be_get (slice header 12 16) in
        let payloadLength := be_get (slice header 8 12) in
        match validateHeader frameType flags sequence payloadLength with
        | Some err => (Err err, reader)
        | None =>
            match ReadFull reader (Z.to_nat payloadLength) with
            | (Err err, reader) => (Err err, reader)
            | (Ok payload, reader) =>
                let frame := mkFrame frameType flags sequence payload in
                match validateFrame frame with
                | Some err => (Err err, reader)
                | None => (Ok frame, reader)
                end
            end
        end
  end.

(** * Theory *)

(** A [Frame] value of the Go type, with a payload below 4 GiB.  The last
    condition is not a range of the type: [validateFrame] converts the length
    to uint32 before it compares it, so a longer payload could pass; no caller
    builds one (packets are at most 65535 bytes, JSON payloads 16 KiB). *)
Record Frame_wf (f : Frame) : Prop := {
  wf_type : 0 ≤ Type' f < 2 ^ 8;
  wf_flags : 0 ≤ Flags f < 2 ^ 16;
  wf_sequence : 0 ≤ Sequence f < 2 ^ 32;
  wf_payload : zlen (Payload f) < 2 ^ 32;
}.

Definition encode (f : Frame) : list byte := frame_header f ++ Payload f.

Lemma validateLength_None t n :
  validateLength t n = None ↔
  n ≤ (if t =? TypeIPPacket then MaxPacketPayload else MaxControlPayload).
Proof. unfold validateLength. destruct (_ <? n) eqn:E; bool_to_prop; split; done || lia. Qed.

Lemma validateHeader_None t fl sq n :
  validateHeader t fl sq n = None ↔
  knownType t = true ∧ fl = 0 ∧ sq ≠ 0 ∧ validateLength t n = None.
Proof.
  unfold validateHeader. destruct (knownType t); simpl; [|naive_solver].
  destruct (Z.eqb_spec fl 0); simpl; [|naive_solver].
  destruct (Z.eqb_spec sq 0); simpl; naive_solver.
Qed.

Lemma knownType_range t : knownType t = true → 0 < t < 50.
Proof.
  unfold knownType. intros H. apply existsb_exists in H as (x & Hin & ->%Z.eqb_eq).
  simpl in Hin. unfold TypeHello, TypeHelloAck, TypeError, TypeStopRequest, TypeStopAck,
    TypeDataHello, TypeDataAck, TypeVPNStatus, TypeIPPacket, TypePing, TypePong in Hin.
  naive_solver lia.
Qed.

Lemma u32_zlen_range {A} (l : list A) : 0 ≤ u32 (zlen l) < 256 ^ 4.
Proof. apply u32_range. Qed.

Lemma length_frame_header f : length (frame_header f) = HeaderSize.
Proof. unfold frame_header. rewrite !length_app, !length_be_put. done. Qed.

(** The header fields as [ReadFrame] slices them. *)
Lemma frame_header_fields f :
  Frame_wf f →
  let h := frame_header f in
  slice h 0 4 = magic ∧ be_get (slice h 4 5) = CurrentVersion ∧
  be_get (slice h 5 6) = Type' f ∧ be_get (slice h 6 8) = Flags f ∧
  be_get (slice h 8 12) = zlen (Payload f) ∧ be_get (slice h 12 16) = Sequence f.
Proof.
  intros [Ht Hf Hs Hp] h. unfold h, frame_header.
  assert (Hu : u32 (zlen (Payload f)) = zlen (Payload f))
    by (apply u32_small; split; [apply zlen_nonneg|done]).
  repeat split; try done.
  - change (slice _ 5 6) with (be_put 1 (Type' f)). rewrite be_get_put.
    by apply Z.mod_small.
  - change (slice _ 6 8) with (be_put 2 (Flags f)). rewrite be_get_put. by apply Z.mod_small.
  - change (slice _ 8 12) with (be_put 4 (u32 (zlen (Payload f)))).
    rewrite be_get_put, Hu. apply Z.mod_small. split; [apply zlen_nonneg|done].
  - change (slice _ 12 16) with (be_put 4 (Sequence f)). rewrite be_get_put.
    by apply Z.mod_small.
Qed.

Lemma WriteFrame_ok w f w' :
  WriteFrame w f = (None, w') → validateFrame f = None ∧ w_out w' = w_out w ++ encode f.
Proof.
  unfold WriteFrame. destruct (validateFrame f) eqn:Hv; [done|].
  destruct (writeAll w _) as [[err|] w1] eqn:E1; [done|].
  destruct (writeAll w1 _) as [[err|] w2] eqn:E2; [done|]. intros [= <-].
  apply writeAll_ok in E1, E2. split; [done|].
  rewrite E2, E1. unfold encode. by rewrite app_assoc.
Qed.

Lemma WriteFrame_plain out f :
  validateFrame f = None →
  WriteFrame (mkWriter out []) f = (None, mkWriter (out ++ encode f) []).
Proof.
  intros Hv. unfold WriteFrame. rewrite Hv, !writeAll_plain.
  unfold encode. by rewrite app_assoc.
Qed.

Lemma validateFrame_header f :
  Frame_wf f → validateFrame f =
    validateHeader (Type' f) (Flags f) (Sequence f) (zlen (Payload f)).
Proof.
  intros []. unfold validateFrame. rewrite u32_small; [done|].
  split; [apply zlen_nonneg|done].
Qed.

(** [ReadFrame] on the encoding of a valid frame, whatever follows it. *)
Lemma ReadFrame_encode f rest e :
  Frame_wf f → validateFrame f = None →
  ReadFrame (mkReader (encode f ++ rest) e) = (Ok f, mkReader rest e).
Proof.
  intros Hwf Hv. unfold ReadFrame, encode.
  rewrite <-app_assoc, ReadFull_app by by rewrite length_frame_header.
  destruct (frame_header_fields f Hwf) as (-> & -> & -> & -> & -> & ->).
  rewrite bool_decide_true, Z.eqb_refl by done. cbn [negb].
  rewrite <-validateFrame_header, Hv by done.
  rewrite ReadFull_app by (unfold zlen; lia).
  destruct f as [t fl sq p]. cbn [Type' Flags Sequence Payload] in *. by rewrite Hv.
Qed.

(** C16: frame round trip.  Whatever pattern of short writes the connection
    shows, a frame [WriteFrame] reports as written is read back by
    [ReadFrame] as the same frame, and the bytes after it are untouched. *)
Theorem WriteFrame_ReadFrame w f w' rest e :
  Frame_wf f → WriteFrame w f = (None, w') →
  ∃ sent, w_out w' = w_out w ++ sent ∧
          ReadFrame (mkReader (sent ++ rest) e) = (Ok f, mkReader rest e).
Proof.
  intros Hwf [Hv Hout]%WriteFrame_ok. exists (encode f). eauto using ReadFrame_encode.
Qed.

Definition sample_frame : Frame := mkFrame TypePing 0 7 (str "nonce-08").

(** The sample frame over a connection that takes five bytes, then nine, then
    the rest. *)
Lemma WriteFrame_ReadFrame_witness :
  ∃ sent, w_out (snd (WriteFrame (mkWriter [] [(5%nat, None); (9%nat, None)]) sample_frame))
            = [] ++ sent ∧
          ReadFrame (mkReader (sent ++ str "tail") (ESentinel EOF))
            = (Ok sample_frame, mkReader (str "tail") (ESentinel EOF)).
Proof.
  apply (WriteFrame_ReadFrame (mkWriter [] [(5%nat, None); (9%nat, None)])).
  - split; vm_compute; intuition congruence.
  - vm_compute. reflexivity.
Defined.

(** The cases of a successful [ReadFrame]. *)
Lemma ReadFrame_ok_inv r f r' :
  ReadFrame r = (Ok f, r') →
  ∃ h, ReadFull r HeaderSize = (Ok h, mkReader (Payload f ++ r_data r') (r_end r')) ∧
    slice h 0 4 = magic ∧ be_get (slice h 4 5) = CurrentVersion ∧
    be_get (slice h 5 6) = Type' f ∧ be_get (slice h 6 8) = Flags f ∧
    be_get (slice h 8 12) = zlen (Payload f) ∧ be_get (slice h 12 16) = Sequence f ∧
    validateFrame f = None.
Proof.
  unfold ReadFrame. destruct (ReadFull r HeaderSize) as [[h|e] r1] eqn:E1; [|done].
  case_match eqn:Hm; [done|]. case_match eqn:Hver; [done|]. cbv zeta.
  destruct (validateHeader _ _ _ _) eqn:Hh; [done|].
  destruct (ReadFull r1 _) as [[p|e] r2] eqn:E2; [|done].
  destruct (validateFrame _) eqn:Hv; [done|]. intros [= <- <-].
  apply ReadFull_ok in E2 as (Hd & Hl & He). bool_to_prop.
  exists h. cbn [Type' Flags Sequence Payload]. repeat split; try done.
  - rewrite <-Hd, He. by destruct r1.
  - unfold zlen. rewrite Hl. pose proof (be_get_range (slice h 8 12)). lia.
Qed.

Lemma slice_range_be (h : list byte) lo hi :
  (hi ≤ length h)%nat → (lo ≤ hi)%nat →
  0 ≤ be_get (slice h lo hi) < 256 ^ (Z.of_nat hi - Z.of_nat lo).
Proof.
  intros. pose proof (be_get_range (slice h lo hi)) as Hr. unfold zlen in Hr.
  rewrite length_slice in Hr by done. by rewrite Nat2Z.inj_sub in Hr by done.
Qed.

Lemma slice_be_put (h : list byte) lo hi n :
  (hi ≤ length h)%nat → (lo ≤ hi)%nat → n = (hi - lo)%nat →
  slice h lo hi = be_put n (be_get (slice h lo hi)).
Proof. intros. rewrite be_put_get; [done|]. by rewrite length_slice. Qed.

(** A 16-byte header is determined by its six fields. *)
Lemma header_split (h : list byte) :
  length h = HeaderSize →
  h = slice h 0 4 ++ slice h 4 5 ++ slice h 5 6 ++ slice h 6 8 ++ slice h 8 12 ++ slice h 12 16.
Proof.
  unfold HeaderSize. intros H.
  do 16 (destruct h as [|? h]; [discriminate H|]). destruct h; [done|discriminate H].
Qed.

(** What was read is the encoding of the frame. *)
Lemma ReadFrame_encoded r f r' :
  ReadFrame r = (Ok f, r') → Frame_wf f ∧ validateFrame f = None ∧ r_data r = encode f ++ r_data r'.
Proof.
  intros (h & E & Hm & Hver & Ht & Hf & Hp & Hs & Hv)%ReadFrame_ok_inv.
  apply ReadFull_ok in E as (Hd & Hl & _). simpl in Hd. unfold HeaderSize in Hl.
  assert (Hwf : Frame_wf f).
  { split.
    - rewrite <-Ht. apply (slice_range_be h 5 6); lia.
    - rewrite <-Hf. apply (slice_range_be h 6 8); lia.
    - rewrite <-Hs. apply (slice_range_be h 12 16); lia.
    - rewrite <-Hp. apply (slice_range_be h 8 12); lia. }
  split_and!; [done|done|].
  rewrite Hd. unfold encode, frame_header. rewrite <-!app_assoc.
  rewrite u32_small by (split; [apply zlen_nonneg|apply Hwf]).
  rewrite (header_split h Hl), Hm, <-Hf, <-Hp, <-Hs, <-!app_assoc.
  rewrite <-!slice_be_put by lia.
  rewrite (slice_be_put h 4 5 1), Hver, (slice_be_put h 5 6 1), Ht by lia.
  done.
Qed.

(** The sample frame followed by another byte string. *)
(** C17: the reader is canonical.  A frame [ReadFrame] accepts is well formed
    and valid, the bytes consumed are exactly the ones [WriteFrame] sends for
    it, and so no two different byte strings decode to one frame. *)
Theorem ReadFrame_canonical r f r' :
  ReadFrame r = (Ok f, r') →
  Frame_wf f ∧ validateFrame f = None ∧
  ∃ sent, r_data r = sent ++ r_data r' ∧
          WriteFrame (mkWriter [] []) f = (None, mkWriter sent []).
Proof.
  intros (Hwf & Hv & Hd)%ReadFrame_encoded. split_and!; [done|done|]. exists (encode f).
  split; [done|by apply WriteFrame_plain].
Qed.

Lemma ReadFrame_canonical_witness :
  Frame_wf sample_frame ∧ validateFrame sample_frame = None ∧
  ∃ sent, encode sample_frame ++ str "x" = sent ++ str "x" ∧
          WriteFrame (mkWriter [] []) sample_frame = (None, mkWriter sent []).
Proof.
  apply (ReadFrame_canonical (mkReader (encode sample_frame ++ str "x") (ESentinel EOF))
           sample_frame (mkReader (str "x") (ESentinel EOF))).
  vm_compute. reflexivity.
Defined.

(** The limit [validateLength] applies. *)
Definition payload_limit (t : Type_) : Z :=
  if t =? TypeIPPacket then MaxPacketPayload else MaxControlPayload.

(** The validation after the payload repeats the one before it. *)
Lemma validateFrame_announced t fl sq p n :
  0 ≤ n < 2 ^ 32 → length p = Z.to_nat n →
  validateFrame (mkFrame t fl sq p) = validateHeader t fl sq n.
Proof.
  intros Hn Hl. unfold validateFrame. cbn [Type' Flags Sequence Payload].
  f_equal. unfold zlen. rewrite Hl, Z2Nat.id by lia. by apply u32_small.
Qed.

(** Malformed input is refused on the header alone.  If sixteen bytes are
    there and [ReadFrame] fails, then either it reports a protocol error
    having consumed only the header (no payload was allocated or skipped, and
    no resynchronisation was tried), or the header was acceptable, announced
    a payload within the limit of its type, and the stream ended inside it. *)
Theorem ReadFrame_rejects_on_header r e r' :
  (HeaderSize ≤ length (r_data r))%nat → ReadFrame r = (Err e, r') →
  (∃ code message, e = EProtocol code message ∧ r_data r' = drop HeaderSize (r_data r)) ∨
  (∃ t announced, 0 ≤ announced ≤ payload_limit t ∧
     zlen (r_data r) < Z.of_nat HeaderSize + announced ∧ r_data r' = [] ∧
     (e = r_end r ∨ e = ESentinel ErrUnexpectedEOF)).
Proof.
  intros Hlen. unfold ReadFrame. unfold ReadFull at 1. rewrite decide_True by done.
  set (h := take HeaderSize (r_data r)).
  destruct (negb (streq (slice h 0 4) magic)); [intros [= <- <-]; left; by eauto|].
  case_match; [intros [= <- <-]; left; by eauto|]. cbv zeta.
  destruct (validateHeader _ _ _ _) as [e1|] eqn:Hh.
  { intros [= <- <-]. left. unfold validateHeader, validateLength in Hh.
    repeat case_match; simplify_eq; by eauto. }
  assert (Hn := Hh). apply validateHeader_None in Hn as (_ & _ & _ & Hn%validateLength_None).
  assert (Hr : 0 ≤ be_get (slice h 8 12) < 2 ^ 32).
  { apply (slice_range_be h 8 12); [|lia]. unfold h. rewrite length_take_le by done. unfold HeaderSize. lia. }
  unfold ReadFull. cbn [r_data r_end]. case_decide as Hd.
  - rewrite (validateFrame_announced _ _ _ _ (be_get (slice h 8 12))), Hh;
      [done|done|by rewrite length_take_le by lia].
  - intros [= <- <-]. right. eexists _, _. split; [split; [apply Hr|exact Hn]|].
    rewrite length_drop in Hd. unfold zlen. split; [lia|]. split; [done|].
    repeat case_match; simpl; auto.
Qed.

Lemma ReadFrame_rejects_on_header_witness :
  (∃ code message, EProtocol (str "INVALID_SEQUENCE") (str "HNB/1 sequence zero is reserved")
       = EProtocol code message ∧ str "rest" = drop HeaderSize
           (encode (mkFrame TypePing 0 0 []) ++ str "rest")) ∨
  (∃ t announced, 0 ≤ announced ≤ payload_limit t ∧
     zlen (encode (mkFrame TypePing 0 0 []) ++ str "rest") < Z.of_nat HeaderSize + announced ∧
     str "rest" = [] ∧
     (EProtocol (str "INVALID_SEQUENCE") (str "HNB/1 sequence zero is reserved") = ESentinel EOF ∨
      EProtocol (str "INVALID_SEQUENCE") (str "HNB/1 sequence zero is reserved")
        = ESentinel ErrUnexpectedEOF)).
Proof.
  apply (ReadFrame_rejects_on_header
           (mkReader (encode (mkFrame TypePing 0 0 []) ++ str "rest") (ESentinel EOF)) _
           (mkReader (str "rest") (ESentinel EOF))).
  - vm_compute. lia.
  - vm_compute. reflexivity.
Defined.

(** A write never leaves anything but a prefix of the frame.  An invalid
    frame is refused before a byte is sent, with the validation error; a
    connection failure leaves a prefix of the encoding on the wire. *)
Theorem WriteFrame_cases w f oe w' :
  WriteFrame w f = (oe, w') →
  match oe with
  | None => validateFrame f = None ∧ w_out w' = w_out w ++ encode f
  | Some e =>
      (validateFrame f = Some e ∧ w' = w) ∨
      (validateFrame f = None ∧ ∃ n, (n ≤ length (encode f))%nat ∧
         w_out w' = w_out w ++ take n (encode f))
  end.
Proof.
  destruct oe as [e|]; [|apply WriteFrame_ok]. unfold WriteFrame.
  destruct (validateFrame f) eqn:Hv; [intros [= <- <-]; by left|].
  destruct (writeAll w _) as [[e1|] w1] eqn:E1.
  { intros [= <- <-]. right. split; [done|]. apply writeAll_err in E1 as (n & Hn & ->).
    exists n. unfold encode. rewrite length_app. split; [lia|].
    by rewrite take_app_le. }
  destruct (writeAll w1 _) as [[e2|] w2] eqn:E2; [|done].
  intros [= <- <-]. right. split; [done|].
  apply writeAll_ok in E1. apply writeAll_err in E2 as (n & Hn & ->).
  exists (length (frame_header f) + n)%nat. unfold encode. rewrite length_app. split; [lia|].
  by rewrite E1, <-app_assoc, take_app_add.
Qed.

Lemma WriteFrame_cases_witness :
  (validateFrame sample_frame = Some (EWrapf (str "write HNB payload") (ESentinel ErrNetClosed))
     ∧ mkWriter (take 19 (encode sample_frame)) [] = mkWriter [] []) ∨
  (validateFrame sample_frame = None ∧ ∃ n, (n ≤ length (encode sample_frame))%nat ∧
     take 19 (encode sample_frame) = [] ++ take n (encode sample_frame)).
Proof.
  destruct (WriteFrame_cases
    (mkWriter [] [(16%nat, None); (3%nat, Some (ESentinel ErrNetClosed))]) sample_frame
    (Some (EWrapf (str "write HNB payload") (ESentinel ErrNetClosed)))
    (mkWriter (take 19 (encode sample_frame)) [])) as [[H _]|H].
  - vm_compute. reflexivity.
  - exfalso. revert H. vm_compute. discriminate.
  - right. exact H.
Defined.

(** ** Tokens *)

Lemma token_rune_lower_hex b : token_rune_bad (b2z b) = negb (lower_hex b).
Proof. by destruct b. Qed.

Lemma hex_val_lower a :
  lower_hex a = true → ∃ x, hex_val a = Some x ∧ 0 ≤ x < 16 ∧ hex_digit x = a.
Proof.
  unfold lower_hex, hex_val, hex_digit. destruct (is_digit a) eqn:Hd; simpl; intros H.
  - unfold is_digit in Hd. apply in_range_spec in Hd. eexists. split; [done|]. split; [lia|].
    rewrite (proj2 (Z.ltb_lt _ _)) by lia. rewrite Z.add_sub_assoc, Z.add_simpl_l. apply z2b_b2z.
  - rewrite H. apply in_range_spec in H. eexists. split; [done|]. split; [lia|].
    rewrite (proj2 (Z.ltb_ge _ _)) by lia. rewrite Z.add_sub_assoc, Z.add_simpl_l. apply z2b_b2z.
Qed.

Lemma hex_byte_pair x y :
  0 ≤ x < 16 → 0 ≤ y < 16 → hex_byte (z2b (x * 16 + y)) = [hex_digit x; hex_digit y].
Proof.
  intros. unfold hex_byte. rewrite b2z_z2b, (Z.mod_small _ 256) by lia.
  rewrite Z.div_add_l, (Z.div_small y), Z.add_0_r by lia.
  by rewrite (Z.add_comm (x * 16)), Z.mod_add, (Z.mod_small y) by lia.
Qed.

Lemma hex_lower_decode_unique s bs :
  forallb lower_hex s = true → hex_decode s = Some bs → s = hex_encode bs.
Proof.
  revert bs. induction s as [s IH] using (induction_ltof1 _ (@length byte)). unfold ltof in IH.
  intros bs. destruct s as [|a [|b s]]; cbn [hex_decode]; [by intros _ [= <-]|done|].
  cbn [forallb]. intros [Ha [Hb Hs]%andb_true_iff]%andb_true_iff.
  destruct (hex_val_lower a Ha) as (x & -> & Hx & Hax).
  destruct (hex_val_lower b Hb) as (y & -> & Hy & Hby).
  destruct (hex_decode s) as [rest|] eqn:E; [|done]. intros [= <-].
  unfold hex_encode. cbn [map concat]. rewrite hex_byte_pair, Hax, Hby by done.
  cbn [app]. do 2 f_equal. apply IH; [simpl; lia|done|done].
Qed.

Lemma token_runes_lower token :
  existsb (λ r, token_rune_bad r.1) (runes token) = negb (forallb lower_hex token).
Proof.
  induction token as [|b0 s1 IH]; [done|]. cbn [forallb].
  destruct (is_ascii b0) eqn:Hb.
  - cbn [runes]. unfold is_ascii in Hb. rewrite Hb. cbn [existsb fst].
    rewrite token_rune_lower_hex, IH. by destruct (lower_hex b0).
  - destruct (runes_nonascii b0 s1 Hb) as (r & raw & rest & -> & Hr). cbn [existsb fst].
    assert (lower_hex b0 = false) as ->
      by (destruct (lower_hex b0) eqn:E; [apply lower_hex_ascii in E; congruence|done]).
    unfold token_rune_bad. rewrite !(proj2 (Z.ltb_lt _ r)), !orb_true_r by lia. done.
Qed.

(** Token validation is exact.  [ValidSessionToken] accepts a string if
    and only if [NewSessionToken] can produce it: the lower-case hexadecimal
    rendering of sixteen bytes.  No non-ASCII or upper-case spelling passes. *)
Theorem ValidSessionToken_iff token :
  ValidSessionToken token = true ↔
  ∃ random, length random = 16%nat ∧
    NewSessionToken (mkReader random (ESentinel EOF)) = (Ok token, mkReader [] (ESentinel EOF)).
Proof.
  assert (Hnew : ∀ random, length random = 16%nat →
    NewSessionToken (mkReader random (ESentinel EOF))
    = (Ok (hex_encode random), mkReader [] (ESentinel EOF))).
  { intros random Hr. unfold NewSessionToken.
    rewrite <-(app_nil_r random) at 1. by rewrite ReadFull_app by congruence. }
  unfold ValidSessionToken. rewrite token_runes_lower. split.
  - case_match eqn:Hl; [done|]. case_match eqn:Hx; [done|].
    destruct (hex_decode token) as [random|] eqn:Hd; [|done]. intros _. bool_to_prop.
    assert (token = hex_encode random) as -> by (by apply hex_lower_decode_unique).
    exists random. assert (length random = 16%nat).
    { unfold zlen in Hl. rewrite length_hex_encode in Hl. lia. }
    split; [done|]. by apply Hnew.
  - intros (random & Hr & E). rewrite Hnew in E by done. injection E as <-.
    unfold zlen. rewrite length_hex_encode, Hr, hex_encode_lower, hex_decode_encode. done.
Qed.

End protocol.
