(* ===== verification/GoOS.v ===== *)
(** The operating-system interface the program uses: instants and durations
    of package [time], and the file calls of package [os] on a file system
    with injected faults. *)
From S2P Require Import Prelude Errors.

(** * Time: nanoseconds since the Unix epoch *)

Abbreviation Time := Z.
Abbreviation Duration := Z.

(** [time.Time{}]: January 1, year 1, 00:00:00 UTC. *)
Definition ZeroTime : Time := -62135596800 * 10 ^ 9.
Definition IsZero (t : Time) : bool := t =? ZeroTime.

Definition Millisecond : Duration := 10 ^ 6.
Definition Second : Duration := 10 ^ 9.
Definition Minute : Duration := 60 * Second.

(** [a.Sub(b)] saturates to the range of a [Duration]. *)
Definition time_Sub (a b : Time) : Duration :=
  Z.max min_int64 (Z.min max_int64 (a - b)).

(** [d.Milliseconds()]: truncated towards zero. *)
Definition Milliseconds (d : Duration) : Z := Z.quot d Millisecond.

Lemma time_Sub_small a b : min_int64 ≤ a - b ≤ max_int64 → time_Sub a b = a - b.
Proof. unfold time_Sub. lia. Qed.

(** * Files *)

(** Permission bits [0o600] and [0o700]. *)
Definition perm600 : Z := 384.
Definition perm700 : Z := 448.

Inductive FileKind := Regular | Directory | Socket.

#[global] Instance FileKind_eq_dec : EqDecision FileKind.
Proof. solve_decision. Defined.

Record File := mkFile { f_kind : FileKind; f_mode : Z; f_data : list byte }.

(** A fault the environment injects into one call: the error, and for a
    write how many bytes got through ([None]: the open itself failed). *)
Record Fault := mkFault { flt_err : error; flt_part : option nat }.

(** The file system and the faults of the coming calls; with the list used
    up, calls fail only for what the file system says. *)
Record OS := mkOS { os_fs : gmap gostring File; os_faults : list (option Fault) }.

Definition os_pop (os : OS) : option Fault * OS :=
  match os_faults os with
  | [] => (None, os)
  | f :: fs => (f, mkOS (os_fs os) fs)
  end.

Definition os_set (os : OS) (fs : gmap gostring File) : OS := mkOS fs (os_faults os).

(** The file [os.WriteFile] and [os.OpenFile] write to: a new one gets the
    requested mode, an existing one keeps its own. *)
Definition put_data (fs : gmap gostring File) (path : gostring) (data : list byte) (perm : Z)
    : gmap gostring File :=
  match fs !! path with
  | Some f => <[path := mkFile (f_kind f) (f_mode f) data]> fs
  | None => <[path := mkFile Regular perm data]> fs
  end.

Definition os_WriteFile (os : OS) (path : gostring) (data : list byte) (perm : Z)
    : option error * OS :=
  match os_pop os with
  | (None, os) => (None, os_set os (put_data (os_fs os) path data perm))
  | (Some f, os) =>
      (Some (flt_err f),
       match flt_part f with
       | None => os
       | Some n => os_set os (put_data (os_fs os) path (take n data) perm)
       end)
  end.

Definition os_ReadFile (os : OS) (path : gostring) : result error (list byte) * OS :=
  match os_pop os with
  | (Some f, os) => (Err (flt_err f), os)
  | (None, os) =>
      (match os_fs os !! path with
       | Some f => Ok (f_data f)
       | None => Err (ESentinel ErrNotExist)
       end, os)
  end.

Definition os_Chmod (os : OS) (path : gostring) (mode : Z) : option error * OS :=
  match os_pop os with
  | (Some f, os) => (Some (flt_err f), os)
  | (None, os) =>
      match os_fs os !! path with
      | Some f => (None, os_set os (<[path := mkFile (f_kind f) mode (f_data f)]> (os_fs os)))
      | None => (Some (ESentinel ErrNotExist), os)
      end
  end.

Definition os_Remove (os : OS) (path : gostring) : option error * OS :=
  match os_pop os with
  | (Some f, os) => (Some (flt_err f), os)
  | (None, os) =>
      match os_fs os !! path with
      | Some _ => (None, os_set os (delete path (os_fs os)))
      | None => (Some (ESentinel ErrNotExist), os)
      end
  end.

(** [rename(2)]: atomic, replaces the target. *)
Definition os_Rename (os : OS) (from to : gostring) : option error * OS :=
  match os_pop os with
  | (Some f, os) => (Some (flt_err f), os)
  | (None, os) =>
      match os_fs os !! from with
      | Some f => (None, os_set os (<[to := f]> (delete from (os_fs os))))
      | None => (Some (ESentinel ErrNotExist), os)
      end
  end.

(** ** What each call leaves alone *)

Lemma os_pop_fs os f os' : os_pop os = (f, os') → os_fs os' = os_fs os.
Proof. unfold os_pop. by case_match; intros [= <- <-]. Qed.

Lemma put_data_eq fs path data perm :
  put_data fs path data perm !! path =
    Some (match fs !! path with
          | Some f => mkFile (f_kind f) (f_mode f) data
          | None => mkFile Regular perm data
          end).
Proof. unfold put_data. case_match; by rewrite lookup_insert_eq. Qed.

Lemma put_data_ne fs path data perm p :
  p ≠ path → put_data fs path data perm !! p = fs !! p.
Proof. intros. unfold put_data. case_match; by rewrite lookup_insert_ne by congruence. Qed.

Lemma os_WriteFile_ne os path data perm e os' p :
  os_WriteFile os path data perm = (e, os') → p ≠ path → os_fs os' !! p = os_fs os !! p.
Proof.
  unfold os_WriteFile. intros H Hp. destruct (os_pop os) as [[f|] os1] eqn:E;
    apply os_pop_fs in E; simplify_eq/=.
  - case_match; simpl; rewrite ?put_data_ne by done; by rewrite E.
  - rewrite put_data_ne by done. by rewrite E.
Qed.

Lemma os_Chmod_ne os path mode e os' p :
  os_Chmod os path mode = (e, os') → p ≠ path → os_fs os' !! p = os_fs os !! p.
Proof.
  unfold os_Chmod. intros H Hp. destruct (os_pop os) as [[f|] os1] eqn:E;
    apply os_pop_fs in E; simplify_eq/=; [by rewrite E|].
  case_match; simplify_eq/=; rewrite ?lookup_insert_ne by congruence; by rewrite E.
Qed.

Lemma os_Remove_ne os path e os' p :
  os_Remove os path = (e, os') → p ≠ path → os_fs os' !! p = os_fs os !! p.
Proof.
  unfold os_Remove. intros H Hp. destruct (os_pop os) as [[f|] os1] eqn:E;
    apply os_pop_fs in E; simplify_eq/=; [by rewrite E|].
  case_match; simplify_eq/=; rewrite ?lookup_delete_ne by congruence; by rewrite E.
Qed.

Lemma os_Rename_ne os from to e os' p :
  os_Rename os from to = (e, os') → p ≠ from → p ≠ to → os_fs os' !! p = os_fs os !! p.
Proof.
  unfold os_Rename. intros H Hf Ht. destruct (os_pop os) as [[f|] os1] eqn:E;
    apply os_pop_fs in E; simplify_eq/=; [by rewrite E|].
  case_match; simplify_eq/=; rewrite ?lookup_insert_ne, ?lookup_delete_ne by congruence;
    by rewrite E.
Qed.

(** ** What a successful call did *)

Lemma os_WriteFile_ok os path data perm os' :
  os_WriteFile os path data perm = (None, os') →
  os_fs os' = put_data (os_fs os) path data perm.
Proof.
  unfold os_WriteFile. intros H. destruct (os_pop os) as [[f|] os1] eqn:E;
    apply os_pop_fs in E; simplify_eq/=. by rewrite E.
Qed.

Lemma os_Chmod_ok os path mode os' :
  os_Chmod os path mode = (None, os') →
  ∃ f, os_fs os !! path = Some f ∧
       os_fs os' = <[path := mkFile (f_kind f) mode (f_data f)]> (os_fs os).
Proof.
  unfold os_Chmod. intros H. destruct (os_pop os) as [[f|] os1] eqn:E;
    apply os_pop_fs in E; simplify_eq/=. rewrite E in *. case_match; simplify_eq/=. eauto.
Qed.

Lemma os_Rename_ok os from to os' :
  os_Rename os from to = (None, os') →
  ∃ f, os_fs os !! from = Some f ∧ os_fs os' = <[to := f]> (delete from (os_fs os)).
Proof.
  unfold os_Rename. intros H. destruct (os_pop os) as [[f|] os1] eqn:E;
    apply os_pop_fs in E; simplify_eq/=. rewrite E in *. case_match; simplify_eq/=. eauto.
Qed.

Lemma os_Rename_err os from to e os' :
  os_Rename os from to = (Some e, os') → os_fs os' = os_fs os.
Proof.
  unfold os_Rename. intros H. destruct (os_pop os) as [[f|] os1] eqn:E;
    apply os_pop_fs in E; simplify_eq/=; [done|]. case_match; by simplify_eq/=.
Qed.
