(* ===== verification/State.v ===== *)
(** Daemon, transport, VPN and proxy state (src/internal/state/state.go).

    [Snapshot] is the record the daemon publishes; [Store] holds it behind a
    lock, so [Get] and [Update] are atomic.  [WriteFile]/[ReadFile] persist it
    through the file system of [GoOS]. *)
From S2P Require Import Prelude Errors GoStrings GoOS.

Module state.

Abbreviation DaemonStatus := gostring.
Abbreviation TransportStatus := gostring.
Abbreviation VPNStatus := gostring.
Abbreviation ProxyStatus := gostring.

Definition DaemonStopped : DaemonStatus := str "STOPPED".
Definition DaemonStarting : DaemonStatus := str "STARTING".
Definition DaemonRunning : DaemonStatus := str "RUNNING".
Definition DaemonStopping : DaemonStatus := str "STOPPING".
Definition DaemonFailed : DaemonStatus := str "FAILED".

Definition TransportNoDevice : TransportStatus := str "NO_DEVICE".
Definition TransportDeviceOffline : TransportStatus := str "DEVICE_OFFLINE".
Definition TransportPortReady : TransportStatus := str "PORT_READY".
Definition TransportControlConnected : TransportStatus := str "CONTROL_CONNECTED".
Definition TransportDataConnected : TransportStatus := str "DATA_CONNECTED".

Definition VPNUnavailable : VPNStatus := str "UNAVAILABLE".
Definition VPNAuthRequired : VPNStatus := str "AUTH_REQUIRED".
Definition VPNStarting : VPNStatus := str "STARTING".
Definition VPNReconnecting : VPNStatus := str "RECONNECTING".
Definition VPNActive : VPNStatus := str "ACTIVE".
Definition VPNStopped : VPNStatus := str "STOPPED".
Definition VPNFailed : VPNStatus := str "FAILED".

Definition ProxyOff : ProxyStatus := str "OFF".
Definition ProxyStarting : ProxyStatus := str "STARTING".
Definition ProxyActive : ProxyStatus := str "ACTIVE".
Definition ProxyFailed : ProxyStatus := str "FAILED".

(** Unsigned 64-bit counters. *)
Record RelayStats := mkRelayStats {
  PacketsFromDevice : Z; BytesFromDevice : Z;
  PacketsToDevice : Z; BytesToDevice : Z;
  TCPFlows : Z; UDPFlows : Z; DNSQueries : Z;
  ProxyTCPFlows : Z; BlockedQUICFlows : Z;
}.

(** The Go zero values. *)
Definition zeroRelayStats : RelayStats := mkRelayStats 0 0 0 0 0 0 0 0 0.

Record ProxySnapshot := mkProxySnapshot {
  Enabled : bool;
  Status : ProxyStatus;
  PID : Z;
  Executable : gostring;
  ListenPort : Z;
  WebPort : Z;
  OpenBrowser : bool;
  CaptureFile : gostring;
  CACertFile : gostring;
  ConfDir : gostring;
  UpstreamURL : gostring;
  SSLInsecure : bool;
  InterceptPorts : list Z;
}.

Definition zeroProxySnapshot : ProxySnapshot :=
  mkProxySnapshot false [] 0 [] 0 0 false [] [] [] [] false [].

(** [ProxySnapshot{Enabled: e, Status: st}] *)
Definition proxy_status (e : bool) (st : ProxyStatus) : ProxySnapshot :=
  mkProxySnapshot e st 0 [] 0 0 false [] [] [] [] false [].

(** Assignments to one field of a [ProxySnapshot]. *)
Definition set_Status (v : ProxyStatus) (s : ProxySnapshot) : ProxySnapshot :=
  {| Enabled := Enabled s; Status := v; PID := PID s; Executable := Executable s;
     ListenPort := ListenPort s; WebPort := WebPort s; OpenBrowser := OpenBrowser s;
     CaptureFile := CaptureFile s; CACertFile := CACertFile s; ConfDir := ConfDir s;
     UpstreamURL := UpstreamURL s; SSLInsecure := SSLInsecure s;
     InterceptPorts := InterceptPorts s |}.
Definition set_PID (v : Z) (s : ProxySnapshot) : ProxySnapshot :=
  {| Enabled := Enabled s; Status := Status s; PID := v; Executable := Executable s;
     ListenPort := ListenPort s; WebPort := WebPort s; OpenBrowser := OpenBrowser s;
     CaptureFile := CaptureFile s; CACertFile := CACertFile s; ConfDir := ConfDir s;
     UpstreamURL := UpstreamURL s; SSLInsecure := SSLInsecure s;
     InterceptPorts := InterceptPorts s |}.
Definition set_InterceptPorts (v : list Z) (s : ProxySnapshot) : ProxySnapshot :=
  {| Enabled := Enabled s; Status := Status s; PID := PID s; Executable := Executable s;
     ListenPort := ListenPort s; WebPort := WebPort s; OpenBrowser := OpenBrowser s;
     CaptureFile := CaptureFile s; CACertFile := CACertFile s; ConfDir := ConfDir s;
     UpstreamURL := UpstreamURL s; SSLInsecure := SSLInsecure s; InterceptPorts := v |}.

Record Snapshot := mkSnapshot {
  SchemaVersion : Z;
  Daemon : DaemonStatus;
  Transport : TransportStatus;
  VPN : VPNStatus;
  Device : gostring;
  DevicePort : Z;
  HostPort : Z;
  MTU : Z;
  Reconnects : Z;
  ControlHeartbeatAt : Time;
  ControlRTTMillis : Z;
  DataHeartbeatAt : Time;
  DataRTTMillis : Z;
  Relay : RelayStats;
  Proxy : ProxySnapshot;
  Message : gostring;
  LastErrorCode : gostring;
  LastError : gostring;
  StartedAt : Time;
  UpdatedAt : Time;
}.

Definition zeroSnapshot : Snapshot :=
  mkSnapshot 0 [] [] [] [] 0 0 0 0 ZeroTime 0 ZeroTime 0 zeroRelayStats zeroProxySnapshot
    [] [] [] ZeroTime ZeroTime.

(** Assignments to one field of a [Snapshot]. *)
Definition set_Daemon (v : DaemonStatus) (s : Snapshot) : Snapshot :=
  {| SchemaVersion := SchemaVersion s; Daemon := v; Transport := Transport s; VPN := VPN s;
     Device := Device s; DevicePort := DevicePort s; HostPort := HostPort s; MTU := MTU s;
     Reconnects := Reconnects s; ControlHeartbeatAt := ControlHeartbeatAt s;
     ControlRTTMillis := ControlRTTMillis s; DataHeartbeatAt := DataHeartbeatAt s;
     DataRTTMillis := DataRTTMillis s; Relay := Relay s; Proxy := Proxy s;
     Message := Message s; LastErrorCode := LastErrorCode s; LastError := LastError s;
     StartedAt := StartedAt s; UpdatedAt := UpdatedAt s |}.
Definition set_Transport (v : TransportStatus) (s : Snapshot) : Snapshot :=
  {| SchemaVersion := SchemaVersion s; Daemon := Daemon s; Transport := v; VPN := VPN s;
     Device := Device s; DevicePort := DevicePort s; HostPort := HostPort s; MTU := MTU s;
     Reconnects := Reconnects s; ControlHeartbeatAt := ControlHeartbeatAt s;
     ControlRTTMillis := ControlRTTMillis s; DataHeartbeatAt := DataHeartbeatAt s;
     DataRTTMillis := DataRTTMillis s; Relay := Relay s; Proxy := Proxy s;
     Message := Message s; LastErrorCode := LastErrorCode s; LastError := LastError s;
     StartedAt := StartedAt s; UpdatedAt := UpdatedAt s |}.
Definition set_VPN (v : VPNStatus) (s : Snapshot) : Snapshot :=
  {| SchemaVersion := SchemaVersion s; Daemon := Daemon s; Transport := Transport s; VPN := v;
     Device := Device s; DevicePort := DevicePort s; HostPort := HostPort s; MTU := MTU s;
     Reconnects := Reconnects s; ControlHeartbeatAt := ControlHeartbeatAt s;
     ControlRTTMillis := ControlRTTMillis s; DataHeartbeatAt := DataHeartbeatAt s;
     DataRTTMillis := DataRTTMillis s; Relay := Relay s; Proxy := Proxy s;
     Message := Message s; LastErrorCode := LastErrorCode s; LastError := LastError s;
     StartedAt := StartedAt s; UpdatedAt := UpdatedAt s |}.
Definition set_HostPort (v : Z) (s : Snapshot) : Snapshot :=
  {| SchemaVersion := SchemaVersion s; Daemon := Daemon s; Transport := Transport s;
     VPN := VPN s; Device := Device s; DevicePort := DevicePort s; HostPort := v; MTU := MTU s;
     Reconnects := Reconnects s; ControlHeartbeatAt := ControlHeartbeatAt s;
     ControlRTTMillis := ControlRTTMillis s; DataHeartbeatAt := DataHeartbeatAt s;
     DataRTTMillis := DataRTTMillis s; Relay := Relay s; Proxy := Proxy s;
     Message := Message s; LastErrorCode := LastErrorCode s; LastError := LastError s;
     StartedAt := StartedAt s; UpdatedAt := UpdatedAt s |}.
Definition set_MTU (v : Z) (s : Snapshot) : Snapshot :=
  {| SchemaVersion := SchemaVersion s; Daemon := Daemon s; Transport := Transport s;
     VPN := VPN s; Device := Device s; DevicePort := DevicePort s; HostPort := HostPort s;
     MTU := v; Reconnects := Reconnects s; ControlHeartbeatAt := ControlHeartbeatAt s;
     ControlRTTMillis := ControlRTTMillis s; DataHeartbeatAt := DataHeartbeatAt s;
     DataRTTMillis := DataRTTMillis s; Relay := Relay s; Proxy := Proxy s;
     Message := Message s; LastErrorCode := LastErrorCode s; LastError := LastError s;
     StartedAt := StartedAt s; UpdatedAt := UpdatedAt s |}.
Definition set_Reconnects (v : Z) (s : Snapshot) : Snapshot :=
  {| SchemaVersion := SchemaVersion s; Daemon := Daemon s; Transport := Transport s;
     VPN := VPN s; Device := Device s; DevicePort := DevicePort s; HostPort := HostPort s;
     MTU := MTU s; Reconnects := v; ControlHeartbeatAt := ControlHeartbeatAt s;
     ControlRTTMillis := ControlRTTMillis s; DataHeartbeatAt := DataHeartbeatAt s;
     DataRTTMillis := DataRTTMillis s; Relay := Relay s; Proxy := Proxy s;
     Message := Message s; LastErrorCode := LastErrorCode s; LastError := LastError s;
     StartedAt := StartedAt s; UpdatedAt := UpdatedAt s |}.
Definition set_ControlHeartbeatAt (v : Time) (s : Snapshot) : Snapshot :=
  {| SchemaVersion := SchemaVersion s; Daemon := Daemon s; Transport := Transport s;
     VPN := VPN s; Device := Device s; DevicePort := DevicePort s; HostPort := HostPort s;
     MTU := MTU s; Reconnects := Reconnects s; ControlHeartbeatAt := v;
     ControlRTTMillis := ControlRTTMillis s; DataHeartbeatAt := DataHeartbeatAt s;
     DataRTTMillis := DataRTTMillis s; Relay := Relay s; Proxy := Proxy s;
     Message := Message s; LastErrorCode := LastErrorCode s; LastError := LastError s;
     StartedAt := StartedAt s; UpdatedAt := UpdatedAt s |}.
Definition set_ControlRTTMillis (v : Z) (s : Snapshot) : Snapshot :=
  {| SchemaVersion := SchemaVersion s; Daemon := Daemon s; Transport := Transport s;
     VPN := VPN s; Device := Device s; DevicePort := DevicePort s; HostPort := HostPort s;
     MTU := MTU s; Reconnects := Reconnects s; ControlHeartbeatAt := ControlHeartbeatAt s;
     ControlRTTMillis := v; DataHeartbeatAt := DataHeartbeatAt s;
     DataRTTMillis := DataRTTMillis s; Relay := Relay s; Proxy := Proxy s;
     Message := Message s; LastErrorCode := LastErrorCode s; LastError := LastError s;
     StartedAt := StartedAt s; UpdatedAt := UpdatedAt s |}.
Definition set_DataHeartbeatAt (v : Time) (s : Snapshot) : Snapshot :=
  {| SchemaVersion := SchemaVersion s; Daemon := Daemon s; Transport := Transport s;
     VPN := VPN s; Device := Device s; DevicePort := DevicePort s; HostPort := HostPort s;
     MTU := MTU s; Reconnects := Reconnects s; ControlHeartbeatAt := ControlHeartbeatAt s;
     ControlRTTMillis := ControlRTTMillis s; DataHeartbeatAt := v;
     DataRTTMillis := DataRTTMillis s; Relay := Relay s; Proxy := Proxy s;
     Message := Message s; LastErrorCode := LastErrorCode s; LastError := LastError s;
     StartedAt := StartedAt s; UpdatedAt := UpdatedAt s |}.
Definition set_DataRTTMillis (v : Z) (s : Snapshot) : Snapshot :=
  {| SchemaVersion := SchemaVersion s; Daemon := Daemon s; Transport := Transport s;
     VPN := VPN s; Device := Device s; DevicePort := DevicePort s; HostPort := HostPort s;
     MTU := MTU s; Reconnects := Reconnects s; ControlHeartbeatAt := ControlHeartbeatAt s;
     ControlRTTMillis := ControlRTTMillis s; DataHeartbeatAt := DataHeartbeatAt s;
     DataRTTMillis := v; Relay := Relay s; Proxy := Proxy s; Message := Message s;
     LastErrorCode := LastErrorCode s; LastError := LastError s; StartedAt := StartedAt s;
     UpdatedAt := UpdatedAt s |}.
Definition set_Relay (v : RelayStats) (s : Snapshot) : Snapshot :=
  {| SchemaVersion := SchemaVersion s; Daemon := Daemon s; Transport := Transport s;
     VPN := VPN s; Device := Device s; DevicePort := DevicePort s; HostPort := HostPort s;
     MTU := MTU s; Reconnects := Reconnects s; ControlHeartbeatAt := ControlHeartbeatAt s;
     ControlRTTMillis := ControlRTTMillis s; DataHeartbeatAt := DataHeartbeatAt s;
     DataRTTMillis := DataRTTMillis s; Relay := v; Proxy := Proxy s; Message := Message s;
     LastErrorCode := LastErrorCode s; LastError := LastError s; StartedAt := StartedAt s;
     UpdatedAt := UpdatedAt s |}.
Definition set_Proxy (v : ProxySnapshot) (s : Snapshot) : Snapshot :=
  {| SchemaVersion := SchemaVersion s; Daemon := Daemon s; Transport := Transport s;
     VPN := VPN s; Device := Device s; DevicePort := DevicePort s; HostPort := HostPort s;
     MTU := MTU s; Reconnects := Reconnects s; ControlHeartbeatAt := ControlHeartbeatAt s;
     ControlRTTMillis := ControlRTTMillis s; DataHeartbeatAt := DataHeartbeatAt s;
     DataRTTMillis := DataRTTMillis s; Relay := Relay s; Proxy := v; Message := Message s;
     LastErrorCode := LastErrorCode s; LastError := LastError s; StartedAt := StartedAt s;
     UpdatedAt := UpdatedAt s |}.
Definition set_Message (v : gostring) (s : Snapshot) : Snapshot :=
  {| SchemaVersion := SchemaVersion s; Daemon := Daemon s; Transport := Transport s;
     VPN := VPN s; Device := Device s; DevicePort := DevicePort s; HostPort := HostPort s;
     MTU := MTU s; Reconnects := Reconnects s; ControlHeartbeatAt := ControlHeartbeatAt s;
     ControlRTTMillis := ControlRTTMillis s; DataHeartbeatAt := DataHeartbeatAt s;
     DataRTTMillis := DataRTTMillis s; Relay := Relay s; Proxy := Proxy s; Message := v;
     LastErrorCode := LastErrorCode s; LastError := LastError s; StartedAt := StartedAt s;
     UpdatedAt := UpdatedAt s |}.
Definition set_LastErrorCode (v : gostring) (s : Snapshot) : Snapshot :=
  {| SchemaVersion := SchemaVersion s; Daemon := Daemon s; Transport := Transport s;
     VPN := VPN s; Device := Device s; DevicePort := DevicePort s; HostPort := HostPort s;
     MTU := MTU s; Reconnects := Reconnects s; ControlHeartbeatAt := ControlHeartbeatAt s;
     ControlRTTMillis := ControlRTTMillis s; DataHeartbeatAt := DataHeartbeatAt s;
     DataRTTMillis := DataRTTMillis s; Relay := Relay s; Proxy := Proxy s;
     Message := Message s; LastErrorCode := v; LastError := LastError s;
     StartedAt := StartedAt s; UpdatedAt := UpdatedAt s |}.
Definition set_LastError (v : gostring) (s : Snapshot) : Snapshot :=
  {| SchemaVersion := SchemaVersion s; Daemon := Daemon s; Transport := Transport s;
     VPN := VPN s; Device := Device s; DevicePort := DevicePort s; HostPort := HostPort s;
     MTU := MTU s; Reconnects := Reconnects s; ControlHeartbeatAt := ControlHeartbeatAt s;
     ControlRTTMillis := ControlRTTMillis s; DataHeartbeatAt := DataHeartbeatAt s;
     DataRTTMillis := DataRTTMillis s; Relay := Relay s; Proxy := Proxy s;
     Message := Message s; LastErrorCode := LastErrorCode s; LastError := v;
     StartedAt := StartedAt s; UpdatedAt := UpdatedAt s |}.
Definition set_UpdatedAt (v : Time) (s : Snapshot) : Snapshot :=
  {| SchemaVersion := SchemaVersion s; Daemon := Daemon s; Transport := Transport s;
     VPN := VPN s; Device := Device s; DevicePort := DevicePort s; HostPort := HostPort s;
     MTU := MTU s; Reconnects := Reconnects s; ControlHeartbeatAt := ControlHeartbeatAt s;
     ControlRTTMillis := ControlRTTMillis s; DataHeartbeatAt := DataHeartbeatAt s;
     DataRTTMillis := DataRTTMillis s; Relay := Relay s; Proxy := Proxy s;
     Message := Message s; LastErrorCode := LastErrorCode s; LastError := LastError s;
     StartedAt := StartedAt s; UpdatedAt := v |}.

(** [NewStarting] *)
Definition NewStarting (now : Time) (device : gostring) (devicePort : Z) : Snapshot :=
  {| SchemaVersion := 3; Daemon := DaemonStarting; Transport := TransportNoDevice;
     VPN := VPNStopped; Device := device; DevicePort := devicePort; HostPort := 0; MTU := 0;
     Reconnects := 0; ControlHeartbeatAt := ZeroTime; ControlRTTMillis := 0;
     DataHeartbeatAt := ZeroTime; DataRTTMillis := 0; Relay := zeroRelayStats;
     Proxy := proxy_status false ProxyOff; Message := str "Starting HarmonyNetBridge";
     LastErrorCode := []; LastError := []; StartedAt := now; UpdatedAt := now |}.

(** [Stopped] *)
Definition Stopped (now : Time) : Snapshot :=
  {| SchemaVersion := 3; Daemon := DaemonStopped; Transport := TransportNoDevice;
     VPN := VPNStopped; Device := []; DevicePort := 0; HostPort := 0; MTU := 0;
     Reconnects := 0; ControlHeartbeatAt := ZeroTime; ControlRTTMillis := 0;
     DataHeartbeatAt := ZeroTime; DataRTTMillis := 0; Relay := zeroRelayStats;
     Proxy := proxy_status false ProxyOff; Message := str "HarmonyNetBridge is stopped";
     LastErrorCode := []; LastError := []; StartedAt := ZeroTime; UpdatedAt := now |}.

(** The store: both operations run under its lock, so each is one step. *)
Record Store := mkStore { snapshot : Snapshot }.

Definition NewStore (initial : Snapshot) : Store := mkStore initial.
Definition Get (s : Store) : Snapshot := snapshot s.

Definition Update (s : Store) (now : Time) (mutate : Snapshot → Snapshot) : Snapshot * Store :=
  let snapshot := set_UpdatedAt now (mutate (snapshot s)) in (snapshot, mkStore snapshot).

(** * Persistence *)

Section persistence.

(** [json.MarshalIndent(snapshot, "", "  ")] and [json.Unmarshal]. *)
Variable MarshalIndent : Snapshot → result error (list byte).
Variable Unmarshal : list byte → result error Snapshot.

Definition temporary_path (path : gostring) (pid : Z) : gostring :=
  path ++ str ".tmp-" ++ Itoa pid.

Definition WriteFile (os : OS) (pid : Z) (path : gostring) (snapshot : Snapshot)
    : option error * OS :=
  match MarshalIndent snapshot with
  | Err err => (Some (EWrapf (str "encode state snapshot") err), os)
  | Ok payload =>
      let temporary := temporary_path path pid in
      match os_WriteFile os temporary (payload ++ [x0a]) perm600 with
      | (Some err, os) => (Some (EWrapf (str "write temporary state") err), os)
      | (None, os) =>
          match os_Chmod os temporary perm600 with
          | (Some err, os) =>
              let '(_, os) := os_Remove os temporary in
              (Some (EWrapf (str "protect temporary state") err), os)
          | (None, os) =>
              match os_Rename os temporary path with
              | (Some err, os) =>
                  let '(_, os) := os_Remove os temporary in
                  (Some (EWrapf (str "replace state snapshot") err), os)
              | (None, os) => (None, os)
              end
          end
      end
  end.

(** [filepath.Clean] is a parameter: it only normalises the path. *)
Variable Clean : gostring → gostring.

Definition ReadFile (os : OS) (path : gostring) : result error Snapshot * OS :=
  match os_ReadFile os (Clean path) with
  | (Err err, os) => (Err err, os)
  | (Ok payload, os) =>
      match Unmarshal payload with
      | Err err => (Err (EWrapf (str "decode state snapshot") err), os)
      | Ok snapshot => (Ok snapshot, os)
      end
  end.

Lemma temporary_path_ne path pid : temporary_path path pid ≠ path.
Proof.
  unfold temporary_path. intros E. apply (f_equal length) in E. rewrite !length_app in E.
  simpl in E. lia.
Qed.

(** No step before the rename touches [path]. *)
Lemma WriteFile_frame os pid path snap e os' p :
  WriteFile os pid path snap = (e, os') → p ≠ path → p ≠ temporary_path path pid →
  os_fs os' !! p = os_fs os !! p.
Proof.
  unfold WriteFile. intros H Hp Ht. case_match; [|by simplify_eq].
  destruct (os_WriteFile _ _ _ _) as [[err|] os1] eqn:E1; [simplify_eq; by eapply os_WriteFile_ne|].
  destruct (os_Chmod _ _ _) as [[err|] os2] eqn:E2.
  - destruct (os_Remove _ _) as [e3 os3] eqn:E3. simplify_eq.
    by erewrite os_Remove_ne, os_Chmod_ne, os_WriteFile_ne by eauto.
  - destruct (os_Rename _ _ _) as [[err|] os3] eqn:E3.
    + destruct (os_Remove _ _) as [e4 os4] eqn:E4. simplify_eq.
      by erewrite os_Remove_ne, os_Rename_ne, os_Chmod_ne, os_WriteFile_ne by eauto.
    + simplify_eq. by erewrite os_Rename_ne, os_Chmod_ne, os_WriteFile_ne by eauto.
Qed.

(** The cases of [WriteFile] at the target path. *)
Lemma WriteFile_at_path os pid path snap e os' :
  WriteFile os pid path snap = (e, os') →
  match e with
  | Some _ => os_fs os' !! path = os_fs os !! path
  | None =>
      ∃ payload k, MarshalIndent snap = Ok payload ∧
        os_fs os' !! path = Some (mkFile k perm600 (payload ++ [x0a])) ∧
        os_fs os' !! temporary_path path pid = None
  end.
Proof.
  intros H. pose proof (temporary_path_ne path pid) as Hne. unfold WriteFile in H.
  destruct (MarshalIndent snap) as [payload|]; [|by simplify_eq].
  destruct (os_WriteFile _ _ _ _) as [[err|] os1] eqn:E1; [simplify_eq; by erewrite os_WriteFile_ne by eauto|].
  destruct (os_Chmod _ _ _) as [[err|] os2] eqn:E2.
  { destruct (os_Remove _ _) as [e3 os3] eqn:E3. simplify_eq.
    by erewrite os_Remove_ne, os_Chmod_ne, os_WriteFile_ne by eauto. }
  destruct (os_Rename _ _ _) as [[err|] os3] eqn:E3.
  { destruct (os_Remove _ _) as [e4 os4] eqn:E4. simplify_eq.
    apply os_Rename_err in E3. erewrite os_Remove_ne by eauto. rewrite E3.
    by erewrite os_Chmod_ne, os_WriteFile_ne by eauto. }
  simplify_eq. apply os_Rename_ok in E3 as (f & Hf & ->).
  apply os_Chmod_ok in E2 as (g & Hg & E2). rewrite E2, lookup_insert_eq in Hf. simplify_eq.
  apply os_WriteFile_ok in E1. rewrite E1, put_data_eq in Hg.
  eexists payload, (f_kind g). split; [done|].
  rewrite lookup_insert_eq, lookup_insert_ne, lookup_delete_eq by done.
  split; [|done]. do 2 f_equal. by case_match; simplify_eq.
Qed.

(** The temporary file holds the front of the new contents; it is private if
    it is new. *)
Definition partly_written (os os' : OS) (temporary : gostring) (contents : list byte) : Prop :=
  ∃ f n, os_fs os' !! temporary = Some f ∧ f_data f = take n contents ∧
    (os_fs os !! temporary = None → f_mode f = perm600).

Lemma os_WriteFile_written os temporary contents e os' :
  os_WriteFile os temporary contents perm600 = (e, os') →
  e ≠ None ∧ os_fs os' !! temporary = os_fs os !! temporary ∨ partly_written os os' temporary contents.
Proof.
  unfold os_WriteFile, partly_written. destruct (os_pop os) as [[f|] os1] eqn:E; apply os_pop_fs in E; intros [= <- <-].
  - destruct (flt_part f) as [n|]; [|by left; rewrite E]. right. cbn. rewrite E, put_data_eq. eexists _, n.
    split_and!; [done|by case_match|]. by intros ->.
  - right. cbn. rewrite E, put_data_eq. eexists _, (length contents). rewrite take_ge by done.
    split_and!; [done|by case_match|]. by intros ->.
Qed.

Lemma os_Chmod_written os os1 temporary contents e os2 :
  partly_written os os1 temporary contents → os_Chmod os1 temporary perm600 = (e, os2) → partly_written os os2 temporary contents.
Proof.
  intros (f & n & Hf & Hd & Hm). unfold os_Chmod, partly_written. destruct (os_pop os1) as [[g|] os'] eqn:E; apply os_pop_fs in E.
  - intros [= <- <-]. rewrite E. eauto 6.
  - rewrite E, Hf. intros [= <- <-]. cbn. rewrite lookup_insert_eq. by exists (mkFile (f_kind f) perm600 (f_data f)), n.
Qed.

Lemma os_Remove_cases os path e os' :
  os_Remove os path = (e, os') → os_fs os' !! path = None ∨ os_fs os' !! path = os_fs os !! path.
Proof.
  unfold os_Remove. destruct (os_pop os) as [[g|] os1] eqn:E; apply os_pop_fs in E; [intros [= <- <-]; rewrite E; by right|].
  rewrite E. destruct (os_fs os !! path) as [f|] eqn:Ef; intros [= <- <-]; [left; cbn; by rewrite lookup_delete_eq|left; by rewrite E].
Qed.

(** What a failed [WriteFile] leaves at the temporary path. *)
Lemma WriteFile_temporary os pid path snap err os' :
  WriteFile os pid path snap = (Some err, os') →
  let temporary := temporary_path path pid in
  os_fs os' !! temporary = os_fs os !! temporary ∨ os_fs os' !! temporary = None ∨
  ∃ payload, MarshalIndent snap = Ok payload ∧ partly_written os os' temporary (payload ++ [x0a]).
Proof.
  cbv zeta. unfold WriteFile. destruct (MarshalIndent snap) as [payload|]; [|intros [= _ <-]; by left].
  destruct (os_WriteFile _ _ _ _) as [e1 os1] eqn:E1. apply os_WriteFile_written in E1 as [[He Hu]|Hw].
  { destruct e1; [|done]. intros [= _ <-]. by left. }
  destruct e1 as [e1|]; [intros [= _ <-]; right; right; by exists payload|].
  destruct (os_Chmod _ _ _) as [e2 os2] eqn:E2. apply (os_Chmod_written _ _ _ _ _ _ Hw) in E2 as Hw2.
  assert (∀ os3 e4 os4, os_fs os3 = os_fs os2 → os_Remove os3 (temporary_path path pid) = (e4, os4) →
    os_fs os4 !! temporary_path path pid = None ∨ partly_written os os4 (temporary_path path pid) (payload ++ [x0a])) as Hrm.
  { intros os3 e4 os4 E3 [?|Hs]%os_Remove_cases; [by left|right]. unfold partly_written. by rewrite Hs, E3. }
  destruct e2 as [e2|].
  { destruct (os_Remove _ _) as [e4 os4] eqn:E4. intros [= _ <-]. apply Hrm in E4 as [?|?]; eauto. }
  destruct (os_Rename _ _ _) as [[e3|] os3] eqn:E3; [|done]. destruct (os_Remove _ _) as [e4 os4] eqn:E4. intros [= _ <-].
  apply os_Rename_err in E3. apply Hrm in E4 as [?|?]; eauto.
Qed.

(** C39: the state file is replaced atomically.  Whatever calls fail, [path]
    holds either exactly what it held before (and [WriteFile] reports an
    error) or the complete new snapshot with mode 0600 (and [WriteFile]
    succeeds and the temporary file is gone).  After an error the temporary
    file is as before, gone, or left with the front of the new contents,
    private if the call created it.  No third path changes. *)
Theorem WriteFile_atomic os pid path snap e os' :
  WriteFile os pid path snap = (e, os') →
  let temporary := temporary_path path pid in
  match e with
  | Some _ =>
      os_fs os' !! path = os_fs os !! path ∧
      (os_fs os' !! temporary = os_fs os !! temporary ∨ os_fs os' !! temporary = None ∨
       ∃ payload, MarshalIndent snap = Ok payload ∧ partly_written os os' temporary (payload ++ [x0a]))
  | None =>
      ∃ payload k, MarshalIndent snap = Ok payload ∧
        os_fs os' !! path = Some (mkFile k perm600 (payload ++ [x0a])) ∧
        os_fs os' !! temporary = None
  end ∧
  ∀ p, p ≠ path → p ≠ temporary → os_fs os' !! p = os_fs os !! p.
Proof.
  intros H. split; [|intros p; by eapply WriteFile_frame]. pose proof (WriteFile_at_path _ _ _ _ _ _ H) as Hp.
  destruct e; [|done]. split; [done|by eapply WriteFile_temporary].
Qed.

(** What was persisted is read back.  If the JSON codec round-trips this
    snapshot (a trailing newline is white space) and the path is already
    clean, a successful [WriteFile] followed by a fault-free [ReadFile]
    returns the snapshot. *)
Theorem WriteFile_ReadFile os pid path snap os' :
  (∀ payload, MarshalIndent snap = Ok payload → Unmarshal (payload ++ [x0a]) = Ok snap) →
  Clean path = path →
  WriteFile os pid path snap = (None, os') →
  fst (ReadFile (mkOS (os_fs os') []) path) = Ok snap.
Proof.
  intros Hjson Hclean Hw.
  assert (∃ payload k, MarshalIndent snap = Ok payload ∧
    os_fs os' !! path = Some (mkFile k perm600 (payload ++ [x0a]))) as (payload & k & Hm & Hf).
  { apply WriteFile_at_path in Hw. naive_solver. }
  unfold ReadFile, os_ReadFile. simpl. rewrite Hclean, Hf. simpl. by rewrite (Hjson _ Hm).
Qed.

End persistence.

(** A codec good enough to run the persistence code on: the device label
    stands for the whole snapshot. *)
Definition label_codec (s : Snapshot) : result error (list byte) := Ok (Device s).
Definition label_decode (d : list byte) : result error Snapshot :=
  Ok (NewStarting 5 (take (length d - 1) d) 27183).

Definition sample_snapshot : Snapshot := NewStarting 5 (str "device-01") 27183.

(** A disk that fills up during the write: the previous state file is in
    place, and the temporary one stays behind. *)
Definition full_disk : OS :=
  mkOS {[str "s" := mkFile Regular perm600 (str "old")]} [Some (mkFault (ENew (str "ENOSPC")) (Some 3%nat))].

Lemma WriteFile_atomic_witness :
  let r := WriteFile label_codec full_disk 42 (str "s") sample_snapshot in
  os_fs r.2 !! str "s" = os_fs full_disk !! str "s" ∧
  ∀ p, p ≠ str "s" → p ≠ temporary_path (str "s") 42 → os_fs r.2 !! p = os_fs full_disk !! p.
Proof.
  intros r. destruct (WriteFile_atomic label_codec full_disk 42 (str "s") sample_snapshot
    (Some (EWrapf (str "write temporary state") (ENew (str "ENOSPC")))) r.2) as [[Hs _] Hp].
  - vm_compute. reflexivity.
  - split; [exact Hs|exact Hp].
Defined.

Example temporary_left :
  os_fs (WriteFile label_codec full_disk 42 (str "s") sample_snapshot).2 !! temporary_path (str "s") 42 =
    Some (mkFile Regular perm600 (str "dev")).
Proof. vm_compute. reflexivity. Qed.

Lemma WriteFile_ReadFile_witness :
  fst (ReadFile label_decode id
         (mkOS (os_fs (snd (WriteFile label_codec (mkOS ∅ []) 42 (str "s") sample_snapshot))) [])
         (str "s")) = Ok sample_snapshot.
Proof.
  apply (WriteFile_ReadFile label_codec label_decode id (mkOS ∅ []) 42).
  - intros payload [= <-]. vm_compute. reflexivity.
  - reflexivity.
  - vm_compute. reflexivity.
Defined.

End state.
