(* ===== verification/Control.v ===== *)
(** The local control protocol between the CLI and the daemon
    (src/internal/control/control.go): one newline-terminated JSON message
    each way over a Unix socket. *)
From S2P Require Import Prelude Errors GoIO GoStrings Protocol State.
Import protocol.

Module control.

Definition maxMessageBytes : Z := 64 * 1024.

Definition CommandStatus : gostring := str "status".
Definition CommandStop : gostring := str "stop".

Record Request := mkRequest { Command : gostring }.

Record Response := mkResponse {
  OK : bool;
  State : state.Snapshot;
  ErrorCode : Code;
  Error : gostring;
}.

Definition newline : byte := x0a.

Definition oversize : error :=
  ENew (str "control message exceeds " ++ Itoa maxMessageBytes ++ str " bytes").

(** [bufio.Reader.ReadBytes('\n')] over [io.LimitReader(reader, n)]: the
    bytes up to and including the delimiter, or everything and the error. *)
Definition read_line (reader : Reader) (n : nat) : list byte * option error :=
  let limited := take n (r_data reader) in
  match Index limited [newline] with
  | Some i => (take (i + 1) limited, None)
  | None =>
      (limited, Some (if decide (n ≤ length (r_data reader))%nat then ESentinel EOF
                      else r_end reader))
  end.

Definition Read `{JSON A} (reader : Reader) : result error A :=
  let '(payload, err) := read_line reader (Z.to_nat (maxMessageBytes + 1)) in
  if maxMessageBytes <? zlen payload then Err oversize
  else match err with
       | Some err => Err err
       | None =>
           match json_Unmarshal payload with
           | Err err => Err (EWrapf (str "decode control message") err)
           | Ok value => Ok value
           end
       end.

Definition Write `{JSON A} (writer : Writer) (value : A) : option error * Writer :=
  match json_Marshal value with
  | Err err => (Some (EWrapf (str "encode control message") err), writer)
  | Ok payload =>
      if maxMessageBytes <? zlen payload + 1 then (Some oversize, writer)
      else writeAll writer (payload ++ [newline])
  end.

(** [dial] is the outcome of connecting to the socket: the two directions of
    the connection. *)
Definition Call `{JSON Request, JSON Response} (dial : result error (Writer * Reader))
    (request : Request) : result error Response :=
  match dial with
  | Err err => Err (EWrapf (str "connect daemon control socket") err)
  | Ok (connection_out, connection_in) =>
      match Write connection_out request with
      | (Some err, _) => Err (EWrapf (str "send daemon control request") err)
      | (None, _) =>
          match Read connection_in with
          | Err err => Err (EWrapf (str "read daemon control response") err)
          | Ok response => Ok response
          end
      end
  end.

Definition IsUnavailable (err : option error) : bool :=
  match err with
  | None => false
  | Some err =>
      if errors_Is err ErrNotExist || errors_Is err ErrNetClosed then true
      else errors_As_Op err
  end.

(** * Theory *)

(** What the protocol needs of the JSON codec: a message without a raw
    newline, which decodes to the value even with the newline appended. *)
Definition json_line_ok `{JSON A} (value : A) : Prop :=
  ∀ payload, json_Marshal value = Ok payload →
    newline ∉ payload ∧ json_Unmarshal (payload ++ [newline]) = Ok value.

Lemma Index_single_first (p rest : list byte) b :
  b ∉ p → Index (p ++ b :: rest) [b] = Some (length p).
Proof.
  induction p as [|c p IH]; cbn [app Index]; unfold HasPrefix; intros Hp.
  - rewrite bool_decide_true; [done|]. by exists rest.
  - rewrite bool_decide_false.
    + rewrite IH by set_solver. done.
    + intros [k [= <- _]]. set_solver.
Qed.

(** Control round trip.  A message that [Write] accepts and sends whole
    is within the bound [Read] applies, so [Read] returns the value, whatever
    the peer sends after the newline. *)
Theorem Write_Read `{JSON A} (w w' : Writer) (value : A) rest e :
  json_line_ok value → Write w value = (None, w') →
  ∃ sent, w_out w' = w_out w ++ sent ∧ zlen sent ≤ maxMessageBytes ∧
          Read (mkReader (sent ++ rest) e) = Ok value.
Proof.
  intros Hj. unfold Write. destruct (json_Marshal value) as [payload|] eqn:Hm; [|done].
  destruct (_ <? _) eqn:Hb; [done|]. intros Hw%writeAll_ok. bool_to_prop.
  exists (payload ++ [newline]). split; [done|]. rewrite zlen_app.
  change (zlen [newline]) with 1. split; [done|].
  destruct (Hj payload Hm) as [Hnl Hdec]. unfold Read, read_line. cbn [r_data r_end].
  assert (Hlen : (length (payload ++ [newline]) ≤ Z.to_nat (maxMessageBytes + 1))%nat).
  { rewrite length_app. unfold zlen in Hb. simpl. lia. }
  rewrite take_app_ge by done. rewrite <-app_assoc. cbn [app].
  rewrite Index_single_first by done.
  replace (take (length payload + 1) _) with (payload ++ [newline]).
  - rewrite zlen_app. change (zlen [newline]) with 1.
    rewrite (proj2 (Z.ltb_ge _ _)) by done. by rewrite Hdec.
  - by rewrite (take_app_add payload).
Qed.

(** A request codec to run the protocol on: the bare command word. *)
Definition word_codec : JSON Request := {|
  json_Marshal r := Ok (Command r);
  json_Unmarshal d := Ok (mkRequest (take (length d - 1) d));
|}.

Lemma Write_Read_witness :
  ∃ sent, w_out (snd (@Write _ word_codec (mkWriter [] [(3%nat, None)]) (mkRequest CommandStop)))
            = [] ++ sent ∧ zlen sent ≤ maxMessageBytes ∧
          @Read _ word_codec (mkReader (sent ++ str "junk") (ESentinel EOF))
            = Ok (mkRequest CommandStop).
Proof.
  apply (@Write_Read _ word_codec (mkWriter [] [(3%nat, None)])).
  - intros payload [= <-]. split; [vm_compute; set_solver|reflexivity].
  - vm_compute. reflexivity.
Defined.

End control.
