(* ===== verification/GoPath.v ===== *)
(** The lexical part of Go's [path/filepath] on Unix: [Clean], [Join], [Dir],
    [IsAbs]. *)
From S2P Require Import Prelude Errors GoStrings.

Module filepath.

Definition slash : byte := chr "/".

(** One segment against the segments kept so far, last first. *)
Definition clean_segment (rooted : bool) (kept : list gostring) (segment : gostring) : list gostring :=
  if streq segment [] || streq segment (str ".") then kept
  else if streq segment (str "..") then
    match kept with
    | top :: rest => if streq top (str "..") then segment :: kept else rest
    | [] => if rooted then [] else [segment]
    end
  else segment :: kept.

Definition IsAbs (path : gostring) : bool := HasPrefix path (str "/").

Definition Clean (path : gostring) : gostring :=
  let rooted := IsAbs path in
  let kept := foldl (clean_segment rooted) [] (Split path slash) in
  let body := Join (reverse kept) (str "/") in
  if rooted then str "/" ++ body else if streq body [] then str "." else body.

Definition Join (elements : list gostring) : gostring :=
  match filter (λ e, e ≠ []) elements with
  | [] => []
  | present => Clean (Join present (str "/"))
  end.

(** The path up to its last slash. *)
Fixpoint dir_prefix (path : gostring) : gostring :=
  match path with
  | [] => []
  | b :: rest =>
      if bool_decide (slash ∈ path) then b :: dir_prefix rest else []
  end.

Definition Dir (path : gostring) : gostring := Clean (dir_prefix path).

Lemma Clean_nonempty p : Clean p ≠ [].
Proof. unfold Clean. cbv zeta. case_if; [done|]. case_if as E; [done|]. by bool_to_prop. Qed.

Lemma path_Join_nonempty elements e : e ∈ elements → e ≠ [] → Join elements ≠ [].
Proof.
  intros Hin Hne. unfold Join. destruct (filter _ elements) as [|x l] eqn:E; [|apply Clean_nonempty].
  assert (e ∈ filter (λ e : gostring, e ≠ []) elements) as Hf by (by apply list_elem_of_filter).
  rewrite E in Hf. by apply not_elem_of_nil in Hf.
Qed.

(** ** A file in a directory *)

Lemma Split_snoc_segment dir name sep : sep ∉ name → Split (dir ++ sep :: name) sep = Split dir sep ++ [name].
Proof.
  intros Hn. assert (Hname : Split name sep = [name]).
  { clear dir. induction name as [|b name IH]; [done|]. cbn [Split]. rewrite decide_False by set_solver.
    rewrite IH by set_solver. done. }
  induction dir as [|b dir IH]; cbn [app Split]; [by rewrite decide_True, Hname|].
  case_decide; rewrite IH; [done|]. pose proof (Split_nonempty dir sep). by destruct (Split dir sep).
Qed.

Lemma Join_snoc_segment l x sep : l ≠ [] → GoStrings.Join (l ++ [x]) sep = GoStrings.Join l sep ++ sep ++ x.
Proof.
  induction l as [|y l IH]; [done|]. intros _. destruct l as [|z l]; [done|].
  cbn [app GoStrings.Join] in *. rewrite IH by done. by rewrite <-!app_assoc.
Qed.

(** A name as a directory listing has it. *)
Definition entry_name (name : gostring) : Prop :=
  name ≠ [] ∧ name ≠ str "." ∧ name ≠ str ".." ∧ slash ∉ name.

Lemma Join_entry dir name :
  IsAbs dir = true → Clean dir = dir → dir ≠ str "/" → entry_name name →
  Join [dir; name] = dir ++ slash :: name.
Proof.
  intros Ha Hc Hr (Hne & Hd & Hdd & Hs). assert (dir ≠ []) as Hdir by (by intros ->).
  unfold Join. rewrite !filter_cons_True, filter_nil by done.
  change (GoStrings.Join [dir; name] (str "/")) with (dir ++ slash :: name).
  unfold Clean. assert (IsAbs (dir ++ slash :: name) = true) as ->.
  { unfold IsAbs, HasPrefix in *. bool_to_prop. apply bool_decide_eq_true. by apply prefix_app_r. }
  rewrite Split_snoc_segment, foldl_app by done. cbn [foldl]. revert Hc. unfold Clean at 1. rewrite Ha.
  set (kept := foldl _ _ _). unfold clean_segment.
  rewrite (bool_decide_eq_false_2 (name = [])), (bool_decide_eq_false_2 (name = str ".")),
    (bool_decide_eq_false_2 (name = str "..")) by done.
  cbn [orb]. rewrite reverse_cons. intros Hc. destruct (decide (reverse kept = [])) as [E|E].
  - rewrite E in Hc. by rewrite <-Hc in Hr.
  - rewrite Join_snoc_segment, app_assoc, Hc by done. done.
Qed.

Example Clean_samples :
  map Clean [str "/a/./b//c/../d/"; str "../x/.."; []; str "/.."; str "a/../.."] =
    [str "/a/b/d"; str ".."; str "."; str "/"; str ".."].
Proof. vm_compute. reflexivity. Qed.

Example Dir_samples : map Dir [str "/a/b/c"; str "/a"; str "a"; str "/a/b/"] = [str "/a/b"; str "/"; str "."; str "/a/b"].
Proof. vm_compute. reflexivity. Qed.
End filepath.
