(* ===== verification/GoNet.v ===== *)
(** Textual addresses of packages [net] and [net/netip]: dotted IPv4, IPv6
    syntax, and host:port pairs. *)
From S2P Require Import Prelude Errors GoStrings.

(** A [netip.Addr] as the program distinguishes it. *)
Inductive Addr :=
| Addr4 (a b c d : byte)
| Addr6 (text : gostring).

#[global] Instance Addr_eq_dec : EqDecision Addr.
Proof. solve_decision. Defined.

Definition Is4 (a : Addr) : bool := match a with Addr4 _ _ _ _ => true | Addr6 _ => false end.

Definition dot : byte := chr ".".
Definition colon : byte := chr ":".

(** One field of a dotted address: decimal, no leading zero, at most 255. *)
Definition parse_octet (s : gostring) : option byte :=
  match parse_digits s with
  | Some v =>
      if (v <=? 255) && (bool_decide (s = [chr "0"]) || negb (bool_decide (head s = Some (chr "0"))))
      then Some (z2b v) else None
  | None => None
  end.

(** [netip]'s [parseIPv4Fields] *)
Definition parse_ipv4 (s : gostring) : option Addr :=
  match Split s dot with
  | [a; b; c; d] =>
      match parse_octet a, parse_octet b, parse_octet c, parse_octet d with
      | Some a, Some b, Some c, Some d => Some (Addr4 a b c d)
      | _, _, _, _ => None
      end
  | _ => None
  end.

(** The first character of the address syntax, which selects the parser. *)
Fixpoint addr_syntax (s : gostring) : option byte :=
  match s with
  | [] => None
  | b :: s' =>
      if bool_decide (b = dot) || bool_decide (b = colon) || bool_decide (b = chr "%")
      then Some b else addr_syntax s'
  end.

(** [netip.ParseAddr], restricted to IPv4 results: [Some] exactly when the
    call succeeds with an address whose [Is4] holds. *)
Definition ParseAddr4 (s : gostring) : option Addr :=
  match addr_syntax s with
  | Some b => if bool_decide (b = dot) then parse_ipv4 s else None
  | None => None
  end.

(** The leading hexadecimal digits of a string. *)
Fixpoint hex_prefix (s : gostring) : nat :=
  match s with
  | b :: s' => match hex_val b with Some _ => S (hex_prefix s') | None => 0 end
  | [] => 0
  end.

(** [netip]'s [parseIPv6] loop without a zone: [i] is the number of bytes
    filled so far, [ell] the position of the ellipsis.  Each round fills at
    least two of the sixteen bytes, so eight rounds suffice. *)
Fixpoint ipv6_groups (rounds : nat) (i : Z) (ell : option Z) (s : gostring)
    : option (Z * option Z * gostring) :=
  match rounds with
  | O => Some (i, ell, s)
  | S rounds =>
      let off := hex_prefix s in
      if decide (4 < off)%nat then None
      else if decide (off = 0%nat) then None
      else
        match drop off s with
        | [] => Some (i + 2, ell, [])
        | c :: rest =>
            if bool_decide (c = dot) then
              if (match ell with None => negb (i =? 12) | Some _ => false end) || (16 <? i + 4)
              then None
              else match parse_ipv4 s with Some _ => Some (i + 4, ell, []) | None => None end
            else if negb (bool_decide (c = colon)) then None
            else
              match rest with
              | [] => None
              | c2 :: rest2 =>
                  if bool_decide (c2 = colon) then
                    match ell with
                    | Some _ => None
                    | None =>
                        match rest2 with
                        | [] => Some (i + 2, Some (i + 2), [])
                        | _ => ipv6_groups rounds (i + 2) (Some (i + 2)) rest2
                        end
                    end
                  else ipv6_groups rounds (i + 2) ell rest
              end
        end
  end.

Definition ipv6_finish (r : option (Z * option Z * gostring)) : bool :=
  match r with
  | Some (i, ell, []) =>
      if i <? 16 then bool_decide (is_Some ell) else bool_decide (ell = None)
  | _ => false
  end.

(** Whether [parseIPv6] accepts a zone-free string. *)
Definition valid_ipv6 (s : gostring) : bool :=
  match s with
  | c1 :: c2 :: s' =>
      if bool_decide (c1 = colon) && bool_decide (c2 = colon) then
        match s' with
        | [] => true
        | _ => ipv6_finish (ipv6_groups 8 0 (Some 0) s')
        end
      else ipv6_finish (ipv6_groups 8 0 None s)
  | _ => ipv6_finish (ipv6_groups 8 0 None s)
  end.

(** [net.ParseIP(s) != nil]: an address of either family without a zone. *)
Definition ParseIP (s : gostring) : bool :=
  match addr_syntax s with
  | Some b =>
      if bool_decide (b = dot) then bool_decide (is_Some (parse_ipv4 s))
      else if bool_decide (b = colon) then negb (bool_decide (chr "%" ∈ s)) && valid_ipv6 s
      else false
  | None => false
  end.

(** [netip.Addr.String] for IPv4 *)
Definition addr4_string (a b c d : byte) : gostring :=
  Join (map (λ x, Itoa (b2z x)) [a; b; c; d]) [dot].

Definition Addr_String (a : Addr) : gostring :=
  match a with Addr4 a b c d => addr4_string a b c d | Addr6 t => t end.

(** [net.JoinHostPort] *)
Definition JoinHostPort (host port : gostring) : gostring :=
  if bool_decide (colon ∈ host) || bool_decide (chr "%" ∈ host)
  then str "[" ++ host ++ str "]:" ++ port
  else host ++ [colon] ++ port.

(** Position of the last occurrence of a byte. *)
Definition LastIndexByte (s : gostring) (b : byte) : option nat :=
  match IndexByte (reverse s) b with
  | Some i => Some (length s - 1 - i)%nat
  | None => None
  end.

(** The error of a failed [SplitHostPort] (a [*net.AddrError], whose text the
    program only wraps). *)
Definition AddrError : error := ENew (str "address error").

(** [net.SplitHostPort]: [None] is any of its address errors. *)
Definition SplitHostPort (hostport : gostring) : option (gostring * gostring) :=
  match LastIndexByte hostport colon with
  | None => None
  | Some i =>
      let port := drop (i + 1) hostport in
      if bool_decide (head hostport = Some (chr "[")) then
        match IndexByte hostport (chr "]") with
        | None => None
        | Some e =>
            if decide (e + 1 = i)%nat then
              if bool_decide (chr "[" ∈ drop 1 hostport) ||
                 bool_decide (chr "]" ∈ drop (e + 1) hostport)
              then None
              else Some (slice hostport 1 e, port)
            else None
        end
      else
        let host := take i hostport in
        if bool_decide (colon ∈ host) || bool_decide (chr "[" ∈ hostport) ||
           bool_decide (chr "]" ∈ hostport)
        then None else Some (host, port)
  end.

(** * Lemmas *)

Lemma Split_none s sep : sep ∉ s → Split s sep = [s].
Proof.
  induction s as [|b s IH]; intros H; [done|]. cbn [Split].
  rewrite decide_False by set_solver. rewrite IH by set_solver. done.
Qed.

Lemma Split_app s sep t : sep ∉ s → Split (s ++ sep :: t) sep = s :: Split t sep.
Proof.
  induction s as [|b s IH]; intros H; cbn [app Split].
  - by rewrite decide_True.
  - rewrite decide_False by set_solver. rewrite IH by set_solver. done.
Qed.

Lemma digits_no_byte s b : forallb is_digit s = true → is_digit b = false → b ∉ s.
Proof.
  intros Hs Hb Hin. rewrite forallb_forall in Hs.
  rewrite (Hs b) in Hb; [done|]. by apply list_elem_of_In.
Qed.

Lemma utoa_head n : 0 < n → head (utoa n) ≠ Some (chr "0").
Proof.
  intros Hn. unfold utoa.
  assert (∀ fuel m acc, 0 < m < 10 ^ Z.of_nat fuel → head (digits_go fuel m acc) ≠ Some (chr "0")) as H.
  { induction fuel as [|fuel IH]; intros m acc Hm; [simpl in Hm; lia|]. cbn [digits_go].
    destruct (Z.ltb_spec m 10).
    - cbn [head]. rewrite Z.mod_small by lia. intros [= E].
      apply (f_equal b2z) in E. rewrite b2z_z2b, Z.mod_small in E by lia. change (b2z (chr "0")) with 48 in E. lia.
    - apply IH. rewrite Nat2Z.inj_succ, Z.pow_succ_r in Hm by lia.
      split; [apply Z.div_str_pos; lia|apply Z.div_lt_upper_bound; lia]. }
  apply H. rewrite Nat2Z.inj_succ, Z2Nat.id by apply Z.log2_nonneg. split; [done|].
  eapply Z.lt_le_trans; [apply Z.log2_spec; lia|]. apply Z.pow_le_mono_l. lia.
Qed.

Lemma Itoa_nonneg n : 0 ≤ n → Itoa n = utoa n.
Proof. intros. unfold Itoa. by rewrite (proj2 (Z.ltb_ge _ _)). Qed.

Lemma parse_octet_Itoa b : parse_octet (Itoa (b2z b)) = Some b.
Proof.
  pose proof (b2z_range b) as Hb. unfold parse_octet. rewrite Itoa_nonneg by lia.
  rewrite parse_digits_utoa by lia. rewrite (proj2 (Z.leb_le _ _)) by lia. cbn [andb].
  destruct (Z.eqb_spec (b2z b) 0) as [E|E].
  - assert (b = x00) as -> by (by apply (inj b2z)). done.
  - rewrite (bool_decide_false (head _ = _)) by (apply utoa_head; lia).
    rewrite orb_true_r. by rewrite z2b_b2z.
Qed.

Lemma Itoa_no_byte n b : 0 ≤ n → is_digit b = false → b ∉ Itoa n.
Proof.
  intros Hn Hb. rewrite Itoa_nonneg by done. apply digits_no_byte; [|done].
  by apply utoa_spec.
Qed.

(** IPv4 text round trip. *)
Lemma parse_ipv4_string a b c d : parse_ipv4 (addr4_string a b c d) = Some (Addr4 a b c d).
Proof.
  unfold parse_ipv4, addr4_string. cbn [map Join].
  pose proof (b2z_range a). pose proof (b2z_range b). pose proof (b2z_range c).
  pose proof (b2z_range d). cbn [app].
  rewrite !Split_app, Split_none by (apply Itoa_no_byte; [lia|done]).
  by rewrite !parse_octet_Itoa.
Qed.

Lemma LastIndexByte_app s b t : b ∉ t → LastIndexByte (s ++ b :: t) b = Some (length s).
Proof.
  intros H. unfold LastIndexByte, IndexByte.
  replace (reverse (s ++ b :: t)) with (reverse t ++ b :: reverse s)
    by (rewrite reverse_app, reverse_cons, <-app_assoc; done).
  assert (∀ p rest, b ∉ p → Index (p ++ b :: rest) [b] = Some (length p)) as Hi.
  { induction p as [|c p IH]; intros rest Hp; cbn [app Index]; unfold HasPrefix.
    - rewrite bool_decide_true; [done|]. by exists rest.
    - rewrite bool_decide_false; [|intros [k [= <- _]]; set_solver].
      by rewrite IH by set_solver. }
  rewrite Hi by (by rewrite elem_of_reverse). f_equal.
  rewrite length_reverse, length_app. simpl. lia.
Qed.

(** A host without address punctuation comes back from [SplitHostPort]. *)
Lemma SplitHostPort_JoinHostPort host port :
  (∀ b, b ∈ host → b ≠ colon ∧ b ≠ chr "%" ∧ b ≠ chr "[" ∧ b ≠ chr "]") →
  forallb is_digit port = true →
  SplitHostPort (JoinHostPort host port) = Some (host, port).
Proof.
  intros Hh Hp. assert (∀ b, is_digit b = false → b ∉ port) as Hd by (intros; by apply digits_no_byte).
  unfold JoinHostPort. rewrite !bool_decide_false by (intros Hin; apply Hh in Hin; naive_solver).
  cbn [orb app]. unfold SplitHostPort. rewrite LastIndexByte_app by (apply Hd; done).
  replace (drop (length host + 1) (host ++ colon :: port)) with port
    by (by rewrite (drop_app_add host)).
  rewrite take_app_length, (bool_decide_false (head _ = _)).
  - rewrite !bool_decide_false; [done|..].
    + rewrite elem_of_app, elem_of_cons. intros [Hin|[?|Hin]]; [apply Hh in Hin; naive_solver|done|].
      by eapply Hd in Hin.
    + rewrite elem_of_app, elem_of_cons. intros [Hin|[?|Hin]]; [apply Hh in Hin; naive_solver|done|].
      by eapply Hd in Hin.
    + intros Hin. apply Hh in Hin. naive_solver.
  - destruct host as [|h host]; [done|]. cbn [app head]. intros [= ->].
    destruct (Hh (chr "[")) as (_ & _ & ? & _); [set_solver|done].
Qed.
