(* ===== verification/Dns.v ===== *)
(** The DNS adapter (src/internal/relay/dns.go and the TCP framing of
    src/internal/relay/engine.go): question names, resolver selection, the
    [scutil --dns] parser, and the exchange with the selected resolver.

    Parsers of wire data return [option]: [None] is a Go run-time panic (an
    index or slice out of range) or exhausted fuel, and is proved
    impossible. *)
From Stdlib Require Import Sorted.
From S2P Require Import Prelude Errors GoIO GoStrings GoOS GoNet.

Module dns.

Definition defaultDNSPort : Z := 53.
Definition defaultResolverReload : Duration := 30 * Second.
Definition maximumDNSNameJumps : Z := 32.

Record Resolver := mkResolver {
  Domains : list gostring;
  Nameservers : list Addr;
  Port : Z;
  Order : Z;
}.

(** * The question name *)

(** One round of the label loop: finished, or the next loop state. *)
Inductive name_round :=
| NameDone (r : result error gostring)
| NameNext (labels : list gostring) (offset jumps : Z) (visited : list Z).

Definition label_char_bad (character : byte) : bool :=
  (b2z character <? 0x21) || (0x7E <? b2z character).

Section names.
Context `{Unicode}.

Definition question_round (message : list byte) (labels : list gostring)
    (offset jumps : Z) (visited : list Z) : option name_round :=
  if zlen message <=? offset then
    Some (NameDone (Err (ENew (str "DNS question name is truncated"))))
  else
    b ← idx message offset;
    let length := b2z b in
    if length =? 0 then
      if decide (labels = []) then Some (NameDone (Ok (str ".")))
      else Some (NameDone (Ok (ToLower (Join labels (str ".")))))
    else if Z.land length 0xC0 =? 0xC0 then
      if zlen message <=? offset + 1 then
        Some (NameDone (Err (ENew (str "DNS compression pointer is truncated"))))
      else
        b1 ← idx message (offset + 1);
        let pointer := Z.lor (Z.shiftl (Z.land length 0x3F) 8) (b2z b1) in
        if zlen message <=? pointer then
          Some (NameDone (Err (ENew (str "DNS compression pointer is outside the message"))))
        else if bool_decide (pointer ∈ visited) || (maximumDNSNameJumps <=? jumps) then
          Some (NameDone (Err (ENew (str "DNS compression pointer loop detected"))))
        else Some (NameNext labels pointer (jumps + 1) (pointer :: visited))
    else if negb (Z.land length 0xC0 =? 0) then
      Some (NameDone (Err (ENew (str "DNS question contains an invalid label type"))))
    else if 63 <? length then
      Some (NameDone (Err (ENew (str "DNS label exceeds 63 bytes"))))
    else if zlen message <? offset + 1 + length then
      Some (NameDone (Err (ENew (str "DNS label is truncated"))))
    else
      label ← sub message (offset + 1) (offset + 1 + length);
      if existsb label_char_bad label then
        Some (NameDone (Err (ENew (str "DNS label contains an unsupported character"))))
      else Some (NameNext (labels ++ [label]) (offset + (1 + length)) jumps visited).

Fixpoint question_loop (fuel : nat) (message : list byte) (labels : list gostring)
    (offset jumps : Z) (visited : list Z) : option (result error gostring) :=
  match fuel with
  | O => None
  | S fuel =>
      match question_round message labels offset jumps visited with
      | None => None
      | Some (NameDone r) => Some r
      | Some (NameNext labels offset jumps visited) =>
          question_loop fuel message labels offset jumps visited
      end
  end.

(** Every label moves the offset forward and at most 32 pointers are
    followed, so this many rounds are enough. *)
Definition question_fuel (message : list byte) : nat := (34 * (length message + 1))%nat.

Definition DNSQuestionName (message : list byte) : option (result error gostring) :=
  if zlen message <? 12 then Some (Err (ENew (str "DNS message is shorter than its header")))
  else
    count ← sub message 4 6;
    if be_get count =? 0 then Some (Err (ENew (str "DNS message has no question")))
    else question_loop (question_fuel message) message [] 12 0 [].

(** * Resolver selection *)

Definition normalizeDomain (domain : gostring) : gostring :=
  TrimSuffix (ToLower (TrimSpace domain)) (str ".").

Definition domainMatches (name suffix : gostring) : bool :=
  streq name suffix || HasSuffix name (str "." ++ suffix).

(** [bestIndex], [bestSuffixLength] and [bestOrder]. *)
Record Best := mkBest { bestIndex : Z; bestSuffixLength : Z; bestOrder : Z }.

Definition initialBest : Best := mkBest (-1) (-1) max_int64.

(** The inner loop over one resolver's domains. *)
Definition consider_domain (questionName : gostring) (index : Z) (resolver : Resolver)
    (best : Best) (candidate : gostring) : Best :=
  let candidate := normalizeDomain candidate in
  if streq candidate [] || negb (domainMatches questionName candidate) then best
  else if (bestSuffixLength best <? zlen candidate) ||
          ((zlen candidate =? bestSuffixLength best) && (Order resolver <? bestOrder best))
       then mkBest index (zlen candidate) (Order resolver)
       else best.

Definition consider_resolver (questionName : gostring) (best : Best)
    (index : Z) (resolver : Resolver) : Best :=
  if bool_decide (Nameservers resolver = []) then best
  else if bool_decide (Domains resolver = []) then
    if (bestIndex best =? -1) ||
       ((bestSuffixLength best =? 0) && (Order resolver <? bestOrder best))
    then mkBest index 0 (Order resolver) else best
  else foldl (consider_domain questionName index resolver) best (Domains resolver).

Fixpoint select_loop (questionName : gostring) (best : Best) (index : Z)
    (resolvers : list Resolver) : Best :=
  match resolvers with
  | [] => best
  | r :: rest =>
      select_loop questionName (consider_resolver questionName best index r) (index + 1) rest
  end.

Definition selectResolver (resolvers : list Resolver) (questionName : gostring)
    : option (result error Resolver) :=
  let questionName := normalizeDomain questionName in
  let best := select_loop questionName initialBest 0 resolvers in
  if bestIndex best =? -1 then
    Some (Err (ENew (str "macOS has no resolver for DNS name " ++ Quote questionName)))
  else r ← idx resolvers (bestIndex best); Some (Ok r).

(** * Parsing [scutil --dns] *)

(** [seen] keeps first occurrences only. *)
Fixpoint unique_go (domains : list gostring) (seen : list gostring) : list gostring :=
  match domains with
  | [] => []
  | domain :: rest =>
      let domain := normalizeDomain domain in
      if streq domain [] then unique_go rest seen
      else if bool_decide (domain ∈ seen) then unique_go rest seen
      else domain :: unique_go rest (domain :: seen)
  end.

Definition uniqueDomains (domains : list gostring) : list gostring := unique_go domains [].

Definition emptyResolver : Resolver := mkResolver [] [] 0 0.

(** The block being read ([builder]) and the finished ones. *)
Record Scan := mkScan { sc_seen : bool; sc_current : Resolver; sc_done : list Resolver }.

Definition flush (s : Scan) : Scan :=
  let r := sc_current s in
  if negb (sc_seen s) || bool_decide (Nameservers r = []) then
    mkScan false emptyResolver (sc_done s)
  else
    let port := if Port r =? 0 then defaultDNSPort else Port r in
    mkScan false emptyResolver
      (sc_done s ++ [mkResolver (uniqueDomains (Domains r)) (Nameservers r) port (Order r)]).

Definition scan_field (r : Resolver) (key value : gostring) : Resolver :=
  if streq key (str "domain") || HasPrefix key (str "search domain[") then
    let domain := normalizeDomain value in
    if streq domain [] then r
    else mkResolver (Domains r ++ [domain]) (Nameservers r) (Port r) (Order r)
  else if HasPrefix key (str "nameserver[") then
    match ParseAddr4 value with
    | Some address => mkResolver (Domains r) (Nameservers r ++ [address]) (Port r) (Order r)
    | None => r
    end
  else if streq key (str "port") then
    match ParseUint value 16 with
    | Some port =>
        if 0 <? port then mkResolver (Domains r) (Nameservers r) port (Order r) else r
    | None => r
    end
  else if streq key (str "order") then
    match Atoi value with
    | Some order => mkResolver (Domains r) (Nameservers r) (Port r) order
    | None => r
    end
  else r.

Definition scan_line (s : Scan) (rawLine : gostring) : Scan :=
  let line := TrimSpace rawLine in
  if HasPrefix line (str "resolver #") then
    let s := flush s in mkScan true (sc_current s) (sc_done s)
  else if negb (sc_seen s) then s
  else
    let '(key, value, found) := Cut line (str ":") in
    if negb found then s
    else mkScan (sc_seen s) (scan_field (sc_current s) (TrimSpace key) (TrimSpace value))
           (sc_done s).

(** [sort.SliceStable] by [Order]: insertion after the entries that are not
    greater. *)
Fixpoint insert_by_order (r : Resolver) (l : list Resolver) : list Resolver :=
  match l with
  | [] => [r]
  | x :: l' => if Order r <? Order x then r :: x :: l' else x :: insert_by_order r l'
  end.

Definition sort_stable (l : list Resolver) : list Resolver :=
  foldl (λ acc r, insert_by_order r acc) [] l.

(** The resolver blocks in the order of the report. *)
Definition scutil_blocks (output : gostring) : list Resolver :=
  sc_done (flush (foldl scan_line (mkScan false emptyResolver []) (Split output x0a))).

Definition ParseScutilDNS (output : gostring) : result error (list Resolver) :=
  let resolvers := scutil_blocks output in
  if decide (resolvers = []) then
    Err (ENew (str "scutil reported no usable IPv4 DNS resolvers"))
  else Ok (sort_stable resolvers).


(** * Question names: no panic, termination, meaning *)

(** Decreases in every round of the loop. *)
Definition name_measure (message : list byte) (offset jumps : Z) : Z :=
  (33 - jumps) * (zlen message + 1) + (zlen message - offset).

Lemma question_round_spec message labels offset jumps visited :
  0 ≤ offset ≤ zlen message → 0 ≤ jumps ≤ 32 →
  match question_round message labels offset jumps visited with
  | None => False
  | Some (NameDone _) => True
  | Some (NameNext labels' offset' jumps' visited') =>
      0 ≤ offset' ≤ zlen message ∧ 0 ≤ jumps' ≤ 32 ∧
      name_measure message offset' jumps' < name_measure message offset jumps
  end.
Proof.
  intros Ho Hj. unfold question_round.
  destruct (zlen message <=? offset) eqn:E0; bool_to_prop; [exact I|].
  destruct (idx_is_Some message offset) as [b Hb]; [lia|]. rewrite Hb. cbn [mbind option_bind].
  pose proof (b2z_range b) as Hr. cbv zeta.
  destruct (b2z b =? 0) eqn:E1; [by case_decide|].
  destruct (Z.land (b2z b) 192 =? 192) eqn:E2.
  - destruct (zlen message <=? offset + 1) eqn:E3; bool_to_prop; [exact I|].
    destruct (idx_is_Some message (offset + 1)) as [b1 Hb1]; [lia|]. rewrite Hb1.
    cbn [mbind option_bind]. case_if; [exact I|]. case_if; [exact I|].
    bool_to_prop. unfold maximumDNSNameJumps in *.
    assert (0 ≤ Z.lor (Z.shiftl (Z.land (b2z b) 63) 8) (b2z b1)).
    { apply Z.lor_nonneg. split; [|apply b2z_range]. apply land_shiftl_nonneg. lia. }
    unfold name_measure. split_and!; lia || nia.
  - case_if; [exact I|]. case_if; [exact I|]. case_if; [exact I|].
    bool_to_prop. rewrite sub_Some by lia. cbn [mbind option_bind].
    case_if; [exact I|]. unfold name_measure. lia.
Qed.

Lemma question_loop_total fuel message labels offset jumps visited :
  0 ≤ offset ≤ zlen message → 0 ≤ jumps ≤ 32 →
  name_measure message offset jumps < Z.of_nat fuel →
  ∃ r, question_loop fuel message labels offset jumps visited = Some r.
Proof.
  revert labels offset jumps visited.
  induction fuel as [|fuel IH]; intros labels offset jumps visited Ho Hj Hm.
  - unfold name_measure in Hm. nia.
  - cbn [question_loop].
    pose proof (question_round_spec message labels offset jumps visited Ho Hj) as Hs.
    destruct (question_round _ _ _ _ _) as [[r|labels' offset' jumps' visited']|]; [eauto| |done].
    apply IH; [tauto|tauto|]. lia.
Qed.

Lemma DNSQuestionName_returns message : ∃ r, DNSQuestionName message = Some r.
Proof.
  unfold DNSQuestionName. destruct (zlen message <? 12) eqn:E; [eauto|]. bool_to_prop.
  rewrite sub_Some by lia. cbn [mbind option_bind]. case_if; [eauto|].
  apply question_loop_total; [lia|lia|].
  unfold name_measure, question_fuel, zlen in *. lia.
Qed.

(** ** Uncompressed names round-trip *)

Definition valid_label (l : gostring) : Prop :=
  1 ≤ zlen l ≤ 63 ∧ existsb label_char_bad l = false.

(** The wire form of a label sequence. *)
Definition wire_name (labels : list gostring) : list byte :=
  concat (map (λ l, z2b (zlen l) :: l) labels) ++ [x00].

Lemma small_length_flags n : 1 ≤ n ≤ 63 → Z.land n 0xC0 = 0.
Proof.
  intros Hn. apply Z.bits_inj_0. intros i. rewrite Z.land_spec.
  destruct (Z.ltb_spec i 0); [by rewrite !Z.testbit_neg_r by lia|].
  destruct (Z.ltb_spec i 6).
  - assert (Z.testbit 192 i = false) as ->; [|by rewrite andb_false_r].
    assert (i = 0 ∨ i = 1 ∨ i = 2 ∨ i = 3 ∨ i = 4 ∨ i = 5) by lia. naive_solver.
  - rewrite (Z.bits_above_log2 n i); [done|lia|].
    apply Z.log2_lt_pow2; [lia|]. assert (2 ^ 6 ≤ 2 ^ i) by (apply Z.pow_le_mono_r; lia). lia.
Qed.

(** One label is read in one round. *)
Lemma question_round_label pre l post labels jumps visited :
  valid_label l →
  question_round (pre ++ (z2b (zlen l) :: l) ++ post) labels (zlen pre) jumps visited
  = Some (NameNext (labels ++ [l]) (zlen pre + (1 + zlen l)) jumps visited).
Proof.
  intros [Hl Hc]. set (m := pre ++ _ ++ post).
  assert (Hm : zlen m = zlen pre + (1 + zlen l) + zlen post).
  { unfold m. rewrite !zlen_app, zlen_cons. lia. }
  pose proof (zlen_nonneg post). pose proof (zlen_nonneg pre).
  unfold question_round. rewrite (proj2 (Z.leb_gt _ _)) by lia.
  assert (idx m (zlen pre) = Some (z2b (zlen l))) as ->.
  { unfold m. rewrite idx_app_r, Z.sub_diag by lia. done. }
  cbn [mbind option_bind]. cbv zeta. rewrite b2z_z2b, (Z.mod_small (zlen l)) by lia.
  rewrite (proj2 (Z.eqb_neq (zlen l) 0)) by lia. rewrite (small_length_flags _ Hl).
  cbn [Z.eqb negb]. rewrite (proj2 (Z.ltb_ge 63 _)), (proj2 (Z.ltb_ge (zlen m) _)) by lia.
  assert (sub m (zlen pre + 1) (zlen pre + 1 + zlen l) = Some l) as ->.
  { unfold m. change ((z2b (zlen l) :: l) ++ post) with ([z2b (zlen l)] ++ (l ++ post)).
    rewrite app_assoc. apply sub_app; rewrite zlen_app; unfold zlen; simpl; lia. }
  cbn [mbind option_bind]. by rewrite Hc.
Qed.

Lemma question_round_end pre post labels jumps visited :
  question_round (pre ++ x00 :: post) labels (zlen pre) jumps visited
  = Some (NameDone (Ok (if decide (labels = []) then str "."
                        else ToLower (Join labels (str "."))))).
Proof.
  unfold question_round. pose proof (zlen_nonneg post).
  rewrite (proj2 (Z.leb_gt _ _)) by (rewrite zlen_app; unfold zlen; simpl; lia).
  rewrite (idx_app_r _ _ (zlen pre)), Z.sub_diag by lia. cbn [mbind option_bind]. by case_decide.
Qed.

Lemma question_loop_labels labels fuel pre acc rest jumps visited :
  Forall valid_label labels → (length labels < fuel)%nat →
  question_loop fuel (pre ++ wire_name labels ++ rest) acc (zlen pre) jumps visited
  = Some (Ok (if decide (acc ++ labels = []) then str "."
              else ToLower (Join (acc ++ labels) (str ".")))).
Proof.
  revert fuel pre acc. induction labels as [|l labels IH]; intros fuel pre acc Hl Hf.
  - destruct fuel; [simpl in Hf; lia|]. cbn [question_loop]. unfold wire_name. cbn [map concat app].
    by rewrite question_round_end, app_nil_r.
  - destruct fuel as [|fuel]; [simpl in Hf; lia|]. inversion Hl; subst.
    cbn [question_loop]. unfold wire_name. cbn [map concat].
    rewrite <-!(app_assoc (z2b (zlen l) :: l)), question_round_label by done.
    replace (zlen pre + (1 + zlen l)) with (zlen (pre ++ z2b (zlen l) :: l))
      by (rewrite zlen_app; unfold zlen; simpl; lia).
    rewrite app_assoc. fold (wire_name labels).
    rewrite IH by (done || (simpl in Hf; lia)). by rewrite <-app_assoc.
Qed.

Lemma wire_name_length labels :
  Forall valid_label labels → (length labels < length (wire_name labels))%nat.
Proof.
  induction 1 as [|l labels [Hl _] _ IH]; [simpl; lia|].
  unfold wire_name in *. cbn [map concat]. rewrite !length_app in *. simpl in *.
  unfold zlen in Hl. lia.
Qed.

(** An uncompressed question name is decoded exactly.  For every header
    announcing a question and every sequence of legal labels, the parser
    returns the labels joined by dots in lower case ("." for the root),
    whatever follows the name in the message. *)
Theorem DNSQuestionName_wire header labels rest :
  length header = 12%nat → be_get (slice header 4 6) ≠ 0 → Forall valid_label labels →
  DNSQuestionName (header ++ wire_name labels ++ rest)
  = Some (Ok (if decide (labels = []) then str "." else ToLower (Join labels (str ".")))).
Proof.
  intros Hh Hq Hl. set (m := header ++ _).
  assert (Hm : (12 + length (wire_name labels) ≤ length m)%nat)
    by (unfold m; rewrite !length_app; lia).
  unfold DNSQuestionName. rewrite (proj2 (Z.ltb_ge (zlen m) 12)) by (unfold zlen; lia).
  rewrite sub_Some by (unfold zlen; lia). cbn [mbind option_bind].
  assert (slice m (Z.to_nat 4) (Z.to_nat 6) = slice header 4 6) as ->.
  { unfold m, slice. change (Z.to_nat 4) with 4%nat. change (Z.to_nat 6) with 6%nat.
    rewrite drop_app_le, take_app_le by (rewrite ?length_drop; lia). done. }
  rewrite (proj2 (Z.eqb_neq _ _)) by done.
  replace 12 with (zlen header) by (unfold zlen; lia). unfold m.
  rewrite question_loop_labels; [done|done|].
  pose proof (wire_name_length _ Hl). fold m. unfold question_fuel. lia.
Qed.

(** ** The characters of a name *)

(** Printable ASCII, not upper case. *)
Definition name_char (b : byte) : bool := in_range 0x21 0x7E (b2z b) && negb (is_upper b).

Lemma label_char_lower b : label_char_bad b = false → name_char (lower_byte b) = true.
Proof. by destruct b. Qed.

Lemma label_char_ascii b : label_char_bad b = false → is_ascii b = true.
Proof. by destruct b. Qed.

Definition good_label (l : gostring) : Prop :=
  l ≠ [] ∧ Forall (λ b, label_char_bad b = false) l.

Lemma existsb_false_Forall {A} (f : A → bool) l :
  existsb f l = false → Forall (λ x, f x = false) l.
Proof.
  induction l as [|x l IH]; simpl; [constructor|]. intros [? ?]%orb_false_iff. auto.
Qed.

Lemma question_round_labels message labels offset jumps visited labels' o' j' v' :
  Forall good_label labels →
  question_round message labels offset jumps visited = Some (NameNext labels' o' j' v') →
  Forall good_label labels'.
Proof.
  intros Hl. unfold question_round. case_if; [done|].
  destruct (idx message offset) as [b|]; [|done]. cbn [mbind option_bind]. cbv zeta.
  case_if as E1; [by case_decide|]. case_if as E2.
  - case_if; [done|]. destruct (idx message (offset + 1)); [|done]. cbn [mbind option_bind].
    case_if; [done|]. case_if; [done|]. by intros [= <- <- <- <-].
  - case_if; [done|]. case_if; [done|]. case_if; [done|].
    destruct (sub message _ _) as [l|] eqn:Es; [|done]. cbn [mbind option_bind].
    case_if as Ec; [done|]. intros [= <- <- <- <-]. apply Forall_app. split; [done|].
    constructor; [|constructor]. split; [|by apply existsb_false_Forall].
    apply sub_inv in Es as (_ & _ & _ & Es). bool_to_prop. pose proof (b2z_range b).
    intros ->. unfold zlen in Es. simpl in Es. lia.
Qed.

Lemma question_round_ok message labels offset jumps visited n :
  question_round message labels offset jumps visited = Some (NameDone (Ok n)) →
  n = str "." ∨ (labels ≠ [] ∧ n = ToLower (Join labels (str "."))).
Proof.
  unfold question_round. case_if; [done|].
  destruct (idx message offset) as [b|]; [|done]. cbn [mbind option_bind]. cbv zeta.
  case_if; [case_decide; intros [= <-]; auto|]. case_if.
  - case_if; [done|]. destruct (idx message (offset + 1)); [|done]. cbn [mbind option_bind].
    case_if; [done|]. by case_if.
  - case_if; [done|]. case_if; [done|]. case_if; [done|].
    destruct (sub message _ _) as [l|]; [|done]. cbn [mbind option_bind]. by case_if.
Qed.

Lemma Join_chars labels :
  Forall good_label labels → Forall (λ b, label_char_bad b = false) (Join labels (str ".")).
Proof.
  induction 1 as [|l labels [_ Hl] Hr IH]; [constructor|].
  destruct labels as [|l2 labels]; [done|]. cbn [Join].
  apply Forall_app. split; [done|]. apply Forall_app. split; [by repeat constructor|done].
Qed.

Lemma Join_nonempty labels sep : Forall good_label labels → labels ≠ [] → Join labels sep ≠ [].
Proof.
  destruct 1 as [|l labels [Hl _] Hr]; [done|]. intros _. destruct labels; [done|].
  cbn [Join]. by destruct l.
Qed.

Lemma ToLower_ascii s : forallb is_ascii s = true → ToLower s = map lower_byte s.
Proof. unfold ToLower. by intros ->. Qed.

Lemma good_name_chars labels :
  Forall good_label labels → labels ≠ [] →
  ToLower (Join labels (str ".")) ≠ [] ∧
  forallb name_char (ToLower (Join labels (str "."))) = true.
Proof.
  intros Hl Hne. pose proof (Join_chars _ Hl) as Hc.
  rewrite ToLower_ascii.
  - split; [intros E; apply map_eq_nil in E; by apply Join_nonempty in E|].
    apply forallb_forall. intros b (c & <- & Hin%list_elem_of_In)%in_map_iff.
    apply label_char_lower. rewrite Forall_forall in Hc. by apply Hc.
  - apply forallb_forall. intros b Hin%list_elem_of_In. apply label_char_ascii.
    rewrite Forall_forall in Hc. by apply Hc.
Qed.

Lemma question_loop_chars fuel message labels offset jumps visited n :
  Forall good_label labels →
  question_loop fuel message labels offset jumps visited = Some (Ok n) →
  n ≠ [] ∧ forallb name_char n = true.
Proof.
  revert labels offset jumps visited. induction fuel as [|fuel IH]; [done|].
  intros labels offset jumps visited Hl. cbn [question_loop].
  destruct (question_round _ _ _ _ _) as [[r|labels' o' j' v']|] eqn:E; [|by eauto using question_round_labels|done].
  intros [= ->]. apply question_round_ok in E as [->|[? ->]]; [done|by apply good_name_chars].
Qed.

Lemma DNSQuestionName_name message n :
  DNSQuestionName message = Some (Ok n) → n ≠ [] ∧ forallb name_char n = true.
Proof.
  unfold DNSQuestionName. case_if; [done|].
  destruct (sub message 4 6); [|done]. cbn [mbind option_bind]. case_if; [done|].
  by apply question_loop_chars.
Qed.

(** The name parser is total and its results are normalised.  On any byte
    string from the device [DNSQuestionName] returns a name or an error: the
    label loop terminates (compression-pointer loops included) and no index
    or slice is out of range.  A returned name is non-empty printable ASCII
    without upper-case letters, so no control or non-ASCII byte from the
    device reaches resolver selection. *)
Theorem DNSQuestionName_total message :
  ∃ r, DNSQuestionName message = Some r ∧
    match r with
    | Ok n => n ≠ [] ∧ forallb name_char n = true
    | Err _ => True
    end.
Proof.
  destruct (DNSQuestionName_returns message) as [[n|e] E]; [|by exists (Err e)].
  exists (Ok n). eauto using DNSQuestionName_name.
Qed.

(** * Resolver selection is longest suffix, then lowest order, then first *)

Definition domain_score (q d : gostring) : Z :=
  let c := normalizeDomain d in
  if streq c [] || negb (domainMatches q c) then -1 else zlen c.

(** How well a resolver matches: -1 not at all, 0 as a default resolver,
    otherwise the length of its longest matching domain. *)
Definition resolver_score (q : gostring) (r : Resolver) : Z :=
  if bool_decide (Nameservers r = []) then -1
  else if bool_decide (Domains r = []) then 0
  else foldr (λ d s, Z.max (domain_score q d) s) (-1) (Domains r).

Definition beats (s order : Z) (best : Best) : bool :=
  (0 <=? s) &&
  ((bestSuffixLength best <? s) || ((s =? bestSuffixLength best) && (order <? bestOrder best))).

Lemma domain_score_range q d : domain_score q d = -1 ∨ 0 < domain_score q d.
Proof.
  unfold domain_score. case_if as E; [by left|]. bool_to_prop. right. unfold zlen.
  destruct (normalizeDomain d); [done|simpl; lia].
Qed.

Lemma consider_domain_spec q i r best d :
  -1 ≤ bestSuffixLength best →
  consider_domain q i r best d =
    if beats (domain_score q d) (Order r) best
    then mkBest i (domain_score q d) (Order r) else best.
Proof.
  intros Hb. unfold consider_domain, beats. destruct (domain_score_range q d) as [E|E].
  - rewrite E. cbn [Z.leb Z.compare andb]. unfold domain_score in E.
    case_if; [done|]. exfalso. pose proof (zlen_nonneg (normalizeDomain d)). lia.
  - rewrite (proj2 (Z.leb_le 0 _)) by lia. cbn [andb]. unfold domain_score in *.
    case_if; [lia|]. done.
Qed.

Lemma consider_domains_spec q i r ds best :
  -1 ≤ bestSuffixLength best →
  let s := foldr (λ d s, Z.max (domain_score q d) s) (-1) ds in
  foldl (consider_domain q i r) best ds =
    if beats s (Order r) best then mkBest i s (Order r) else best.
Proof.
  revert best. induction ds as [|d ds IH]; intros best Hb; [done|]. cbn [foldl foldr]. cbv zeta.
  rewrite consider_domain_spec by done. set (s := foldr _ _ ds) in *.
  pose proof (domain_score_range q d). unfold beats in *.
  destruct best as [bi bs bo]. cbn [bestSuffixLength bestOrder] in *.
  case_if as E1; rewrite IH by (simpl; lia); cbn [bestSuffixLength bestOrder bestIndex];
    repeat case_if; try done; try (exfalso; bool_to_prop; lia); try (f_equal; lia).
Qed.

Definition Best_wf (best : Best) : Prop :=
  (bestIndex best = -1 ∧ bestSuffixLength best = -1) ∨
  (0 ≤ bestIndex best ∧ 0 ≤ bestSuffixLength best).

Lemma resolver_score_range q r : -1 ≤ resolver_score q r.
Proof.
  unfold resolver_score. case_if; [done|]. case_if; [done|]. generalize (Domains r) as ds.
  clear. induction ds; cbn [foldr]; lia.
Qed.

Lemma consider_resolver_spec q i r best :
  Best_wf best →
  consider_resolver q best i r =
    if beats (resolver_score q r) (Order r) best
    then mkBest i (resolver_score q r) (Order r) else best.
Proof.
  intros Hb. unfold consider_resolver, resolver_score. case_if; [done|]. case_if as E.
  - unfold beats, Best_wf in *. repeat case_if; try done; exfalso; bool_to_prop; lia.
  - apply consider_domains_spec. unfold Best_wf in Hb. lia.
Qed.

(** [best] is optimal for the resolvers [done], the first of which has index 0. *)
Definition optimal (q : gostring) (rs : list Resolver) (best : Best) : Prop :=
  (bestIndex best = -1 ∧ bestSuffixLength best = -1 ∧
   ∀ j r', rs !! j = Some r' → resolver_score q r' = -1) ∨
  (∃ i r, rs !! i = Some r ∧ bestIndex best = Z.of_nat i ∧
     bestSuffixLength best = resolver_score q r ∧ bestOrder best = Order r ∧
     0 ≤ resolver_score q r ∧
     ∀ j r', rs !! j = Some r' →
       resolver_score q r' < resolver_score q r ∨
       (resolver_score q r' = resolver_score q r ∧
        (Order r < Order r' ∨ (Order r = Order r' ∧ (i ≤ j)%nat)))).

Lemma optimal_wf q rs best : optimal q rs best → Best_wf best.
Proof. intros [(? & ? & _)|(i & r & _ & ? & ? & _ & ? & _)]; [left|right]; lia. Qed.

Lemma optimal_snoc q rs r best :
  optimal q rs best →
  optimal q (rs ++ [r]) (consider_resolver q best (Z.of_nat (length rs)) r).
Proof.
  intros Ho. rewrite consider_resolver_spec by (by eapply optimal_wf).
  pose proof (resolver_score_range q r) as Hr.
  assert (Hlk : ∀ j r', (rs ++ [r]) !! j = Some r' →
            rs !! j = Some r' ∨ (j = length rs ∧ r' = r)).
  { intros j r' [Hj|[Hj Hx]]%lookup_app_Some; [by left|]. right.
    destruct (j - length rs)%nat eqn:E; simplify_eq/=. split; [lia|done]. }
  assert (Hlast : (rs ++ [r]) !! length rs = Some r)
    by (by rewrite lookup_app_r, Nat.sub_diag by lia).
  unfold beats. destruct Ho as [(E1 & E2 & Hall)|(i & r0 & Hi & E1 & E2 & E3 & Hs & Hall)]; case_if as Eb.
  - right. exists (length rs), r. cbn. split_and!; try done; [bool_to_prop; lia|].
    intros j r' [Hj|[-> ->]]%Hlk; [|lia].
    left. rewrite (Hall _ _ Hj). bool_to_prop. lia.
  - left. split_and!; [done|done|]. intros j r' [Hj|[-> ->]]%Hlk; [by eapply Hall|]. lia.
  - right. exists (length rs), r. cbn. split_and!; try done; [bool_to_prop; lia|].
    intros j r' [Hj|[-> ->]]%Hlk; [|lia]. apply Hall in Hj. lia.
  - right. exists i, r0. split_and!; try done; [by apply lookup_app_l_Some|].
    intros j r' [Hj|[-> ->]]%Hlk; [by apply Hall|].
    apply lookup_lt_Some in Hi. lia.
Qed.

Lemma select_loop_optimal q rest pre best :
  optimal q pre best →
  optimal q (pre ++ rest) (select_loop q best (Z.of_nat (length pre)) rest).
Proof.
  revert pre best. induction rest as [|r rest IH]; intros pre best Ho; cbn [select_loop].
  - by rewrite app_nil_r.
  - rewrite cons_middle, app_assoc.
    replace (Z.of_nat (length pre) + 1) with (Z.of_nat (length (pre ++ [r])))
      by (rewrite length_app; simpl; lia).
    apply IH. by apply optimal_snoc.
Qed.

Lemma select_optimal q rs : optimal q rs (select_loop q initialBest 0 rs).
Proof.
  apply (select_loop_optimal q rs [] initialBest). left. split_and!; [done|done|].
  intros j r' Hj. by rewrite lookup_nil in Hj.
Qed.

Lemma selectResolver_returns rs question : ∃ r, selectResolver rs question = Some r.
Proof.
  unfold selectResolver. set (q := normalizeDomain question).
  destruct (select_optimal q rs) as [(E & _ & _)|(i & r & Hi & E & _)]; rewrite E; [by eauto|].
  rewrite (proj2 (Z.eqb_neq _ _)), idx_nat, Hi by lia. cbn. eauto.
Qed.

(** The selected resolver is one of the given ones and matches the name. *)
Lemma selectResolver_in rs question r :
  selectResolver rs question = Some (Ok r) →
  r ∈ rs ∧ 0 ≤ resolver_score (normalizeDomain question) r.
Proof.
  unfold selectResolver. set (q := normalizeDomain question).
  destruct (select_optimal q rs) as [(E & _ & _)|(i & r0 & Hi & E & _ & _ & Hs & _)]; rewrite E; [done|].
  rewrite (proj2 (Z.eqb_neq _ _)), idx_nat, Hi by lia. cbn. intros [= <-].
  split; [by eapply list_elem_of_lookup_2|done].
Qed.

(** C29: resolver selection.  [selectResolver] never panics.  It fails exactly
    when no resolver with a nameserver matches; otherwise it returns the
    resolver with the longest matching domain suffix (a resolver without
    domains counts as a match of length zero), among equals the one with the
    smallest order, and among those the first. *)
Theorem selectResolver_spec rs question :
  let q := normalizeDomain question in
  match selectResolver rs question with
  | None => False
  | Some (Err _) => ∀ r, r ∈ rs → resolver_score q r = -1
  | Some (Ok r) =>
      ∃ i, rs !! i = Some r ∧ 0 ≤ resolver_score q r ∧
        ∀ j r', rs !! j = Some r' →
          resolver_score q r' < resolver_score q r ∨
          (resolver_score q r' = resolver_score q r ∧
           (Order r < Order r' ∨ (Order r = Order r' ∧ (i ≤ j)%nat)))
  end.
Proof.
  cbv zeta. unfold selectResolver. set (q := normalizeDomain question).
  destruct (select_optimal q rs) as [(E & _ & Hall)|(i & r & Hi & E & _ & _ & Hs & Hall)]; rewrite E.
  - cbn. intros r [j Hj]%list_elem_of_lookup. by eapply Hall.
  - rewrite (proj2 (Z.eqb_neq _ _)), idx_nat, Hi by lia. cbn. eauto.
Qed.

(** * The [scutil] parser *)

Record Resolver_wf (r : Resolver) : Prop := {
  rwf_servers : Nameservers r ≠ [];
  rwf_ipv4 : Forall (λ a, Is4 a = true) (Nameservers r);
  rwf_port : 1 ≤ Port r ≤ 65535;
  rwf_domains : Forall (λ d, d ≠ []) (Domains r);
  rwf_unique : NoDup (Domains r);
}.

Lemma unique_go_spec ds seen :
  NoDup (unique_go ds seen) ∧ Forall (λ d, d ≠ [] ∧ d ∉ seen) (unique_go ds seen).
Proof.
  revert seen. induction ds as [|d ds IH]; intros seen; cbn [unique_go].
  - split; constructor.
  - case_if; [apply IH|]. case_if; [apply IH|]. bool_to_prop.
    destruct (IH (normalizeDomain d :: seen)) as [Hn Hf]. split.
    + constructor; [|done]. intros Hin. rewrite Forall_forall in Hf.
      apply Hf in Hin as [_ Hin]. set_solver.
    + constructor; [done|]. eapply Forall_impl; [done|]. set_solver.
Qed.

Lemma ParseAddr4_Is4 s a : ParseAddr4 s = Some a → Is4 a = true.
Proof. unfold ParseAddr4, parse_ipv4. intros H1. split_cases. Qed.

Definition block_wf (r : Resolver) : Prop :=
  Forall (λ a, Is4 a = true) (Nameservers r) ∧ 0 ≤ Port r ≤ 65535.

Definition Scan_wf (s : Scan) : Prop := block_wf (sc_current s) ∧ Forall Resolver_wf (sc_done s).

Lemma flush_wf s : Scan_wf s → Scan_wf (flush s).
Proof.
  intros [[H4 Hp] Hd]. unfold flush. case_if as E; [split; [split; [constructor|cbn; lia]|done]|].
  bool_to_prop. split; [split; [constructor|cbn; lia]|]. cbn [sc_done].
  apply Forall_app. split; [done|]. constructor; [|constructor].
  destruct (unique_go_spec (Domains (sc_current s)) []) as [Hn Hf].
  split; cbn [Nameservers Port Domains]; try done.
  - unfold defaultDNSPort. case_if; bool_to_prop; lia.
  - eapply Forall_impl; [exact Hf|]. naive_solver.
Qed.

Lemma scan_field_wf r k v : block_wf r → block_wf (scan_field r k v).
Proof.
  intros [H4 Hp]. unfold scan_field. repeat case_if; try done.
  - destruct (ParseAddr4 v) eqn:E; [|done]. split; [|done]. cbn [Nameservers].
    apply Forall_app. split; [done|]. constructor; [by eapply ParseAddr4_Is4|constructor].
  - destruct (ParseUint v 16) eqn:E; [|done]. unfold ParseUint in E.
    case_match; [|done]. case_if in E as E1; [|done]. simplify_eq.
    case_if; [|done]. split; [done|]. cbn [Port]. bool_to_prop. lia.
  - by destruct (Atoi v).
Qed.

Lemma scan_line_wf s l : Scan_wf s → Scan_wf (scan_line s l).
Proof.
  intros Hs. unfold scan_line. case_if.
  - pose proof (flush_wf s Hs) as [? ?]. by split.
  - case_if; [done|]. destruct (Cut _ _) as [[k v] f]. case_if; [done|].
    destruct Hs. split; [by apply scan_field_wf|done].
Qed.

Lemma scutil_blocks_wf output : Forall Resolver_wf (scutil_blocks output).
Proof.
  unfold scutil_blocks. apply flush_wf.
  assert (∀ ls s, Scan_wf s → Scan_wf (foldl scan_line s ls)) as H1.
  { induction ls as [|l ls IH]; intros s Hs; cbn [foldl]; [done|]. by apply IH, scan_line_wf. }
  apply H1. split; [split; [constructor|cbn; lia]|constructor].
Qed.

Definition order_le (a b : Resolver) : Prop := Order a ≤ Order b.

Lemma insert_by_order_perm r l : insert_by_order r l ≡ₚ r :: l.
Proof.
  induction l as [|x l IH]; cbn [insert_by_order]; [done|]. case_if; [done|].
  rewrite IH. apply Permutation_swap.
Qed.

Lemma insert_by_order_sorted r l :
  StronglySorted order_le l → StronglySorted order_le (insert_by_order r l).
Proof.
  induction 1 as [|x l Hs IH Hf]; cbn [insert_by_order]; [by repeat constructor|].
  unfold order_le in *. case_if as E; bool_to_prop.
  - constructor; [by constructor|]. constructor; [lia|].
    eapply Forall_impl; [exact Hf|]. cbn. intros. lia.
  - constructor; [done|]. rewrite insert_by_order_perm. by constructor.
Qed.

Lemma insert_by_order_stable r l k :
  StronglySorted order_le l →
  filter (λ x, Order x = k) (insert_by_order r l)
  = filter (λ x, Order x = k) l ++ filter (λ x, Order x = k) [r].
Proof.
  induction 1 as [|x l Hs IH Hf]; [done|]. cbn [insert_by_order]. case_if as E; bool_to_prop.
  - rewrite (filter_cons _ r), (filter_cons _ r []). case_decide as Hk; [|by rewrite app_nil_r].
    rewrite (filter_none _ (x :: l)); [done|]. constructor; [lia|].
    eapply Forall_impl; [exact Hf|]. unfold order_le. intros y Hy. cbn in Hy. lia.
  - rewrite !filter_cons, IH. by case_decide.
Qed.

(** The stable sort: a permutation, ascending, and the entries of one order
    keep their relative positions. *)
Lemma sort_stable_spec l :
  sort_stable l ≡ₚ l ∧ StronglySorted order_le (sort_stable l) ∧
  ∀ k, filter (λ x, Order x = k) (sort_stable l) = filter (λ x, Order x = k) l.
Proof.
  unfold sort_stable.
  assert (∀ acc, StronglySorted order_le acc →
    let s := foldl (λ acc r, insert_by_order r acc) acc l in
    s ≡ₚ acc ++ l ∧ StronglySorted order_le s ∧
    ∀ k, filter (λ x, Order x = k) s = filter (λ x, Order x = k) (acc ++ l)) as H1.
  { induction l as [|r l IH]; intros acc Ha; cbn [foldl]; cbv zeta; [by rewrite app_nil_r|].
    destruct (IH _ (insert_by_order_sorted r acc Ha)) as (Hp & Hs & Hk). split_and!; [|done|].
    - rewrite Hp, insert_by_order_perm. simpl. by rewrite Permutation_middle.
    - intros k. rewrite Hk, !filter_app, insert_by_order_stable by done.
      rewrite (filter_cons _ r l), <-app_assoc. f_equal. rewrite filter_cons. by case_decide. }
  apply (H1 []). constructor.
Qed.

(** What the [scutil] parser returns.  On success the list is non-empty
    and every resolver has at least one nameserver, only IPv4 nameservers, a
    port in 1...65535, and non-empty, duplicate-free domains; the list is the
    report's blocks in ascending order value, and blocks of equal order keep
    the order of the report. *)
Theorem ParseScutilDNS_ok output rs :
  ParseScutilDNS output = Ok rs →
  rs ≠ [] ∧ Forall Resolver_wf rs ∧ StronglySorted order_le rs ∧
  rs ≡ₚ scutil_blocks output ∧
  ∀ k, filter (λ r, Order r = k) rs = filter (λ r, Order r = k) (scutil_blocks output).
Proof.
  unfold ParseScutilDNS. case_decide as E; [done|]. intros [= <-].
  destruct (sort_stable_spec (scutil_blocks output)) as (Hp & Hs & Hk). split_and!; try done.
  - intros E'. rewrite E' in Hp. by apply Permutation_nil_l in Hp.
  - rewrite Hp. apply scutil_blocks_wf.
Qed.
End names.

(** ** Concrete runs *)

Definition sample_header : list byte := [x12; x34; x01; x00; x00; x01; x00; x00; x00; x00; x00; x00].

Lemma DNSQuestionName_wire_witness :
  @DNSQuestionName ascii_unicode
     (sample_header ++ wire_name [str "Git"; str "corp"; str "Example"] ++ [x00; x01; x00; x01])
  = Some (Ok (str "git.corp.example")).
Proof.
  rewrite (@DNSQuestionName_wire ascii_unicode sample_header [str "Git"; str "corp"; str "Example"]).
  - vm_compute. reflexivity.
  - reflexivity.
  - vm_compute. discriminate.
  - repeat constructor; vm_compute; congruence.
Defined.

Definition sample_report : gostring :=
  str "DNS configuration" ++ [x0a] ++
  str "resolver #1" ++ [x0a] ++
  str "  nameserver[0] : 10.0.0.53" ++ [x0a] ++
  str "  order   : 200" ++ [x0a] ++
  str "resolver #2" ++ [x0a] ++
  str "  domain   : Corp.Example." ++ [x0a] ++
  str "  nameserver[0] : fe80::1" ++ [x0a] ++
  str "  nameserver[1] : 172.16.0.1" ++ [x0a] ++
  str "  port     : 5353" ++ [x0a] ++
  str "  order    : 100" ++ [x0a].

Definition sample_resolvers : list Resolver :=
  [mkResolver [str "corp.example"] [Addr4 xac x10 x00 x01] 5353 100;
   mkResolver [] [Addr4 x0a x00 x00 x35] 53 200].

Lemma ParseScutilDNS_ok_witness :
  sample_resolvers ≠ [] ∧ Forall Resolver_wf sample_resolvers ∧
  StronglySorted order_le sample_resolvers ∧
  sample_resolvers ≡ₚ @scutil_blocks ascii_unicode sample_report ∧
  ∀ k, filter (λ r, Order r = k) sample_resolvers
       = filter (λ r, Order r = k) (@scutil_blocks ascii_unicode sample_report).
Proof.
  apply (@ParseScutilDNS_ok ascii_unicode sample_report). vm_compute. reflexivity.
Defined.

End dns.
