(* ===== verification/DnsSpec.v ===== *)
(** A reference semantics of DNS names and the exactness of the parser.

    [name_at] is the wire grammar of names as an inductive relation: a root, a
    label of 1 to 63 bytes followed by a name, or a pointer to a name anywhere
    in the message.  RFC 1035 (sections 2.3.4, 3.1 and 4.1.4) admits fewer
    names, [rfc_name]: pointers lead back, and a name has at most 255 octets.
    [DNSQuestionName_exact] shows that [DNSQuestionName]
    (src/internal/relay/dns.go) accepts exactly the names of the grammar whose
    labels are printable ASCII and that take at most 32 pointers.  Of the names
    of RFC 1035 it refuses those with other bytes in a label (a space, UTF-8)
    or more pointers, and nothing else: the loop detection refuses no name; it
    also accepts names that are too long or point forward. *)
From S2P Require Import Prelude Errors GoIO GoStrings GoOS GoNet Dns.
Import dns.

Module dnsspec.

(** [name_at m off jumps labels]: at [off] the message [m] encodes [labels],
    following [jumps] pointers. *)
Inductive name_at (m : list byte) : Z → nat → list gostring → Prop :=
| name_root off : idx m off = Some x00 → name_at m off 0 []
| name_label off l jumps labels :
    1 ≤ zlen l ≤ 63 → idx m off = Some (z2b (zlen l)) →
    sub m (off + 1) (off + 1 + zlen l) = Some l →
    name_at m (off + 1 + zlen l) jumps labels → name_at m off jumps (l :: labels)
| name_pointer off hi lo jumps labels :
    idx m off = Some hi → idx m (off + 1) = Some lo → 192 ≤ b2z hi →
    name_at m ((b2z hi - 192) * 256 + b2z lo) jumps labels → name_at m off (S jumps) labels.

(** The same with pointers that lead to an earlier place. *)
Inductive backward_name (m : list byte) : Z → nat → list gostring → Prop :=
| back_root off : idx m off = Some x00 → backward_name m off 0 []
| back_label off l jumps labels :
    1 ≤ zlen l ≤ 63 → idx m off = Some (z2b (zlen l)) →
    sub m (off + 1) (off + 1 + zlen l) = Some l →
    backward_name m (off + 1 + zlen l) jumps labels → backward_name m off jumps (l :: labels)
| back_pointer off hi lo jumps labels :
    idx m off = Some hi → idx m (off + 1) = Some lo → 192 ≤ b2z hi → (b2z hi - 192) * 256 + b2z lo < off →
    backward_name m ((b2z hi - 192) * 256 + b2z lo) jumps labels → backward_name m off (S jumps) labels.

(** The octets of a name without compression. *)
Definition name_octets (labels : list gostring) : Z := zlen (wire_name labels).

(** A name of RFC 1035. *)
Definition rfc_name (m : list byte) (off : Z) (jumps : nat) (labels : list gostring) : Prop :=
  backward_name m off jumps labels ∧ name_octets labels ≤ 255.

(** Visible ASCII, the labels the parser takes. *)
Definition printable (l : gostring) : Prop := Forall (λ c, 0x21 ≤ b2z c ≤ 0x7E) l.

Lemma backward_name_at m off jumps labels : backward_name m off jumps labels → name_at m off jumps labels.
Proof. induction 1; by econstructor. Qed.

Lemma printable_label l : valid_label l ↔ 1 ≤ zlen l ≤ 63 ∧ printable l.
Proof.
  unfold valid_label, printable. apply and_iff_compat_l. rewrite <-not_true_iff_false, existsb_exists, Forall_forall.
  unfold label_char_bad. split.
  - intros Hn c Hc%list_elem_of_In. destruct (decide (0x21 ≤ b2z c ≤ 0x7E)) as [|Hb]; [done|]. destruct Hn. exists c.
    split; [done|]. rewrite orb_true_iff, !Z.ltb_lt. lia.
  - intros Hf (c & Hc & Hb). apply list_elem_of_In in Hc. apply Hf in Hc. rewrite orb_true_iff, !Z.ltb_lt in Hb. lia.
Qed.

Section dnsspec.
Context `{Unicode}.

(** The text of a name. *)
Definition render (labels : list gostring) : gostring :=
  if decide (labels = []) then str "." else ToLower (Join labels (str ".")).

(** ** Length bytes *)

Lemma pointer_flag hi : (Z.land (b2z hi) 0xC0 =? 0xC0) = (192 <=? b2z hi).
Proof. by destruct hi. Qed.

Lemma pointer_bits hi : 192 ≤ b2z hi → Z.land (b2z hi) 0x3F = b2z hi - 192.
Proof. by destruct hi. Qed.

Lemma label_flag b : b2z b ≤ 63 → Z.land (b2z b) 0xC0 = 0.
Proof. by destruct b. Qed.

Lemma pointer_value hi lo :
  192 ≤ b2z hi → Z.lor (Z.shiftl (Z.land (b2z hi) 0x3F) 8) (b2z lo) = (b2z hi - 192) * 256 + b2z lo.
Proof.
  intros Hh. by rewrite (pointer_bits _ Hh), lor_shiftl_add.
Qed.

Lemma label_byte (l : gostring) : 1 ≤ zlen l ≤ 63 → b2z (z2b (zlen l)) = zlen l.
Proof. intros Hl. rewrite b2z_z2b. apply Z.mod_small. lia. Qed.

(** ** A name is unique *)

Lemma name_at_det m off j1 l1 j2 l2 : name_at m off j1 l1 → name_at m off j2 l2 → j1 = j2 ∧ l1 = l2.
Proof.
  intros H1. revert j2 l2.
  induction H1 as [off E|off l j ls Hl E Es _ IH|off hi lo j ls E E' Hh _ IH]; intros j2 l2 H2;
    destruct H2 as [off E2|off k j2 l2 Hk E2 Es2 H2|off hi2 lo2 j2 l2 E2 E2' Hh2 H2];
    match type of E with _ = Some ?a => match type of E2 with _ = Some ?b =>
      assert (b2z a = b2z b) as Hb by (rewrite E in E2; congruence) end end;
    rewrite ?label_byte in Hb by done; change (b2z x00) with 0 in Hb; try lia.
  - done.
  - rewrite Hb in *. assert (l = k) as -> by congruence. by destruct (IH _ _ H2) as [-> ->].
  - rewrite E in E2. rewrite E' in E2'. simplify_eq. by destruct (IH _ _ H2) as [-> ->].
Qed.

(** ** One round of the loop *)

Lemma idx_in {A} (m : list A) off b : idx m off = Some b → (zlen m <=? off) = false.
Proof. intros [Hr _]%idx_Some. apply Z.leb_gt. lia. Qed.

Lemma round_root m labels off jumps visited :
  idx m off = Some x00 → question_round m labels off jumps visited = Some (NameDone (Ok (render labels))).
Proof.
  intros E. unfold question_round, render. rewrite (idx_in _ _ _ E), E. cbn. by case_decide.
Qed.

Lemma round_label m labels off l jumps visited :
  valid_label l → idx m off = Some (z2b (zlen l)) → sub m (off + 1) (off + 1 + zlen l) = Some l →
  question_round m labels off jumps visited = Some (NameNext (labels ++ [l]) (off + (1 + zlen l)) jumps visited).
Proof.
  intros [Hr Hc] E Es. apply sub_inv in Es as Hs.
  unfold question_round. rewrite (idx_in _ _ _ E), E. cbn [mbind option_bind]. cbv zeta.
  rewrite (label_byte _ Hr), (proj2 (Z.eqb_neq (zlen l) 0)), (small_length_flags _ Hr) by lia. cbn [Z.eqb negb].
  rewrite (proj2 (Z.ltb_ge 63 _)), (proj2 (Z.ltb_ge (zlen m) _)), Es by lia. cbn [mbind option_bind].
  by rewrite Hc.
Qed.

Lemma round_pointer m labels off hi lo jumps visited :
  idx m off = Some hi → idx m (off + 1) = Some lo → 192 ≤ b2z hi →
  let p := (b2z hi - 192) * 256 + b2z lo in
  p < zlen m → p ∉ visited → jumps < maximumDNSNameJumps →
  question_round m labels off jumps visited = Some (NameNext labels p (jumps + 1) (p :: visited)).
Proof.
  intros E E' Hh p Hp Hv Hj. unfold question_round. rewrite (idx_in _ _ _ E), E. cbn [mbind option_bind]. cbv zeta.
  rewrite (proj2 (Z.eqb_neq (b2z hi) 0)), pointer_flag, (proj2 (Z.leb_le 192 _)) by lia.
  rewrite (idx_in _ _ _ E'), E'. cbn [mbind option_bind]. rewrite pointer_value by done. fold p.
  rewrite (proj2 (Z.leb_gt (zlen m) _)), bool_decide_eq_false_2 by done.
  by rewrite (proj2 (Z.leb_gt maximumDNSNameJumps _)) by done.
Qed.

(** What a round that goes on has read. *)
Lemma round_next m labels off jumps visited labels' off' jumps' visited' :
  question_round m labels off jumps visited = Some (NameNext labels' off' jumps' visited') →
  (∃ l, valid_label l ∧ idx m off = Some (z2b (zlen l)) ∧ sub m (off + 1) (off + 1 + zlen l) = Some l ∧
     labels' = labels ++ [l] ∧ off' = off + 1 + zlen l ∧ jumps' = jumps) ∨
  (∃ hi lo, idx m off = Some hi ∧ idx m (off + 1) = Some lo ∧ 192 ≤ b2z hi ∧
     labels' = labels ∧ off' = (b2z hi - 192) * 256 + b2z lo ∧ jumps' = jumps + 1 ∧ jumps < maximumDNSNameJumps).
Proof.
  unfold question_round. case_if; [done|].
  destruct (idx m off) as [b|] eqn:E; [|done]. cbn [mbind option_bind]. cbv zeta.
  case_if as E1; [by case_decide|]. rewrite pointer_flag. case_if as E2.
  - case_if; [done|]. destruct (idx m (off + 1)) as [lo|] eqn:E'; [|done]. cbn [mbind option_bind].
    bool_to_prop. rewrite pointer_value by done. case_if; [done|]. case_if; [done|].
    intros [= <- <- <- <-]. bool_to_prop. right. by exists b, lo.
  - case_if; [done|]. case_if as E3; [done|]. case_if; [done|].
    destruct (sub m _ _) as [l|] eqn:Es; [|done]. cbn [mbind option_bind].
    case_if as Ec; [done|]. intros [= <- <- <- <-]. left. exists l. bool_to_prop.
    apply sub_inv in Es as Hs. pose proof (b2z_range b).
    assert (zlen l = b2z b) as Hl by lia. rewrite Hl, z2b_b2z. split_and!; try done; [|lia].
    split; [lia|done].
Qed.

Lemma round_done m labels off jumps visited n :
  question_round m labels off jumps visited = Some (NameDone (Ok n)) → idx m off = Some x00 ∧ n = render labels.
Proof.
  unfold question_round, render. case_if; [done|].
  destruct (idx m off) as [b|] eqn:E; [|done]. cbn [mbind option_bind]. cbv zeta. case_if as E1.
  - bool_to_prop. assert (b = x00) as -> by (by apply (inj b2z)). case_decide; by intros [= <-].
  - case_if; [repeat (case_if; [done|]); destruct (idx m (off + 1)); [|done]; cbn [mbind option_bind];
      case_if; [done|]; by case_if|].
    repeat (case_if; [done|]). destruct (sub m _ _); [|done]. cbn [mbind option_bind]. by case_if.
Qed.

(** ** The loop computes the relation *)

Lemma loop_sound fuel m labels off jumps visited n :
  0 ≤ jumps ≤ maximumDNSNameJumps →
  question_loop fuel m labels off jumps visited = Some (Ok n) →
  ∃ j ls, name_at m off j ls ∧ Forall printable ls ∧ jumps + Z.of_nat j ≤ maximumDNSNameJumps ∧ n = render (labels ++ ls).
Proof.
  revert labels off jumps visited. induction fuel as [|fuel IH]; [done|].
  intros labels off jumps visited Hj. cbn [question_loop].
  destruct (question_round _ _ _ _ _) as [[r|labels' o' j' v']|] eqn:E; [| |done].
  - intros [= ->]. apply round_done in E as [E ->]. exists 0%nat, []. rewrite app_nil_r.
    split_and!; [by constructor|constructor|lia|done].
  - apply round_next in E as [(l & Hl & E & Es & -> & -> & ->)|(hi & lo & E & E' & Hh & -> & -> & -> & Hm)].
    + intros (j & ls & Hn & Hp & Hle & ->)%IH; [|done]. exists j, (l :: ls). rewrite <-app_assoc.
      apply printable_label in Hl as [Hl Hc]. split_and!; [by econstructor|by constructor|done|done].
    + intros (j & ls & Hn & Hp & Hle & ->)%IH; [|lia]. exists (S j), ls. split_and!; [by econstructor|done|lia|done].
Qed.

(** While a name is read, every pointer target seen so far starts a name that
    still has the rest of the current one ahead of it. *)
Lemma loop_complete fuel m labels off jumps visited j ls r :
  name_at m off j ls → Forall printable ls → jumps + Z.of_nat j ≤ maximumDNSNameJumps →
  (∀ p j' ls', p ∈ visited → name_at m p j' ls' → (j ≤ j')%nat) →
  question_loop fuel m labels off jumps visited = Some r → r = Ok (render (labels ++ ls)).
Proof.
  intros Hn. revert fuel labels jumps visited.
  induction Hn as [off E|off l j ls Hl E Es _ IH|off hi lo j ls E E' Hh Hn IH];
    intros [|fuel] labels jumps visited Hp Hj Hv; cbn [question_loop]; try done.
  - rewrite (round_root _ _ _ _ _ E), app_nil_r. by intros [= <-].
  - apply Forall_cons in Hp as [Hc Hp]. rewrite (round_label _ _ _ _ _ _ (proj2 (printable_label l) (conj Hl Hc)) E Es), Z.add_assoc.
    intros ->%IH; [|done..]. by rewrite <-app_assoc.
  - assert (∃ b, idx m ((b2z hi - 192) * 256 + b2z lo) = Some b) as [b [Hb _]%idx_Some] by (destruct Hn; eauto).
    rewrite (round_pointer _ _ _ _ _ _ _ E E' Hh); [|lia| |lia].
    + apply IH; [done|lia|]. intros p j' ls' [->|Hin]%elem_of_cons Hn'; [|by specialize (Hv _ _ _ Hin Hn'); lia].
      by destruct (name_at_det _ _ _ _ _ _ Hn Hn') as [-> _].
    + intros Hin. specialize (Hv _ _ _ Hin Hn). lia.
Qed.

Lemma question_exact message n :
  DNSQuestionName message = Some (Ok n) ↔
  12 ≤ zlen message ∧ be_get (slice message 4 6) ≠ 0 ∧
  ∃ jumps labels, name_at message 12 jumps labels ∧ Forall printable labels ∧ (jumps ≤ 32)%nat ∧ n = render labels.
Proof.
  destruct (DNSQuestionName_returns message) as [r Hr]. unfold DNSQuestionName in *.
  destruct (zlen message <? 12) eqn:E12; bool_to_prop; [split; [done|lia]|].
  rewrite sub_Some in * by lia. cbn [mbind option_bind] in *.
  change (Z.to_nat 4) with 4%nat in *. change (Z.to_nat 6) with 6%nat in *.
  destruct (be_get _ =? 0) eqn:E0; bool_to_prop; [split; [done|tauto]|]. split.
  - intros (j & ls & Hn & Hp & Hj & ->)%loop_sound; [|unfold maximumDNSNameJumps; lia]. unfold maximumDNSNameJumps in Hj.
    split_and!; [done..|]. exists j, ls. split_and!; [done|done|lia|done].
  - intros (_ & _ & j & ls & Hn & Hp & Hj & ->). rewrite Hr. f_equal.
    eapply (loop_complete _ _ [] 12 0 []); [done|done|unfold maximumDNSNameJumps; lia| |done].
    intros p j' ls' Hin. by apply not_elem_of_nil in Hin.
Qed.

(** C28: the parser is exact.  A message yields a question name if and only if
    it has a header that announces a question and encodes, from byte 12 and
    through at most 32 compression pointers, a sequence of labels of visible
    ASCII; the name is then those labels in lower case joined by dots.  Of the
    names RFC 1035 allows, exactly those with a label outside visible ASCII or
    more than 32 pointers are refused. *)
Theorem DNSQuestionName_exact message n :
  (DNSQuestionName message = Some (Ok n) ↔
   12 ≤ zlen message ∧ be_get (slice message 4 6) ≠ 0 ∧
   ∃ jumps labels, name_at message 12 jumps labels ∧ Forall printable labels ∧ (jumps ≤ 32)%nat ∧ n = render labels) ∧
  (12 ≤ zlen message → be_get (slice message 4 6) ≠ 0 → ∀ jumps labels, rfc_name message 12 jumps labels →
   (DNSQuestionName message = Some (Ok n) ↔ Forall printable labels ∧ (jumps ≤ 32)%nat ∧ n = render labels)).
Proof.
  split; [apply question_exact|]. intros Hl Hq jumps labels [Hn%backward_name_at _]. rewrite question_exact. split.
  - intros (_ & _ & j & ls & Hn' & Hp & Hj & ->). by destruct (name_at_det _ _ _ _ _ _ Hn Hn') as [-> ->].
  - intros (Hp & Hj & ->). split_and!; [done|done|]. by exists jumps, labels.
Qed.

(** A header that announces one question. *)
Definition sample_header : list byte := [x00; x00; x00; x00; x00; x01; x00; x00; x00; x00; x00; x00].

(** A pointer forward, to a root, is followed. *)
Example forward_pointer :
  DNSQuestionName (sample_header ++ [xc0; x0e; x00]) = Some (Ok (str ".")) ∧
  ¬ ∃ jumps labels, rfc_name (sample_header ++ [xc0; x0e; x00]) 12 jumps labels.
Proof.
  split; [done|]. intros (jumps & labels & Hn & _). inversion Hn as [off E|off l j ls Hl E _ _|off hi lo j ls E1 E2 Hh Hlt _].
  - discriminate E.
  - change (Some xc0 = Some (z2b (zlen l))) in E. apply (inj Some), (f_equal b2z) in E. rewrite label_byte in E by done.
    change (b2z xc0) with 192 in E. lia.
  - vm_compute in E1, E2. injection E1 as <-. injection E2 as <-. vm_compute in Hlt. discriminate Hlt.
Qed.
End dnsspec.
End dnsspec.
