(* ===== verification/DnsExchange.v ===== *)
(** The DNS exchange of src/internal/relay/dns.go: DNS-over-TCP framing,
    response validation, the cached resolver snapshot and [Exchange] with its
    one retry after a resolver refresh. *)
From S2P Require Import Prelude Errors GoIO GoStrings GoOS GoNet Dns.
Import dns.

Module exchange.

(** * DNS over TCP (src/internal/relay/engine.go) *)

Definition readDNSFrame (reader : Reader) : result error (list byte) * Reader :=
  match ReadFull reader 2 with
  | (Err err, reader) => (Err err, reader)
  | (Ok lengthBytes, reader) =>
      let length := be_get lengthBytes in
      if length <? 12 then
        (Err (ENew (str "DNS TCP frame is shorter than a DNS header")), reader)
      else ReadFull reader (Z.to_nat length)
  end.

Definition writeDNSFrame (writer : Writer) (payload : list byte) : option error * Writer :=
  if (zlen payload <? 12) || (65535 <? zlen payload) then
    (Some (ENew (str "DNS TCP response length is invalid")), writer)
  else
    let header := [z2b (Z.shiftr (zlen payload) 8); z2b (zlen payload)] in
    match Write writer header with
    | (_, Some err, writer) => (Some err, writer)
    | (_, None, writer) =>
        let '(_, err, writer) := Write writer payload in (err, writer)
    end.

(** * Responses *)

Definition dnsResponseTruncated (response : list byte) : option bool :=
  if 4 <=? zlen response then
    b ← idx response 2; Some (negb (Z.land (b2z b) 0x02 =? 0))
  else Some false.

Definition validateDNSResponse (query response : list byte)
    : option (result error (list byte)) :=
  if zlen response <? 12 then
    Some (Err (ENew (str "DNS response is shorter than its header")))
  else
    q ← sub query 0 2;
    r ← sub response 0 2;
    if negb (streq q r) then
      Some (Err (ENew (str "DNS transaction ID does not match the query")))
    else
      b ← idx response 2;
      if Z.land (b2z b) 0x80 =? 0 then
        Some (Err (ENew (str "DNS message from resolver is not a response")))
      else Some (Ok response).

(** What a response must be to be handed on. *)
Definition valid_response (query response : list byte) : Prop :=
  12 ≤ zlen response ∧ sub query 0 2 = sub response 0 2 ∧
  ∃ flags, idx response 2 = Some flags ∧ Z.land (b2z flags) 0x80 ≠ 0.

(** * Connections to resolvers *)

(** One dialled connection: where the query goes, the TCP bytes that will
    come back, and the datagram a UDP read will return. *)
Record DNSConn := mkDNSConn {
  dc_out : Writer;
  dc_in : Reader;
  dc_datagram : result error (list byte);
}.

(** The calls of [d.dial] so far, oldest first: network and address. *)
Abbreviation Trace := (list (gostring * gostring)).

Section exchange.
Context `{Unicode}.

(** The outcome of the [n]-th dial. *)
Variable net : nat → gostring → gostring → result error DNSConn.

Definition resolver_address (server : Addr) (port : Z) : gostring :=
  JoinHostPort (Addr_String server) (Itoa port).

Definition exchangeOne (trace : Trace) (network : gostring) (server : Addr) (port : Z)
    (query : list byte) : option (result error (list byte) * Trace) :=
  let network4 := network ++ str "4" in
  let address := resolver_address server port in
  let trace' := trace ++ [(network4, address)] in
  match net (length trace) network4 address with
  | Err err => Some (Err err, trace')
  | Ok connection =>
      if streq network (str "tcp") then
        match writeDNSFrame (dc_out connection) query with
        | (Some err, _) => Some (Err err, trace')
        | (None, _) =>
            match readDNSFrame (dc_in connection) with
            | (Err err, _) => Some (Err err, trace')
            | (Ok response, _) =>
                r ← validateDNSResponse query response; Some (r, trace')
            end
        end
      else
        match Write (dc_out connection) query with
        | (_, Some err, _) => Some (Err err, trace')
        | (written, None, _) =>
            if negb (Z.of_nat written =? zlen query) then
              Some (Err (ESentinel ErrShortWrite), trace')
            else
              match dc_datagram connection with
              | Err err => Some (Err err, trace')
              | Ok datagram =>
                  r ← validateDNSResponse query (take (Z.to_nat 65535) datagram);
                  Some (r, trace')
              end
        end
  end.

(** The attempt against one nameserver: UDP, and TCP again on truncation. *)
Definition exchange_server (trace : Trace) (network : gostring) (server : Addr) (port : Z)
    (query : list byte) : option (result error (list byte) * Trace) :=
  match exchangeOne trace network server port query with
  | None => None
  | Some (Err err, trace) => Some (Err err, trace)
  | Some (Ok response, trace) =>
      if streq network (str "udp") then
        t ← dnsResponseTruncated response;
        if t : bool then exchangeOne trace (str "tcp") server port query
        else Some (Ok response, trace)
      else Some (Ok response, trace)
  end.

Fixpoint try_servers (trace : Trace) (network : gostring) (servers : list Addr) (port : Z)
    (query : list byte) (lastError : option error)
    : option (result error (list byte) * Trace) :=
  match servers with
  | [] =>
      let lastError :=
        match lastError with
        | Some e => e
        | None => ENew (str "selected macOS resolver has no IPv4 nameserver")
        end in
      Some (Err (EWrapf (str "all selected macOS DNS resolvers failed") lastError), trace)
  | nameserver :: rest =>
      if negb (Is4 nameserver) then try_servers trace network rest port query lastError
      else
        match exchange_server trace network nameserver port query with
        | None => None
        | Some (Ok response, trace) => Some (Ok response, trace)
        | Some (Err exchangeError, trace) =>
            try_servers trace network rest port query (Some exchangeError)
        end
  end.

Definition exchangeSelected (trace : Trace) (network name : gostring) (query : list byte)
    (resolvers : list Resolver) : option (result error (list byte) * Trace) :=
  s ← selectResolver resolvers name;
  match s with
  | Err err => Some (Err err, trace)
  | Ok resolver => try_servers trace network (Nameservers resolver) (Port resolver) query None
  end.

(** * The cached resolver snapshot *)

Record SystemDNS := mkSystemDNS {
  loadedAt : Time;
  resolvers : list Resolver;
  reloadInterval : Duration;
}.

(** The clock readings and the outcome of [d.source.Load] ([None]: the source
    is nil) during one call of [currentResolvers]. *)
Record Load := mkLoad {
  ld_since : Time;
  ld_now : Time;
  ld_outcome : option (result error (list Resolver));
}.

(** [NewSystemDNSWithSource]; [NewSystemDNS] is the case of the default
    interval. *)
Definition NewSystemDNSWithSource (reload : Duration) : SystemDNS :=
  mkSystemDNS ZeroTime [] (if reload <=? 0 then defaultResolverReload else reload).

Definition NewSystemDNS : SystemDNS := mkSystemDNS ZeroTime [] defaultResolverReload.

Definition cloneResolvers (resolvers : list Resolver) : list Resolver :=
  map (λ r, mkResolver (Domains r) (Nameservers r) (Port r) (Order r)) resolvers.

Definition invalidateResolvers (d : SystemDNS) : SystemDNS :=
  mkSystemDNS ZeroTime (resolvers d) (reloadInterval d).

Definition currentResolvers (d : SystemDNS) (l : Load)
    : result error (list Resolver) * SystemDNS :=
  if bool_decide (resolvers d ≠ []) &&
     (time_Sub (ld_since l) (loadedAt d) <? reloadInterval d) then
    (Ok (cloneResolvers (resolvers d)), d)
  else
    match ld_outcome l with
    | None => (Err (ENew (str "macOS resolver source is unavailable")), d)
    | Some (Err err) =>
        if bool_decide (resolvers d ≠ []) then (Ok (cloneResolvers (resolvers d)), d)
        else (Err (EWrapf (str "load macOS DNS resolvers") err), d)
    | Some (Ok loaded) =>
        if bool_decide (loaded = []) then
          (Err (ENew (str "macOS reported no usable IPv4 DNS resolver")), d)
        else
          let d := mkSystemDNS (ld_now l) (cloneResolvers loaded) (reloadInterval d) in
          (Ok (cloneResolvers (resolvers d)), d)
    end.

(** [l1], [l2]: the two possible loads; [cancelled]: [ctx.Err() != nil] after
    the first attempt. *)
Definition Exchange (d : SystemDNS) (l1 l2 : Load) (cancelled : bool)
    (network : gostring) (query : list byte)
    : option (result error (list byte) * SystemDNS * Trace) :=
  if negb (streq network (str "udp")) && negb (streq network (str "tcp")) then
    Some (Err (ENew (str "unsupported DNS transport " ++ Quote network)), d, [])
  else if zlen query <? 12 then
    Some (Err (ENew (str "DNS query is shorter than its header")), d, [])
  else
    n ← DNSQuestionName query;
    match n with
    | Err err => Some (Err err, d, [])
    | Ok name =>
        match currentResolvers d l1 with
        | (Err err, d) => Some (Err err, d, [])
        | (Ok rs, d) =>
            match exchangeSelected [] network name query rs with
            | None => None
            | Some (Ok response, trace) => Some (Ok response, d, trace)
            | Some (Err err, trace) =>
                if cancelled then Some (Err err, d, trace)
                else
                  match currentResolvers (invalidateResolvers d) l2 with
                  | (Err _, d) => Some (Err err, d, trace)
                  | (Ok refreshed, d) =>
                      match exchangeSelected trace network name query refreshed with
                      | None => None
                      | Some (r, trace) => Some (r, d, trace)
                      end
                  end
            end
        end
    end.

(** [ScutilResolverSource.Load]: [output] is the outcome of running
    [/usr/sbin/scutil --dns]. *)
Definition ScutilLoad (output : result error gostring) : result error (list Resolver) :=
  match output with
  | Err err => Err err
  | Ok output => ParseScutilDNS output
  end.

(** ** No panic *)

Lemma validateDNSResponse_returns query response :
  2 ≤ zlen query → ∃ r, validateDNSResponse query response = Some r.
Proof.
  intros Hq. unfold validateDNSResponse. case_if as E; [by eauto|]. bool_to_prop.
  rewrite !sub_Some by lia. cbn [mbind option_bind]. case_if; [by eauto|].
  destruct (idx_is_Some response 2) as [b ->]; [lia|]. cbn. case_if; eauto.
Qed.

Lemma validateDNSResponse_ok query response r :
  validateDNSResponse query response = Some (Ok r) → valid_response query r.
Proof.
  unfold validateDNSResponse. case_if as E; [done|]. bool_to_prop.
  destruct (sub query 0 2) as [q|] eqn:Eq; [|done].
  destruct (sub response 0 2) as [q'|] eqn:Er; [|done]. cbn [mbind option_bind].
  case_if as E1; [done|]. bool_to_prop. subst q'.
  destruct (idx response 2) as [b|] eqn:Eb; [|done]. cbn. case_if as E2; [done|].
  intros [= <-]. bool_to_prop. split_and!; [lia|congruence|eauto].
Qed.

Lemma exchangeOne_returns trace network server port query :
  2 ≤ zlen query → ∃ r, exchangeOne trace network server port query = Some r.
Proof.
  intros Hq. unfold exchangeOne. destruct (net _ _ _) as [c|e]; [|by eauto].
  case_if.
  - destruct (writeDNSFrame _ _) as [[e|] w]; [by eauto|].
    destruct (readDNSFrame _) as [[resp|e] rd]; [|by eauto].
    destruct (validateDNSResponse_returns query resp Hq) as [r ->]. cbn. eauto.
  - destruct (Write _ _) as [[n [e|]] w]; [by eauto|]. case_if; [by eauto|].
    destruct (dc_datagram c) as [d|e]; [|by eauto].
    destruct (validateDNSResponse_returns query (take (Z.to_nat 65535) d) Hq) as [r ->]. cbn. eauto.
Qed.

Lemma dnsResponseTruncated_returns response : ∃ t, dnsResponseTruncated response = Some t.
Proof.
  unfold dnsResponseTruncated. case_if as E; [|by eauto]. bool_to_prop.
  destruct (idx_is_Some response 2) as [b ->]; [lia|]. cbn. eauto.
Qed.

Lemma exchange_server_returns trace network server port query :
  2 ≤ zlen query → ∃ r, exchange_server trace network server port query = Some r.
Proof.
  intros Hq. unfold exchange_server.
  destruct (exchangeOne_returns trace network server port query Hq) as [[[resp|e] t] ->]; [|by eauto].
  case_if; [|by eauto]. destruct (dnsResponseTruncated_returns resp) as [[] ->]; cbn; [|by eauto].
  by apply exchangeOne_returns.
Qed.

Lemma try_servers_returns trace network servers port query last :
  2 ≤ zlen query → ∃ r, try_servers trace network servers port query last = Some r.
Proof.
  intros Hq. revert trace last. induction servers as [|s servers IH]; intros trace last;
    cbn [try_servers]; [by eauto|]. case_if; [done|].
  destruct (exchange_server_returns trace network s port query Hq) as [[[r|e] t] ->]; eauto.
Qed.

Lemma exchangeSelected_returns trace network name query rs :
  2 ≤ zlen query → ∃ r, exchangeSelected trace network name query rs = Some r.
Proof.
  intros Hq. unfold exchangeSelected.
  destruct (selectResolver_returns rs name) as [[r|e] ->]; cbn; [|by eauto].
  by apply try_servers_returns.
Qed.

Lemma Exchange_returns d l1 l2 cancelled network query :
  ∃ r, Exchange d l1 l2 cancelled network query = Some r.
Proof.
  unfold Exchange. case_if; [by eauto|]. case_if as E; [by eauto|]. bool_to_prop.
  assert (2 ≤ zlen query) as Hq by lia.
  destruct (DNSQuestionName_returns query) as [[n|e] ->]; cbn; [|by eauto].
  destruct (currentResolvers d l1) as [[rs|e] d1]; [|by eauto].
  destruct (exchangeSelected_returns [] network n query rs Hq) as [[[r|e] t] ->]; [by eauto|].
  case_if; [by eauto|].
  destruct (currentResolvers _ l2) as [[rs'|e'] d2]; [|by eauto].
  destruct (exchangeSelected_returns t network n query rs' Hq) as [[r t'] ->]; eauto.
Qed.

(** An exchange never panics.  Whatever bytes the device sends as a query
    and whatever the resolvers, the dialer and the resolver source answer,
    [Exchange] returns a response or an error; no slice or index expression
    is out of range. *)
Theorem Exchange_total d l1 l2 cancelled network query :
  ∃ r, Exchange d l1 l2 cancelled network query = Some r.
Proof. apply Exchange_returns. Qed.

(** ** What is dialled, and what is accepted *)

(** The dials of one [exchangeSelected] run against [resolver]. *)
Definition dial_ok (network : gostring) (resolver : Resolver) (dialled : gostring * gostring) : Prop :=
  ∃ server, server ∈ Nameservers resolver ∧ Is4 server = true ∧
    dialled.2 = resolver_address server (Port resolver) ∧
    (dialled.1 = network ++ str "4" ∨ (network = str "udp" ∧ dialled.1 = str "tcp4")).

(** A truncated response to a UDP query is the answer to a TCP dial of the
    server whose UDP answer was truncated. *)
Definition tcp_retried (network : gostring) (trace : Trace) (response : list byte) : Prop :=
  network = str "udp" → dnsResponseTruncated response = Some true →
  ∃ pre address, trace = pre ++ [(str "udp4", address); (str "tcp4", address)].

Lemma exchangeOne_inv trace network server port query r trace' :
  exchangeOne trace network server port query = Some (r, trace') →
  trace' = trace ++ [(network ++ str "4", resolver_address server port)] ∧
  (∀ resp, r = Ok resp → valid_response query resp).
Proof.
  unfold exchangeOne. destruct (net _ _ _) as [c|e]; [|by intros [= <- <-]].
  case_if.
  - destruct (writeDNSFrame _ _) as [[e|] w]; [by intros [= <- <-]|].
    destruct (readDNSFrame _) as [[resp|e] rd]; [|by intros [= <- <-]].
    destruct (validateDNSResponse _ _) as [v|] eqn:E; [|done]. cbn. intros [= <- <-].
    split; [done|]. intros ? ->. by eapply validateDNSResponse_ok.
  - destruct (Write _ _) as [[n [e|]] w]; [by intros [= <- <-]|]. case_if; [by intros [= <- <-]|].
    destruct (dc_datagram c) as [dg|e]; [|by intros [= <- <-]].
    destruct (validateDNSResponse _ _) as [v|] eqn:E; [|done]. cbn. intros [= <- <-].
    split; [done|]. intros ? ->. by eapply validateDNSResponse_ok.
Qed.

Definition run_ok (network : gostring) (resolver : Resolver) (query : list byte)
    (trace : Trace) (r : result error (list byte)) (trace' : Trace) : Prop :=
  (∃ new, trace' = trace ++ new ∧ Forall (dial_ok network resolver) new) ∧
  ∀ resp, r = Ok resp → valid_response query resp ∧ tcp_retried network trace' resp.

Lemma exchange_server_inv trace network resolver server query r trace' :
  server ∈ Nameservers resolver → Is4 server = true →
  exchange_server trace network server (Port resolver) query = Some (r, trace') →
  run_ok network resolver query trace r trace'.
Proof.
  intros Hin H4. unfold exchange_server, run_ok.
  assert (Hd : dial_ok network resolver (network ++ str "4", resolver_address server (Port resolver)))
    by (exists server; eauto).
  destruct (exchangeOne trace _ _ _ _) as [[[resp|e] t1]|] eqn:E1; [| |done];
    apply exchangeOne_inv in E1 as [-> Hv]; [|intros [= <- <-]; split; [eauto using Forall|done]].
  case_if as Eu; bool_to_prop.
  - subst network. destruct (dnsResponseTruncated resp) as [[]|] eqn:Et; cbn; [| |done].
    + intros E2. apply exchangeOne_inv in E2 as [-> Hv2]. split.
      * eexists. rewrite <-app_assoc. split; [done|]. constructor; [done|].
        constructor; [|constructor]. exists server. split_and!; [done..|by right].
      * intros resp' ->. split; [by apply Hv2|]. intros _ _. exists trace. eexists.
        by rewrite <-app_assoc.
    + intros [= <- <-]. split; [eauto using Forall|]. intros ? [= <-]. split; [by apply Hv|].
      intros _. congruence.
  - intros [= <- <-]. split; [eauto using Forall|]. intros ? [= <-]. split; [by apply Hv|].
    by intros ?.
Qed.

Lemma run_ok_trans network resolver query t0 e t1 r t2 :
  run_ok network resolver query t0 (Err e) t1 → run_ok network resolver query t1 r t2 →
  run_ok network resolver query t0 r t2.
Proof.
  intros [(n1 & -> & H1) _] [(n2 & -> & H2) Hr]. split; [|done].
  exists (n1 ++ n2). rewrite <-app_assoc. split; [done|]. by apply Forall_app.
Qed.

Lemma try_servers_inv network resolver query servers trace last r trace' :
  servers ⊆ Nameservers resolver →
  try_servers trace network servers (Port resolver) query last = Some (r, trace') →
  run_ok network resolver query trace r trace'.
Proof.
  revert trace last. induction servers as [|s servers IH]; intros trace last Hs; cbn [try_servers].
  - intros [= <- <-]. split; [|done]. exists []. rewrite app_nil_r. eauto using Forall.
  - assert (s ∈ Nameservers resolver ∧ servers ⊆ Nameservers resolver) as [? ?] by set_solver.
    case_if as E4; [by apply IH|]. apply negb_false_iff in E4.
    destruct (exchange_server _ _ _ _ _) as [[[resp|e] t]|] eqn:E; [| |done];
      eapply exchange_server_inv in E; try done.
    + by intros [= <- <-].
    + intros Er. eapply run_ok_trans; [done|]. by eapply IH.
Qed.

(** One whole attempt against a resolver snapshot. *)
Definition attempt_ok (network name : gostring) (query : list byte) (rs : list Resolver)
    (trace : Trace) (r : result error (list byte)) (trace' : Trace) : Prop :=
  (∃ new, trace' = trace ++ new ∧
     Forall (λ dialled, ∃ resolver, selectResolver rs name = Some (Ok resolver) ∧
               dial_ok network resolver dialled) new) ∧
  ∀ resp, r = Ok resp → valid_response query resp ∧ tcp_retried network trace' resp.

Lemma exchangeSelected_inv trace network name query rs r trace' :
  exchangeSelected trace network name query rs = Some (r, trace') →
  attempt_ok network name query rs trace r trace'.
Proof.
  unfold exchangeSelected. destruct (selectResolver rs name) as [[resolver|e]|] eqn:E; cbn; [| |done].
  - intros Ht. eapply try_servers_inv in Ht as [(new & -> & Hn) Hr]; [|done].
    split; [|done]. exists new. split; [done|]. eapply Forall_impl; [exact Hn|]. eauto.
  - intros [= <- <-]. split; [|done]. exists []. rewrite app_nil_r. eauto using Forall.
Qed.

(** The snapshots an exchange may consult: the cache, or what the source
    delivered during the call. *)
Definition snapshot_of (d : SystemDNS) (l1 l2 : Load) (rs : list Resolver) : Prop :=
  rs = resolvers d ∨ ld_outcome l1 = Some (Ok rs) ∨ ld_outcome l2 = Some (Ok rs).

Lemma cloneResolvers_id rs : cloneResolvers rs = rs.
Proof. unfold cloneResolvers. induction rs as [|[] rs IH]; cbn; [done|by rewrite IH]. Qed.

Lemma currentResolvers_source d l rs d' :
  currentResolvers d l = (Ok rs, d') →
  rs = resolvers d' ∧ (rs = resolvers d ∨ ld_outcome l = Some (Ok rs)).
Proof.
  unfold currentResolvers. rewrite !cloneResolvers_id.
  case_if; [intros [= <- <-]; eauto|]. destruct (ld_outcome l) as [[loaded|e]|]; [| |done].
  - case_if; [done|]. cbn [resolvers]. rewrite !cloneResolvers_id. intros [= <- <-]. eauto.
  - case_if; [|done]. intros [= <- <-]. eauto.
Qed.

Lemma Exchange_inv d l1 l2 cancelled network query r d' trace :
  Exchange d l1 l2 cancelled network query = Some (r, d', trace) →
  (trace = [] ∧ ∃ e, r = Err e) ∨
  ∃ name, DNSQuestionName query = Some (Ok name) ∧
    (∃ rs1, snapshot_of d l1 l2 rs1 ∧
      (attempt_ok network name query rs1 [] r trace ∨
       ∃ rs2 e t, snapshot_of d l1 l2 rs2 ∧
         attempt_ok network name query rs1 [] (Err e) t ∧
         attempt_ok network name query rs2 t r trace)).
Proof.
  unfold Exchange, snapshot_of. case_if; [intros [= <- <- <-]; eauto|].
  case_if; [intros [= <- <- <-]; eauto|].
  destruct (DNSQuestionName query) as [[n|e]|]; cbn; [|intros [= <- <- <-]; eauto|done].
  destruct (currentResolvers d l1) as [[rs|e] d1] eqn:Ec; [|intros [= <- <- <-]; eauto].
  apply currentResolvers_source in Ec as [Hd1 Hrs].
  assert (rs = resolvers d ∨ ld_outcome l1 = Some (Ok rs) ∨ ld_outcome l2 = Some (Ok rs)) as Hsn
    by naive_solver.
  destruct (exchangeSelected [] _ _ _ _) as [[[resp|e] t]|] eqn:E1; [| |done];
    apply exchangeSelected_inv in E1.
  - intros [= <- <- <-]. right. exists n. split; [done|]. exists rs. eauto.
  - case_if; [intros [= <- <- <-]; right; exists n; split; [done|]; exists rs; by eauto|].
    destruct (currentResolvers _ l2) as [[rs2|e2] d2] eqn:Ec2;
      [|intros [= <- <- <-]; right; exists n; split; [done|]; exists rs; by eauto].
    apply currentResolvers_source in Ec2 as [_ Hrs2]. cbn [resolvers invalidateResolvers] in Hrs2.
    destruct (exchangeSelected t _ _ _ _) as [[r' t']|] eqn:E2; [|done].
    apply exchangeSelected_inv in E2. intros [= <- <- <-].
    right. exists n. split; [done|]. exists rs. split; [done|]. right.
    exists rs2, e, t. split; [|done]. subst. naive_solver.
Qed.

(** No query leaves the selected resolver.  Every connection an exchange
    dials goes to an IPv4 nameserver, at the resolver's port, of the resolver
    [selectResolver] picks for the question name from the cached snapshot or
    one the source delivered during the call, over the transport asked for or
    over TCP as the truncation fallback of UDP.  In particular no other
    (public) resolver is ever contacted. *)
Theorem Exchange_dials d l1 l2 cancelled network query r d' trace :
  Exchange d l1 l2 cancelled network query = Some (r, d', trace) →
  Forall (λ dialled, ∃ name rs resolver,
    DNSQuestionName query = Some (Ok name) ∧ snapshot_of d l1 l2 rs ∧
    selectResolver rs name = Some (Ok resolver) ∧ dial_ok network resolver dialled) trace.
Proof.
  intros [[-> _]|(name & Hn & rs1 & Hs1 & [[(new & -> & Ha) _]
    |(rs2 & e & t & Hs2 & [(n1 & -> & H1) _] & [(n2 & -> & H2) _])])]%Exchange_inv; [constructor|..];
    rewrite ?app_nil_l, ?Forall_app; repeat split;
    (eapply Forall_impl; [eassumption|]); cbn; naive_solver.
Qed.

Lemma Exchange_valid d l1 l2 cancelled network query response d' trace :
  Exchange d l1 l2 cancelled network query = Some (Ok response, d', trace) →
  valid_response query response ∧ tcp_retried network trace response.
Proof.
  intros [[_ [? ?]]|(name & Hn & rs1 & Hs1 & [[_ Hr]|(rs2 & e & t & Hs2 & _ & [_ Hr])])]%Exchange_inv;
    [done|by apply Hr..].
Qed.

(** C30: what an exchange returns.  A response handed back to the device has
    at least a DNS header, the query's transaction ID and the response bit
    set; and when the device asked over UDP, a truncated message is returned
    only after the same server was asked again over TCP. *)
Theorem Exchange_response d l1 l2 cancelled network query response d' trace :
  Exchange d l1 l2 cancelled network query = Some (Ok response, d', trace) →
  valid_response query response ∧ tcp_retried network trace response.
Proof. apply Exchange_valid. Qed.

(** The refresh after a failure.  Invalidating the cache makes the next
    [currentResolvers] reload, whenever the clock reads at least 292 years
    past year 1: a non-empty fresh snapshot replaces the cache and is dated,
    and when loading fails the last good snapshot is still returned and kept
    with its invalid date, so that the call after it loads again. *)
Theorem invalidate_reloads d l :
  ZeroTime + max_int64 ≤ ld_since l → reloadInterval d ≤ max_int64 →
  currentResolvers (invalidateResolvers d) l =
    match ld_outcome l with
    | Some (Ok ((_ :: _) as fresh)) =>
        (Ok fresh, mkSystemDNS (ld_now l) fresh (reloadInterval d))
    | Some (Err err) =>
        (if bool_decide (resolvers d = [])
         then Err (EWrapf (str "load macOS DNS resolvers") err) else Ok (resolvers d),
         invalidateResolvers d)
    | Some (Ok []) =>
        (Err (ENew (str "macOS reported no usable IPv4 DNS resolver")), invalidateResolvers d)
    | None =>
        (Err (ENew (str "macOS resolver source is unavailable")), invalidateResolvers d)
    end.
Proof.
  intros Hnow Hri. unfold currentResolvers. rewrite !cloneResolvers_id.
  cbn [resolvers loadedAt reloadInterval invalidateResolvers].
  replace (time_Sub (ld_since l) ZeroTime) with max_int64
    by (unfold time_Sub, min_int64, max_int64 in *; lia).
  rewrite (proj2 (Z.ltb_ge _ _)), andb_false_r by done.
  destruct (ld_outcome l) as [[[|x loaded]|e]|]; try done.
  - rewrite bool_decide_eq_false_2 by done. cbn [resolvers]. by rewrite !cloneResolvers_id.
  - by destruct (resolvers d).
Qed.

End exchange.

(** ** DNS-over-TCP frames *)

(** The [io.Writer] contract: a call that reports no error took everything. *)
Definition honest (w : Writer) : Prop :=
  Forall (λ o, o.2 = None → 65535 ≤ Z.of_nat o.1) (w_plan w).

Lemma honest_Write w p n w' :
  honest w → zlen p ≤ 65535 → Write w p = (n, None, w') →
  w_out w' = w_out w ++ p ∧ honest w'.
Proof.
  unfold honest, Write, zlen. intros Hh Hp. destruct (w_plan w) as [|[k e] plan].
  - intros [= <- <-]. by split; [|constructor].
  - intros [= <- -> <-]. inversion_clear Hh as [|? ? Hk Hr]. cbn in *. specialize (Hk eq_refl).
    rewrite take_ge by lia. done.
Qed.

Lemma be_get_length n : 12 ≤ n ∧ n ≤ 65535 → be_get [z2b (Z.shiftr n 8); z2b n] = n.
Proof.
  intros Hn. rewrite !be_get_cons, !b2z_z2b, Z.shiftr_div_pow2 by lia.
  change (zlen [z2b n]) with 1. change (zlen (@nil byte)) with 0. change (be_get []) with 0.
  change (2 ^ 8) with 256. change (256 ^ 1) with 256. change (256 ^ 0) with 1.
  rewrite Z.mod_small; [|split; [apply Z.div_pos; lia|apply Z.div_lt_upper_bound; lia]].
  pose proof (Z.div_mod n 256). lia.
Qed.

(** DNS-over-TCP framing.  On a writer that keeps the [io.Writer]
    contract, a message [writeDNSFrame] reports as written is read back by
    [readDNSFrame] unchanged, and the bytes that follow it stay in the
    stream. *)
Theorem writeDNSFrame_readDNSFrame w payload w' :
  honest w → writeDNSFrame w payload = (None, w') →
  ∃ encoded, w_out w' = w_out w ++ encoded ∧
    ∀ rest e, readDNSFrame (mkReader (encoded ++ rest) e) = (Ok payload, mkReader rest e).
Proof.
  intros Hh. unfold writeDNSFrame. case_if as El; [done|]. bool_to_prop.
  set (hdr := [z2b _; z2b _]).
  destruct (Write w hdr) as [[n1 [e1|]] w1] eqn:E1; [done|].
  destruct (Write w1 payload) as [[n2 e2] w2] eqn:E2. intros [= -> ->].
  apply honest_Write in E1 as [O1 H1]; [|done|done].
  apply honest_Write in E2 as [O2 H2]; [|done|lia].
  exists (hdr ++ payload). split; [by rewrite O2, O1, app_assoc|].
  intros rest e. unfold readDNSFrame. rewrite <-app_assoc, ReadFull_app by done.
  assert (be_get hdr = zlen payload) as ->.
  { by apply be_get_length. }
  rewrite (proj2 (Z.ltb_ge _ _)) by lia. apply ReadFull_app. unfold zlen. lia.
Qed.

(** ** Concrete runs *)

Definition sample_query : list byte :=
  sample_header ++ wire_name [str "git"; str "corp"; str "example"] ++ [x00; x01; x00; x01].
Definition sample_reply : list byte :=
  [x12; x34; x81; x80; x00; x01; x00; x00; x00; x00; x00; x00].
Definition sample_truncated : list byte :=
  [x12; x34; x83; x80; x00; x01; x00; x00; x00; x00; x00; x00].

(** A network whose UDP answers are truncated and whose TCP answers are not. *)
Definition sample_net (_ : nat) (network _ : gostring) : result error DNSConn :=
  if streq network (str "udp4")
  then Ok (mkDNSConn (mkWriter [] []) (mkReader [] (ESentinel EOF)) (Ok sample_truncated))
  else Ok (mkDNSConn (mkWriter [] [])
                     (mkReader ([x00; x0c] ++ sample_truncated) (ESentinel EOF)) (Err (ESentinel EOF))).

Definition sample_load : Load := mkLoad 0 0 (Some (Ok sample_resolvers)).
Definition sample_trace : Trace :=
  [(str "udp4", str "172.16.0.1:5353"); (str "tcp4", str "172.16.0.1:5353")].

Lemma Exchange_dials_witness :
  Forall (λ dialled, ∃ name rs resolver,
    @DNSQuestionName ascii_unicode sample_query = Some (Ok name) ∧
    snapshot_of NewSystemDNS sample_load sample_load rs ∧
    @selectResolver ascii_unicode rs name = Some (Ok resolver) ∧
    dial_ok (str "udp") resolver dialled) sample_trace.
Proof.
  apply (@Exchange_dials ascii_unicode sample_net NewSystemDNS sample_load sample_load false
           (str "udp") sample_query (Ok sample_truncated)
           (mkSystemDNS 0 sample_resolvers defaultResolverReload)).
  vm_compute. reflexivity.
Defined.

Lemma Exchange_response_witness :
  valid_response sample_query sample_truncated ∧ tcp_retried (str "udp") sample_trace sample_truncated.
Proof.
  apply (@Exchange_response ascii_unicode sample_net NewSystemDNS sample_load sample_load false
           (str "udp") sample_query sample_truncated
           (mkSystemDNS 0 sample_resolvers defaultResolverReload)).
  vm_compute. reflexivity.
Defined.

Lemma invalidate_reloads_witness :
  currentResolvers (invalidateResolvers (mkSystemDNS 7 sample_resolvers defaultResolverReload)) sample_load
  = (Ok sample_resolvers, mkSystemDNS 0 sample_resolvers defaultResolverReload).
Proof.
  rewrite invalidate_reloads; [reflexivity|vm_compute; congruence..].
Defined.

Lemma writeDNSFrame_readDNSFrame_witness :
  ∃ encoded, [x00; x0c] ++ sample_reply = [] ++ encoded ∧
    ∀ rest e, readDNSFrame (mkReader (encoded ++ rest) e) = (Ok sample_reply, mkReader rest e).
Proof.
  apply (writeDNSFrame_readDNSFrame (mkWriter [] []) sample_reply
           (mkWriter ([x00; x0c] ++ sample_reply) [])); [constructor|reflexivity].
Defined.

End exchange.
