(* ===== verification/Engine.v ===== *)
(** The relay engine (src/internal/relay/engine.go): packet validation and
    counters, the routing decisions of the TCP and UDP forwarders, the DNS
    servers on the virtual address and the datagram copier.

    gVisor's Netstack is outside the sources.  What it hands to a forwarder
    and how its calls end are arguments of the definitions; its two header
    constants are the class [Netstack]. *)
From S2P Require Import Prelude Errors GoIO GoStrings GoOS GoNet Dns DnsExchange.
Import dns exchange.

Module engine.

(** Constants of gVisor's [header] package, with their RFC 791 values. *)
Class Netstack := {
  IPv4MinimumSize : Z;
  IPv4MinimumMTU : Z;
  IPv4MinimumSize_rfc : IPv4MinimumSize = 20;
  IPv4MinimumMTU_rfc : IPv4MinimumMTU = 68;
}.

Definition DefaultMTU : Z := 1400.
Definition DefaultVirtualDNS : gostring := str "198.18.0.1".
Definition defaultPacketQueueSize : Z := 1024.
Definition defaultMaxTCPInFlight : Z := 1024.
Definition defaultDialTimeout : Duration := 15 * Second.
Definition defaultTCPDrainTimeout : Duration := 5 * Second.
Definition defaultUDPIdleTimeout : Duration := 2 * Minute.
Definition maximumIPv4PacketLength : Z := 65535.

(** * Configuration *)

(** The adapters are recorded by presence; [Config.DialContext] and
    [Config.Logger] have defaults that are always usable. *)
Record Config := mkConfig {
  cfg_hasDNS : bool;
  cfg_VirtualDNS : option Addr;
  cfg_MTU : Z;
  cfg_PacketQueue : Z;
  cfg_MaxTCPInFlight : Z;
  cfg_DialTimeout : Duration;
  cfg_UDPIdleTimeout : Duration;
  cfg_ProxyTCPPorts : list Z;
  cfg_BlockUDP443 : bool;
}.

Record Stats := mkStats {
  PacketsFromDevice : Z;
  BytesFromDevice : Z;
  PacketsToDevice : Z;
  BytesToDevice : Z;
  TCPFlows : Z;
  UDPFlows : Z;
  DNSQueries : Z;
  ProxyTCPFlows : Z;
  BlockedQUICFlows : Z;
}.
Definition set_PacketsFromDevice (v : Z) (st : Stats) : Stats :=
  {| PacketsFromDevice := v; BytesFromDevice := BytesFromDevice st;
     PacketsToDevice := PacketsToDevice st; BytesToDevice := BytesToDevice st;
     TCPFlows := TCPFlows st; UDPFlows := UDPFlows st; DNSQueries := DNSQueries st;
     ProxyTCPFlows := ProxyTCPFlows st; BlockedQUICFlows := BlockedQUICFlows st |}.
Definition set_BytesFromDevice (v : Z) (st : Stats) : Stats :=
  {| PacketsFromDevice := PacketsFromDevice st; BytesFromDevice := v;
     PacketsToDevice := PacketsToDevice st; BytesToDevice := BytesToDevice st;
     TCPFlows := TCPFlows st; UDPFlows := UDPFlows st; DNSQueries := DNSQueries st;
     ProxyTCPFlows := ProxyTCPFlows st; BlockedQUICFlows := BlockedQUICFlows st |}.
Definition set_PacketsToDevice (v : Z) (st : Stats) : Stats :=
  {| PacketsFromDevice := PacketsFromDevice st; BytesFromDevice := BytesFromDevice st;
     PacketsToDevice := v; BytesToDevice := BytesToDevice st; TCPFlows := TCPFlows st;
     UDPFlows := UDPFlows st; DNSQueries := DNSQueries st; ProxyTCPFlows := ProxyTCPFlows st;
     BlockedQUICFlows := BlockedQUICFlows st |}.
Definition set_BytesToDevice (v : Z) (st : Stats) : Stats :=
  {| PacketsFromDevice := PacketsFromDevice st; BytesFromDevice := BytesFromDevice st;
     PacketsToDevice := PacketsToDevice st; BytesToDevice := v; TCPFlows := TCPFlows st;
     UDPFlows := UDPFlows st; DNSQueries := DNSQueries st; ProxyTCPFlows := ProxyTCPFlows st;
     BlockedQUICFlows := BlockedQUICFlows st |}.
Definition set_TCPFlows (v : Z) (st : Stats) : Stats :=
  {| PacketsFromDevice := PacketsFromDevice st; BytesFromDevice := BytesFromDevice st;
     PacketsToDevice := PacketsToDevice st; BytesToDevice := BytesToDevice st; TCPFlows := v;
     UDPFlows := UDPFlows st; DNSQueries := DNSQueries st; ProxyTCPFlows := ProxyTCPFlows st;
     BlockedQUICFlows := BlockedQUICFlows st |}.
Definition set_UDPFlows (v : Z) (st : Stats) : Stats :=
  {| PacketsFromDevice := PacketsFromDevice st; BytesFromDevice := BytesFromDevice st;
     PacketsToDevice := PacketsToDevice st; BytesToDevice := BytesToDevice st;
     TCPFlows := TCPFlows st; UDPFlows := v; DNSQueries := DNSQueries st;
     ProxyTCPFlows := ProxyTCPFlows st; BlockedQUICFlows := BlockedQUICFlows st |}.
Definition set_DNSQueries (v : Z) (st : Stats) : Stats :=
  {| PacketsFromDevice := PacketsFromDevice st; BytesFromDevice := BytesFromDevice st;
     PacketsToDevice := PacketsToDevice st; BytesToDevice := BytesToDevice st;
     TCPFlows := TCPFlows st; UDPFlows := UDPFlows st; DNSQueries := v;
     ProxyTCPFlows := ProxyTCPFlows st; BlockedQUICFlows := BlockedQUICFlows st |}.
Definition set_ProxyTCPFlows (v : Z) (st : Stats) : Stats :=
  {| PacketsFromDevice := PacketsFromDevice st; BytesFromDevice := BytesFromDevice st;
     PacketsToDevice := PacketsToDevice st; BytesToDevice := BytesToDevice st;
     TCPFlows := TCPFlows st; UDPFlows := UDPFlows st; DNSQueries := DNSQueries st;
     ProxyTCPFlows := v; BlockedQUICFlows := BlockedQUICFlows st |}.
Definition set_BlockedQUICFlows (v : Z) (st : Stats) : Stats :=
  {| PacketsFromDevice := PacketsFromDevice st; BytesFromDevice := BytesFromDevice st;
     PacketsToDevice := PacketsToDevice st; BytesToDevice := BytesToDevice st;
     TCPFlows := TCPFlows st; UDPFlows := UDPFlows st; DNSQueries := DNSQueries st;
     ProxyTCPFlows := ProxyTCPFlows st; BlockedQUICFlows := v |}.

Definition zeroStats : Stats := mkStats 0 0 0 0 0 0 0 0 0.

(** The part of [Engine] that changes or decides: [done] is its context. *)
Record Engine := mkEngine {
  virtualDNS : Addr;
  hasDNS : bool;
  dialTimeout : Duration;
  udpIdleTimeout : Duration;
  proxyTCPPorts : gset Z;
  blockUDP443 : bool;
  done : bool;
  stats : Stats;
}.
Definition set_done (v : bool) (e : Engine) : Engine :=
  {| virtualDNS := virtualDNS e; hasDNS := hasDNS e; dialTimeout := dialTimeout e;
     udpIdleTimeout := udpIdleTimeout e; proxyTCPPorts := proxyTCPPorts e;
     blockUDP443 := blockUDP443 e; done := v; stats := stats e |}.
Definition set_stats (v : Stats) (e : Engine) : Engine :=
  {| virtualDNS := virtualDNS e; hasDNS := hasDNS e; dialTimeout := dialTimeout e;
     udpIdleTimeout := udpIdleTimeout e; proxyTCPPorts := proxyTCPPorts e;
     blockUDP443 := blockUDP443 e; done := done e; stats := v |}.

(** [atomic.Uint64.Add] *)
Definition add64 (counter delta : Z) : Z := u64 (counter + delta).

Fixpoint proxy_ports (ports : list Z) (selected : gset Z) : result error (gset Z) :=
  match ports with
  | [] => Ok selected
  | port :: ports =>
      if (port <? 1) || (65535 <? port) then
        Err (ENew (str "proxy TCP port " ++ Itoa port ++ str " is outside 1...65535"))
      else proxy_ports ports ({[u16 port]} ∪ selected)
  end.

(** The sizes [New] passes to Netstack: queue length, MTU, TCP backlog. *)
Record StackOptions := mkStackOptions { so_queue : Z; so_mtu : Z; so_inflight : Z }.

(** [netip.MustParseAddr(DefaultVirtualDNS)] *)
Definition defaultVirtualDNSAddr : Addr := Addr4 xc6 x12 x00 x01.

Section engine.
Context `{Netstack}.

(** [New] up to Netstack's own set-up, whose outcome is [nic]. *)
Definition New (config : Config) (nic : option error) : result error (Engine * StackOptions) :=
  let virtual := default defaultVirtualDNSAddr (cfg_VirtualDNS config) in
  if negb (Is4 virtual) then Err (ENew (str "relay virtual DNS address must be IPv4"))
  else
    let mtu := if cfg_MTU config =? 0 then DefaultMTU else cfg_MTU config in
    if (mtu <? IPv4MinimumMTU) || (maximumIPv4PacketLength <? mtu) then
      Err (ENew (str "relay MTU " ++ Itoa mtu ++ str " is outside the IPv4 range"))
    else
      let queue := if cfg_PacketQueue config <=? 0 then defaultPacketQueueSize
                   else cfg_PacketQueue config in
      let inflight := if cfg_MaxTCPInFlight config <=? 0 then defaultMaxTCPInFlight
                      else cfg_MaxTCPInFlight config in
      let dialTimeout := if cfg_DialTimeout config <=? 0 then defaultDialTimeout
                         else cfg_DialTimeout config in
      let udpIdle := if cfg_UDPIdleTimeout config <=? 0 then defaultUDPIdleTimeout
                     else cfg_UDPIdleTimeout config in
      match proxy_ports (cfg_ProxyTCPPorts config) ∅ with
      | Err err => Err err
      | Ok ports =>
          match nic with
          | Some err => Err err
          | None =>
              Ok (mkEngine virtual (cfg_hasDNS config) dialTimeout udpIdle ports
                    (cfg_BlockUDP443 config) false zeroStats,
                  mkStackOptions queue mtu inflight)
          end
      end.

(** * Packets *)

Definition validateIPv4Packet (packet : list byte) : option (option error) :=
  if zlen packet <? IPv4MinimumSize then
    Some (Some (ENew (str "relay packet is shorter than an IPv4 header")))
  else
    b0 ← idx packet 0;
    if negb (Z.shiftr (b2z b0) 4 =? 4) then
      Some (Some (ENew (str "relay accepts IPv4 packets only")))
    else
      let headerLength := Z.land (b2z b0) 0x0F * 4 in
      if (headerLength <? IPv4MinimumSize) || (zlen packet <? headerLength) then
        Some (Some (ENew (str "relay packet has an invalid IPv4 header length")))
      else
        b2 ← idx packet 2;
        b3 ← idx packet 3;
        let totalLength := be16 b2 b3 in
        if (totalLength <? headerLength) || (zlen packet <? totalLength) ||
           (maximumIPv4PacketLength <? totalLength)
        then Some (Some (ENew (str "relay packet has an invalid IPv4 total length")))
        else Some None.

(** [Inject]: the error, the packet handed to Netstack, and the engine. *)
Definition Inject (e : Engine) (packet : list byte)
    : option (option error * option (list byte) * Engine) :=
  invalid ← validateIPv4Packet packet;
  match invalid with
  | Some err => Some (Some err, None, e)
  | None =>
      if done e then Some (Some (ENew (str "relay engine is closed")), None, e)
      else
        b2 ← idx packet 2;
        b3 ← idx packet 3;
        let totalLength := be16 b2 b3 in
        owned ← sub packet 0 totalLength;
        let st := stats e in
        let st := set_PacketsFromDevice (add64 (PacketsFromDevice st) 1) st in
        let st := set_BytesFromDevice (add64 (BytesFromDevice st) totalLength) st in
        Some (None, Some owned, set_stats st e)
  end.

Definition Snapshot (e : Engine) : Stats := stats e.

Definition Close (e : Engine) : Engine := set_done true e.

(** One round of [copyNetstackOutput] for a packet buffer made of [parts]:
    the packet put on the output channel, if any, and whether the loop goes
    on.  [cancelled]: the context ended while the channel was full. *)
Definition copy_output_round (e : Engine) (parts : list (list byte)) (cancelled : bool)
    : option (list byte) * bool * Engine :=
  let packet := concat parts in
  if (zlen packet =? 0) || (maximumIPv4PacketLength <? zlen packet) then (None, true, e)
  else
    let st := stats e in
    let st := set_PacketsToDevice (add64 (PacketsToDevice st) 1) st in
    let st := set_BytesToDevice (add64 (BytesToDevice st) (zlen packet)) st in
    let e := set_stats st e in
    if cancelled then (None, false, e) else (Some packet, true, e).

(** * Forwarders *)

(** The flow of a forwarder request: the address and port the device dialled. *)
Record FlowID := mkFlowID { LocalAddress : Addr; LocalPort : Z }.

(** What a handler does besides counting, in order. *)
Inductive effect :=
| EffDial (network address : gostring)
| EffCreateEndpoint
| EffComplete (reset : bool)
| EffCloseHost
| EffServeDNS
| EffBridge.

Definition endpointAddress (address : Addr) (port : Z) : gostring :=
  JoinHostPort (Addr_String address) (Itoa port).

Definition is_virtual_dns (e : Engine) (id : FlowID) : bool :=
  bool_decide (LocalAddress id = virtualDNS e) && (LocalPort id =? 53) && hasDNS e.

Definition count_tcp (e : Engine) : Engine :=
  set_stats (set_TCPFlows (add64 (TCPFlows (stats e)) 1) (stats e)) e.
Definition count_udp (e : Engine) : Engine :=
  set_stats (set_UDPFlows (add64 (UDPFlows (stats e)) 1) (stats e)) e.
Definition count_proxy (e : Engine) : Engine :=
  set_stats (set_ProxyTCPFlows (add64 (ProxyTCPFlows (stats e)) 1) (stats e)) e.
Definition count_quic (e : Engine) : Engine :=
  set_stats (set_BlockedQUICFlows (add64 (BlockedQUICFlows (stats e)) 1) (stats e)) e.
Definition count_dns (e : Engine) : Engine :=
  set_stats (set_DNSQueries (add64 (DNSQueries (stats e)) 1) (stats e)) e.

Definition acceptDNSTCP (e : Engine) (created : bool) : list effect * Engine :=
  if negb created then ([EffCreateEndpoint; EffComplete true], e)
  else ([EffCreateEndpoint; EffComplete false; EffServeDNS], count_tcp e).

(** [dialled], [created]: whether the host dial and the Netstack endpoint
    succeed. *)
Definition handleTCP (e : Engine) (id : FlowID) (dialled created : bool) : list effect * Engine :=
  if is_virtual_dns e id then acceptDNSTCP e created
  else
    let dial := EffDial (str "tcp4") (endpointAddress (LocalAddress id) (LocalPort id)) in
    if negb dialled then ([dial; EffComplete true], e)
    else if negb created then ([dial; EffCreateEndpoint; EffCloseHost; EffComplete true], e)
    else
      let e := count_tcp e in
      let e := if bool_decide (LocalPort id ∈ proxyTCPPorts e) then count_proxy e else e in
      ([dial; EffCreateEndpoint; EffComplete false; EffBridge], e).

Definition handleUDP (e : Engine) (id : FlowID) (dialled created : bool)
    : bool * list effect * Engine :=
  if is_virtual_dns e id then
    if negb created then (false, [EffCreateEndpoint], e)
    else (true, [EffCreateEndpoint; EffServeDNS], count_udp e)
  else if blockUDP443 e && (LocalPort id =? 443) then (false, [], count_quic e)
  else
    let dial := EffDial (str "udp4") (endpointAddress (LocalAddress id) (LocalPort id)) in
    if negb dialled then (false, [dial], e)
    else if negb created then (false, [dial; EffCreateEndpoint; EffCloseHost], e)
    else (true, [dial; EffCreateEndpoint; EffBridge], count_udp e).
End engine.

(** * The DNS servers *)

(** The interface [DNSExchanger]: an exchange may change the adapter's state,
    and what it returns is a response to the query. *)
Class DNSExchanger (S : Type) := {
  dns_Exchange : S → gostring → list byte → result error (list byte) * S;
  dns_Exchange_valid s network query response s' :
    dns_Exchange s network query = (Ok response, s') → valid_response query response;
}.

Section serve.
Context {S : Type} `{DNSExchanger S}.

(** [serveDNSUDP]: [queries] are the datagrams read before the read error
    that ends the loop; [failing n] says that the [n]-th write fails. *)
Fixpoint serveDNSUDP (e : Engine) (s : S) (queries : list (list byte)) (failing : nat → bool)
    (written : list (list byte)) : list (list byte) * Engine * S :=
  match queries with
  | [] => (written, e, s)
  | datagram :: queries =>
      let query := take (Z.to_nat maximumIPv4PacketLength) datagram in
      match dns_Exchange s (str "udp") query with
      | (Err _, s) => serveDNSUDP e s queries failing written
      | (Ok response, s) =>
          let e := count_dns e in
          if failing (length written) then (written, e, s)
          else serveDNSUDP e s queries failing (written ++ [response])
      end
  end.

End serve.

(** * Datagram copying *)

(** [copyDatagrams]: the datagrams read before the read error, and for each
    write how many bytes were taken and whether it failed. *)
Fixpoint copyDatagrams (packets : list (list byte)) (outcomes : list (Z * bool))
    (sent : list (list byte)) : list (list byte) :=
  match packets with
  | [] => sent
  | packet :: packets =>
      let payload := take (Z.to_nat maximumIPv4PacketLength) packet in
      let '(written, failed) := match outcomes with o :: _ => o | [] => (zlen payload, false) end in
      if failed || negb (written =? zlen payload) then sent
      else copyDatagrams packets (tail outcomes) (sent ++ [payload])
  end.

(** * Theorems *)

(** The adapter of src/internal/relay/dns.go implements the interface.  Its
    state is the cache and the number of exchanges made; [env] gives the
    clock, loads, cancellation and network of each of them. *)
Record ExchangeEnv := mkExchangeEnv {
  ee_load1 : Load;
  ee_load2 : Load;
  ee_cancelled : bool;
  ee_net : nat → gostring → gostring → result error DNSConn;
}.

Definition system_exchange `{Unicode} (env : nat → ExchangeEnv) (s : SystemDNS * nat)
    (network : gostring) (query : list byte) : result error (list byte) * (SystemDNS * nat) :=
  let e := env s.2 in
  match Exchange (ee_net e) s.1 (ee_load1 e) (ee_load2 e) (ee_cancelled e) network query with
  | Some (r, d, _) => (r, (d, Datatypes.S s.2))
  | None => (Err (ENew []), s)
  end.

#[global] Program Instance SystemDNS_exchanger `{Unicode} (env : nat → ExchangeEnv)
  : DNSExchanger (SystemDNS * nat) := {| dns_Exchange := system_exchange env |}.
Next Obligation.
  intros ? env [d n] network query response s'. unfold system_exchange. cbn.
  destruct (Exchange_returns (ee_net (env n)) d (ee_load1 (env n)) (ee_load2 (env n))
    (ee_cancelled (env n)) network query) as [[[r d'] trace] E]; rewrite E.
  intros [= -> <-]. by apply Exchange_valid in E as [? _].
Qed.

Section packets.
Context `{Netstack}.

(** A well-formed IPv4 packet at the start of [packet], of [total] bytes. *)
Definition ipv4_prefix (packet : list byte) (total : Z) : Prop :=
  ∃ b0 b2 b3, idx packet 0 = Some b0 ∧ idx packet 2 = Some b2 ∧ idx packet 3 = Some b3 ∧
    b2z b0 / 16 = 4 ∧ total = b2z b2 * 256 + b2z b3 ∧
    20 ≤ b2z b0 mod 16 * 4 ≤ total ∧ total ≤ zlen packet.

Lemma nibbles b : Z.shiftr (b2z b) 4 = b2z b / 16 ∧ Z.land (b2z b) 0x0F = b2z b mod 16.
Proof.
  rewrite Z.shiftr_div_pow2 by lia. split; [done|].
  change 15 with (Z.ones 4). by rewrite Z.land_ones by lia.
Qed.

Lemma validateIPv4Packet_spec packet :
  ∃ r, validateIPv4Packet packet = Some r ∧ (r = None ↔ ∃ total, ipv4_prefix packet total).
Proof.
  unfold validateIPv4Packet. rewrite IPv4MinimumSize_rfc. case_if as E1.
  { eexists. split; [done|]. split; [done|]. intros (t & b0 & b2 & b3 & _ & _ & _ & _ & _ & ? & ?).
    bool_to_prop. lia. }
  bool_to_prop. destruct (idx_is_Some packet 0) as [b0 E0]; [lia|].
  destruct (idx_is_Some packet 2) as [b2 Eb2]; [lia|]. destruct (idx_is_Some packet 3) as [b3 Eb3]; [lia|].
  rewrite E0. cbn [mbind option_bind]. destruct (nibbles b0) as [-> ->].
  assert (Hpre : ∀ t, ipv4_prefix packet t ↔ b2z b0 / 16 = 4 ∧ t = b2z b2 * 256 + b2z b3 ∧
    20 ≤ b2z b0 mod 16 * 4 ≤ t ∧ t ≤ zlen packet).
  { intros t. unfold ipv4_prefix. rewrite E0, Eb2, Eb3. naive_solver. }
  pose proof (b2z_range b2). pose proof (b2z_range b3).
  case_if as E2; bool_to_prop.
  { eexists. split; [done|]. split; [done|]. intros [t Ht%Hpre]. lia. }
  case_if as E3.
  { eexists. split; [done|]. split; [done|]. intros [t Ht%Hpre]. apply orb_true_iff in E3 as [?|?]; bool_to_prop; lia. }
  bool_to_prop. rewrite Eb2, Eb3. cbn [mbind option_bind]. rewrite be16_arith. unfold maximumIPv4PacketLength.
  case_if as E4.
  { eexists. split; [done|]. split; [done|]. intros [t Ht%Hpre].
    rewrite !orb_true_iff in E4. destruct E4 as [[?|?]|?]; bool_to_prop; lia. }
  bool_to_prop. eexists. split; [done|]. split; [|done]. intros _. exists (b2z b2 * 256 + b2z b3).
  apply Hpre. lia.
Qed.

Lemma Inject_cases e packet :
  (∃ err, (∀ total, ¬ ipv4_prefix packet total) ∧ Inject e packet = Some (Some err, None, e)) ∨
  (∃ total, ipv4_prefix packet total ∧
    ((done e = true ∧ ∃ err, Inject e packet = Some (Some err, None, e)) ∨
     (done e = false ∧ ∃ e', Inject e packet = Some (None, Some (take (Z.to_nat total) packet), e') ∧
       stats e' = set_BytesFromDevice (u64 (BytesFromDevice (stats e) + total))
                    (set_PacketsFromDevice (u64 (PacketsFromDevice (stats e) + 1)) (stats e))))).
Proof.
  unfold Inject. destruct (validateIPv4Packet_spec packet) as ([err|] & -> & Hr); cbn [mbind option_bind].
  - left. exists err. split; [|done]. intros t Ht. assert (Some err = None) by (apply Hr; eauto). done.
  - right. destruct (proj1 Hr eq_refl) as [total Ht]. exists total. split; [done|].
    destruct Ht as (b0 & b2 & b3 & E0 & E2 & E3 & _ & -> & ? & ?).
    destruct (done e) eqn:Ed; [left; by eauto|right]. split; [done|].
    rewrite E2, E3. cbn [mbind option_bind]. rewrite be16_arith.
    rewrite sub_Some by lia. cbn [mbind option_bind]. eexists.
    split; [unfold slice; by rewrite drop_0, Nat.sub_0_r|done].
Qed.

(** Injecting device packets.  [Inject] never panics on any byte string.
    A packet that is not a complete IPv4 packet with a consistent header is
    refused, and so is every packet after [Close]; neither changes a counter.
    Otherwise Netstack receives exactly the bytes of the IPv4 total length
    (trailing bytes cut), and the two counters grow by one packet and that
    many bytes, modulo 2^64. *)
Theorem Inject_spec e packet :
  (∃ err, (∀ total, ¬ ipv4_prefix packet total) ∧ Inject e packet = Some (Some err, None, e)) ∨
  (∃ total, ipv4_prefix packet total ∧
    ((done e = true ∧ ∃ err, Inject e packet = Some (Some err, None, e)) ∨
     (done e = false ∧ ∃ e', Inject e packet = Some (None, Some (take (Z.to_nat total) packet), e') ∧
       stats e' = set_BytesFromDevice (u64 (BytesFromDevice (stats e) + total))
                    (set_PacketsFromDevice (u64 (PacketsFromDevice (stats e) + 1)) (stats e))))).
Proof. apply Inject_cases. Qed.

(** Injecting a batch, in order. *)
Fixpoint inject_all (e : Engine) (packets : list (list byte)) : option (list (list byte) * Engine) :=
  match packets with
  | [] => Some ([], e)
  | packet :: packets =>
      r ← Inject e packet;
      let '(_, owned, e) := r in
      rest ← inject_all e packets;
      Some (option_list owned ++ rest.1, rest.2)
  end.

Lemma inject_frame e packet err owned e' :
  Inject e packet = Some (err, owned, e') →
  done e' = done e ∧
  PacketsFromDevice (stats e') mod 2^64 = (PacketsFromDevice (stats e) + zlen (option_list owned)) mod 2^64 ∧
  BytesFromDevice (stats e') mod 2^64 = (BytesFromDevice (stats e) + zlen (concat (option_list owned))) mod 2^64.
Proof.
  unfold Inject. destruct (validateIPv4Packet packet) as [[x|]|]; cbn [mbind option_bind]; [| |done].
  { intros [= <- <- <-]. cbn. by rewrite !Z.add_0_r. }
  case_if; [intros [= <- <- <-]; cbn; by rewrite !Z.add_0_r|].
  destruct (idx packet 2) as [b2|]; [|done]. cbn [mbind option_bind].
  destruct (idx packet 3) as [b3|]; [|done]. cbn [mbind option_bind].
  destruct (sub packet 0 _) as [owned'|] eqn:Es; [|done]. cbn [mbind option_bind].
  intros [= <- <- <-]. apply sub_inv in Es as (_ & _ & _ & Hl).
  change (option_list (Some owned')) with [owned']. change (zlen [owned']) with 1.
  replace (concat [owned']) with owned' by (symmetry; apply app_nil_r). rewrite Hl, Z.sub_0_r.
  cbn [stats set_stats done set_BytesFromDevice set_PacketsFromDevice PacketsFromDevice BytesFromDevice].
  unfold add64, u64. by rewrite !Zmod_mod.
Qed.

(** The ingress counters.  Over any sequence of injections the packet and
    byte counters advance by the number and total size of the packets handed
    to Netstack, modulo 2^64. *)
Theorem inject_counters e packets accepted e' :
  inject_all e packets = Some (accepted, e') →
  PacketsFromDevice (stats e') mod 2^64 = (PacketsFromDevice (stats e) + zlen accepted) mod 2^64 ∧
  BytesFromDevice (stats e') mod 2^64 = (BytesFromDevice (stats e) + zlen (concat accepted)) mod 2^64.
Proof.
  revert e accepted. induction packets as [|p packets IH]; intros e accepted; cbn [inject_all].
  - intros [= <- <-]. cbn. by rewrite !Z.add_0_r.
  - destruct (Inject e p) as [[[err owned] e1]|] eqn:Ei; [|done]. cbn [mbind option_bind].
    destruct (inject_all e1 packets) as [[rest e2]|] eqn:Er; [|done]. cbn [mbind option_bind fst snd].
    intros [= <- <-]. apply inject_frame in Ei as (_ & Hp & Hb). apply IH in Er as [Hp2 Hb2].
    rewrite concat_app, !zlen_app, !Z.add_assoc. split.
    + by rewrite Hp2, <-Zplus_mod_idemp_l, Hp, Zplus_mod_idemp_l.
    + by rewrite Hb2, <-Zplus_mod_idemp_l, Hb, Zplus_mod_idemp_l.
Qed.

(** Engine configuration.  [New] succeeds exactly when the virtual DNS
    address is IPv4 (or left to its default), the MTU is 68...65535 (or zero
    for the default), every proxy port is a port number and Netstack could be
    set up; the engine then starts open, with zeroed counters and positive
    timeouts, queue and backlog. *)
Theorem engine_New_spec config nic :
  0 ≤ cfg_MTU config →
  match New config nic with
  | Ok (e, o) =>
      nic = None ∧ Is4 (virtualDNS e) = true ∧ done e = false ∧ stats e = zeroStats ∧
      68 ≤ so_mtu o ≤ 65535 ∧ 0 < so_queue o ∧ 0 < so_inflight o ∧
      0 < dialTimeout e ∧ 0 < udpIdleTimeout e ∧
      Forall (λ p, 1 ≤ p ≤ 65535) (cfg_ProxyTCPPorts config) ∧
      ∀ p, p ∈ proxyTCPPorts e ↔ p ∈ cfg_ProxyTCPPorts config
  | Err _ =>
      (∃ a, cfg_VirtualDNS config = Some a ∧ Is4 a = false) ∨
      0 < cfg_MTU config < 68 ∨ 65535 < cfg_MTU config ∨
      Exists (λ p, p < 1 ∨ 65535 < p) (cfg_ProxyTCPPorts config) ∨ nic ≠ None
  end.
Proof.
  intros Hm. unfold New. rewrite IPv4MinimumMTU_rfc. case_if as Ev.
  { left. destruct (cfg_VirtualDNS config) as [a|]; cbn in Ev; [|done].
    exists a. split; [done|]. by apply negb_true_iff in Ev. }
  apply negb_false_iff in Ev. cbv zeta. unfold maximumIPv4PacketLength.
  set (mtu := if cfg_MTU config =? 0 then _ else _).
  assert (mtu = cfg_MTU config ∧ 0 < mtu ∨ mtu = 1400) as Hmtu.
  { unfold mtu. case_if; bool_to_prop; [by right|left; lia]. }
  case_if as Em; [apply orb_true_iff in Em as [?|?]; bool_to_prop; lia|]. bool_to_prop.
  assert (Hports : ∀ ps acc, match proxy_ports ps acc with
    | Ok sel => Forall (λ p, 1 ≤ p ≤ 65535) ps ∧ ∀ p, p ∈ sel ↔ p ∈ acc ∨ p ∈ ps
    | Err _ => Exists (λ p, p < 1 ∨ 65535 < p) ps
    end).
  { induction ps as [|p ps IH]; intros acc; cbn [proxy_ports]; [set_solver|].
    case_if as Ep; [left; apply orb_true_iff in Ep as [?|?]; bool_to_prop; lia|]. bool_to_prop.
    specialize (IH ({[u16 p]} ∪ acc)). destruct (proxy_ports ps _); [|by right].
    destruct IH as [Hf Hs]. split; [by constructor|]. intros q. rewrite Hs.
    unfold u16. rewrite Z.mod_small by lia. set_solver. }
  specialize (Hports (cfg_ProxyTCPPorts config) ∅). destruct (proxy_ports _ _) as [sel|e]; [|tauto].
  destruct Hports as [Hf Hs]. destruct nic as [e|]; [naive_solver|].
  cbn [virtualDNS done stats so_mtu so_queue so_inflight dialTimeout udpIdleTimeout proxyTCPPorts].
  unfold defaultPacketQueueSize, defaultMaxTCPInFlight, defaultDialTimeout, defaultUDPIdleTimeout, Minute, Second.
  split_and!; try done; try lia; try (case_if; bool_to_prop; lia). set_solver.
Qed.
End packets.

(** ** Forwarders *)

Definition is_complete (f : effect) : bool := match f with EffComplete _ => true | _ => false end.
Definition is_dial (f : effect) : bool := match f with EffDial _ _ => true | _ => false end.

(** C25: every TCP request is completed.  Whatever happens to the host dial
    and to the Netstack endpoint, [handleTCP] completes the forwarder request
    exactly once, with a reset exactly when no flow is started; a dialled
    host connection is bridged or closed; DNS for the virtual address is
    served locally and never dialled; everything else dials exactly the
    destination; and a counter moves only when a flow starts. *)
Theorem handleTCP_spec e id dialled created :
  let '(effects, e') := handleTCP e id dialled created in
  let local := is_virtual_dns e id in
  let started := (local || dialled) && created in
  filter (λ f, is_complete f = true) effects = [EffComplete (negb started)] ∧
  filter (λ f, is_dial f = true) effects =
    (if local then [] else [EffDial (str "tcp4") (endpointAddress (LocalAddress id) (LocalPort id))]) ∧
  (EffCloseHost ∈ effects ↔ local = false ∧ dialled = true ∧ created = false) ∧
  (EffBridge ∈ effects ↔ local = false ∧ dialled = true ∧ created = true) ∧
  (EffServeDNS ∈ effects ↔ local = true ∧ created = true) ∧
  TCPFlows (stats e') = (if started then add64 (TCPFlows (stats e)) 1 else TCPFlows (stats e)) ∧
  ProxyTCPFlows (stats e') =
    (if started && negb local && bool_decide (LocalPort id ∈ proxyTCPPorts e)
     then add64 (ProxyTCPFlows (stats e)) 1 else ProxyTCPFlows (stats e)).
Proof.
  unfold handleTCP, acceptDNSTCP. destruct (is_virtual_dns e id), dialled, created; cbn;
    try destruct (bool_decide (LocalPort id ∈ proxyTCPPorts e)); cbn;
    split_and!; try done; split; set_solver.
Qed.

(** UDP and QUIC.  In proxy mode a UDP flow to port 443 that is not for
    the virtual DNS address is refused without any dial and counted; DNS for
    the virtual address is served locally; any other flow dials exactly its
    destination, and a dialled connection is bridged or closed. *)
Theorem handleUDP_spec e id dialled created :
  let '(handled, effects, e') := handleUDP e id dialled created in
  let local := is_virtual_dns e id in
  let quic := negb local && blockUDP443 e && (LocalPort id =? 443) in
  handled = negb quic && (local || dialled) && created ∧
  filter (λ f, is_dial f = true) effects =
    (if local || quic then []
     else [EffDial (str "udp4") (endpointAddress (LocalAddress id) (LocalPort id))]) ∧
  (EffCloseHost ∈ effects ↔ local = false ∧ quic = false ∧ dialled = true ∧ created = false) ∧
  (EffBridge ∈ effects ↔ local = false ∧ quic = false ∧ dialled = true ∧ created = true) ∧
  (EffServeDNS ∈ effects ↔ local = true ∧ created = true) ∧
  BlockedQUICFlows (stats e') =
    (if quic then add64 (BlockedQUICFlows (stats e)) 1 else BlockedQUICFlows (stats e)) ∧
  UDPFlows (stats e') = (if handled then add64 (UDPFlows (stats e)) 1 else UDPFlows (stats e)).
Proof.
  unfold handleUDP. destruct (is_virtual_dns e id), (blockUDP443 e), (LocalPort id =? 443), dialled, created;
    cbn; split_and!; try done; split; set_solver.
Qed.

(** ** The DNS servers *)

Section serve_props.
Context {S : Type} `{!DNSExchanger S}.

Definition truncated (packet : list byte) : list byte := take (Z.to_nat maximumIPv4PacketLength) packet.

Lemma serveDNSUDP_frame e s queries failing written out e' s' :
  serveDNSUDP e s queries failing written = (out, e', s') →
  ∃ answered new, out = written ++ new ∧ sublist answered (map truncated queries) ∧
    Forall2 valid_response answered new.
Proof.
  revert e s written. induction queries as [|q queries IH]; intros e s written; cbn [serveDNSUDP].
  - intros [= <- _ _]. exists [], []. by rewrite app_nil_r.
  - fold (truncated q). destruct (dns_Exchange s _ _) as [[response|err] s1] eqn:E.
    + apply dns_Exchange_valid in E. case_if.
      * intros [= <- _ _]. exists [], []. rewrite app_nil_r. split_and!; [done| |constructor].
        apply sublist_nil_l.
      * intros (answered & new & -> & Hs & Hf)%IH. exists (truncated q :: answered), (response :: new).
        rewrite <-app_assoc. split_and!; [done|by constructor|by constructor].
    + intros (answered & new & -> & Hs & Hf)%IH. exists answered, new. split_and!; [done|by constructor|done].
Qed.

(** The UDP DNS server.  Whatever datagrams the device sends and whenever
    writes fail, the datagrams sent back are, in order, valid responses
    (matching transaction ID, response bit) to distinct queries the device
    sent; failed exchanges are skipped. *)
Theorem serveDNSUDP_answers e s queries failing :
  let '(out, _, _) := serveDNSUDP e s queries failing [] in
  ∃ answered, sublist answered (map truncated queries) ∧ Forall2 valid_response answered out.
Proof.
  destruct (serveDNSUDP e s queries failing []) as [[out e'] s'] eqn:E.
  apply serveDNSUDP_frame in E as (answered & new & -> & Hs & Hf). by exists answered.
Qed.




(** The exchanges made for [queries], one after the other: each succeeds, with
    a response that fits a frame. *)
Inductive answered : S → list (list byte) → list (list byte) → S → Prop :=
| answered_nil s : answered s [] [] s
| answered_cons s query response s1 queries responses s2 :
    dns_Exchange s (str "tcp") query = (Ok response, s1) → 12 ≤ zlen response ≤ 65535 →
    answered s1 queries responses s2 → answered s (query :: queries) (response :: responses) s2.




End serve_props.

(** ** Datagram copying *)

(** Datagrams keep their boundaries.  Whatever the write outcomes, what
    [copyDatagrams] has sent is a prefix of the datagrams it read, one write
    per datagram, in order; with no failing write it is all of them. *)
Theorem copyDatagrams_prefix packets outcomes :
  ∃ k, (k ≤ length packets)%nat ∧
    copyDatagrams packets outcomes [] = map truncated (take k packets) ∧
    (outcomes = [] → k = length packets).
Proof.
  assert (∀ sent, ∃ k, (k ≤ length packets)%nat ∧
    copyDatagrams packets outcomes sent = sent ++ map truncated (take k packets) ∧
    (outcomes = [] → k = length packets)) as Hgen; [|apply (Hgen [])].
  revert outcomes. induction packets as [|p packets IH]; intros outcomes sent; cbn [copyDatagrams].
  { exists 0%nat. split_and!; [lia|by rewrite app_nil_r|done]. }
  fold (truncated p).
  destruct (match outcomes with [] => _ | o :: _ => o end) as [written failed] eqn:Eo.
  case_if as E.
  { exists 0%nat. split_and!; [lia|by rewrite app_nil_r|]. intros ->. injection Eo as <- <-.
    by rewrite Z.eqb_refl in E. }
  destruct (IH (tail outcomes) (sent ++ [truncated p])) as (k & Hk & -> & Hall).
  exists (Datatypes.S k). cbn [take map length]. rewrite <-app_assoc. split_and!; [lia|done|].
  intros ->. by rewrite Hall.
Qed.

(** ** Concrete runs *)

#[local] Program Instance gvisor : Netstack := {| IPv4MinimumSize := 20; IPv4MinimumMTU := 68 |}.
Next Obligation. reflexivity. Qed.
Next Obligation. reflexivity. Qed.

Lemma defaultVirtualDNSAddr_parses : ParseAddr4 DefaultVirtualDNS = Some defaultVirtualDNSAddr.
Proof. vm_compute. reflexivity. Qed.

Definition sample_config : Config := mkConfig true None 0 0 0 0 0 [80; 443] true.

Definition sample_engine : Engine :=
  mkEngine defaultVirtualDNSAddr true defaultDialTimeout defaultUDPIdleTimeout {[80; 443]} true false zeroStats.

Definition sample_packet : list byte :=
  [x45; x00; x00; x16] ++ replicate 18 x07.

Lemma engine_New_spec_witness :
  ∃ e o, New sample_config None = Ok (e, o) ∧ 68 ≤ so_mtu o ≤ 65535 ∧ stats e = zeroStats.
Proof.
  pose proof (engine_New_spec sample_config None) as Hn. cbn [cfg_MTU sample_config] in Hn.
  specialize (Hn (Z.le_refl 0)).
  destruct (New sample_config None) as [[e o]|err] eqn:E; [|vm_compute in E; discriminate].
  exists e, o. split; [reflexivity|]. destruct Hn as (_ & _ & _ & Hs & Hm & _). by split.
Defined.

Lemma inject_counters_witness :
  ∃ e', inject_all sample_engine [sample_packet; [x00]; sample_packet ++ [x01]]
        = Some ([sample_packet; sample_packet], e') ∧
    PacketsFromDevice (stats e') mod 2^64 = (0 + 2) mod 2^64 ∧
    BytesFromDevice (stats e') mod 2^64 = (0 + 44) mod 2^64.
Proof.
  eexists. split; [vm_compute; reflexivity|].
  eapply (inject_counters sample_engine [sample_packet; [x00]; sample_packet ++ [x01]]
           [sample_packet; sample_packet]).
  vm_compute. reflexivity.
Defined.
End engine.
