(* ===== verification/Bridge.v ===== *)
(** The connection bridges of src/internal/relay/engine.go
    ([bridgeTCPWithDrainTimeout] and [bridgeDatagrams]): two copying
    goroutines, a closer goroutine watching the engine's context, and the
    main goroutine collecting completions, as a transition system whose
    events are the atomic steps of these goroutines. *)
From S2P Require Import Prelude.

Module bridge.

Inductive Kind := TCPBridge | DatagramBridge.

Inductive Main :=
| WaitFirst    (* the first receive from the completion channel *)
| WaitDrain    (* select on completion and drain timer; TCP only *)
| WaitLast     (* the receive after closing both connections *)
| Leaving      (* before close(stopCloser) and the deferred closes *)
| Returned.

Inductive Copier := Copying | Posted.
Inductive Closer := Watching | Ended.

Record Bridge := mkBridge {
  kind : Kind;
  main : Main;
  up : Copier;                 (* device to host *)
  down : Copier;               (* host to device *)
  closer : Closer;
  completed : nat;             (* tokens in the completion channel *)
  stopCloser : bool;           (* closed *)
  ctxDone : bool;
  timerFired : bool;
  deviceOpen : bool;
  hostOpen : bool;
  hostWriteOpen : bool;        (* half-closed by the up copier *)
  deviceWriteOpen : bool;      (* half-closed by the down copier *)
  lingerReset : bool;          (* SetLinger(0) was called on the host *)
}.

Definition start (k : Kind) : Bridge :=
  mkBridge k WaitFirst Copying Copying Watching 0 false false false true true true true false.

Inductive Event :=
| CtxCancel        (* the engine's context ends *)
| CloserFires      (* the closer sees the context and closes both *)
| CloserStops      (* the closer sees stopCloser *)
| UpEnds           (* io.Copy(host, device) or copyDatagrams returned *)
| DownEnds
| MainReceives     (* a completion token is received *)
| TimerFires       (* the drain timer wins the select *)
| MainLeaves.      (* close(stopCloser), deferred closes, return *)

Definition close_both (b : Bridge) : Bridge :=
  mkBridge (kind b) (main b) (up b) (down b) (closer b) (completed b) (stopCloser b) (ctxDone b)
    (timerFired b) false false (hostWriteOpen b) (deviceWriteOpen b) (lingerReset b).

Definition set_main (m : Main) (b : Bridge) : Bridge :=
  mkBridge (kind b) m (up b) (down b) (closer b) (completed b) (stopCloser b) (ctxDone b)
    (timerFired b) (deviceOpen b) (hostOpen b) (hostWriteOpen b) (deviceWriteOpen b) (lingerReset b).

Definition take_token (b : Bridge) : Bridge :=
  mkBridge (kind b) (main b) (up b) (down b) (closer b) (pred (completed b)) (stopCloser b) (ctxDone b)
    (timerFired b) (deviceOpen b) (hostOpen b) (hostWriteOpen b) (deviceWriteOpen b) (lingerReset b).

Definition end_closer (b : Bridge) : Bridge :=
  mkBridge (kind b) (main b) (up b) (down b) Ended (completed b) (stopCloser b) (ctxDone b)
    (timerFired b) (deviceOpen b) (hostOpen b) (hostWriteOpen b) (deviceWriteOpen b) (lingerReset b).

(** One step; [None]: the event is not enabled. *)
Definition step (b : Bridge) (ev : Event) : option Bridge :=
  match ev with
  | CtxCancel =>
      if ctxDone b then None
      else Some (mkBridge (kind b) (main b) (up b) (down b) (closer b) (completed b) (stopCloser b) true
             (timerFired b) (deviceOpen b) (hostOpen b) (hostWriteOpen b) (deviceWriteOpen b) (lingerReset b))
  | CloserFires =>
      match closer b with
      | Watching => if ctxDone b then Some (close_both (end_closer b)) else None
      | Ended => None
      end
  | CloserStops =>
      match closer b with
      | Watching => if stopCloser b then Some (end_closer b) else None
      | Ended => None
      end
  | UpEnds =>
      match up b with
      | Copying =>
          Some (mkBridge (kind b) (main b) Posted (down b) (closer b) (S (completed b)) (stopCloser b)
            (ctxDone b) (timerFired b) (deviceOpen b) (hostOpen b)
            (match kind b with TCPBridge => false | DatagramBridge => hostWriteOpen b end)
            (deviceWriteOpen b) (lingerReset b))
      | Posted => None
      end
  | DownEnds =>
      match down b with
      | Copying =>
          Some (mkBridge (kind b) (main b) (up b) Posted (closer b) (S (completed b)) (stopCloser b)
            (ctxDone b) (timerFired b) (deviceOpen b) (hostOpen b) (hostWriteOpen b)
            (match kind b with TCPBridge => false | DatagramBridge => deviceWriteOpen b end)
            (lingerReset b))
      | Posted => None
      end
  | MainReceives =>
      match completed b with
      | O => None
      | S _ =>
          match main b, kind b with
          | WaitFirst, TCPBridge => Some (set_main WaitDrain (take_token b))
          | WaitFirst, DatagramBridge => Some (set_main WaitLast (close_both (take_token b)))
          | WaitDrain, _ | WaitLast, _ => Some (set_main Leaving (take_token b))
          | _, _ => None
          end
      end
  | TimerFires =>
      match main b with
      | WaitDrain =>
          let b := close_both b in
          Some (mkBridge (kind b) WaitLast (up b) (down b) (closer b) (completed b) (stopCloser b)
            (ctxDone b) true (deviceOpen b) (hostOpen b) (hostWriteOpen b) (deviceWriteOpen b) true)
      | _ => None
      end
  | MainLeaves =>
      match main b with
      | Leaving =>
          let b := close_both b in
          Some (mkBridge (kind b) Returned (up b) (down b) (closer b) (completed b) true
            (ctxDone b) (timerFired b) (deviceOpen b) (hostOpen b) (hostWriteOpen b) (deviceWriteOpen b)
            (lingerReset b))
      | _ => None
      end
  end.

Definition bridge_step (b b' : Bridge) : Prop := ∃ ev, step b ev = Some b'.

Definition reachable (k : Kind) (b : Bridge) : Prop := rtc bridge_step (start k) b.

(** * Invariant *)

Definition posted_of (c : Copier) : nat := match c with Copying => 0 | Posted => 1 end.
Definition received_of (m : Main) : nat :=
  match m with WaitFirst => 0 | WaitDrain | WaitLast => 1 | Leaving | Returned => 2 end.

Record bridge_inv (b : Bridge) : Prop := {
  bi_tokens : (completed b + received_of (main b) = posted_of (up b) + posted_of (down b))%nat;
  bi_last : main b = WaitLast → deviceOpen b = false ∧ hostOpen b = false;
  bi_returned : main b = Returned → deviceOpen b = false ∧ hostOpen b = false ∧ stopCloser b = true;
  bi_stop : stopCloser b = true → main b = Returned;
  bi_linger : lingerReset b = timerFired b;
  bi_closer : closer b = Ended → ctxDone b = true ∧ deviceOpen b = false ∧ hostOpen b = false ∨
              stopCloser b = true;
  bi_datagram : kind b = DatagramBridge → main b ≠ WaitDrain ∧ timerFired b = false;
  bi_half_up : kind b = TCPBridge → (hostWriteOpen b = false ↔ up b = Posted);
  bi_half_down : kind b = TCPBridge → (deviceWriteOpen b = false ↔ down b = Posted);
}.

Lemma start_inv k : bridge_inv (start k).
Proof. by destruct k; split. Qed.

Lemma step_inv b b' : bridge_inv b → bridge_step b b' → bridge_inv b'.
Proof.
  intros [] [ev E]. destruct b as [k m u d c n st cx tf dev host hw dw l]. cbn in *.
  destruct ev; cbn in E.
  - destruct cx; [done|]. injection E as <-. split; cbn; try done. naive_solver.
  - destruct c; [|done]. destruct cx; [|done]. injection E as <-. split; cbn; try done; naive_solver.
  - destruct c; [|done]. destruct st; [|done]. injection E as <-. split; cbn; try done. naive_solver.
  - destruct u; [|done]. injection E as <-. split; cbn in *; try done; try lia.
    intros ->. naive_solver.
  - destruct d; [|done]. injection E as <-. split; cbn in *; try done; try lia.
    intros ->. naive_solver.
  - destruct n; [done|]. destruct m, k; try done; injection E as <-; split; cbn in *; try done; try lia; naive_solver.
  - destruct m; try done. injection E as <-. split; cbn in *; try done; try naive_solver.
  - destruct m; try done. injection E as <-. split; cbn in *; try done; naive_solver.
Qed.

Lemma bridge_reachable_inv k b : reachable k b → bridge_inv b ∧ kind b = k.
Proof.
  unfold reachable. intros H.
  assert (Hgen : ∀ a, rtc bridge_step a b → bridge_inv a → bridge_inv b ∧ kind b = kind a).
  { clear. intros a Hr. induction Hr as [a|a a' b Hs _ IH]; intros Ha; [done|].
    destruct (IH (step_inv _ _ Ha Hs)) as [Hb Hk]. split; [done|]. rewrite Hk.
    destruct Hs as [ev E]. unfold step in E. repeat case_match; simplify_eq; done. }
  by apply (Hgen (start k)); [|apply start_inv].
Qed.

(** C27: a bridge leaves nothing behind.  In every interleaving, when the main
    goroutine has returned, both copiers have finished, the completion
    channel is empty, both connections are closed and the closer has been
    told to stop; a copier that finished on a TCP bridge has half-closed its
    destination; and the host connection is reset (linger zero) only after
    the drain timer fired, which a datagram bridge never does. *)
Theorem bridge_clean k b :
  reachable k b →
  (main b = Returned →
   up b = Posted ∧ down b = Posted ∧ completed b = 0%nat ∧
   deviceOpen b = false ∧ hostOpen b = false ∧ stopCloser b = true) ∧
  (k = TCPBridge → (hostWriteOpen b = false ↔ up b = Posted) ∧
                   (deviceWriteOpen b = false ↔ down b = Posted)) ∧
  (lingerReset b = true → k = TCPBridge ∧ timerFired b = true).
Proof.
  intros [[] Hk]%bridge_reachable_inv. split_and!.
  - intros Hm. destruct (bi_returned0 Hm) as (? & ? & ?). rewrite Hm in bi_tokens0.
    revert bi_tokens0. destruct (up b), (down b); cbn; intros; split_and!; try done; lia.
  - intros ->. split; auto.
  - intros Hl. rewrite bi_linger0 in Hl. split; [|done]. destruct k; [done|].
    destruct (bi_datagram0 Hk). congruence.
Qed.

(** * Progress *)

Definition weight (b : Bridge) : nat :=
  (if ctxDone b then 0 else 1) + match closer b with Watching => 1 | Ended => 0 end +
  (1 - posted_of (up b)) + (1 - posted_of (down b)) +
  match main b with WaitFirst => 4 | WaitDrain => 3 | WaitLast => 2 | Leaving => 1 | Returned => 0 end.

Lemma step_weight b b' : bridge_step b b' → (weight b' < weight b)%nat.
Proof.
  intros [ev E]. destruct b as [k m u d c n st cx tf dev host hw dw l]. unfold weight.
  destruct ev; cbn in E;
    [destruct cx|destruct c, cx|destruct c, st|destruct u|destruct d|destruct n, m, k|destruct m|destruct m];
    try done; injection E as <-; cbn; lia.
Qed.

(** A bridge ends.  No interleaving has more than eight steps, so a
    bridge cannot run forever once its copies return; and it is never stuck:
    while the main goroutine has not returned, either a copier is still
    copying or the main goroutine itself can step.  In particular it is never
    left waiting for a completion nobody will post. *)
Theorem bridge_progress k b n :
  nsteps bridge_step n (start k) b →
  (n ≤ 8)%nat ∧
  (main b ≠ Returned → up b = Copying ∨ down b = Copying ∨
     ∃ b', step b MainReceives = Some b' ∨ step b MainLeaves = Some b').
Proof.
  intros Hn. split.
  - assert (∀ a c m, nsteps bridge_step m a c → (m + weight c ≤ weight a)%nat) as Hw.
    { clear. intros a c m. induction 1 as [|m a a' c Hs _ IH]; [lia|].
      apply step_weight in Hs. lia. }
    apply Hw in Hn. unfold weight at 2 in Hn. cbn in Hn. lia.
  - intros Hm. assert (reachable k b) as [[] _]%bridge_reachable_inv by (by apply rtc_nsteps; eauto).
    destruct b as [k' m u d c t st cx tf dev host hw dw l]. cbn in *.
    destruct u, d; [by left|by left|by right; left|]. right. right. cbn in bi_tokens0.
    destruct m; cbn in *; try done; [..|by eauto];
      (destruct t; [cbn in *; lia|]); destruct k'; eauto.
Qed.

(** ** A concrete run: the device side ends, the drain timer fires *)

Definition sample_events : list Event :=
  [UpEnds; MainReceives; TimerFires; DownEnds; MainReceives; MainLeaves].

Fixpoint run (b : Bridge) (evs : list Event) : option Bridge :=
  match evs with [] => Some b | ev :: evs => b' ← step b ev; run b' evs end.

Lemma run_nsteps b evs b' : run b evs = Some b' → nsteps bridge_step (length evs) b b'.
Proof.
  revert b. induction evs as [|ev evs IH]; intros b; cbn [run length]; [intros [= <-]; constructor|].
  destruct (step b ev) as [b1|] eqn:E; [|done]. cbn. intros Hr. econstructor; [by exists ev|auto].
Qed.

Definition sample_end : Bridge :=
  mkBridge TCPBridge Returned Posted Posted Watching 0 true false true false false false false true.

Lemma bridge_clean_witness :
  main sample_end = Returned ∧ deviceOpen sample_end = false ∧ hostOpen sample_end = false.
Proof.
  destruct (bridge_clean TCPBridge sample_end) as (Hr & _ & _).
  - apply rtc_nsteps. exists 6%nat. apply (run_nsteps _ sample_events). reflexivity.
  - split; [reflexivity|]. destruct (Hr eq_refl) as (_ & _ & _ & ? & ? & _). by split.
Defined.

Lemma bridge_progress_witness : (6 ≤ 8)%nat.
Proof.
  apply (bridge_progress TCPBridge sample_end 6).
  apply (run_nsteps _ sample_events). reflexivity.
Defined.

End bridge.
