(* ===== verification/EngineLife.v ===== *)
(** The life of a relay engine (src/internal/relay/engine.go): the goroutine
    [copyNetstackOutput] between Netstack's link queue and the output channel,
    the goroutine of every flow the forwarders start, the wait group that
    counts them, and [Close] with its [sync.Once], as one transition system.

    A flow's goroutine is a bridge of [Bridge] or a DNS server.  The two queues
    hold at most the configured number of packets.  Netstack (outside the
    sources) is the events [Emit], [TCPRequest] and [UDPRequest]. *)
From S2P Require Import Prelude Errors GoIO GoStrings GoOS GoNet Dns DnsExchange Engine Bridge.
Import engine.

Module enginelife.

(** * Setting up Netstack *)

(** How the three calls of [New] that can fail end; the string is Netstack's
    error text. *)
Record NICOutcome := mkNICOutcome {
  nic_create : option gostring;
  nic_promiscuous : option gostring;
  nic_spoofing : option gostring;
}.

Inductive setup_effect := CreateNIC | SetPromiscuousMode | SetSpoofing | CancelContext | CloseStack.

Definition setup_netstack (o : NICOutcome) : option error * list setup_effect :=
  match nic_create o with
  | Some err => (Some (ENew (str "create relay Netstack NIC: " ++ err)), [CreateNIC; CancelContext; CloseStack])
  | None =>
      match nic_promiscuous o with
      | Some err => (Some (ENew (str "enable relay promiscuous mode: " ++ err)),
                     [CreateNIC; SetPromiscuousMode; CancelContext; CloseStack])
      | None =>
          match nic_spoofing o with
          | Some err => (Some (ENew (str "enable relay address spoofing: " ++ err)),
                         [CreateNIC; SetPromiscuousMode; SetSpoofing; CancelContext; CloseStack])
          | None => (None, [CreateNIC; SetPromiscuousMode; SetSpoofing])
          end
      end
  end.

(** * State *)

(** [copyNetstackOutput]: at the read, at the send, and its two deferred
    calls. *)
Inductive Copier := Reading | Sending (packet : list byte) | ClosingOutput | LeavingGroup | Exited.

(** What a flow's goroutine runs; a DNS server holds its device connection. *)
Inductive Task := BridgeTask (b : bridge.Bridge) | DNSTask (deviceOpen : bool).

(** Whether [wg.Done] has run. *)
Inductive Flow := Running (t : Task) | Finished (t : Task).

(** The body of [closeOnce], call by call. *)
Inductive Closing :=
| Open | Cancelled | LinkClosed | StackClosed | StackWaited
| Waiting     (* in wg.Wait, with the counter above zero *)
| Released    (* the counter reached zero; wg.Wait has not returned yet *)
| Closed.

(** The engine's mutable parts, the two queues, its goroutines and the wait
    group.  [lf_panic]: a channel was closed or written after its close, the
    wait group went negative, or its contract was broken (below).  The last
    three fields record what left: what the consumer received, the packet the
    copier gave up when the context ended, and what [link.Close] discarded. *)
Record Life := mkLife {
  lf_engine : Engine;
  lf_cap : nat;
  lf_link : list (list (list byte));
  lf_linkClosed : bool;
  lf_output : list (list byte);
  lf_outputClosed : bool;
  lf_copier : Copier;
  lf_flows : list Flow;
  lf_wg : Z;
  lf_closing : Closing;
  lf_panic : bool;
  lf_received : list (list byte);
  lf_dropped : list (list byte);
  lf_discarded : list (list (list byte));
}.

Definition set_lf_engine (v : Engine) (s : Life) : Life :=
  {| lf_engine := v; lf_cap := lf_cap s; lf_link := lf_link s;
     lf_linkClosed := lf_linkClosed s; lf_output := lf_output s;
     lf_outputClosed := lf_outputClosed s; lf_copier := lf_copier s; lf_flows := lf_flows s;
     lf_wg := lf_wg s; lf_closing := lf_closing s; lf_panic := lf_panic s;
     lf_received := lf_received s; lf_dropped := lf_dropped s;
     lf_discarded := lf_discarded s |}.
Definition set_lf_link (v : list (list (list byte))) (s : Life) : Life :=
  {| lf_engine := lf_engine s; lf_cap := lf_cap s; lf_link := v;
     lf_linkClosed := lf_linkClosed s; lf_output := lf_output s;
     lf_outputClosed := lf_outputClosed s; lf_copier := lf_copier s; lf_flows := lf_flows s;
     lf_wg := lf_wg s; lf_closing := lf_closing s; lf_panic := lf_panic s;
     lf_received := lf_received s; lf_dropped := lf_dropped s;
     lf_discarded := lf_discarded s |}.
Definition set_lf_linkClosed (v : bool) (s : Life) : Life :=
  {| lf_engine := lf_engine s; lf_cap := lf_cap s; lf_link := lf_link s; lf_linkClosed := v;
     lf_output := lf_output s; lf_outputClosed := lf_outputClosed s; lf_copier := lf_copier s;
     lf_flows := lf_flows s; lf_wg := lf_wg s; lf_closing := lf_closing s;
     lf_panic := lf_panic s; lf_received := lf_received s; lf_dropped := lf_dropped s;
     lf_discarded := lf_discarded s |}.
Definition set_lf_output (v : list (list byte)) (s : Life) : Life :=
  {| lf_engine := lf_engine s; lf_cap := lf_cap s; lf_link := lf_link s;
     lf_linkClosed := lf_linkClosed s; lf_output := v; lf_outputClosed := lf_outputClosed s;
     lf_copier := lf_copier s; lf_flows := lf_flows s; lf_wg := lf_wg s;
     lf_closing := lf_closing s; lf_panic := lf_panic s; lf_received := lf_received s;
     lf_dropped := lf_dropped s; lf_discarded := lf_discarded s |}.
Definition set_lf_outputClosed (v : bool) (s : Life) : Life :=
  {| lf_engine := lf_engine s; lf_cap := lf_cap s; lf_link := lf_link s;
     lf_linkClosed := lf_linkClosed s; lf_output := lf_output s; lf_outputClosed := v;
     lf_copier := lf_copier s; lf_flows := lf_flows s; lf_wg := lf_wg s;
     lf_closing := lf_closing s; lf_panic := lf_panic s; lf_received := lf_received s;
     lf_dropped := lf_dropped s; lf_discarded := lf_discarded s |}.
Definition set_lf_copier (v : Copier) (s : Life) : Life :=
  {| lf_engine := lf_engine s; lf_cap := lf_cap s; lf_link := lf_link s;
     lf_linkClosed := lf_linkClosed s; lf_output := lf_output s;
     lf_outputClosed := lf_outputClosed s; lf_copier := v; lf_flows := lf_flows s;
     lf_wg := lf_wg s; lf_closing := lf_closing s; lf_panic := lf_panic s;
     lf_received := lf_received s; lf_dropped := lf_dropped s;
     lf_discarded := lf_discarded s |}.
Definition set_lf_flows (v : list Flow) (s : Life) : Life :=
  {| lf_engine := lf_engine s; lf_cap := lf_cap s; lf_link := lf_link s;
     lf_linkClosed := lf_linkClosed s; lf_output := lf_output s;
     lf_outputClosed := lf_outputClosed s; lf_copier := lf_copier s; lf_flows := v;
     lf_wg := lf_wg s; lf_closing := lf_closing s; lf_panic := lf_panic s;
     lf_received := lf_received s; lf_dropped := lf_dropped s;
     lf_discarded := lf_discarded s |}.
Definition set_lf_wg (v : Z) (s : Life) : Life :=
  {| lf_engine := lf_engine s; lf_cap := lf_cap s; lf_link := lf_link s;
     lf_linkClosed := lf_linkClosed s; lf_output := lf_output s;
     lf_outputClosed := lf_outputClosed s; lf_copier := lf_copier s; lf_flows := lf_flows s;
     lf_wg := v; lf_closing := lf_closing s; lf_panic := lf_panic s;
     lf_received := lf_received s; lf_dropped := lf_dropped s;
     lf_discarded := lf_discarded s |}.
Definition set_lf_closing (v : Closing) (s : Life) : Life :=
  {| lf_engine := lf_engine s; lf_cap := lf_cap s; lf_link := lf_link s;
     lf_linkClosed := lf_linkClosed s; lf_output := lf_output s;
     lf_outputClosed := lf_outputClosed s; lf_copier := lf_copier s; lf_flows := lf_flows s;
     lf_wg := lf_wg s; lf_closing := v; lf_panic := lf_panic s; lf_received := lf_received s;
     lf_dropped := lf_dropped s; lf_discarded := lf_discarded s |}.
Definition set_lf_panic (v : bool) (s : Life) : Life :=
  {| lf_engine := lf_engine s; lf_cap := lf_cap s; lf_link := lf_link s;
     lf_linkClosed := lf_linkClosed s; lf_output := lf_output s;
     lf_outputClosed := lf_outputClosed s; lf_copier := lf_copier s; lf_flows := lf_flows s;
     lf_wg := lf_wg s; lf_closing := lf_closing s; lf_panic := v; lf_received := lf_received s;
     lf_dropped := lf_dropped s; lf_discarded := lf_discarded s |}.
Definition set_lf_received (v : list (list byte)) (s : Life) : Life :=
  {| lf_engine := lf_engine s; lf_cap := lf_cap s; lf_link := lf_link s;
     lf_linkClosed := lf_linkClosed s; lf_output := lf_output s;
     lf_outputClosed := lf_outputClosed s; lf_copier := lf_copier s; lf_flows := lf_flows s;
     lf_wg := lf_wg s; lf_closing := lf_closing s; lf_panic := lf_panic s; lf_received := v;
     lf_dropped := lf_dropped s; lf_discarded := lf_discarded s |}.
Definition set_lf_dropped (v : list (list byte)) (s : Life) : Life :=
  {| lf_engine := lf_engine s; lf_cap := lf_cap s; lf_link := lf_link s;
     lf_linkClosed := lf_linkClosed s; lf_output := lf_output s;
     lf_outputClosed := lf_outputClosed s; lf_copier := lf_copier s; lf_flows := lf_flows s;
     lf_wg := lf_wg s; lf_closing := lf_closing s; lf_panic := lf_panic s;
     lf_received := lf_received s; lf_dropped := v; lf_discarded := lf_discarded s |}.
Definition set_lf_discarded (v : list (list (list byte))) (s : Life) : Life :=
  {| lf_engine := lf_engine s; lf_cap := lf_cap s; lf_link := lf_link s;
     lf_linkClosed := lf_linkClosed s; lf_output := lf_output s;
     lf_outputClosed := lf_outputClosed s; lf_copier := lf_copier s; lf_flows := lf_flows s;
     lf_wg := lf_wg s; lf_closing := lf_closing s; lf_panic := lf_panic s;
     lf_received := lf_received s; lf_dropped := lf_dropped s; lf_discarded := v |}.

Definition start (e : Engine) (capacity : nat) : Life :=
  mkLife e capacity [] false [] false Reading [] 1 Open false [] [] [].

(** [New]: the engine with its copier running. *)
Definition create `{Netstack} (config : Config) (o : NICOutcome) : result error Life :=
  match New config (setup_netstack o).1 with
  | Err err => Err err
  | Ok (e, options) => Ok (start e (Z.to_nat (so_queue options)))
  end.

(** * Steps *)

Inductive event :=
| Emit (parts : list (list byte))               (* Netstack queues a packet for the device *)
| Injected (packet : list byte)                 (* Inject *)
| TCPRequest (id : FlowID) (dialled created : bool)
| UDPRequest (id : FlowID) (dialled created : bool)
| CopierRead | CopierSend | CopierStop | CopierClose | CopierDone
| Receive                                       (* the data connection takes a packet *)
| FlowStep (i : nat) (ev : bridge.Event)
| FlowAnswers (i : nat)                         (* a DNS server answers a query *)
| FlowServed (i : nat)                          (* a DNS server's read fails; it closes *)
| FlowDone (i : nat)                            (* wg.Done of a flow *)
| CloseStep.                                    (* the next call inside closeOnce *)

Definition cancel_bridge (b : bridge.Bridge) : bridge.Bridge := default b (bridge.step b bridge.CtxCancel).

Definition cancel_flow (f : Flow) : Flow :=
  match f with Running (BridgeTask b) => Running (BridgeTask (cancel_bridge b)) | f => f end.

(** The goroutine a handler's effect starts; its bridge sees the context. *)
Definition flow_of (k : bridge.Kind) (cancelled : bool) (f : effect) : option Flow :=
  match f with
  | EffBridge =>
      Some (Running (BridgeTask (if cancelled then cancel_bridge (bridge.start k) else bridge.start k)))
  | EffServeDNS => Some (Running (DNSTask true))
  | _ => None
  end.

(** The goroutines that [effects] start. *)
Definition flows_of (k : bridge.Kind) (effects : list effect) (s : Life) : list Flow :=
  omap (flow_of k (done (lf_engine s))) effects.

(** [wg.Add(1)] and [go], for every goroutine of [effects].  A wait group must
    not be raised from zero before a [Wait] has returned (package sync: "must
    happen before a Wait", "reused before previous Wait has returned"). *)
Definition spawn (k : bridge.Kind) (effects : list effect) (e : Engine) (s : Life) : Life :=
  let flows := flows_of k effects s in
  let s := set_lf_wg (lf_wg s + zlen flows) (set_lf_flows (lf_flows s ++ flows) (set_lf_engine e s)) in
  match lf_closing s, flows with
  | Released, _ :: _ => set_lf_panic true s
  | _, _ => s
  end.

(** [wg.Done()]: a negative counter panics, zero releases a waiting [Close]. *)
Definition group_done (s : Life) : Life :=
  let s := set_lf_wg (lf_wg s - 1) s in
  if lf_wg s <? 0 then set_lf_panic true s
  else
    match lf_closing s with
    | Waiting => if lf_wg s =? 0 then set_lf_closing Released s else s
    | _ => s
    end.

Definition task_returned (t : Task) : bool :=
  match t with
  | BridgeTask b => match bridge.main b with bridge.Returned => true | _ => false end
  | DNSTask deviceOpen => negb deviceOpen
  end.

(** [copyNetstackOutput]. *)
Definition copier_step (s : Life) (ev : event) : option Life :=
  match ev, lf_copier s with
  | CopierRead, Reading =>
      match lf_link s with
      | [] => None
      | parts :: link =>
          let '(packet, _, e) := copy_output_round (lf_engine s) parts false in
          let s := set_lf_engine e (set_lf_link link s) in
          Some (match packet with Some packet => set_lf_copier (Sending packet) s | None => s end)
      end
  | CopierSend, Sending packet =>
      if lf_outputClosed s then Some (set_lf_panic true s)
      else if decide (length (lf_output s) < lf_cap s)%nat then
        Some (set_lf_copier Reading (set_lf_output (lf_output s ++ [packet]) s))
      else None
  | CopierStop, Reading => if done (lf_engine s) then Some (set_lf_copier ClosingOutput s) else None
  | CopierStop, Sending packet =>
      if done (lf_engine s)
      then Some (set_lf_copier ClosingOutput (set_lf_dropped (lf_dropped s ++ [packet]) s)) else None
  | CopierClose, ClosingOutput =>
      Some (set_lf_copier LeavingGroup
              (if lf_outputClosed s then set_lf_panic true s else set_lf_outputClosed true s))
  | CopierDone, LeavingGroup => Some (group_done (set_lf_copier Exited s))
  | _, _ => None
  end.

(** [closeOnce]'s body.  [link.Close] discards the packets still queued (as
    gVisor's channel endpoint documents); [wg.Wait] returns at zero. *)
Definition close_step (s : Life) : option Life :=
  match lf_closing s with
  | Open => Some (set_lf_closing Cancelled
                    (set_lf_flows (map cancel_flow (lf_flows s)) (set_lf_engine (Close (lf_engine s)) s)))
  | Cancelled =>
      Some (set_lf_closing LinkClosed
              (set_lf_discarded (lf_discarded s ++ lf_link s) (set_lf_link [] (set_lf_linkClosed true s))))
  | LinkClosed => Some (set_lf_closing StackClosed s)
  | StackClosed => Some (set_lf_closing StackWaited s)
  | StackWaited => Some (set_lf_closing (if lf_wg s =? 0 then Closed else Waiting) s)
  | Released => Some (set_lf_closing Closed s)
  | Waiting | Closed => None
  end.

Definition set_flow (i : nat) (f : Flow) (s : Life) : Life := set_lf_flows (<[i := f]> (lf_flows s)) s.

Definition flow_step (s : Life) (i : nat) (ev : event) : option Life :=
  match lf_flows s !! i with
  | Some (Running t) =>
      match ev, t with
      | FlowStep _ bridge.CtxCancel, _ => None
      | FlowStep _ ev, BridgeTask b => b' ← bridge.step b ev; Some (set_flow i (Running (BridgeTask b')) s)
      | FlowAnswers _, DNSTask true => Some (set_lf_engine (count_dns (lf_engine s)) s)
      | FlowServed _, DNSTask true => Some (set_flow i (Running (DNSTask false)) s)
      | FlowDone _, t => if task_returned t then Some (group_done (set_flow i (Finished t) s)) else None
      | _, _ => None
      end
  | _ => None
  end.

(** One step; [None]: the event is not possible now. *)
Definition step `{Netstack} (s : Life) (ev : event) : option Life :=
  match ev with
  | Emit parts =>
      if negb (lf_linkClosed s) && bool_decide (length (lf_link s) < lf_cap s)%nat
      then Some (set_lf_link (lf_link s ++ [parts]) s) else None
  | Injected packet =>
      '(_, _, e) ← Inject (lf_engine s) packet;
      Some (set_lf_engine e s)
  | TCPRequest id dialled created =>
      let '(effects, e) := handleTCP (lf_engine s) id dialled created in
      Some (spawn bridge.TCPBridge effects e s)
  | UDPRequest id dialled created =>
      let '(_, effects, e) := handleUDP (lf_engine s) id dialled created in
      Some (spawn bridge.DatagramBridge effects e s)
  | CopierRead | CopierSend | CopierStop | CopierClose | CopierDone => copier_step s ev
  | Receive =>
      match lf_output s with
      | [] => None
      | packet :: output => Some (set_lf_output output (set_lf_received (lf_received s ++ [packet]) s))
      end
  | FlowStep i _ | FlowAnswers i | FlowServed i | FlowDone i => flow_step s i ev
  | CloseStep => close_step s
  end.

(** * Invariant *)

Section life.
Context `{Netstack}.

(** Runs, extended at the end, with their events. *)
Inductive runs (s0 : Life) : list event → Life → Prop :=
| runs_refl : runs s0 [] s0
| runs_step evs s ev s' : runs s0 evs s → step s ev = Some s' → runs s0 (evs ++ [ev]) s'.

(** The packets Netstack queued for the device. *)
Definition emit_of (ev : event) : list (list (list byte)) := match ev with Emit parts => [parts] | _ => [] end.
Definition emitted (evs : list event) : list (list (list byte)) := concat (map emit_of evs).

(** The packets of a size the copier passes on. *)
Definition sized (packet : list byte) : bool :=
  negb ((zlen packet =? 0) || (maximumIPv4PacketLength <? zlen packet)).

Definition accepted (packets : list (list (list byte))) : list (list byte) :=
  filter (λ p, sized p = true) (map (λ parts, concat parts) packets).

Definition sending (c : Copier) : list (list byte) := match c with Sending p => [p] | _ => [] end.

(** What the copier has taken off the link, oldest first. *)
Definition passed (s : Life) : list (list byte) :=
  lf_received s ++ lf_output s ++ sending (lf_copier s) ++ lf_dropped s.

(** The copier has left its loop. *)
Definition stopped (c : Copier) : bool := match c with Reading | Sending _ => false | _ => true end.

Definition group_of (c : Copier) : Z := match c with Exited => 0 | _ => 1 end.

Definition is_running (f : Flow) : bool := match f with Running _ => true | Finished _ => false end.

Definition running (flows : list Flow) : Z := zlen (filter (λ f, is_running f = true) flows).

#[local] Arguments accepted _ : simpl never.
#[local] Arguments running _ : simpl never.

Definition flow_ok (cancelled : bool) (f : Flow) : Prop :=
  match f with
  | Running (BridgeTask b) => (∃ k, bridge.reachable k b) ∧ bridge.ctxDone b = cancelled
  | Finished (BridgeTask b) => (∃ k, bridge.reachable k b) ∧ bridge.main b = bridge.Returned
  | Running (DNSTask _) => True
  | Finished (DNSTask deviceOpen) => deviceOpen = false
  end.

(** The counters to the device after [packets] from the engine [e0] on; they
    are uint64. *)
Definition counted (e0 : Engine) (packets : list (list byte)) (e : Engine) : Prop :=
  PacketsToDevice (stats e) mod 2 ^ 64 = (PacketsToDevice (stats e0) + zlen packets) mod 2 ^ 64 ∧
  BytesToDevice (stats e) mod 2 ^ 64 = (BytesToDevice (stats e0) + zlen (concat packets)) mod 2 ^ 64.
#[local] Arguments counted _ _ _ : simpl never.

(** The invariant, of a state reached while Netstack queued [packets]. *)
Record life_inv (s0 : Life) (packets : list (list (list byte))) (s : Life) : Prop := {
  li_panic : lf_panic s = true → lf_closing s = Released ∨ lf_closing s = Closed;
  li_cap : lf_cap s = lf_cap s0;
  li_link : (length (lf_link s) ≤ lf_cap s)%nat;
  li_output : (length (lf_output s) ≤ lf_cap s)%nat;
  li_closed : lf_outputClosed s = true ↔ lf_copier s = LeavingGroup ∨ lf_copier s = Exited;
  li_done : done (lf_engine s) = true ↔ lf_closing s ≠ Open;
  li_stopped : stopped (lf_copier s) = true → done (lf_engine s) = true;
  li_group : lf_wg s = group_of (lf_copier s) + running (lf_flows s);
  li_packets : accepted packets = passed s ++ accepted (lf_link s) ++ accepted (lf_discarded s);
  li_dropped : lf_dropped s ≠ [] → stopped (lf_copier s) = true ∧ length (lf_dropped s) = 1%nat;
  li_discarded : lf_discarded s ≠ [] → lf_linkClosed s = true;
  li_linkClosed : lf_linkClosed s = true → lf_link s = [] ∧ lf_closing s ≠ Open ∧ lf_closing s ≠ Cancelled;
  li_counted : counted (lf_engine s0) (passed s) (lf_engine s);
  li_flows : Forall (flow_ok (done (lf_engine s))) (lf_flows s);
  li_waiting : lf_closing s = Waiting → 0 < lf_wg s;
  li_complete : lf_closing s = Released ∨ lf_closing s = Closed → lf_copier s = Exited;
}.

(** What the engine's other operations leave alone. *)
Definition same_output (e e' : Engine) : Prop :=
  done e' = done e ∧ PacketsToDevice (stats e') = PacketsToDevice (stats e) ∧
  BytesToDevice (stats e') = BytesToDevice (stats e).

Lemma counted_same e0 packets e e' : same_output e e' → counted e0 packets e → counted e0 packets e'.
Proof. unfold counted. by intros (_ & -> & ->). Qed.

Lemma counted_snoc e0 packets e parts cancelled :
  sized (concat parts) = true → counted e0 packets e →
  counted e0 (packets ++ [concat parts]) (copy_output_round e parts cancelled).2.
Proof.
  unfold sized, copy_output_round. case_if; [done|]. cbv zeta. intros _ [Hp Hb].
  assert (∀ x a b c, x mod 2 ^ 64 = (a + b) mod 2 ^ 64 → add64 x c mod 2 ^ 64 = (a + (b + c)) mod 2 ^ 64) as Hadd.
  { intros x a b c E. unfold add64, u64. by rewrite Zmod_mod, <-Zplus_mod_idemp_l, E, Zplus_mod_idemp_l, Z.add_assoc. }
  unfold counted. rewrite concat_app, !zlen_app. cbn [concat]. rewrite app_nil_r.
  destruct cancelled; split; by apply Hadd.
Qed.

Lemma Inject_same e packet err owned e' : Inject e packet = Some (err, owned, e') → same_output e e'.
Proof.
  unfold Inject. destruct (validateIPv4Packet packet) as [[|]|]; cbn [mbind option_bind]; [by intros [= _ _ <-]| |done].
  case_if; [by intros [= _ _ <-]|]. destruct (idx packet 2), (idx packet 3); cbn [mbind option_bind]; try done.
  destruct (sub _ _ _); [|done]. by intros [= _ _ <-].
Qed.

Lemma handleTCP_same e id dialled created : same_output e (handleTCP e id dialled created).2.
Proof. unfold handleTCP, acceptDNSTCP. repeat case_if_auto; done. Qed.

Lemma handleUDP_same e id dialled created : same_output e (handleUDP e id dialled created).2.
Proof. unfold handleUDP. repeat case_if_auto; done. Qed.

Lemma running_app a b : running (a ++ b) = running a + running b.
Proof. unfold running. rewrite filter_app. apply zlen_app. Qed.

Lemma running_nonneg flows : 0 ≤ running flows.
Proof. apply zlen_nonneg. Qed.

Lemma running_insert flows i f f' :
  flows !! i = Some f → running (<[i := f']> flows) =
    running flows - (if is_running f then 1 else 0) + (if is_running f' then 1 else 0).
Proof.
  intros Hi. pose proof (lookup_lt_Some _ _ _ Hi). rewrite insert_take_drop by done.
  rewrite <-(take_drop_middle _ _ _ Hi) at 3. rewrite !running_app.
  unfold running, zlen. rewrite !filter_cons. destruct f, f'; simpl; lia.
Qed.

Lemma running_none flows : Forall (λ f, is_running f = false) flows → running flows = 0.
Proof. intros Hf. unfold running. rewrite filter_none; [done|]. eapply Forall_impl; [exact Hf|]. by intros f ->. Qed.

Lemma running_cancel flows : running (map cancel_flow flows) = running flows.
Proof.
  induction flows as [|f flows IH]; [done|]. change (f :: flows) with ([f] ++ flows).
  rewrite map_app, !running_app, IH. f_equal. by destruct f as [[]|].
Qed.

Lemma cancel_bridge_ok b k :
  bridge.reachable k b → bridge.reachable k (cancel_bridge b) ∧ bridge.ctxDone (cancel_bridge b) = true.
Proof.
  intros Hr. unfold cancel_bridge. destruct (bridge.step b bridge.CtxCancel) as [b'|] eqn:E; cbn [default].
  - split; [|cbn in E; destruct (bridge.ctxDone b); [done|by injection E as <-]].
    eapply rtc_r; [exact Hr|]. by exists bridge.CtxCancel.
  - split; [done|]. cbn in E. by destruct (bridge.ctxDone b).
Qed.

Lemma bridge_step_ctx b ev b' :
  bridge.step b ev = Some b' → ev ≠ bridge.CtxCancel → bridge.ctxDone b' = bridge.ctxDone b.
Proof. destruct ev; try done; cbn; intros; repeat case_match; simplify_eq; done. Qed.

Lemma cancel_flow_ok c f : flow_ok c f → flow_ok true (cancel_flow f).
Proof.
  destruct f as [[b|]|[]]; cbn; try done. intros [[k Hr] _].
  destruct (cancel_bridge_ok b k Hr) as [? ?]. eauto.
Qed.

Lemma flow_of_ok k c f flow : flow_of k c f = Some flow → flow_ok c flow ∧ is_running flow = true.
Proof.
  destruct f; cbn; try done; [by intros [= <-]|]. intros [= <-]. split; [|done].
  assert (bridge.reachable k (bridge.start k)) as Hr by apply rtc_refl. destruct c; cbn; [|by eauto].
  destruct (cancel_bridge_ok _ _ Hr). eauto.
Qed.

Lemma spawned_ok k c effects :
  Forall (flow_ok c) (omap (flow_of k c) effects) ∧ running (omap (flow_of k c) effects) = zlen (omap (flow_of k c) effects).
Proof.
  induction effects as [|f effects [IH1 IH2]]; [done|]. cbn. destruct (flow_of k c f) as [flow|] eqn:E; [|done].
  apply flow_of_ok in E as [Hok Hr]. split; [by constructor|].
  change (flow :: ?l) with ([flow] ++ l). rewrite running_app, zlen_app, IH2. f_equal.
  unfold running. rewrite filter_cons, decide_True by done. done.
Qed.

Lemma spawn_inv s0 em s k effects e :
  life_inv s0 em s → same_output (lf_engine s) e → life_inv s0 em (spawn k effects e s).
Proof.
  intros Hi Hs. destruct (spawned_ok k (done (lf_engine s)) effects) as [Hf Hr]. pose proof Hs as [Hd _].
  pose proof (zlen_nonneg (flows_of k effects s)) as Hz.
  assert (life_inv s0 em (set_lf_wg (lf_wg s + zlen (flows_of k effects s))
    (set_lf_flows (lf_flows s ++ flows_of k effects s) (set_lf_engine e s)))) as Hb.
  { destruct Hi. split; cbn; rewrite ?Hd; try assumption.
    - unfold flows_of. rewrite running_app, Hr. lia.
    - by eapply counted_same.
    - by apply Forall_app.
    - intros Hw%li_waiting0. lia. }
  unfold spawn. cbv zeta. cbn [lf_closing set_lf_wg set_lf_flows set_lf_engine].
  destruct (lf_closing s) eqn:Hc; try exact Hb. destruct (flows_of k effects s); [exact Hb|].
  destruct Hb. split; cbn in *; try assumption. intros _. by left.
Qed.

(** A step that changes the engine's other counters only. *)
Lemma set_engine_inv s0 em s e :
  life_inv s0 em s → same_output (lf_engine s) e → life_inv s0 em (set_lf_engine e s).
Proof. intros [] Hs. pose proof Hs as [Hd _]. split; cbn; rewrite ?Hd; try assumption. by eapply counted_same. Qed.

Lemma accepted_app a b : accepted (a ++ b) = accepted a ++ accepted b.
Proof. unfold accepted. by rewrite map_app, filter_app. Qed.

Lemma accepted_one parts : accepted [parts] = if sized (concat parts) then [concat parts] else [].
Proof. unfold accepted. cbn [map]. rewrite filter_cons, filter_nil. by destruct (sized (concat parts)). Qed.

(** The wait group's counter covers a goroutine that has not left; the last
    one to leave releases [Close]. *)
Lemma group_done_cases s :
  0 < lf_wg s →
  group_done s = set_lf_wg (lf_wg s - 1) s ∧ (lf_closing s = Waiting → 1 < lf_wg s) ∨
  lf_closing s = Waiting ∧ lf_wg s = 1 ∧ group_done s = set_lf_closing Released (set_lf_wg (lf_wg s - 1) s).
Proof.
  intros Hw. unfold group_done. cbn. rewrite (proj2 (Z.ltb_ge _ _)) by lia.
  destruct (lf_closing s); try (by left). destruct (Z.eqb_spec (lf_wg s - 1) 0); [right|left]; (split_and!; [done|try lia..|try done]).
  by intros _; lia.
Qed.

(** The fields of the invariant that a step leaves alone, and the ones that
    follow from the control state. *)
Ltac life_fields :=
  split; cbn; rewrite ?length_app; cbn; try match goal with E : done _ = _ |- _ => rewrite ?E end;
  try assumption; try lia;
  try match goal with
      | |- @eq _ _ _ => fail 1
      | |- Forall _ _ => fail 1
      | |- counted _ _ _ => fail 1
      | Hp : accepted _ = _, Hc : counted _ _ _, Hf : Forall _ _ |- _ => clear Hp Hc Hf; solve [intuition congruence | intuition lia]
      end.

Lemma dropped_nil s0 em s : life_inv s0 em s → stopped (lf_copier s) = false → lf_dropped s = [].
Proof. intros [] Hs. destruct (lf_dropped s); [done|]. destruct li_dropped0; [done|congruence]. Qed.

Lemma copier_read_inv s0 em s parts link s' :
  life_inv s0 em s → lf_copier s = Reading → lf_link s = parts :: link →
  copier_step s CopierRead = Some s' → life_inv s0 em s'.
Proof.
  intros Hi Hc Hl. assert (lf_dropped s = []) as Hd by (eapply dropped_nil; [exact Hi|by rewrite Hc]).
  destruct Hi. unfold copier_step. rewrite Hc, Hl. unfold passed in *. rewrite Hc, Hd in *. cbn [sending app] in *.
  rewrite !app_nil_r in *. pose proof (counted_snoc (lf_engine s0) (lf_received s ++ lf_output s) (lf_engine s) parts false) as Hn. unfold copy_output_round in *.
  rewrite Hl in *. change (parts :: link) with ([parts] ++ link) in li_packets0. rewrite accepted_app, accepted_one in li_packets0.
  cbn [stopped group_of length] in *. unfold sized in Hn. case_if as Ez; cbv zeta.
  - assert (sized (concat parts) = false) as Es by (unfold sized; by rewrite Ez). rewrite Es in li_packets0.
    injection 1 as <-. split; cbn; unfold passed; cbn; rewrite ?Hc, ?Hd; cbn; rewrite ?app_nil_r; try assumption; try lia.
    intros [? _]%li_linkClosed0. done.
  - assert (sized (concat parts) = true) as Es by (unfold sized; by rewrite Ez). rewrite Es in li_packets0.
    injection 1 as <-. split; cbn; unfold passed; cbn; rewrite ?Hd; cbn; rewrite ?app_nil_r; try assumption; try lia.
    + rewrite li_closed0. naive_solver.
    + rewrite li_packets0. by rewrite <-!(assoc_L app).
    + intros [? _]%li_linkClosed0. done.
    + rewrite (assoc_L app). by apply Hn.
    + naive_solver.
Qed.

Lemma copier_inv s0 em s ev s' : life_inv s0 em s → copier_step s ev = Some s' → life_inv s0 em s'.
Proof.
  intros Hi E. unfold copier_step in E. destruct ev; try discriminate E;
    destruct (lf_copier s) as [|packet| | |] eqn:Hc; try discriminate E.
  - destruct (lf_link s) as [|parts link] eqn:Hl; [discriminate E|].
    eapply copier_read_inv; [exact Hi|exact Hc|exact Hl|]. unfold copier_step. by rewrite Hc, Hl.
  - assert (lf_dropped s = []) as Hn by (eapply dropped_nil; [exact Hi|by rewrite Hc]).
    destruct Hi. unfold passed in *. rewrite Hc, Hn in *. cbn in *.
    destruct (lf_outputClosed s) eqn:Ho; [destruct li_closed0 as [[] _]; congruence|].
    case_decide; [|discriminate E]. injection E as <-.
    life_fields; unfold passed; cbn; rewrite Hn, !app_nil_r; [by rewrite li_packets0|done].
  - destruct Hi. unfold passed in *. rewrite Hc in *. cbn in *. destruct (done (lf_engine s)) eqn:Hd; [|discriminate E].
    injection E as <-. life_fields.
  - assert (lf_dropped s = []) as Hn by (eapply dropped_nil; [exact Hi|by rewrite Hc]).
    destruct Hi. unfold passed in *. rewrite Hc, Hn in *. cbn in *. destruct (done (lf_engine s)) eqn:Hd; [|discriminate E].
    injection E as <-. life_fields; unfold passed; cbn; by rewrite Hn.
  - destruct Hi. unfold passed in *. rewrite Hc in *. cbn in *.
    destruct (lf_outputClosed s) eqn:Ho; [destruct li_closed0 as [[] _]; congruence|].
    injection E as <-. life_fields.
  - destruct Hi. unfold passed in *. rewrite Hc in *. cbn in *. pose proof (running_nonneg (lf_flows s)). injection E as <-.
    destruct (group_done_cases (set_lf_copier Exited s)) as [[-> Hw]|(Hw & H1 & ->)]; [cbn; lia|..]; cbn in *; life_fields.
Qed.

Lemma close_inv s0 em s s' : life_inv s0 em s → close_step s = Some s' → life_inv s0 em s'.
Proof.
  intros [] E. unfold close_step in E. destruct (lf_closing s) eqn:Hc; try discriminate E.
  - injection E as <-. life_fields; [by rewrite running_cancel|].
    apply Forall_map. eapply Forall_impl; [exact li_flows0|]. intros f. apply cancel_flow_ok.
  - injection E as <-. unfold passed in *.
    assert (lf_discarded s = []) as Hn.
    { destruct (lf_discarded s); [done|]. destruct li_linkClosed0 as (_ & _ & []); [by apply li_discarded0|done]. }
    life_fields. unfold passed. cbn. by rewrite li_packets0, Hn, app_nil_r.
  - injection E as <-. life_fields.
  - injection E as <-. life_fields.
  - destruct (lf_wg s =? 0) eqn:E0; injection E as <-; [apply Z.eqb_eq in E0|apply Z.eqb_neq in E0].
    + assert (lf_copier s = Exited) as He.
      { pose proof (running_nonneg (lf_flows s)). destruct (lf_copier s); cbn in li_group0; [lia..|done]. }
      life_fields.
    + assert (0 < lf_wg s).
      { pose proof (running_nonneg (lf_flows s)). destruct (lf_copier s); cbn in li_group0; lia. }
      life_fields.
  - injection E as <-. life_fields.
Qed.

(** A flow's goroutine takes a step and keeps running. *)
Lemma set_running_inv s0 em s i t t' :
  life_inv s0 em s → lf_flows s !! i = Some (Running t) → flow_ok (done (lf_engine s)) (Running t') →
  life_inv s0 em (set_flow i (Running t') s).
Proof.
  intros [] Hi Hok. split; cbn; try assumption.
  - rewrite (running_insert _ _ _ _ Hi). cbn. lia.
  - by apply Forall_insert.
Qed.

Lemma flow_finished_inv s0 em s i t :
  life_inv s0 em s → lf_flows s !! i = Some (Running t) → task_returned t = true →
  life_inv s0 em (group_done (set_flow i (Finished t) s)).
Proof.
  intros [] Hi Ht. pose proof (running_insert _ _ _ (Finished t) Hi) as Hr. cbn [is_running] in Hr.
  pose proof (running_nonneg (<[i := Finished t]> (lf_flows s))).
  assert (0 ≤ group_of (lf_copier s) ∧ (group_of (lf_copier s) = 0 → lf_copier s = Exited)) as [Hg He]
    by (destruct (lf_copier s); cbn; split; (lia || done)).
  assert (Forall (flow_ok (done (lf_engine s))) (<[i := Finished t]> (lf_flows s))) as Hf.
  { apply Forall_insert; [done|]. pose proof (Forall_lookup_1 _ _ _ _ li_flows0 Hi) as Hf.
    destruct t as [b|[]]; cbn in *; try done. split; [apply Hf|]. by destruct (bridge.main b). }
  destruct (group_done_cases (set_flow i (Finished t) s)) as [[-> Hw]|(Hw & H1 & ->)]; [cbn; lia|..]; cbn in *.
  - split; cbn; try assumption; [lia|]. intros ?%Hw. lia.
  - assert (lf_copier s = Exited) by (apply He; lia). life_fields.
Qed.

(** What a step of a flow's goroutine does. *)
Lemma bridge_flow_step s i j t ev s' :
  lf_flows s !! i = Some (Running t) → flow_step s i (FlowStep j ev) = Some s' →
  ∃ b b', t = BridgeTask b ∧ bridge.step b ev = Some b' ∧ ev ≠ bridge.CtxCancel ∧
          s' = set_flow i (Running (BridgeTask b')) s.
Proof.
  intros Hl E. unfold flow_step in E. rewrite Hl in E. destruct t as [b|]; [|by destruct ev]. exists b.
  destruct ev; try discriminate E; destruct (bridge.step b _) as [b'|]; try discriminate E; injection E as <-; by exists b'.
Qed.

Lemma flow_inv s0 em s i ev s' : life_inv s0 em s → flow_step s i ev = Some s' → life_inv s0 em s'.
Proof.
  intros Hi E0. pose proof E0 as E. unfold flow_step in E.
  destruct (lf_flows s !! i) as [[t|]|] eqn:Hl; try discriminate E.
  assert (flow_ok (done (lf_engine s)) (Running t)) as Hf.
  { destruct Hi. by apply (Forall_lookup_1 _ _ _ _ li_flows0 Hl). }
  destruct ev; try discriminate E.
  - destruct (bridge_flow_step _ _ _ _ _ _ Hl E0) as (b & b' & -> & Hb & Hn & ->). destruct Hf as [[k Hr] Hc].
    eapply set_running_inv; [exact Hi|exact Hl|]. cbn. split.
    + exists k. eapply rtc_r; [exact Hr|]. by exists ev.
    + by rewrite (bridge_step_ctx _ _ _ Hb Hn).
  - destruct t as [|[]]; try discriminate E. injection E as <-. by apply set_engine_inv.
  - destruct t as [|[]]; try discriminate E. injection E as <-. by eapply set_running_inv.
  - destruct (task_returned t) eqn:Ht; [|discriminate E]. injection E as <-. by apply flow_finished_inv.
Qed.

Lemma life_step_inv s0 em s ev s' :
  life_inv s0 em s → step s ev = Some s' → life_inv s0 (em ++ emit_of ev) s'.
Proof.
  intros Hi E. unfold step in E. destruct ev; cbn [emit_of]; rewrite ?app_nil_r.
  - destruct (negb _ && _) eqn:Eg; [|discriminate E]. injection E as <-. apply andb_prop in Eg as [Hl Eg].
    apply bool_decide_eq_true in Eg. apply negb_true_iff in Hl. destruct Hi.
    assert (lf_discarded s = []) as Hn by (destruct (lf_discarded s); [done|]; rewrite li_discarded0 in Hl; done).
    split; cbn; try assumption.
    + rewrite length_app. cbn. lia.
    + rewrite !accepted_app, li_packets0, Hn. unfold passed. cbn. rewrite ?app_nil_r.
      by rewrite <-(app_assoc _ (accepted (lf_link s))).
    + by rewrite Hl.
  - destruct (Inject _ _) as [[[err owned] e]|] eqn:Ei; [|discriminate E]. injection E as <-.
    apply set_engine_inv; [done|]. by eapply Inject_same.
  - pose proof (handleTCP_same (lf_engine s) id dialled created) as Hs.
    destruct (handleTCP _ _ _ _) as [effects e]. injection E as <-. by apply spawn_inv.
  - pose proof (handleUDP_same (lf_engine s) id dialled created) as Hs.
    destruct (handleUDP _ _ _ _) as [[ok effects] e]. injection E as <-. by apply spawn_inv.
  - by eapply copier_inv.
  - by eapply copier_inv.
  - by eapply copier_inv.
  - by eapply copier_inv.
  - by eapply copier_inv.
  - destruct Hi. unfold passed in *. destruct (lf_output s) as [|packet output] eqn:Ho; [discriminate E|]. injection E as <-.
    split; cbn; try assumption; [cbn in li_output0; lia|..]; unfold passed; cbn; rewrite <-(assoc_L app (lf_received s));
      [exact li_packets0|exact li_counted0].
  - by eapply flow_inv.
  - by eapply flow_inv.
  - by eapply flow_inv.
  - by eapply flow_inv.
  - by eapply close_inv.
Qed.

Lemma life_start_inv e capacity : done e = false → life_inv (start e capacity) [] (start e capacity).
Proof.
  intros Hd. split; cbn; rewrite ?Hd; try done; try lia; try (intuition congruence).
  unfold counted, passed. cbn. by rewrite !Z.add_0_r.
Qed.

Lemma emitted_snoc evs ev : emitted (evs ++ [ev]) = emitted evs ++ emit_of ev.
Proof. unfold emitted. rewrite map_app, concat_app. cbn. by rewrite app_nil_r. Qed.

Lemma life_runs_inv e capacity evs s :
  done e = false → runs (start e capacity) evs s → life_inv (start e capacity) (emitted evs) s.
Proof.
  intros Hd. induction 1 as [|evs s ev s' _ IH E]; [by apply life_start_inv|].
  rewrite emitted_snoc. by eapply life_step_inv.
Qed.

(** * The wait group's contract *)

(** A forwarder callback that starts a goroutine. *)
Definition starts_flow (s : Life) (ev : event) : bool :=
  match ev with
  | TCPRequest id dialled created =>
      bool_decide (flows_of bridge.TCPBridge (handleTCP (lf_engine s) id dialled created).1 s ≠ [])
  | UDPRequest id dialled created =>
      bool_decide (flows_of bridge.DatagramBridge (handleUDP (lf_engine s) id dialled created).1.2 s ≠ [])
  | _ => false
  end.

Lemma spawn_panic k effects e s :
  lf_panic (spawn k effects e s) = true → lf_panic s = true ∨ lf_closing s = Released ∧ flows_of k effects s ≠ [].
Proof.
  unfold spawn. cbv zeta. cbn [lf_closing set_lf_wg set_lf_flows set_lf_engine].
  destruct (lf_closing s); try (by left). destruct (flows_of k effects s); [by left|by right].
Qed.

Lemma group_done_panic s : 0 < lf_wg s → lf_panic (group_done s) = lf_panic s.
Proof. intros Hw. by destruct (group_done_cases s Hw) as [[-> _]|(_ & _ & ->)]. Qed.

(** The only step that panics. *)
Lemma panic_step s0 em s ev s' :
  life_inv s0 em s → step s ev = Some s' → lf_panic s' = true →
  lf_panic s = true ∨ lf_closing s = Released ∧ starts_flow s ev = true.
Proof.
  intros Hi E Hp. destruct ev; cbn [step] in E.
  - destruct (negb _ && _); [|discriminate E]. injection E as <-. by left.
  - destruct (Inject _ _) as [[[err owned] e]|]; [|discriminate E]. injection E as <-. by left.
  - unfold starts_flow. destruct (handleTCP _ _ _ _) as [effects e]. injection E as <-. cbn [fst].
    destruct (spawn_panic _ _ _ _ Hp) as [?|[? ?]]; [by left|right]. split; [done|by apply bool_decide_eq_true].
  - unfold starts_flow. destruct (handleUDP _ _ _ _) as [[ok effects] e]. injection E as <-. cbn [fst snd].
    destruct (spawn_panic _ _ _ _ Hp) as [?|[? ?]]; [by left|right]. split; [done|by apply bool_decide_eq_true].
  - left. unfold copier_step in E. destruct (lf_copier s); try discriminate E. destruct (lf_link s); [discriminate E|].
    destruct (copy_output_round _ _ _) as [[[]]]; by injection E as <-.
  - left. unfold copier_step in E. destruct (lf_copier s) eqn:Hc; try discriminate E. destruct (lf_outputClosed s) eqn:Ho.
    { apply (li_closed _ _ _ Hi) in Ho. rewrite Hc in Ho. by destruct Ho. }
    case_decide; [|discriminate E]. by injection E as <-.
  - left. unfold copier_step in E. destruct (lf_copier s); try discriminate E; (destruct (done _); [|discriminate E]); by injection E as <-.
  - left. unfold copier_step in E. destruct (lf_copier s) eqn:Hc; try discriminate E. injection E as <-.
    destruct (lf_outputClosed s) eqn:Ho; [|done]. apply (li_closed _ _ _ Hi) in Ho. rewrite Hc in Ho. by destruct Ho.
  - left. unfold copier_step in E. destruct (lf_copier s) eqn:Hc; try discriminate E. injection E as <-.
    rewrite group_done_panic in Hp; [done|]. cbn. rewrite (li_group _ _ _ Hi), Hc. cbn.
    pose proof (running_nonneg (lf_flows s)). lia.
  - left. destruct (lf_output s); [discriminate E|]. by injection E as <-.
  - left. destruct (lf_flows s !! i) as [[t|]|] eqn:Hl; try (unfold flow_step in E; rewrite Hl in E; discriminate E).
    by destruct (bridge_flow_step _ _ _ _ _ _ Hl E) as (b & b' & _ & _ & _ & ->).
  - left. unfold flow_step in E. destruct (lf_flows s !! i) as [[[|[]]|]|]; try discriminate E. by injection E as <-.
  - left. unfold flow_step in E. destruct (lf_flows s !! i) as [[[|[]]|]|]; try discriminate E. by injection E as <-.
  - left. unfold flow_step in E. destruct (lf_flows s !! i) as [[t|]|] eqn:Hl; try discriminate E.
    destruct (task_returned t); [|discriminate E]. injection E as <-. rewrite group_done_panic in Hp; [done|]. cbn.
    rewrite (li_group _ _ _ Hi). pose proof (running_insert _ _ _ (Finished t) Hl) as Hr. cbn [is_running] in Hr.
    pose proof (running_nonneg (<[i := Finished t]> (lf_flows s))). destruct (lf_copier s); cbn; lia.
  - left. unfold close_step in E. destruct (lf_closing s); try discriminate E; by injection E as <-.
Qed.

(** A run that panics has started a flow while [Close] was returning. *)
Lemma panic_late e capacity evs s :
  done e = false → runs (start e capacity) evs s → lf_panic s = true →
  ∃ before ev after s1, evs = before ++ ev :: after ∧ runs (start e capacity) before s1 ∧
    lf_closing s1 = Released ∧ starts_flow s1 ev = true.
Proof.
  intros Hd. induction 1 as [|evs s ev s' Hr IH E]; [done|]. intros Hp.
  destruct (panic_step _ _ _ _ _ (life_runs_inv _ _ _ _ Hd Hr) E Hp) as [Hp'|[Hc Hs]].
  - destruct (IH Hp') as (before & ev1 & after & s1 & -> & ?). exists before, ev1, (after ++ [ev]), s1.
    by rewrite <-app_assoc.
  - exists evs, ev, [], s. done.
Qed.

Lemma create_start config o s0 :
  create config o = Ok s0 →
  ∃ e capacity, s0 = start e capacity ∧ done e = false ∧ stats e = zeroStats ∧ (0 < capacity)%nat.
Proof.
  unfold create, New. cbv zeta. case_if; [discriminate|]. case_if; [discriminate|]. intros E.
  destruct (proxy_ports _ _) as [ports|]; [|discriminate E].
  destruct (setup_netstack o) as [[err|] fx]; cbn [fst] in E; [discriminate E|]. injection E as <-.
  eexists _, _. split_and!; [reflexivity..|]. cbn. case_if; [unfold defaultPacketQueueSize|]; lia.
Qed.

(** * Closing *)

(** The steps of the engine itself, as opposed to traffic that arrives. *)
Definition own (ev : event) : bool :=
  match ev with
  | Emit _ | Injected _ | TCPRequest _ _ _ | UDPRequest _ _ _ | FlowAnswers _ => false
  | _ => true
  end.

Definition own_step (s s' : Life) : Prop := ∃ ev, own ev = true ∧ step s ev = Some s'.

Definition copier_weight (c : Copier) : nat :=
  match c with Sending _ => 5 | Reading => 3 | ClosingOutput => 2 | LeavingGroup => 1 | Exited => 0 end.

Definition closing_weight (c : Closing) : nat :=
  match c with
  | Open => 7 | Cancelled => 6 | LinkClosed => 5 | StackClosed => 4 | StackWaited => 3 | Waiting => 2 | Released => 1
  | Closed => 0
  end.

Definition flow_weight (f : Flow) : nat :=
  match f with
  | Running (BridgeTask b) => S (bridge.weight b)
  | Running (DNSTask deviceOpen) => if deviceOpen then 2 else 1
  | Finished _ => 0
  end.

Definition flows_weight (flows : list Flow) : nat := sum_list_with flow_weight flows.

(** How many steps of its own an engine can still take. *)
Definition life_weight (s : Life) : nat :=
  3 * length (lf_link s) + length (lf_output s) + copier_weight (lf_copier s) +
  flows_weight (lf_flows s) + closing_weight (lf_closing s).

#[local] Arguments flows_weight _ : simpl never.

Lemma flows_weight_insert flows i f f' :
  flows !! i = Some f → (flow_weight f' < flow_weight f)%nat →
  (flows_weight (<[i := f']> flows) < flows_weight flows)%nat.
Proof.
  intros Hi Hw. pose proof (lookup_lt_Some _ _ _ Hi). rewrite insert_take_drop by done.
  rewrite <-(take_drop_middle _ _ _ Hi) at 3. unfold flows_weight. rewrite !sum_list_with_app. cbn. lia.
Qed.

Lemma cancel_weight b : (bridge.weight (cancel_bridge b) ≤ bridge.weight b)%nat.
Proof.
  unfold cancel_bridge. destruct (bridge.step b bridge.CtxCancel) as [b'|] eqn:E; [|done].
  apply Nat.lt_le_incl, bridge.step_weight. by exists bridge.CtxCancel.
Qed.

Lemma flows_weight_cancel flows : (flows_weight (map cancel_flow flows) ≤ flows_weight flows)%nat.
Proof.
  unfold flows_weight. induction flows as [|f flows IH]; [done|].
  cbn [map sum_list_with]. apply Nat.add_le_mono; [|exact IH].
  destruct f as [[b|]|]; try exact (le_n _). apply le_n_S, cancel_weight.
Qed.

Lemma group_done_weight s : (life_weight (group_done s) ≤ life_weight s)%nat.
Proof.
  unfold group_done. cbn. case_if; [done|]. unfold life_weight.
  destruct (lf_closing s) eqn:Hc; try (cbn; rewrite Hc; cbn; lia). case_if; cbn; rewrite ?Hc; cbn; lia.
Qed.

Lemma copier_weight_step s0 em s ev s' :
  life_inv s0 em s → copier_step s ev = Some s' → (life_weight s' < life_weight s)%nat.
Proof.
  intros Hi E. unfold copier_step in E. destruct ev; try discriminate E;
    destruct (lf_copier s) as [|packet| | |] eqn:Hc; try discriminate E.
  - unfold life_weight. rewrite Hc. destruct (lf_link s) as [|parts link]; [discriminate E|].
    destruct (copy_output_round _ _ _) as [[[packet|] ok] e]; injection E as <-; cbn; rewrite ?Hc; cbn; lia.
  - destruct (lf_outputClosed s) eqn:Ho.
    { apply (li_closed _ _ _ Hi) in Ho. rewrite Hc in Ho. by destruct Ho. }
    case_decide; [|discriminate E]. injection E as <-. unfold life_weight. cbn. rewrite Hc, length_app. cbn. lia.
  - case_if in E as Ec; [|discriminate E]. injection E as <-. unfold life_weight. cbn. rewrite Hc. cbn. lia.
  - case_if in E as Ec; [|discriminate E]. injection E as <-. unfold life_weight. cbn. rewrite Hc. cbn. lia.
  - injection E as <-. unfold life_weight. rewrite Hc. destruct (lf_outputClosed s); cbn; lia.
  - injection E as <-. eapply Nat.le_lt_trans; [apply group_done_weight|]. unfold life_weight. cbn. rewrite Hc. cbn. lia.
Qed.

Lemma flow_weight_step s i ev s' :
  flow_step s i ev = Some s' → own ev = true → (life_weight s' < life_weight s)%nat.
Proof.
  intros E0 Ho. pose proof E0 as E. unfold flow_step in E. destruct (lf_flows s !! i) as [[t|]|] eqn:Hl; try discriminate E.
  assert (∀ f, (flow_weight f < flow_weight (Running t))%nat → (life_weight (set_flow i f s) < life_weight s)%nat) as Hset.
  { intros f Hf. pose proof (flows_weight_insert _ _ _ _ Hl Hf). unfold life_weight. cbn. lia. }
  destruct ev; try discriminate E; try discriminate Ho.
  - destruct (bridge_flow_step _ _ _ _ _ _ Hl E0) as (b & b' & -> & Hb & _ & ->).
    apply Hset. cbn. apply le_n_S, bridge.step_weight. by exists ev.
  - destruct t as [|[]]; try discriminate E. injection E as <-. apply Hset. cbn. lia.
  - destruct (task_returned t); [|discriminate E]. injection E as <-.
    eapply Nat.le_lt_trans; [apply group_done_weight|]. apply Hset. destruct t as [|[]]; cbn; lia.
Qed.

Lemma own_weight s0 em s s' : life_inv s0 em s → own_step s s' → (life_weight s' < life_weight s)%nat.
Proof.
  intros Hi (ev & Ho & E). unfold step in E. destruct ev; try discriminate Ho;
    try (by eapply copier_weight_step); try (by eapply flow_weight_step).
  - destruct (lf_output s) as [|packet output] eqn:Hout; [discriminate E|]. injection E as <-.
    unfold life_weight. rewrite Hout. cbn. lia.
  - unfold close_step in E. unfold life_weight. destruct (lf_closing s) eqn:Hc; try discriminate E; injection E as <-.
    + pose proof (flows_weight_cancel (lf_flows s)). cbn. lia.
    + cbn. lia.
    + cbn. lia.
    + cbn. lia.
    + destruct (lf_wg s =? 0); cbn; lia.
    + cbn. lia.
Qed.

Lemma own_emits s s' ev : own ev = true → step s ev = Some s' → emit_of ev = [].
Proof. by destruct ev. Qed.

Lemma own_inv s0 em s s' : life_inv s0 em s → own_step s s' → life_inv s0 em s'.
Proof.
  intros Hi (ev & Ho & E). rewrite <-(app_nil_r em), <-(own_emits _ _ _ Ho E). by eapply life_step_inv.
Qed.

(** The steps a cancelled engine must take when they are possible: every
    goroutine that can go on does, a copy whose connections are closed
    returns, and a DNS server's read fails with its endpoint (or its
    deadline).  The drain timer and traffic are not needed. *)
Definition forced (s : Life) (ev : event) : bool :=
  match ev with
  | CopierStop | CopierClose | CopierDone | FlowServed _ | FlowDone _ | CloseStep => true
  | FlowStep i ev =>
      match lf_flows s !! i with
      | Some (Running (BridgeTask b)) =>
          match ev with
          | bridge.CloserFires | bridge.MainReceives | bridge.MainLeaves => true
          | bridge.UpEnds | bridge.DownEnds => negb (bridge.deviceOpen b) && negb (bridge.hostOpen b)
          | _ => false
          end
      | _ => false
      end
  | _ => false
  end.

Definition forced_step (s s' : Life) : Prop := ∃ ev, forced s ev = true ∧ step s ev = Some s'.

Definition closed_flow (f : Flow) : bool :=
  match f with
  | Running _ => false
  | Finished (BridgeTask b) => negb (bridge.deviceOpen b) && negb (bridge.hostOpen b)
  | Finished (DNSTask deviceOpen) => negb deviceOpen
  end.

(** Everything is over: [Close] has returned. *)
Definition complete (s : Life) : Prop :=
  lf_closing s = Closed ∧ lf_copier s = Exited ∧ lf_outputClosed s = true ∧ lf_wg s = 0 ∧
  Forall (λ f, closed_flow f = true) (lf_flows s).

Lemma forced_own s s' : forced_step s s' → own_step s s'.
Proof. intros (ev & Hf & E). exists ev. split; [|done]. by destruct ev. Qed.

Lemma finished_closed c f : flow_ok c f → is_running f = false → closed_flow f = true.
Proof.
  destruct f as [|[b|]]; cbn; [done| |by intros ->].
  intros [[k [[] _]%bridge.bridge_reachable_inv] Hm] _. by destruct (bi_returned Hm) as (-> & -> & _).
Qed.

(** A bridge whose context has ended can always go on, until it returns. *)
Lemma bridge_forced k b :
  bridge.reachable k b → bridge.ctxDone b = true →
  bridge.main b = bridge.Returned ∨
  ∃ ev b', bridge.step b ev = Some b' ∧
    (ev = bridge.CloserFires ∨ ev = bridge.MainReceives ∨ ev = bridge.MainLeaves ∨
     (ev = bridge.UpEnds ∨ ev = bridge.DownEnds) ∧ bridge.deviceOpen b = false ∧ bridge.hostOpen b = false).
Proof.
  intros [[] _]%bridge.bridge_reachable_inv Hc. destruct b as [k' m u d c t st cx tf dev host hw dw l]. cbn in *.
  subst cx. destruct c; [right; exists bridge.CloserFires; eexists; cbn; by auto|].
  destruct (bi_closer eq_refl) as [(_ & -> & ->)|Hst]; [|by left; auto].
  destruct u; [right; exists bridge.UpEnds; eexists; cbn; split; [done|naive_solver]|].
  destruct d; [right; exists bridge.DownEnds; eexists; cbn; split; [done|naive_solver]|].
  cbn in bi_tokens. destruct m; [..|by left]; right; cbn in bi_tokens.
  4: { exists bridge.MainLeaves. eexists. cbn. by auto. }
  all: destruct t; [lia|]; exists bridge.MainReceives; destruct k'; eexists; cbn; by auto.
Qed.

Lemma running_flow_forced s0 em s i t :
  life_inv s0 em s → done (lf_engine s) = true → lf_flows s !! i = Some (Running t) → ∃ s', forced_step s s'.
Proof.
  intros Hi Hd Hl. pose proof (Forall_lookup_1 _ _ _ _ (li_flows _ _ _ Hi) Hl) as Hf. rewrite Hd in Hf.
  assert (task_returned t = true → ∃ s', forced_step s s') as Hret.
  { intros Ht. eexists _, (FlowDone i). split; [done|]. cbn. unfold flow_step. rewrite Hl. destruct t; by rewrite Ht. }
  destruct t as [b|[]]; [|eexists _, (FlowServed i); split; [done|]; cbn; unfold flow_step; by rewrite Hl|by apply Hret].
  destruct Hf as [[k Hr] Hc]. destruct (bridge_forced _ _ Hr Hc) as [Hm|(ev & b' & Hb & Hev)].
  { apply Hret. cbn. by rewrite Hm. }
  exists (set_flow i (Running (BridgeTask b')) s), (FlowStep i ev). split.
  - cbn. rewrite Hl. by destruct Hev as [->|[->|[->|[[->| ->] [-> ->]]]]].
  - cbn [step]. unfold flow_step. rewrite Hl. destruct Hev as [->|[->|[->|[[->| ->] _]]]]; by rewrite Hb.
Qed.

(** While a cancelled engine is not done, a step it must take is possible. *)
Lemma cancelled_progress s0 em s :
  life_inv s0 em s → done (lf_engine s) = true → complete s ∨ ∃ s', forced_step s s'.
Proof.
  intros Hi Hd. destruct (lf_copier s) eqn:Hc.
  1,2: right; eexists _, CopierStop; split; [done|]; cbn; by rewrite Hc, Hd.
  1: right; eexists _, CopierClose; split; [done|]; cbn; by rewrite Hc.
  1: right; eexists _, CopierDone; split; [done|]; cbn; by rewrite Hc.
  destruct (decide (Forall (λ f, is_running f = false) (lf_flows s))) as [Hall|Hn].
  - assert (lf_wg s = 0) as Hw.
    { rewrite (li_group _ _ _ Hi), Hc. by apply running_none. }
    destruct (lf_closing s) eqn:Hk.
    1: by apply (li_done _ _ _ Hi) in Hd.
    1-4,6: right; eexists _, CloseStep; split; [done|]; cbn; unfold close_step; rewrite Hk; done.
    1: pose proof (li_waiting _ _ _ Hi Hk); lia.
    left. split_and!; [done..| |done|].
    + apply (li_closed _ _ _ Hi). by right.
    + apply Forall_lookup_2. intros i f Hl. eapply finished_closed; [apply (Forall_lookup_1 _ _ _ _ (li_flows _ _ _ Hi) Hl)|].
      by apply (Forall_lookup_1 _ _ _ _ Hall Hl).
  - right. apply not_Forall_Exists in Hn; [|apply _]. apply Exists_exists in Hn as (f & Hin & Hr).
    apply list_elem_of_lookup in Hin as [i Hl]. destruct f as [t|]; [|by destruct Hr]. by eapply running_flow_forced.
Qed.

Lemma group_done_engine s : lf_engine (group_done s) = lf_engine s.
Proof. unfold group_done. cbn. case_if; [done|]. destruct (lf_closing s); try done. by case_if. Qed.

Lemma cancelled_stays s s' : done (lf_engine s) = true → forced_step s s' → done (lf_engine s') = true.
Proof.
  intros Hd (ev & Hf & E). destruct ev; try discriminate Hf; cbn [step] in E.
  - unfold copier_step in E. rewrite Hd in E. destruct (lf_copier s); try discriminate E; by injection E as <-.
  - unfold copier_step in E. destruct (lf_copier s); try discriminate E. injection E as <-. by destruct (lf_outputClosed s).
  - unfold copier_step in E. destruct (lf_copier s); try discriminate E. injection E as <-. by rewrite group_done_engine.
  - destruct (lf_flows s !! i) as [[t|]|] eqn:Hl; try (unfold flow_step in E; rewrite Hl in E; discriminate E).
    by destruct (bridge_flow_step _ _ _ _ _ _ Hl E) as (b & b' & _ & _ & _ & ->).
  - unfold flow_step in E. destruct (lf_flows s !! i) as [[[|[]]|]|]; try discriminate E. by injection E as <-.
  - unfold flow_step in E. destruct (lf_flows s !! i) as [[t|]|]; try discriminate E.
    destruct (task_returned t); [|discriminate E]. injection E as <-. by rewrite group_done_engine.
  - unfold close_step in E. destruct (lf_closing s); try discriminate E; by injection E as <-.
Qed.

(** Nothing is lost before the engine is closed. *)
Lemma open_engine s0 em s :
  life_inv s0 em s → done (lf_engine s) = false → lf_dropped s = [] ∧ lf_discarded s = [] ∧ lf_panic s = false.
Proof.
  intros [] Hn. assert (lf_closing s = Open) as Ho.
  { destruct (lf_closing s); try done; (assert (done (lf_engine s) = true) by (by apply li_done0)); congruence. }
  split_and!.
  - destruct (lf_dropped s); [done|]. destruct li_dropped0 as [Hs _]; [done|]. apply li_stopped0 in Hs. congruence.
  - destruct (lf_discarded s); [done|]. by destruct li_linkClosed0 as (_ & [] & _); [apply li_discarded0|].
  - destruct (lf_panic s); [|done]. rewrite Ho in li_panic0. by destruct li_panic0.
Qed.

(** C6: the life of an engine.  From a successful [New] on, in every
    interleaving of the packet copier, the flows, the consumer of the output
    and [Close]:
    - the packets of a legal size that Netstack queued on the link are, in
      order, those the consumer received, those in the output channel, the one
      being sent, the one given up, those still on the link, and those
      [link.Close] discarded; until the engine is closed nothing is given up
      or discarded, and later the copier gives up at most one;
    - the packet and byte counters agree with what left the link;
    - both queues stay within the configured size, the wait group counts the
      goroutines that are running, and the output channel is closed exactly
      when the copier has left, at the latest when [Close] returns;
    - the output channel is never written or closed again after its close and
      the wait group never goes negative: the only panic is a flow that a
      forwarder callback starts in the moment between the end of the last
      goroutine and the return of [Close]'s [wg.Wait]. *)
Theorem engine_life config o s0 evs s :
  create config o = Ok s0 → runs s0 evs s →
  accepted (emitted evs) =
    lf_received s ++ lf_output s ++ sending (lf_copier s) ++ lf_dropped s ++
    accepted (lf_link s) ++ accepted (lf_discarded s) ∧
  (done (lf_engine s) = false → lf_dropped s = [] ∧ lf_discarded s = []) ∧
  (length (lf_dropped s) ≤ 1)%nat ∧
  (let passed := lf_received s ++ lf_output s ++ sending (lf_copier s) ++ lf_dropped s in
   PacketsToDevice (stats (lf_engine s)) mod 2 ^ 64 = zlen passed mod 2 ^ 64 ∧
   BytesToDevice (stats (lf_engine s)) mod 2 ^ 64 = zlen (concat passed) mod 2 ^ 64) ∧
  (length (lf_link s) ≤ lf_cap s0)%nat ∧ (length (lf_output s) ≤ lf_cap s0)%nat ∧
  lf_wg s = group_of (lf_copier s) + running (lf_flows s) ∧
  (lf_outputClosed s = true ↔ lf_copier s = LeavingGroup ∨ lf_copier s = Exited) ∧
  (lf_closing s = Closed → lf_outputClosed s = true) ∧
  (lf_panic s = true → ∃ before ev after s1, evs = before ++ ev :: after ∧ runs s0 before s1 ∧
     lf_closing s1 = Released ∧ starts_flow s1 ev = true).
Proof.
  intros (e & capacity & -> & Hd & Hz & _)%create_start Hr. pose proof (life_runs_inv _ _ _ _ Hd Hr) as Hi. pose proof (open_engine _ _ _ Hi) as Hopen. destruct Hi.
  destruct li_counted0 as [Hp Hb]. cbn [lf_engine start] in Hp, Hb. rewrite Hz in Hp, Hb. unfold passed in *.
  rewrite <-li_cap0. split_and!; try assumption.
  - rewrite li_packets0. by rewrite <-!app_assoc.
  - intros Hn. by destruct (Hopen Hn) as (? & ? & _).
  - destruct (lf_dropped s) eqn:Hn; [cbn; lia|]. destruct li_dropped0 as [_ ->]; [done|]. lia.
  - intros Hc. apply li_closed0. right. auto.
  - by apply panic_late.
Qed.

(** C7: [Close] returns.  Once the engine's context has been cancelled the
    engine can take at most [life_weight] further steps of its own, whatever
    the interleaving; while it is not over, one of the steps its goroutines
    are bound to take is possible, so nothing waits for ever; and those steps
    alone lead to the end: [Close] has returned, the output channel is
    closed, the wait group is empty, every flow has finished and every
    connection it held is closed. *)
Theorem engine_close_completes config o s0 evs s :
  create config o = Ok s0 → runs s0 evs s → done (lf_engine s) = true →
  (∀ n s', nsteps own_step n s s' → (n ≤ life_weight s)%nat) ∧
  (complete s ∨ ∃ s', forced_step s s') ∧
  ∃ n s', (n ≤ life_weight s)%nat ∧ nsteps forced_step n s s' ∧ complete s'.
Proof.
  intros (e & capacity & -> & Hd & _)%create_start Hr Hc. apply (life_runs_inv _ _ _ _ Hd) in Hr as Hi. split_and!.
  - intros n s'. apply (measure_bounds own_step life_weight (life_inv (start e capacity) (emitted evs))); [|done].
    intros s1 s2 Hi1 Hs. split; [by eapply own_weight|by eapply own_inv].
  - by eapply cancelled_progress.
  - apply (measure_completes forced_step life_weight
             (λ s, life_inv (start e capacity) (emitted evs) s ∧ done (lf_engine s) = true)); [| |done].
    + intros s1 s2 [Hi1 Hd1] Hs. pose proof (forced_own _ _ Hs).
      split_and!; [by eapply own_weight|by eapply own_inv|by eapply cancelled_stays].
    + intros s1 [Hi1 Hd1]. by eapply cancelled_progress.
Qed.
End life.

(** ** A concrete run: a flow, a packet to the device, a packet given up *)

#[local] Existing Instance engine.gvisor.

Fixpoint run (s : Life) (evs : list event) : option Life :=
  match evs with [] => Some s | ev :: evs => s' ← step s ev; run s' evs end.

Lemma run_runs s0 evs0 s evs s' : runs s0 evs0 s → run s evs = Some s' → runs s0 (evs0 ++ evs) s'.
Proof.
  revert s evs0. induction evs as [|ev evs IH]; intros s evs0 Hr; cbn [run]; [rewrite app_nil_r; by intros [= <-]|].
  destruct (step s ev) as [s1|] eqn:E; [|done]. cbn. intros Hs. rewrite (app_assoc _ [ev] evs).
  eapply IH; [|exact Hs]. by econstructor.
Qed.

Definition sample_life_config : Config := mkConfig true None 0 1 0 0 0 [80; 443] true.
Definition sample_flow : FlowID := mkFlowID (Addr4 x5d xb8 xd8 x22) 80.

(** A flow; a packet to the device; a packet the copier holds and one on the
    link when the engine is closed. *)
Definition sample_events : list event :=
  [TCPRequest sample_flow true true; Emit [[x45; x00]; [x01]]; CopierRead; CopierSend; Emit [[x45]]; CopierRead;
   Emit [[x46]]; CloseStep; FlowStep 0 bridge.CloserFires; CopierStop; CopierClose; CloseStep; CloseStep].

Definition sample_start : Life :=
  match create sample_life_config (mkNICOutcome None None None) with Ok s => s | Err _ => start sample_engine 0 end.

Definition sample_end : Life := default sample_start (run sample_start sample_events).

Lemma sample_runs :
  create sample_life_config (mkNICOutcome None None None) = Ok sample_start ∧ runs sample_start sample_events sample_end.
Proof.
  split; [vm_compute; reflexivity|]. apply (run_runs _ [] sample_start sample_events); [constructor|].
  vm_compute. reflexivity.
Qed.

Lemma engine_life_witness :
  lf_panic sample_end = false ∧ lf_dropped sample_end = [[x45]] ∧ lf_discarded sample_end = [[[x46]]] ∧
  accepted (emitted sample_events) = [[x45; x00; x01]; [x45]; [x46]].
Proof.
  destruct sample_runs as [Hc Hr]. destruct (engine_life _ _ _ _ _ Hc Hr) as (Ha & _).
  split_and!; [vm_compute; reflexivity..|rewrite Ha; vm_compute; reflexivity].
Defined.

Lemma engine_close_completes_witness :
  done (lf_engine sample_end) = true ∧
  ∃ n s', (n ≤ life_weight sample_end)%nat ∧ nsteps forced_step n sample_end s' ∧ complete s'.
Proof.
  destruct sample_runs as [Hc Hr].
  assert (done (lf_engine sample_end) = true) as Hd by (vm_compute; reflexivity).
  split; [exact Hd|]. apply (engine_close_completes _ _ _ _ _ Hc Hr Hd).
Defined.

(** The race [engine_life] leaves open can happen: an engine is being closed,
    its goroutines have ended, and a callback whose dial had succeeded before
    starts its flow before [wg.Wait] has returned. *)
Lemma late_flow_panics :
  ∃ s, run sample_start ([CloseStep; CloseStep; CloseStep; CloseStep; CloseStep; CopierStop; CopierClose; CopierDone;
         TCPRequest sample_flow true true]) = Some s ∧ lf_panic s = true.
Proof. eexists. split; vm_compute; reflexivity. Qed.

End enginelife.
