(* ===== verification/Sniff.v ===== *)
(** Hostname discovery of src/internal/proxy/connect.go: the TLS ClientHello
    and HTTP Host sniffers that choose the CONNECT target of an intercepted
    flow.

    As in the DNS parser, [None] is a Go run-time panic (index or slice out
    of range) or exhausted fuel, and is proved impossible. *)
From S2P Require Import Prelude Errors GoStrings GoNet.

Module sniff.

Definition maxInitialClientBytes : Z := 64 * 1024.

Inductive sniffResult := sniffNeedMore | sniffResolved | sniffUnavailable.

#[global] Instance sniffResult_eq_dec : EqDecision sniffResult.
Proof. solve_decision. Defined.

(** [http.ReadRequest] on the buffered bytes, as far as the sniffer looks at
    it: the [Host] field of the parsed request, or an error. *)
Class HTTPRequests := ReadRequestHost : list byte → result error gostring.

(** [int(b[o])<<8 | int(b[o+1])] *)
Definition u16_at (b : list byte) (o : Z) : option Z :=
  hi ← idx b o; lo ← idx b (o + 1); Some (be16 hi lo).

(** [int(b[o])<<16 | int(b[o+1])<<8 | int(b[o+2])] *)
Definition u24_at (b : list byte) (o : Z) : option Z :=
  h ← idx b o; m ← idx b (o + 1); l ← idx b (o + 2);
  Some (Z.lor (Z.lor (Z.shiftl (b2z h) 16) (Z.shiftl (b2z m) 8)) (b2z l)).

Definition hyphen : byte := chr "-".

Definition host_rune_bad (character : Z) : bool :=
  ((character <? 97) || (122 <? character)) && ((character <? 65) || (90 <? character)) &&
  ((character <? 48) || (57 <? character)) && negb (character =? 45).

(** The body of the label loop; [None] cannot happen, as the emptiness test
    comes first. *)
Definition label_ok (label : gostring) : option bool :=
  if (zlen label =? 0) || (63 <? zlen label) then Some false
  else
    first ← idx label 0;
    last ← idx label (zlen label - 1);
    if bool_decide (first = hyphen) || bool_decide (last = hyphen) then Some false
    else Some (negb (existsb (λ r, host_rune_bad r.1) (runes label))).

Fixpoint labels_ok (labels : list gostring) : option bool :=
  match labels with
  | [] => Some true
  | label :: rest => ok ← label_ok label; if ok : bool then labels_ok rest else Some false
  end.

Definition validProxyHostname (host : gostring) : option bool :=
  let host := TrimSuffix host (str ".") in
  if (zlen host =? 0) || (253 <? zlen host) || ParseIP host then Some false
  else labels_ok (Split host dot).

Section sniff.
Context `{Unicode} `{HTTPRequests}.

(** The server-name list of the extension; [fuel] bounds the rounds, each of
    which advances [offset] by at least three. *)
Fixpoint name_loop (fuel : nat) (extension : list byte) (offset end_ : Z)
    : option (gostring * bool) :=
  match fuel with
  | O => None
  | S fuel =>
      if offset + 3 <=? end_ then
        nameType ← idx extension offset;
        nameLength ← u16_at extension (offset + 1);
        let offset := offset + 3 in
        if end_ - offset <? nameLength then Some ([], false)
        else if bool_decide (nameType = x00) then
          host ← sub extension offset (offset + nameLength);
          valid ← validProxyHostname host;
          if valid : bool then Some (ToLower host, true) else Some ([], false)
        else name_loop fuel extension (offset + nameLength) end_
      else Some ([], false)
  end.

Definition serverNameFromExtension (extension : list byte) : option (gostring * bool) :=
  if zlen extension <? 2 then Some ([], false)
  else
    listLength ← u16_at extension 0;
    if zlen extension - 2 <? listLength then Some ([], false)
    else name_loop (S (length extension)) extension 2 (2 + listLength).

(** The extension loop: each round advances by at least four. *)
Fixpoint extension_loop (fuel : nat) (hello : list byte) (offset end_ : Z)
    : option (gostring * bool) :=
  match fuel with
  | O => None
  | S fuel =>
      if offset + 4 <=? end_ then
        extensionType ← u16_at hello offset;
        extensionLength ← u16_at hello (offset + 2);
        let offset := offset + 4 in
        if end_ - offset <? extensionLength then Some ([], false)
        else if extensionType =? 0 then
          extension ← sub hello offset (offset + extensionLength);
          serverNameFromExtension extension
        else extension_loop fuel hello (offset + extensionLength) end_
      else Some ([], false)
  end.

Definition clientHelloServerName (hello : list byte) : option (gostring * bool) :=
  if zlen hello <? 35 then Some ([], false)
  else
    let offset := 34 in
    session ← idx hello offset;
    let sessionLength := b2z session in
    let offset := offset + 1 in
    if zlen hello <? offset + sessionLength + 2 then Some ([], false)
    else
      let offset := offset + sessionLength in
      cipherLength ← u16_at hello offset;
      let offset := offset + 2 in
      if (cipherLength =? 0) || (zlen hello <? offset + cipherLength + 1) then Some ([], false)
      else
        let offset := offset + cipherLength in
        compression ← idx hello offset;
        let compressionLength := b2z compression in
        let offset := offset + 1 in
        if zlen hello <? offset + compressionLength + 2 then Some ([], false)
        else
          let offset := offset + compressionLength in
          extensionsLength ← u16_at hello offset;
          let offset := offset + 2 in
          if zlen hello - offset <? extensionsLength then Some ([], false)
          else extension_loop (S (length hello)) hello offset (offset + extensionsLength).

(** What is decided once the bytes of a record have joined [handshake]. *)
Definition handshake_step (handshake : list byte) : option (option (gostring * sniffResult)) :=
  if 4 <=? zlen handshake then
    kind ← idx handshake 0;
    if negb (bool_decide (kind = x01)) then Some (Some ([], sniffUnavailable))
    else
      handshakeLength ← u24_at handshake 1;
      if maxInitialClientBytes - 4 <? handshakeLength then Some (Some ([], sniffUnavailable))
      else if 4 + handshakeLength <=? zlen handshake then
        hello ← sub handshake 4 (4 + handshakeLength);
        name ← clientHelloServerName hello;
        let '(host, ok) := name in
        if ok : bool then Some (Some (host, sniffResolved))
        else Some (Some ([], sniffUnavailable))
      else Some None
  else Some None.

(** The record loop: each round consumes a record of at least six bytes. *)
Fixpoint record_loop (fuel : nat) (payload handshake : list byte) (offset : Z)
    : option (gostring * sniffResult) :=
  match fuel with
  | O => None
  | S fuel =>
      if zlen payload - offset <? 5 then Some ([], sniffNeedMore)
      else
        kind ← idx payload offset;
        if negb (bool_decide (kind = x16)) then Some ([], sniffUnavailable)
        else
          recordLength ← u16_at payload (offset + 3);
          if (recordLength =? 0) || (maxInitialClientBytes <? recordLength) ||
             (maxInitialClientBytes <? zlen handshake + recordLength)
          then Some ([], sniffUnavailable)
          else if zlen payload - offset - 5 <? recordLength then Some ([], sniffNeedMore)
          else
            record ← sub payload (offset + 5) (offset + 5 + recordLength);
            let handshake := handshake ++ record in
            decided ← handshake_step handshake;
            match decided with
            | Some r => Some r
            | None =>
                let offset := offset + (5 + recordLength) in
                if offset =? zlen payload then Some ([], sniffNeedMore)
                else record_loop fuel payload handshake offset
            end
  end.

Definition sniffTLSClientHello (payload : list byte) : option (gostring * sniffResult) :=
  record_loop (S (length payload)) payload [] 0.

Definition crlf2 : gostring := [x0d; x0a; x0d; x0a].

Definition sniffHTTPHost (payload : list byte) : option (gostring * sniffResult) :=
  if negb (Contains payload crlf2) then Some ([], sniffNeedMore)
  else
    match ReadRequestHost payload with
    | Err _ => Some ([], sniffUnavailable)
    | Ok host =>
        let host :=
          match SplitHostPort host with Some (parsedHost, _) => parsedHost | None => host end in
        let host := Trim host (str "[]") in
        valid ← validProxyHostname host;
        if valid : bool then Some (ToLower host, sniffResolved)
        else Some ([], sniffUnavailable)
    end.

Definition sniffHostname (payload : list byte) (destinationPort : Z)
    : option (gostring * sniffResult) :=
  if zlen payload =? 0 then Some ([], sniffNeedMore)
  else
    first ← idx payload 0;
    if bool_decide (first = x16) then sniffTLSClientHello payload
    else if (destinationPort =? 443) || (destinationPort =? 8443) then
      Some ([], sniffUnavailable)
    else sniffHTTPHost payload.
End sniff.

(** * Every read is in range and every loop ends *)

(** Discharge the first indexing expression of the goal. *)
Ltac in_range_step :=
  match goal with
  | |- context [idx ?l ?i] =>
      let x := fresh "x" in destruct (idx_is_Some l i) as [x ->]; [lia|]
  | |- context [sub ?l ?lo ?hi] => rewrite (sub_Some l lo hi) by lia
  end; cbn [mbind option_bind].

Lemma u16_at_Some b o :
  0 ≤ o → o + 2 ≤ zlen b → ∃ v, u16_at b o = Some v ∧ 0 ≤ v < 65536.
Proof.
  intros. unfold u16_at. do 2 in_range_step. eexists. split; [done|]. apply be16_range.
Qed.

Lemma u16_at_range b o v : u16_at b o = Some v → 0 ≤ v < 65536.
Proof.
  unfold u16_at. destruct (idx b o); [|done]. cbn. destruct (idx b _); [|done]. cbn.
  intros [= <-]. apply be16_range.
Qed.

Lemma be24_arith h m l :
  Z.lor (Z.lor (Z.shiftl (b2z h) 16) (Z.shiftl (b2z m) 8)) (b2z l)
  = b2z h * 65536 + b2z m * 256 + b2z l.
Proof.
  replace (Z.shiftl (b2z h) 16) with (Z.shiftl (Z.shiftl (b2z h) 8) 8)
    by (rewrite Z.shiftl_shiftl by lia; done).
  rewrite <-Z.shiftl_lor, lor_shiftl_add, lor_shiftl_add. lia.
Qed.

Lemma u24_at_Some b o :
  0 ≤ o → o + 3 ≤ zlen b → ∃ v, u24_at b o = Some v ∧ 0 ≤ v.
Proof.
  intros. unfold u24_at. do 3 in_range_step. eexists. split; [done|].
  rewrite be24_arith. pose proof (b2z_range x). pose proof (b2z_range x0).
  pose proof (b2z_range x1). lia.
Qed.

Ltac u16_step :=
  match goal with
  | |- context [u16_at ?b ?o] =>
      let v := fresh "v" in let Hv := fresh "Hv" in
      destruct (u16_at_Some b o) as (v & -> & Hv); [lia|lia|]; cbn [mbind option_bind]
  end.

Lemma label_ok_returns label : ∃ b, label_ok label = Some b.
Proof.
  unfold label_ok. case_if; [by eauto|]. bool_to_prop. pose proof (zlen_nonneg label).
  do 2 in_range_step. case_if; eauto.
Qed.

Lemma labels_ok_returns labels : ∃ b, labels_ok labels = Some b.
Proof.
  induction labels as [|l labels IH]; cbn [labels_ok]; [by eauto|].
  destruct (label_ok_returns l) as [[] ->]; cbn; eauto.
Qed.

Lemma validProxyHostname_returns host : ∃ b, validProxyHostname host = Some b.
Proof. unfold validProxyHostname. cbv zeta. case_if; [by eauto|]. apply labels_ok_returns. Qed.

(** ** Accepted hostnames *)

Definition host_char (b : byte) : bool :=
  is_lower b || is_upper b || is_digit b || bool_decide (b = hyphen).

Lemma host_rune_bad_byte b : is_ascii b = true → host_rune_bad (b2z b) = negb (host_char b).
Proof. by destruct b. Qed.

Lemma host_rune_bad_wide r : 128 ≤ r → host_rune_bad r = true.
Proof.
  intros. unfold host_rune_bad. rewrite !(proj2 (Z.ltb_lt _ r)), !orb_true_r by lia.
  by rewrite (proj2 (Z.eqb_neq _ _)) by lia.
Qed.

(** A string all of whose runes pass is pure ASCII of the allowed set. *)
Lemma host_runes_ok s :
  existsb (λ r, host_rune_bad r.1) (runes s) = false → forallb host_char s = true.
Proof.
  induction s as [|b s IH]; [done|]. intros E. destruct (is_ascii b) eqn:Ea.
  - assert (runes (b :: s) = (b2z b, [b]) :: runes s) as Er.
    { cbn [runes]. unfold is_ascii in Ea. by rewrite Ea. }
    rewrite Er in E. cbn [existsb fst] in E. apply orb_false_iff in E as [E1 E2].
    rewrite host_rune_bad_byte in E1 by done. apply negb_false_iff in E1.
    cbn [forallb]. by rewrite E1, IH.
  - destruct (runes_nonascii b s Ea) as (r & raw & rest & Er & Hr).
    rewrite Er in E. cbn [existsb fst] in E. by rewrite host_rune_bad_wide in E.
Qed.

Lemma label_ok_true label :
  label_ok label = Some true →
  label ≠ [] ∧ zlen label ≤ 63 ∧ forallb host_char label = true ∧
  head label ≠ Some hyphen ∧ last label ≠ Some hyphen.
Proof.
  unfold label_ok. case_if; [done|]. bool_to_prop.
  destruct (idx label 0) as [a|] eqn:Ea; [|done]. cbn [mbind option_bind].
  destruct (idx label (zlen label - 1)) as [z|] eqn:Ez; [|done]. cbn [mbind option_bind].
  case_if; [done|]. bool_to_prop. intros [= E%negb_true_iff]. apply host_runes_ok in E.
  apply idx_Some in Ea as [_ Ea]. apply idx_Some in Ez as [_ Ez]. unfold zlen in *.
  split_and!; try done; [by intros ->| |].
  - change (Z.to_nat 0) with 0%nat in Ea. rewrite <-head_lookup in Ea. congruence.
  - rewrite last_lookup. replace (Nat.pred (length label)) with (Z.to_nat (Z.of_nat (length label) - 1)) by lia.
    rewrite Ez. congruence.
Qed.

Lemma labels_ok_true labels :
  labels_ok labels = Some true → Forall (λ l, label_ok l = Some true) labels.
Proof.
  induction labels as [|l labels IH]; cbn [labels_ok]; [by constructor|].
  destruct (label_ok l) as [[]|] eqn:E; cbn; [|done..]. intros. constructor; auto.
Qed.

(** The characters of a name that may be put in a CONNECT request line. *)
Definition target_char (b : byte) : bool := host_char b || bool_decide (b = dot).

Lemma Join_target labels :
  Forall (λ l, forallb host_char l = true) labels →
  forallb target_char (Join labels [dot]) = true.
Proof.
  intros Hl. assert (∀ l, forallb host_char l = true → forallb target_char l = true) as H1.
  { intros l. rewrite !forallb_forall. intros Hf x Hx. unfold target_char. by rewrite (Hf x Hx). }
  induction Hl as [|l labels Hf Hr IH]; [done|]. destruct labels as [|l2 labels]; [by apply H1|].
  change (forallb target_char (l ++ [dot] ++ Join (l2 :: labels) [dot]) = true).
  rewrite !forallb_app, IH, (H1 _ Hf). done.
Qed.

Lemma TrimSuffix_dot host :
  host = TrimSuffix host (str ".") ∨ host = TrimSuffix host (str ".") ++ [dot].
Proof.
  unfold TrimSuffix, HasSuffix. case_if as E; [|by left]. bool_to_prop. right.
  destruct E as [k ->]. rewrite length_app. change (length (str ".")) with 1%nat.
  replace (length k + 1 - 1)%nat with (length k) by lia. by rewrite take_app_length.
Qed.

Lemma validProxyHostname_chars host :
  validProxyHostname host = Some true →
  host ≠ [] ∧ zlen host ≤ 254 ∧ forallb target_char host = true ∧
  ParseIP (TrimSuffix host (str ".")) = false.
Proof.
  unfold validProxyHostname. set (h := TrimSuffix host (str ".")). cbv zeta.
  case_if as E; [done|]. bool_to_prop. intros Hl%labels_ok_true.
  assert (forallb target_char h = true) as Hc.
  { rewrite <-(Join_Split h dot). apply Join_target. eapply Forall_impl; [exact Hl|].
    cbn. intros l ?%label_ok_true. naive_solver. }
  destruct (TrimSuffix_dot host) as [Eh|Eh]; fold h in Eh; rewrite Eh.
  - split_and!; try done; [|lia]. intros E0. by rewrite E0 in *.
  - rewrite zlen_app, forallb_app, Hc. change (zlen [dot]) with 1.
    split_and!; [by destruct h|lia|done|done].
Qed.

(** What may follow [CONNECT ] in the request line: letters, digits, hyphens
    and dots, in lower case. *)
Definition lower_target_char (b : byte) : bool := target_char b && negb (is_upper b).

Definition good_target (host : gostring) : Prop :=
  host ≠ [] ∧ zlen host ≤ 254 ∧ forallb lower_target_char host = true.

Lemma target_char_lower b : target_char b = true → lower_target_char (lower_byte b) = true.
Proof. by destruct b. Qed.

Lemma target_char_ascii b : target_char b = true → is_ascii b = true.
Proof. by destruct b. Qed.

Section sound.
Context `{Unicode} `{HTTPRequests}.

Lemma ToLower_target host :
  validProxyHostname host = Some true →
  ToLower host = map lower_byte host ∧ good_target (ToLower host).
Proof.
  intros (Hne & Hl & Hc & _)%validProxyHostname_chars.
  assert (ToLower host = map lower_byte host) as ->.
  { unfold ToLower. rewrite (proj2 (forallb_forall is_ascii host)); [done|].
    rewrite forallb_forall in Hc. auto using target_char_ascii. }
  split; [done|]. unfold good_target, zlen. rewrite length_map. split_and!; [by destruct host|done|].
  apply forallb_forall. intros b (c & <- & Hin)%in_map_iff. apply target_char_lower.
  rewrite forallb_forall in Hc. by apply Hc.
Qed.

(** The result of a server-name parser: it returned, and a name it reports is
    a good target. *)
Definition name_good (r : option (gostring * bool)) : Prop :=
  ∃ host ok, r = Some (host, ok) ∧ (ok = true → good_target host).

Lemma name_good_false : name_good (Some ([], false)).
Proof. by do 2 eexists. Qed.

Lemma name_loop_good fuel extension offset end_ :
  0 ≤ offset → end_ ≤ zlen extension → end_ - offset < Z.of_nat fuel → (0 < fuel)%nat →
  name_good (name_loop fuel extension offset end_).
Proof.
  revert offset. induction fuel as [|fuel IH]; intros offset Ho He Hf Hp; cbn [name_loop].
  - lia.
  - case_if as E; [|apply name_good_false]. bool_to_prop.
    in_range_step. u16_step. case_if; [apply name_good_false|]. bool_to_prop. case_if.
    + in_range_step. destruct (validProxyHostname_returns
        (slice extension (Z.to_nat (offset + 3)) (Z.to_nat (offset + 3 + v)))) as [[] Hvh];
        rewrite Hvh; cbn [mbind option_bind]; [|apply name_good_false].
      do 2 eexists. split; [done|]. intros _. by apply ToLower_target.
    + apply IH; lia.
Qed.

Lemma serverNameFromExtension_good extension : name_good (serverNameFromExtension extension).
Proof.
  unfold serverNameFromExtension. case_if; [apply name_good_false|]. bool_to_prop.
  u16_step. case_if; [apply name_good_false|]. bool_to_prop.
  apply name_loop_good; unfold zlen in *; lia.
Qed.

Lemma extension_loop_good fuel hello offset end_ :
  0 ≤ offset → end_ ≤ zlen hello → end_ - offset < Z.of_nat fuel → (0 < fuel)%nat →
  name_good (extension_loop fuel hello offset end_).
Proof.
  revert offset. induction fuel as [|fuel IH]; intros offset Ho He Hf Hp; cbn [extension_loop].
  - lia.
  - case_if as E; [|apply name_good_false]. bool_to_prop.
    do 2 u16_step. case_if; [apply name_good_false|]. bool_to_prop. case_if.
    + in_range_step. apply serverNameFromExtension_good.
    + apply IH; lia.
Qed.

Lemma clientHelloServerName_good hello : name_good (clientHelloServerName hello).
Proof.
  unfold clientHelloServerName. cbv zeta. case_if; [apply name_good_false|]. bool_to_prop.
  in_range_step. pose proof (b2z_range x). case_if; [apply name_good_false|]. bool_to_prop.
  u16_step. case_if; [apply name_good_false|]. bool_to_prop.
  in_range_step. pose proof (b2z_range x0). case_if; [apply name_good_false|]. bool_to_prop.
  u16_step. case_if; [apply name_good_false|]. bool_to_prop.
  apply extension_loop_good; unfold zlen in *; lia.
Qed.

(** A sniffer returned, and a resolved name is a good target. *)
Definition sniff_good (r : option (gostring * sniffResult)) : Prop :=
  ∃ host res, r = Some (host, res) ∧ (res = sniffResolved → good_target host).

Lemma sniff_good_other res : res ≠ sniffResolved → sniff_good (Some ([], res)).
Proof. intros. by do 2 eexists. Qed.

Lemma handshake_step_good handshake :
  ∃ d, handshake_step handshake = Some d ∧ ∀ r, d = Some r → sniff_good (Some r).
Proof.
  assert (∀ r, Some ([], sniffUnavailable) = Some r → sniff_good (Some r)) as Hu
    by (intros ? [= <-]; by apply sniff_good_other).
  unfold handshake_step. case_if; [|by eexists]. bool_to_prop. in_range_step.
  case_if; [by eexists|]. destruct (u24_at_Some handshake 1) as (n & -> & Hn); [lia..|].
  cbn [mbind option_bind]. case_if; [by eexists|]. case_if; [|by eexists]. bool_to_prop.
  in_range_step. destruct (clientHelloServerName_good
    (slice handshake (Z.to_nat 4) (Z.to_nat (4 + n)))) as (host & [] & -> & Hg);
    cbn [mbind option_bind]; eexists; split; try done.
  intros r [= <-]. do 2 eexists. split; [done|]. intros _. by apply Hg.
Qed.

Lemma record_loop_good fuel payload handshake offset :
  0 ≤ offset → zlen payload - offset < Z.of_nat fuel → (0 < fuel)%nat →
  sniff_good (record_loop fuel payload handshake offset).
Proof.
  revert handshake offset. induction fuel as [|fuel IH]; intros handshake offset Ho Hf Hp; [lia|].
  cbn [record_loop]. case_if as E; [by apply sniff_good_other|]. bool_to_prop.
  in_range_step. case_if; [by apply sniff_good_other|]. u16_step.
  case_if; [by apply sniff_good_other|]. bool_to_prop.
  case_if; [by apply sniff_good_other|]. bool_to_prop. in_range_step.
  destruct (handshake_step_good (handshake ++ slice payload (Z.to_nat (offset + 5))
    (Z.to_nat (offset + 5 + v)))) as ([r|] & -> & Hr); cbn [mbind option_bind]; [by apply Hr|].
  case_if; [by apply sniff_good_other|]. apply IH; lia.
Qed.

Lemma sniffTLSClientHello_good payload : sniff_good (sniffTLSClientHello payload).
Proof. apply record_loop_good; unfold zlen; lia. Qed.

Lemma sniffHTTPHost_good payload : sniff_good (sniffHTTPHost payload).
Proof.
  unfold sniffHTTPHost. case_if; [by apply sniff_good_other|].
  destruct (ReadRequestHost payload) as [host|e]; [|by apply sniff_good_other].
  cbv zeta. set (h := Trim _ _). destruct (validProxyHostname_returns h) as [[] Hv];
    rewrite Hv; cbn [mbind option_bind]; [|by apply sniff_good_other].
  do 2 eexists. split; [done|]. intros _. by apply ToLower_target.
Qed.

Lemma sniffHostname_returns payload port : ∃ r, sniffHostname payload port = Some r.
Proof.
  unfold sniffHostname. case_if as E; [by eauto|]. bool_to_prop.
  pose proof (zlen_nonneg payload). in_range_step.
  case_if; [destruct (sniffTLSClientHello_good payload) as (? & ? & -> & _); by eauto|].
  case_if; [by eauto|]. destruct (sniffHTTPHost_good payload) as (? & ? & -> & _). eauto.
Qed.

(** C31: sniffing untrusted bytes is safe.  For every byte string the client
    sends first and every destination port, [sniffHostname] returns: no index
    or slice is out of range and the record, extension and name loops end.  A
    hostname it resolves is non-empty, at most 254 bytes and made of lower
    case letters, digits, hyphens and dots only, so no space, line break or
    colon of the client's bytes can reach the CONNECT request line. *)
Theorem sniffHostname_safe payload port :
  ∃ host res, sniffHostname payload port = Some (host, res) ∧
    (res = sniffResolved → good_target host).
Proof.
  unfold sniffHostname. case_if as E; [by do 2 eexists|]. bool_to_prop.
  pose proof (zlen_nonneg payload). in_range_step.
  case_if; [apply sniffTLSClientHello_good|]. case_if; [by do 2 eexists|].
  apply sniffHTTPHost_good.
Qed.

(** * The outcome does not depend on how the bytes were segmented *)

Lemma u16_at_mono b k o v : u16_at b o = Some v → u16_at (b ++ k) o = Some v.
Proof.
  unfold u16_at. destruct (idx b o) as [x|] eqn:E; [|done]. cbn.
  destruct (idx b (o + 1)) as [y|] eqn:E2; [|done]. cbn. intros [= <-].
  by rewrite (idx_mono _ _ _ _ E), (idx_mono _ _ _ _ E2).
Qed.

Lemma record_loop_mono fuel fuel' payload k handshake offset host res :
  (fuel ≤ fuel')%nat → record_loop fuel payload handshake offset = Some (host, res) →
  res ≠ sniffNeedMore →
  record_loop fuel' (payload ++ k) handshake offset = Some (host, res).
Proof.
  revert fuel' handshake offset. induction fuel as [|fuel IH]; intros [|fuel'] hs offset Hf; try done; [lia|].
  cbn [record_loop]. pose proof (zlen_nonneg k). rewrite zlen_app.
  case_if as E1; [by intros [= <- <-]|]. bool_to_prop. rewrite (proj2 (Z.ltb_ge _ 5)) by lia.
  destruct (idx payload offset) as [x|] eqn:Ex; [|done]. rewrite (idx_mono _ _ _ _ Ex).
  cbn [mbind option_bind]. case_if; [done|].
  destruct (u16_at payload (offset + 3)) as [v|] eqn:Ev; [|done]. rewrite (u16_at_mono _ _ _ _ Ev).
  cbn [mbind option_bind]. case_if; [done|]. case_if as E2; [by intros [= <- <-]|].
  bool_to_prop. rewrite (proj2 (Z.ltb_ge _ v)) by lia.
  destruct (sub payload _ _) as [r|] eqn:Er; [|done]. rewrite (sub_mono _ _ _ _ _ Er).
  cbn [mbind option_bind]. destruct (handshake_step _) as [[d|]|]; cbn [mbind option_bind]; [done| |done].
  case_if as E3; [by intros [= <- <-]|]. bool_to_prop. intros Hr Hn.
  apply sub_inv in Er as (_ & _ & ? & _).
  rewrite (proj2 (Z.eqb_neq _ (zlen payload + zlen k))) by lia.
  apply IH; [lia|done|done].
Qed.

Lemma sniffTLSClientHello_mono payload k host res :
  sniffTLSClientHello payload = Some (host, res) → res ≠ sniffNeedMore →
  sniffTLSClientHello (payload ++ k) = Some (host, res).
Proof. unfold sniffTLSClientHello. rewrite length_app. apply record_loop_mono. lia. Qed.

(** The TLS decision is independent of segmentation.  Once the bytes
    received so far decide the outcome on an HTTPS port, further bytes do not
    change it: whatever the sizes of the client's writes, the same CONNECT
    target is chosen. *)
Theorem sniffHostname_segmentation payload more port host res :
  port = 443 ∨ port = 8443 ∨ head payload = Some x16 →
  sniffHostname payload port = Some (host, res) → res ≠ sniffNeedMore →
  sniffHostname (payload ++ more) port = Some (host, res).
Proof.
  intros Hp. unfold sniffHostname. destruct payload as [|b payload]; [by intros [= <- <-]|].
  cbn [app]. rewrite !zlen_cons.
  pose proof (zlen_nonneg payload). pose proof (zlen_nonneg (payload ++ more)).
  rewrite !(proj2 (Z.eqb_neq _ 0)) by lia. change (idx (b :: ?l) 0) with (Some b).
  cbn [mbind option_bind]. case_if as Eb; [apply (sniffTLSClientHello_mono (b :: payload))|].
  bool_to_prop. case_if as Ep; [done|]. bool_to_prop. exfalso.
  destruct Hp as [|[|[= ?]]]; congruence.
Qed.

(** * A ClientHello's server name is found *)

(** The wire form of a ClientHello with extensions [before] the server name
    and raw bytes [after] it (RFC 8446 4.1.2, RFC 6066 3). *)
Definition vec8 (l : list byte) : list byte := z2b (zlen l) :: l.
Definition vec16 (l : list byte) : list byte := be_put 2 (zlen l) ++ l.

Definition extension_wire (e : Z * list byte) : list byte := be_put 2 e.1 ++ vec16 e.2.

Definition sni_extension (host : gostring) : Z * list byte :=
  (0, vec16 ([x00] ++ vec16 host)).

Record Hello := mkHello {
  h_fixed : list byte;           (* version and random: 34 bytes *)
  h_session : list byte;
  h_ciphers : list byte;
  h_compression : list byte;
  h_before : list (Z * list byte);
  h_host : gostring;
  h_after : list byte;
}.

Definition hello_extensions (h : Hello) : list byte :=
  concat (map extension_wire (h_before h)) ++ extension_wire (sni_extension (h_host h)) ++ h_after h.

Definition hello_wire (h : Hello) : list byte :=
  h_fixed h ++ vec8 (h_session h) ++ vec16 (h_ciphers h) ++ vec8 (h_compression h) ++
  vec16 (hello_extensions h).

Definition handshake_wire (h : Hello) : list byte :=
  [x01] ++ be_put 3 (zlen (hello_wire h)) ++ hello_wire h.

(** One TLS record with a fragment of the handshake. *)
Definition record_wire (version fragment : list byte) : list byte :=
  [x16] ++ version ++ vec16 fragment.

Record hello_ok (h : Hello) : Prop := {
  ho_fixed : zlen (h_fixed h) = 34;
  ho_session : zlen (h_session h) < 256;
  ho_ciphers : 0 < zlen (h_ciphers h) < 65536;
  ho_compression : zlen (h_compression h) < 256;
  ho_before : Forall (λ e, 0 < e.1 < 65536 ∧ zlen e.2 < 65536) (h_before h);
  ho_extensions : zlen (hello_extensions h) < 65536;
  ho_host : validProxyHostname (h_host h) = Some true;
  ho_size : zlen (hello_wire h) ≤ 65532;
}.

Lemma u16_at_put p v l o :
  o = zlen p → 0 ≤ v < 65536 → u16_at (p ++ be_put 2 v ++ l) o = Some v.
Proof.
  intros -> Hv. unfold u16_at. replace (zlen p) with (zlen p + 0) at 1 by lia.
  rewrite !idx_off by lia.
  change (idx (be_put 2 v ++ l) 0) with (Some (z2b (Z.shiftr v 8))).
  change (idx (be_put 2 v ++ l) 1) with (Some (z2b (Z.shiftr v 0))).
  cbn [mbind option_bind]. f_equal. rewrite be16_arith, !b2z_z2b.
  rewrite !Z.shiftr_div_pow2 by lia.
  rewrite Z.pow_0_r, Z.div_1_r. change (2 ^ 8) with 256.
  rewrite (Z.mod_small (v / 256)); [|split; [apply Z.div_pos; lia|apply Z.div_lt_upper_bound; lia]].
  pose proof (Z.div_mod v 256). lia.
Qed.

Lemma u24_at_put v l :
  0 ≤ v < 16777216 → u24_at (x01 :: be_put 3 v ++ l) 1 = Some v.
Proof.
  intros Hv. unfold u24_at. 
  change (idx (x01 :: be_put 3 v ++ l) 1) with (Some (z2b (Z.shiftr v 16))).
  change (idx (x01 :: be_put 3 v ++ l) (1 + 1)) with (Some (z2b (Z.shiftr v 8))).
  change (idx (x01 :: be_put 3 v ++ l) (1 + 2)) with (Some (z2b (Z.shiftr v 0))).
  cbn [mbind option_bind]. f_equal.
  rewrite be24_arith, !b2z_z2b. rewrite !Z.shiftr_div_pow2 by lia.
  rewrite Z.pow_0_r, Z.div_1_r. change (2 ^ 8) with 256. change (2 ^ 16) with (256 * 256).
  rewrite <-Z.div_div by lia.
  rewrite (Z.mod_small (v / 256 / 256));
    [|split; [by repeat apply Z.div_pos; try lia|repeat apply Z.div_lt_upper_bound; lia]].
  pose proof (Z.div_mod v 256). pose proof (Z.div_mod (v / 256) 256). lia.
Qed.

Lemma idx_at {A} (p : list A) x l o : o = zlen p → idx (p ++ x :: l) o = Some x.
Proof. intros ->. replace (zlen p) with (zlen p + 0) by lia. by rewrite idx_off. Qed.

Lemma zlen_be_put n v : zlen (be_put n v) = Z.of_nat n.
Proof. unfold zlen. by rewrite length_be_put. Qed.

Lemma zlen_vec8 l : zlen (vec8 l) = 1 + zlen l.
Proof. apply zlen_cons. Qed.

Lemma zlen_vec16 l : zlen (vec16 l) = 2 + zlen l.
Proof. unfold vec16. by rewrite zlen_app, zlen_be_put. Qed.

Lemma zlen_extension_wire e : zlen (extension_wire e) = 4 + zlen e.2.
Proof. unfold extension_wire. rewrite zlen_app, zlen_be_put, zlen_vec16. lia. Qed.

Lemma zlen_nil {A} : zlen (@nil A) = 0.
Proof. done. Qed.

(** Length arithmetic over the wire forms. *)
Ltac zlens :=
  repeat progress
    rewrite ?zlen_app, ?zlen_cons, ?zlen_vec8, ?zlen_vec16, ?zlen_extension_wire, ?zlen_be_put, ?zlen_nil;
  lia.

Lemma serverNameFromExtension_sni host :
  validProxyHostname host = Some true →
  serverNameFromExtension (sni_extension host).2 = Some (ToLower host, true).
Proof.
  intros Hv. destruct (validProxyHostname_chars host Hv) as (_ & Hl & _ & _).
  pose proof (zlen_nonneg host). unfold serverNameFromExtension, sni_extension. cbn [snd].
  set (inner := [x00] ++ vec16 host).
  assert (zlen inner = 3 + zlen host) as Hi by (unfold inner; zlens).
  rewrite zlen_vec16, Hi, (proj2 (Z.ltb_ge _ 2)) by lia.
  rewrite (u16_at_put [] (zlen inner) inner) by (rewrite ?Hi; lia || done).
  cbn [mbind option_bind]. rewrite (proj2 (Z.ltb_ge _ (zlen inner))) by lia.
  assert (vec16 inner = (be_put 2 (zlen inner)) ++ x00 :: be_put 2 (zlen host) ++ host) as Ev by done.
  assert (Hp : zlen (be_put 2 (zlen inner)) = 2) by apply zlen_be_put.
  cbn [name_loop]. rewrite Hi, (proj2 (Z.leb_le _ _)) by lia.
  rewrite Ev at 1. rewrite idx_at by done. cbn [mbind option_bind].
  assert (vec16 inner = (be_put 2 (zlen inner) ++ [x00]) ++ be_put 2 (zlen host) ++ host) as Ev2 by done.
  rewrite Ev2 at 1. rewrite u16_at_put by zlens.
  cbn [mbind option_bind]. rewrite (proj2 (Z.ltb_ge _ (zlen host))) by lia.
  rewrite bool_decide_eq_true_2 by done.
  replace (vec16 inner) with ((be_put 2 (zlen inner) ++ [x00] ++ be_put 2 (zlen host)) ++ host ++ [])
    by (by rewrite app_nil_r).
  rewrite sub_app by zlens.
  cbn [mbind option_bind]. by rewrite Hv.
Qed.

Lemma extension_loop_sni before host after pre fuel end_ :
  Forall (λ e, 0 < e.1 < 65536 ∧ zlen e.2 < 65536) before →
  validProxyHostname host = Some true →
  let exts := concat (map extension_wire before) ++ extension_wire (sni_extension host) ++ after in
  end_ = zlen pre + zlen exts → (length before < fuel)%nat →
  extension_loop fuel (pre ++ exts) (zlen pre) end_ = Some (ToLower host, true).
Proof.
  intros Hb Hv. revert pre fuel. induction Hb as [|[t body] before [Ht Hbl] Hr IH];
    intros pre [|fuel] exts Hend Hf; try (cbn in Hf; lia).
  - subst exts. cbn [map concat app] in *. set (body := (sni_extension host).2) in *.
    destruct (validProxyHostname_chars host Hv) as (_ & Hl & _ & _).
    assert (zlen body = 5 + zlen host) as Hbody
      by (unfold body, sni_extension; cbn [snd]; zlens).
    pose proof (zlen_nonneg after). pose proof (zlen_nonneg host).
    rewrite zlen_app, zlen_extension_wire in Hend. cbn [extension_loop].
    rewrite (proj2 (Z.leb_le _ end_)) by (fold body in Hend; lia).
    change (extension_wire (sni_extension host)) with (be_put 2 0 ++ be_put 2 (zlen body) ++ body).
    rewrite <-!app_assoc. rewrite (u16_at_put pre _ _ (zlen pre)) by lia. cbn [mbind option_bind].
    rewrite (app_assoc pre (be_put 2 0)).
    rewrite u16_at_put by zlens. cbn [mbind option_bind].
    rewrite (proj2 (Z.ltb_ge _ (zlen body))) by (fold body in Hend; lia). cbn [Z.eqb].
    rewrite (app_assoc _ (be_put 2 (zlen body))).
    rewrite sub_app by zlens. cbn [mbind option_bind].
    by apply serverNameFromExtension_sni.
  - cbn [fst snd] in *. set (tl := concat (map extension_wire before) ++ _) in IH.
    assert (exts = be_put 2 t ++ be_put 2 (zlen body) ++ body ++ tl) as Ee
      by (unfold exts, tl; cbn [map concat]; unfold extension_wire at 1, vec16 at 1; by rewrite <-!app_assoc).
    pose proof (zlen_nonneg body). pose proof (zlen_nonneg tl).
    clearbody exts. subst exts. rewrite !zlen_app, !zlen_be_put in Hend. cbn [extension_loop].
    rewrite (proj2 (Z.leb_le _ end_)) by lia.
    rewrite (u16_at_put pre _ _ (zlen pre)) by lia. cbn [mbind option_bind]. rewrite (app_assoc pre (be_put 2 t)).
    rewrite u16_at_put by zlens. cbn [mbind option_bind].
    rewrite (proj2 (Z.ltb_ge _ (zlen body))) by lia. rewrite (proj2 (Z.eqb_neq t 0)) by lia.
    set (pre' := (pre ++ be_put 2 t) ++ be_put 2 (zlen body) ++ body).
    replace ((pre ++ be_put 2 t) ++ be_put 2 (zlen body) ++ body ++ tl) with (pre' ++ tl)
      by (unfold pre'; by rewrite <-!app_assoc).
    assert (zlen pre + 4 + zlen body = zlen pre') as ->
      by (unfold pre'; zlens).
    apply (IH pre' fuel); [|cbn in Hf; lia].
    unfold pre'. zlens.
Qed.

Lemma concat_map_length before :
  (length before ≤ length (concat (map extension_wire before)))%nat.
Proof.
  induction before as [|e before IH]; [done|]. cbn [map concat]. rewrite length_app.
  unfold extension_wire at 1. rewrite length_app, length_be_put. cbn [length]. lia.
Qed.

Lemma clientHelloServerName_sni h :
  hello_ok h → clientHelloServerName (hello_wire h) = Some (ToLower (h_host h), true).
Proof.
  intros []. set (S := h_session h) in *. set (K := h_ciphers h) in *.
  set (P := h_compression h) in *. set (X := hello_extensions h) in *. set (F := h_fixed h) in *.
  assert (hello_wire h = F ++ vec8 S ++ vec16 K ++ vec8 P ++ vec16 X) as Ew by done.
  pose proof (zlen_nonneg S). pose proof (zlen_nonneg P). pose proof (zlen_nonneg X).
  assert (zlen (hello_wire h) = 34 + (1 + zlen S) + (2 + zlen K) + (1 + zlen P) + (2 + zlen X)) as Hlen
    by (rewrite Ew; zlens).
  unfold clientHelloServerName. cbv zeta. rewrite (proj2 (Z.ltb_ge _ 35)) by lia.
  assert (idx (hello_wire h) 34 = Some (z2b (zlen S))) as ->.
  { rewrite Ew. unfold vec8 at 1. by apply idx_at. }
  cbn [mbind option_bind]. rewrite b2z_z2b, (Z.mod_small (zlen S)) by lia.
  rewrite (proj2 (Z.ltb_ge (zlen (hello_wire h)) (34 + 1 + zlen S + 2))) by lia.
  assert (u16_at (hello_wire h) (34 + 1 + zlen S) = Some (zlen K)) as ->.
  { rewrite Ew, (app_assoc F). unfold vec16 at 1. rewrite <-(app_assoc (be_put 2 _)).
    apply u16_at_put; zlens. }
  cbn [mbind option_bind]. rewrite (proj2 (Z.eqb_neq (zlen K) 0)) by lia. cbn [orb].
  rewrite (proj2 (Z.ltb_ge (zlen (hello_wire h)) _)) by lia.
  assert (idx (hello_wire h) (34 + 1 + zlen S + 2 + zlen K) = Some (z2b (zlen P))) as ->.
  { rewrite Ew, (app_assoc F), (app_assoc (F ++ _)). unfold vec8 at 2. apply idx_at. zlens. }
  cbn [mbind option_bind]. rewrite b2z_z2b, (Z.mod_small (zlen P)) by lia.
  rewrite (proj2 (Z.ltb_ge (zlen (hello_wire h)) _)) by lia.
  set (pre := F ++ vec8 S ++ vec16 K ++ vec8 P).
  assert (hello_wire h = pre ++ be_put 2 (zlen X) ++ X) as Ep by (rewrite Ew; unfold pre; by rewrite <-!app_assoc).
  assert (zlen pre = 34 + 1 + zlen S + 2 + zlen K + 1 + zlen P) as Hpre by (unfold pre; zlens).
  assert (u16_at (hello_wire h) (34 + 1 + zlen S + 2 + zlen K + 1 + zlen P) = Some (zlen X)) as ->.
  { rewrite Ep. apply u16_at_put; lia. }
  cbn [mbind option_bind]. rewrite (proj2 (Z.ltb_ge _ (zlen X))) by lia.
  set (pre' := pre ++ be_put 2 (zlen X)).
  replace (34 + 1 + zlen S + 2 + zlen K + 1 + zlen P + 2) with (zlen pre') by (unfold pre'; zlens).
  assert (Hfuel : (length (h_before h) < Datatypes.S (length (hello_wire h)))%nat).
  { rewrite Ep, !length_app. pose proof (concat_map_length (h_before h)).
    unfold X, hello_extensions at 2. rewrite length_app. lia. }
  revert Hfuel. generalize (Datatypes.S (length (hello_wire h))). intros fuel Hfuel.
  replace (hello_wire h) with (pre' ++ X) by (rewrite Ep; unfold pre'; by rewrite <-app_assoc).
  by apply extension_loop_sni.
Qed.

Lemma handshake_step_sni h :
  hello_ok h → handshake_step (handshake_wire h) = Some (Some (ToLower (h_host h), sniffResolved)).
Proof.
  intros Ho. pose proof (ho_size _ Ho). pose proof (zlen_nonneg (hello_wire h)).
  assert (zlen (handshake_wire h) = 4 + zlen (hello_wire h)) as Hl by (unfold handshake_wire; zlens).
  unfold handshake_step. rewrite Hl, (proj2 (Z.leb_le 4 _)) by lia.
  change (idx (handshake_wire h) 0) with (Some x01). cbn [mbind option_bind].
  rewrite bool_decide_eq_true_2 by done. cbn [negb].
  assert (u24_at (handshake_wire h) 1 = Some (zlen (hello_wire h))) as -> by (apply u24_at_put; lia).
  cbn [mbind option_bind].
  rewrite (proj2 (Z.ltb_ge _ _)) by (unfold maxInitialClientBytes; lia).
  rewrite (proj2 (Z.leb_le _ _)) by lia.
  assert (sub (handshake_wire h) 4 (4 + zlen (hello_wire h)) = Some (hello_wire h)) as ->.
  { replace (handshake_wire h) with (([x01] ++ be_put 3 (zlen (hello_wire h))) ++ hello_wire h ++ [])
      by (rewrite app_nil_r; unfold handshake_wire; by rewrite app_assoc).
    apply sub_app; zlens. }
  cbn [mbind option_bind].
  by rewrite clientHelloServerName_sni.
Qed.

(** A proper, non-empty prefix of the handshake decides nothing. *)
Lemma handshake_step_prefix h acc rest :
  hello_ok h → acc ++ rest = handshake_wire h → rest ≠ [] → handshake_step acc = Some None.
Proof.
  intros Ho Ea Hr. pose proof (ho_size _ Ho). pose proof (zlen_nonneg (hello_wire h)).
  assert (zlen (handshake_wire h) = 4 + zlen (hello_wire h)) as Hl by (unfold handshake_wire; zlens).
  assert (0 < zlen rest) by (destruct rest; [done|rewrite zlen_cons; pose proof (zlen_nonneg rest); lia]).
  rewrite <-Ea, zlen_app in Hl. unfold handshake_step. case_if as E4; [|done]. bool_to_prop.
  destruct acc as [|a0 [|a1 [|a2 [|a3 acc]]]];
    rewrite ?zlen_cons, ?zlen_nil in E4; try lia.
  assert (a0 = x01 ∧ u24_at (a0 :: a1 :: a2 :: a3 :: acc) 1 = Some (zlen (hello_wire h))) as [-> ->].
  { unfold handshake_wire in Ea. cbn [app be_put] in Ea. injection Ea as -> -> -> -> _.
    split; [done|]. by apply (u24_at_put _ acc); lia. }
  change (idx (x01 :: a1 :: a2 :: a3 :: acc) 0) with (Some x01). cbn [mbind option_bind].
  rewrite bool_decide_eq_true_2 by done. cbn [negb mbind option_bind].
  rewrite (proj2 (Z.ltb_ge _ _)) by (unfold maxInitialClientBytes; lia).
  by rewrite (proj2 (Z.leb_gt _ _)) by lia.
Qed.

Lemma record_loop_sni h version fragments acc pre rest fuel :
  hello_ok h → zlen version = 2 →
  Forall (λ f, 0 < zlen f < 65536) fragments →
  acc ++ concat fragments = handshake_wire h → fragments ≠ [] →
  (length fragments ≤ fuel)%nat →
  record_loop fuel (pre ++ concat (map (record_wire version) fragments) ++ rest) acc (zlen pre)
  = Some (ToLower (h_host h), sniffResolved).
Proof.
  intros Ho Hv Hf. revert acc pre fuel. induction Hf as [|f fs Hf1 Hfs IH]; intros acc pre fuel Hacc Hne Hfuel; [done|].
  destruct fuel as [|fuel]; [cbn in Hfuel; lia|]. cbn [map concat record_loop] in *.
  set (tl := concat (map (record_wire version) fs) ++ rest).
  assert (pre ++ (record_wire version f ++ concat (map (record_wire version) fs)) ++ rest
          = pre ++ [x16] ++ version ++ be_put 2 (zlen f) ++ f ++ tl) as Ep
    by (unfold record_wire at 1, vec16 at 1, tl; by rewrite <-!app_assoc).
  rewrite Ep. pose proof (zlen_nonneg tl). pose proof (zlen_nonneg pre).
  assert (zlen (pre ++ [x16] ++ version ++ be_put 2 (zlen f) ++ f ++ tl)
          = zlen pre + 5 + zlen f + zlen tl) as Hlen by zlens.
  rewrite Hlen, (proj2 (Z.ltb_ge _ 5)) by lia.
  cbn [app]. rewrite idx_at by done. cbn [mbind option_bind].
  rewrite bool_decide_eq_true_2 by done. cbn [negb].
  change (x16 :: version ++ be_put 2 (zlen f) ++ f ++ tl) with ([x16] ++ version ++ be_put 2 (zlen f) ++ f ++ tl).
  rewrite (app_assoc pre), (app_assoc (pre ++ [x16])).
  rewrite u16_at_put by zlens. cbn [mbind option_bind].
  pose proof (ho_size _ Ho) as Hsz. pose proof (zlen_nonneg (concat fs)). pose proof (zlen_nonneg acc).
  assert (zlen acc + zlen f + zlen (concat fs) = 4 + zlen (hello_wire h)) as Hh.
  { rewrite <-Z.add_assoc, <-zlen_app, <-zlen_app, Hacc. unfold handshake_wire. zlens. }
  rewrite (proj2 (Z.eqb_neq (zlen f) 0)) by lia. unfold maxInitialClientBytes.
  rewrite !(proj2 (Z.ltb_ge (64 * 1024) _)) by lia. cbn [orb].
  rewrite (proj2 (Z.ltb_ge _ (zlen f))) by lia.
  rewrite (app_assoc _ (be_put 2 (zlen f))).
  rewrite sub_app by zlens. cbn [mbind option_bind].
  destruct fs as [|f2 fs].
  - cbn [concat] in Hacc. rewrite app_nil_r in Hacc. by rewrite Hacc, handshake_step_sni.
  - rewrite (handshake_step_prefix h _ (concat (f2 :: fs))); [|done|by rewrite <-app_assoc|].
    2:{ apply Forall_cons in Hfs as [Hf2 _]. cbn [concat].
        intros [-> _]%app_nil. by destruct Hf2. }
    cbn [mbind option_bind]. rewrite (proj2 (Z.eqb_neq _ _)).
    2:{ assert (0 < zlen tl) as Htl; [|lia].
        unfold tl. cbn [map concat]. unfold record_wire at 1. rewrite !zlen_app.
        pose proof (zlen_nonneg (concat (map (record_wire version) fs))).
        pose proof (zlen_nonneg (vec16 f2)). pose proof (zlen_nonneg rest).
        change (zlen [x16]) with 1. lia. }
    rewrite (app_assoc _ f).
    replace (zlen pre + (5 + zlen f)) with
      (zlen ((((pre ++ [x16]) ++ version) ++ be_put 2 (zlen f)) ++ f)) by zlens.
    apply (IH (acc ++ f)); [by rewrite <-app_assoc|done|cbn in *; lia].
Qed.

Lemma records_length version fragments :
  (length fragments ≤ length (concat (map (record_wire version) fragments)))%nat.
Proof.
  induction fragments as [|f fs IH]; [done|]. cbn [map concat length]. rewrite length_app.
  unfold record_wire at 1. cbn [app length]. lia.
Qed.

(** C32: the server name of a TLS ClientHello is found.  For a well-formed
    hello with any session id, cipher suites, compression methods, extensions
    before the server name and bytes after it, cut into non-empty TLS records
    in any way and followed by any bytes, on any port, [sniffHostname]
    resolves the lower-cased host name of its server-name extension. *)
Theorem sniffHostname_sni h version fragments rest port :
  hello_ok h → zlen version = 2 →
  Forall (λ f, 0 < zlen f < 65536) fragments →
  concat fragments = handshake_wire h →
  sniffHostname (concat (map (record_wire version) fragments) ++ rest) port
  = Some (ToLower (h_host h), sniffResolved).
Proof.
  intros Ho Hv Hf Hc.
  assert (fragments ≠ []) as Hne by (intros ->; by unfold handshake_wire in Hc).
  pose proof (record_loop_sni h version fragments [] [] rest
    (S (length (concat (map (record_wire version) fragments) ++ rest))) Ho Hv Hf Hc Hne) as Hr.
  pose proof (records_length version fragments).
  cbn [app] in Hr. change (zlen (@nil byte)) with 0 in Hr.
  unfold sniffHostname, sniffTLSClientHello.
  rewrite Hr by (rewrite length_app; lia).
  destruct fragments as [|f fs]; [done|]. cbn [map concat]. unfold record_wire at 1 3.
  cbn [app]. rewrite zlen_cons, (proj2 (Z.eqb_neq _ 0)); [done|].
  pose proof (zlen_nonneg (((version ++ vec16 f) ++ concat (map (record_wire version) fs)) ++ rest)). lia.
Qed.
End sound.

(** ** Concrete runs *)

#[local] Instance no_requests : HTTPRequests := λ _, Err (ESentinel EOF).
#[local] Existing Instance ascii_unicode.

Definition sample_hello : Hello :=
  mkHello (be_put 34 771) [] [x13; x01] [x00] [(43, [x02; x03; x04])] (str "Api.Example.com") [].

Definition sample_fragments : list (list byte) :=
  [take 3 (handshake_wire sample_hello); drop 3 (handshake_wire sample_hello)].

Lemma sample_hello_ok : hello_ok sample_hello.
Proof. split; try (vm_compute; split_and?; congruence). repeat constructor. Qed.

Lemma sniffHostname_sni_witness :
  sniffHostname (concat (map (record_wire [x03; x01]) sample_fragments) ++ [x17]) 443
  = Some (str "api.example.com", sniffResolved).
Proof.
  rewrite (sniffHostname_sni sample_hello); [vm_compute; reflexivity|apply sample_hello_ok|reflexivity| |].
  - repeat constructor; vm_compute; reflexivity.
  - vm_compute. reflexivity.
Defined.

Lemma sniffHostname_segmentation_witness :
  sniffHostname (concat (map (record_wire [x03; x01]) sample_fragments) ++ [x17; x03]) 443
  = Some (str "api.example.com", sniffResolved).
Proof.
  apply (sniffHostname_segmentation _ [x17; x03] 443); [by left| |discriminate].
  vm_compute. reflexivity.
Defined.

End sniff.
