(* ===== verification/Connect.v ===== *)
(** The CONNECT dialer of src/internal/proxy/connect.go: routing of dials,
    the CONNECT handshake with the capture proxy, and the connection that
    delays dialling until it has sniffed a host name. *)
From S2P Require Import Prelude Errors GoIO GoStrings GoOS GoNet Sniff.
Import sniff.

Module connect.

Definition maxConnectResponseHeader : Z := 32 * 1024.

Definition InterceptPorts : list Z := [80; 443; 8080; 8443].

(** * Connections *)

(** One dialled TCP connection (or the [bufferedConn] around it): its
    identity, the bytes sent with the outcomes of coming writes, the bytes to
    come, whether its write side was shut down, and its deadlines. *)
Record Tunnel := mkTunnel {
  t_id : nat;
  t_out : Writer;
  t_in : Reader;
  t_writeShut : bool;
  t_readDeadline : Time;
  t_writeDeadline : Time;
}.
Definition set_t_out (v : Writer) (t : Tunnel) : Tunnel :=
  {| t_id := t_id t; t_out := v; t_in := t_in t; t_writeShut := t_writeShut t;
     t_readDeadline := t_readDeadline t; t_writeDeadline := t_writeDeadline t |}.
Definition set_t_in (v : Reader) (t : Tunnel) : Tunnel :=
  {| t_id := t_id t; t_out := t_out t; t_in := v; t_writeShut := t_writeShut t;
     t_readDeadline := t_readDeadline t; t_writeDeadline := t_writeDeadline t |}.
Definition set_t_writeShut (v : bool) (t : Tunnel) : Tunnel :=
  {| t_id := t_id t; t_out := t_out t; t_in := t_in t; t_writeShut := v;
     t_readDeadline := t_readDeadline t; t_writeDeadline := t_writeDeadline t |}.
Definition set_t_readDeadline (v : Time) (t : Tunnel) : Tunnel :=
  {| t_id := t_id t; t_out := t_out t; t_in := t_in t; t_writeShut := t_writeShut t; t_readDeadline := v;
     t_writeDeadline := t_writeDeadline t |}.
Definition set_t_writeDeadline (v : Time) (t : Tunnel) : Tunnel :=
  {| t_id := t_id t; t_out := t_out t; t_in := t_in t; t_writeShut := t_writeShut t;
     t_readDeadline := t_readDeadline t; t_writeDeadline := v |}.

(** What the process has dialled (oldest first) and which of those
    connections are open. *)
Record World := mkWorld {
  w_dials : list (gostring * gostring);
  w_open : gset nat;
}.

Definition close_conn (t : Tunnel) (w : World) : World :=
  mkWorld (w_dials w) (w_open w ∖ {[t_id t]}).

Section connect.
Context `{Unicode} `{HTTPRequests}.

(** [d.direct]: the outcome of the [n]-th dial. *)
Variable direct : nat → gostring → gostring → result error (WritePlan * Reader).

Definition dial (w : World) (network address : gostring) : result error Tunnel * World :=
  let id := length (w_dials w) in
  let dials := w_dials w ++ [(network, address)] in
  match direct id network address with
  | Err err => (Err err, mkWorld dials (w_open w))
  | Ok (plan, stream) =>
      (Ok (mkTunnel id (mkWriter [] plan) stream false ZeroTime ZeroTime),
       mkWorld dials ({[id]} ∪ w_open w))
  end.

(** * The CONNECT handshake *)

Definition crlf : gostring := [x0d; x0a].

Definition connect_request (address : gostring) : gostring :=
  str "CONNECT " ++ address ++ str " HTTP/1.1" ++ crlf ++
  str "Host: " ++ address ++ crlf ++ str "Proxy-Connection: Keep-Alive" ++ crlf2.

(** The loop of [readBoundedHeader], byte by byte over the stream. *)
Fixpoint header_loop (maximum : Z) (header data : list byte)
    : result error (list byte) * list byte :=
  if zlen header <? maximum then
    match data with
    | [] => (Err (ENew (str "local capture proxy closed during CONNECT")), [])
    | value :: data =>
        let header := header ++ [value] in
        if (4 <=? zlen header) && streq (drop (length header - 4) header) crlf2
        then (Ok header, data)
        else header_loop maximum header data
    end
  else (Err (ENew (str "local capture proxy returned an oversized CONNECT response")), data).

Definition readBoundedHeader (reader : Reader) (maximum : Z) : result error (list byte) * Reader :=
  let '(r, rest) := header_loop maximum [] (r_data reader) in
  (r, mkReader rest (r_end reader)).

(** The status line test. *)
Definition connect_accepted (header : list byte) : bool :=
  let '(firstLine, _, _) := Cut header crlf in
  match Fields firstLine with
  | version :: status :: _ => HasPrefix version (str "HTTP/") && streq status (str "200")
  | _ => false
  end.

(** [performConnect]; [deadline] is the one it sets for the handshake and
    clears on success. *)
Definition performConnect (deadline : Time) (connection : Tunnel) (address : gostring)
    : result error Tunnel :=
  let connection := set_t_readDeadline deadline (set_t_writeDeadline deadline connection) in
  match Write (t_out connection) (connect_request address) with
  | (_, Some _, _) =>
      Err (ENew (str "local capture proxy did not accept the CONNECT request"))
  | (_, None, out) =>
      match readBoundedHeader (t_in connection) maxConnectResponseHeader with
      | (Err err, _) => Err err
      | (Ok header, reader) =>
          if negb (connect_accepted header) then
            Err (ENew (str "local capture proxy rejected the CONNECT request"))
          else
            let connection := set_t_readDeadline ZeroTime (set_t_writeDeadline ZeroTime connection) in
            Ok (set_t_in reader (set_t_out out connection))
      end
  end.

(** * The sniffing connection *)

Record hostnameSniffingConn := mkSniffingConn {
  proxyAddress : gostring;
  destination : gostring;
  destinationPort : Z;
  connectDeadline : Time;
  ready : bool;
  connection : option Tunnel;
  pending : list byte;
  initErr : option error;
  closed : bool;
  readDeadline : Time;
  writeDeadline : Time;
}.
Definition set_proxyAddress (v : gostring) (c : hostnameSniffingConn) : hostnameSniffingConn :=
  {| proxyAddress := v; destination := destination c; destinationPort := destinationPort c;
     connectDeadline := connectDeadline c; ready := ready c; connection := connection c;
     pending := pending c; initErr := initErr c; closed := closed c;
     readDeadline := readDeadline c; writeDeadline := writeDeadline c |}.
Definition set_destination (v : gostring) (c : hostnameSniffingConn) : hostnameSniffingConn :=
  {| proxyAddress := proxyAddress c; destination := v; destinationPort := destinationPort c;
     connectDeadline := connectDeadline c; ready := ready c; connection := connection c;
     pending := pending c; initErr := initErr c; closed := closed c;
     readDeadline := readDeadline c; writeDeadline := writeDeadline c |}.
Definition set_destinationPort (v : Z) (c : hostnameSniffingConn) : hostnameSniffingConn :=
  {| proxyAddress := proxyAddress c; destination := destination c; destinationPort := v;
     connectDeadline := connectDeadline c; ready := ready c; connection := connection c;
     pending := pending c; initErr := initErr c; closed := closed c;
     readDeadline := readDeadline c; writeDeadline := writeDeadline c |}.
Definition set_connectDeadline (v : Time) (c : hostnameSniffingConn) : hostnameSniffingConn :=
  {| proxyAddress := proxyAddress c; destination := destination c;
     destinationPort := destinationPort c; connectDeadline := v; ready := ready c;
     connection := connection c; pending := pending c; initErr := initErr c;
     closed := closed c; readDeadline := readDeadline c; writeDeadline := writeDeadline c |}.
Definition set_ready (v : bool) (c : hostnameSniffingConn) : hostnameSniffingConn :=
  {| proxyAddress := proxyAddress c; destination := destination c;
     destinationPort := destinationPort c; connectDeadline := connectDeadline c; ready := v;
     connection := connection c; pending := pending c; initErr := initErr c;
     closed := closed c; readDeadline := readDeadline c; writeDeadline := writeDeadline c |}.
Definition set_connection (v : option Tunnel) (c : hostnameSniffingConn) : hostnameSniffingConn :=
  {| proxyAddress := proxyAddress c; destination := destination c;
     destinationPort := destinationPort c; connectDeadline := connectDeadline c;
     ready := ready c; connection := v; pending := pending c; initErr := initErr c;
     closed := closed c; readDeadline := readDeadline c; writeDeadline := writeDeadline c |}.
Definition set_pending (v : list byte) (c : hostnameSniffingConn) : hostnameSniffingConn :=
  {| proxyAddress := proxyAddress c; destination := destination c;
     destinationPort := destinationPort c; connectDeadline := connectDeadline c;
     ready := ready c; connection := connection c; pending := v; initErr := initErr c;
     closed := closed c; readDeadline := readDeadline c; writeDeadline := writeDeadline c |}.
Definition set_initErr (v : option error) (c : hostnameSniffingConn) : hostnameSniffingConn :=
  {| proxyAddress := proxyAddress c; destination := destination c;
     destinationPort := destinationPort c; connectDeadline := connectDeadline c;
     ready := ready c; connection := connection c; pending := pending c; initErr := v;
     closed := closed c; readDeadline := readDeadline c; writeDeadline := writeDeadline c |}.
Definition set_closed (v : bool) (c : hostnameSniffingConn) : hostnameSniffingConn :=
  {| proxyAddress := proxyAddress c; destination := destination c;
     destinationPort := destinationPort c; connectDeadline := connectDeadline c;
     ready := ready c; connection := connection c; pending := pending c; initErr := initErr c;
     closed := v; readDeadline := readDeadline c; writeDeadline := writeDeadline c |}.
Definition set_readDeadline (v : Time) (c : hostnameSniffingConn) : hostnameSniffingConn :=
  {| proxyAddress := proxyAddress c; destination := destination c;
     destinationPort := destinationPort c; connectDeadline := connectDeadline c;
     ready := ready c; connection := connection c; pending := pending c; initErr := initErr c;
     closed := closed c; readDeadline := v; writeDeadline := writeDeadline c |}.
Definition set_writeDeadline (v : Time) (c : hostnameSniffingConn) : hostnameSniffingConn :=
  {| proxyAddress := proxyAddress c; destination := destination c;
     destinationPort := destinationPort c; connectDeadline := connectDeadline c;
     ready := ready c; connection := connection c; pending := pending c; initErr := initErr c;
     closed := closed c; readDeadline := readDeadline c; writeDeadline := v |}.

Definition newHostnameSniffingConn (deadline : Time) (proxyAddress destination : gostring)
    (destinationPort : Z) : hostnameSniffingConn :=
  mkSniffingConn proxyAddress destination destinationPort deadline
    false None [] None false ZeroTime ZeroTime.

(** [Read] blocks ([None]) until [ready] is closed; then it fails or becomes
    a read of the connection. *)
Definition SniffRead (c : hostnameSniffingConn) : option (result error Tunnel) :=
  if ready c then
    Some (match connection c with
          | Some t => Ok t
          | None => Err (default (ESentinel ErrNetClosed) (initErr c))
          end)
  else None.

Definition SniffClose (c : hostnameSniffingConn) (w : World) : hostnameSniffingConn * World :=
  if closed c then (c, w)
  else
    let c := set_closed true c in
    let c := match initErr c with
             | None => set_initErr (Some (ESentinel ErrNetClosed)) c
             | Some _ => c
             end in
    let c := set_ready true c in
    (c, match connection c with Some t => close_conn t w | None => w end).

Definition apply_deadlines (c : hostnameSniffingConn) (t : Tunnel) : Tunnel :=
  let t := if IsZero (readDeadline c) then t else set_t_readDeadline (readDeadline c) t in
  if IsZero (writeDeadline c) then t else set_t_writeDeadline (writeDeadline c) t.

(** [establish]; [now] is the clock, [closing] says that another goroutine's
    [Close] runs after the handshake and before the lock is taken. *)
Definition establish (now : Time) (closing : bool) (c : hostnameSniffingConn) (w : World)
    (target : gostring) : option error * hostnameSniffingConn * World :=
  let deadline := if IsZero (connectDeadline c) then now + 15 * Second else connectDeadline c in
  let '(connected, w) :=
    match dial w (str "tcp4") (proxyAddress c) with
    | (Err err, w) => (Err err, w)
    | (Ok rawConnection, w) =>
        match performConnect deadline rawConnection target with
        | Err err => (Err err, close_conn rawConnection w)
        | Ok tunnel => (Ok tunnel, w)
        end
    end in
  let '(c, w) := if closing then SniffClose c w else (c, w) in
  let '(connected, w) :=
    if closed c then
      (Err (ESentinel ErrNetClosed), match connected with Ok t => close_conn t w | Err _ => w end)
    else (connected, w) in
  match connected with
  | Err err => (Some err, set_ready true (set_initErr (Some err) c), w)
  | Ok t => (None, set_ready true (set_connection (Some (apply_deadlines c t)) c), w)
  end.

(** [writeAllConnection]: the bytes taken and the error. *)
Fixpoint write_all_rounds (out : list byte) (plan : WritePlan) (payload : list byte)
    : nat * option error * Writer :=
  match payload, plan with
  | [], _ => (0%nat, None, mkWriter out plan)
  | _ :: _, [] => (length payload, None, mkWriter (out ++ payload) [])
  | _ :: _, (k, e) :: plan =>
      let written := Nat.min k (length payload) in
      let out := out ++ take written payload in
      match e with
      | Some err => (written, Some err, mkWriter out plan)
      | None =>
          if decide (written = 0%nat) then (written, Some (ESentinel ErrShortWrite), mkWriter out plan)
          else
            let '(total, err, w) := write_all_rounds out plan (drop written payload) in
            ((written + total)%nat, err, w)
      end
  end.

Definition writeAllConnection (t : Tunnel) (payload : list byte) : Z * option error * Tunnel :=
  let '(total, err, out) := write_all_rounds (w_out (t_out t)) (w_plan (t_out t)) payload in
  (Z.of_nat total, err, set_t_out out t).

(** [Write] on the TCP connection. *)
Definition tunnel_Write (t : Tunnel) (payload : list byte) : Z * option error * Tunnel :=
  if t_writeShut t then (0, Some (EOpError (ENew (str "broken pipe"))), t)
  else let '(n, err, out) := Write (t_out t) payload in (Z.of_nat n, err, set_t_out out t).

(** [Write] on the sniffing connection. *)
Definition SniffWrite (now : Time) (closing : bool) (c : hostnameSniffingConn) (w : World)
    (payload : list byte) : option (Z * option error * hostnameSniffingConn * World) :=
  match connection c with
  | Some t =>
      if closed c then Some (0, Some (EOpError (ESentinel ErrNetClosed)), c, w)
      else
        let '(n, err, t) := tunnel_Write t payload in
        Some (n, err, set_connection (Some t) c, w)
  | None =>
      if closed c || bool_decide (is_Some (initErr c)) then
        Some (0, Some (default (ESentinel ErrNetClosed) (initErr c)), c, w)
      else if maxInitialClientBytes - zlen (pending c) <? zlen payload then
        let held := pending c in
        let c := set_pending [] c in
        match establish now closing c w (destination c) with
        | (Some err, c, w) => Some (0, Some err, c, w)
        | (None, c, w) =>
            match connection c with
            | None => None
            | Some t =>
                match writeAllConnection t held with
                | (_, Some err, t) => Some (0, Some err, set_connection (Some t) c, w)
                | (_, None, t) =>
                    let '(n, err, t) := tunnel_Write t payload in
                    Some (n, err, set_connection (Some t) c, w)
                end
            end
        end
      else
        let c := set_pending (pending c ++ payload) c in
        s ← sniffHostname (pending c) (destinationPort c);
        let '(hostname, result) := s in
        if decide (result = sniffNeedMore) then Some (zlen payload, None, c, w)
        else
          let target :=
            if decide (result = sniffResolved)
            then JoinHostPort hostname (Itoa (destinationPort c)) else destination c in
          let held := pending c in
          let previousLength := zlen held - zlen payload in
          let c := set_pending [] c in
          match establish now closing c w target with
          | (Some err, c, w) => Some (0, Some err, c, w)
          | (None, c, w) =>
              match connection c with
              | None => None
              | Some t =>
                  let '(written, err, t) := writeAllConnection t held in
                  let currentWritten := Z.min (Z.max (written - previousLength) 0) (zlen payload) in
                  Some (currentWritten, err, set_connection (Some t) c, w)
              end
          end
  end.

(** The deadline setters: remembered, and passed on once connected. *)
Definition on_connection (f : Tunnel → Tunnel) (c : hostnameSniffingConn) : hostnameSniffingConn :=
  match connection c with Some t => set_connection (Some (f t)) c | None => c end.

Definition SniffSetReadDeadline (d : Time) (c : hostnameSniffingConn) : hostnameSniffingConn :=
  on_connection (set_t_readDeadline d) (set_readDeadline d c).

Definition SniffSetWriteDeadline (d : Time) (c : hostnameSniffingConn) : hostnameSniffingConn :=
  on_connection (set_t_writeDeadline d) (set_writeDeadline d c).

Definition SniffSetDeadline (d : Time) (c : hostnameSniffingConn) : hostnameSniffingConn :=
  on_connection (λ t, set_t_readDeadline d (set_t_writeDeadline d t))
    (set_writeDeadline d (set_readDeadline d c)).

(** [CloseRead] and [CloseWrite] before a connection exists are [Close]; the
    tunnel is a [bufferedConn], which half-closes its TCP connection; closing
    the read side leaves what was received. *)
Definition SniffCloseRead (c : hostnameSniffingConn) (w : World) : hostnameSniffingConn * World :=
  match connection c with None => SniffClose c w | Some _ => (c, w) end.

Definition SniffCloseWrite (c : hostnameSniffingConn) (w : World) : hostnameSniffingConn * World :=
  match connection c with
  | None => SniffClose c w
  | Some t => (set_connection (Some (set_t_writeShut true t)) c, w)
  end.

(** * The dialer *)

Record ConnectDialer := mkConnectDialer { cd_proxyAddress : gostring; cd_ports : gset Z }.

Fixpoint select_ports (ports : list Z) (selected : gset Z) : result error (gset Z) :=
  match ports with
  | [] => Ok selected
  | port :: ports =>
      if (port <? 1) || (65535 <? port) then
        Err (ENew (str "invalid intercept port " ++ Itoa port))
      else select_ports ports ({[port]} ∪ selected)
  end.

Definition NewConnectDialer (proxyAddress : gostring) (ports : list Z) : result error ConnectDialer :=
  match SplitHostPort proxyAddress with
  | None => Err (EWrapf (str "invalid proxy address") AddrError)
  | Some _ => selected ← select_ports ports ∅; Ok (mkConnectDialer proxyAddress selected)
  end.

Definition Intercepts (d : ConnectDialer) (port : Z) : bool := bool_decide (port ∈ cd_ports d).

(** What [DialContext] hands out. *)
Inductive Dialled :=
| Direct (t : Tunnel)
| Tunnelled (t : Tunnel)
| Sniffing (c : hostnameSniffingConn).

(** [deadline] is the context's ([ZeroTime]: none). *)
Definition DialContext (now deadline : Time) (d : ConnectDialer) (w : World)
    (network address : gostring) : result error Dialled * World :=
  let go_direct :=
    match dial w network address with
    | (Ok t, w) => (Ok (Direct t), w)
    | (Err err, w) => (Err err, w)
    end in
  if negb (streq network (str "tcp")) && negb (streq network (str "tcp4")) then go_direct
  else
    match SplitHostPort address with
    | None => (Err (EWrapf (str "parse TCP destination") AddrError), w)
    | Some (host, portText) =>
        match Atoi portText with
        | None => go_direct
        | Some port =>
            if negb (Intercepts d port) then go_direct
            else if ParseIP (Trim host (str "[]")) then
              (Ok (Sniffing (newHostnameSniffingConn deadline (cd_proxyAddress d) address port)), w)
            else
              match dial w (str "tcp4") (cd_proxyAddress d) with
              | (Err err, w) => (Err (EWrapf (str "connect to local capture proxy") err), w)
              | (Ok t, w) =>
                  let until := if IsZero deadline then now + 15 * Second else deadline in
                  match performConnect until t address with
                  | Err err => (Err err, close_conn t w)
                  | Ok tunnel => (Ok (Tunnelled tunnel), w)
                  end
              end
        end
    end.

(** * Reading the response header *)

Lemma header_loop_ok maximum header data h rest :
  header_loop maximum header data = (Ok h, rest) →
  ∃ body, data = body ++ rest ∧ h = header ++ body ∧ zlen h ≤ maximum ∧
    ∃ h0, h = h0 ++ crlf2.
Proof.
  revert header. induction data as [|v data IH]; intros header; cbn [header_loop];
    case_if as E; try done. bool_to_prop. case_if as E2.
  - intros [= <- <-]. exists [v]. bool_to_prop. split_and!; try done.
    + zlen_lia.
    + exists (take (length (header ++ [v]) - 4) (header ++ [v])).
      match goal with E : drop _ _ = _ |- _ => rewrite <-E end. by rewrite take_drop.
  - intros (body & -> & -> & Hl & Hs)%IH. exists (v :: body). by rewrite <-app_assoc in *.
Qed.

(** No terminator ends inside the last [k] positions of a header read so far. *)
Lemma header_loop_complete maximum header body rest :
  zlen header + zlen body ≤ maximum → body ≠ [] →
  (∃ h0, header ++ body = h0 ++ crlf2) →
  (∀ b1 b2 h0, body = b1 ++ b2 → b2 ≠ [] → header ++ b1 ≠ h0 ++ crlf2) →
  header_loop maximum header (body ++ rest) = (Ok (header ++ body), rest).
Proof.
  revert header. induction body as [|v body IH]; intros header Hm Hne Hend Hno; [done|].
  rewrite zlen_cons in Hm. pose proof (zlen_nonneg body). cbn [app header_loop].
  rewrite (proj2 (Z.ltb_lt _ _)) by lia.
  assert (Hsplit : (4 <=? zlen (header ++ [v])) && streq (drop (length (header ++ [v]) - 4) (header ++ [v])) crlf2 = true
          ↔ ∃ h0, header ++ [v] = h0 ++ crlf2).
  { rewrite andb_true_iff, Z.leb_le, bool_decide_eq_true. split.
    - intros [_ E]. exists (take (length (header ++ [v]) - 4) (header ++ [v])).
      rewrite <-E. by rewrite take_drop.
    - intros [h0 E]. rewrite E. unfold zlen. rewrite length_app. change (length crlf2) with 4%nat.
      split; [lia|]. replace (length h0 + 4 - 4)%nat with (length h0) by lia. by rewrite drop_app_length. }
  destruct body as [|v2 body].
  - rewrite (proj2 Hsplit) by done. done.
  - case_if as E.
    + destruct (proj1 Hsplit eq_refl) as [h0 E0]. exfalso. by apply (Hno [v] (v2 :: body) h0).
    + replace (header ++ v :: v2 :: body) with ((header ++ [v]) ++ v2 :: body) by (by rewrite <-app_assoc).
      apply IH; [|done| |].
      * zlen_lia.
      * rewrite <-app_assoc. done.
      * intros b1 b2 h0 Eb Hb2. rewrite <-app_assoc. apply (Hno (v :: b1) b2 h0); [|done].
        cbn. by rewrite Eb.
Qed.

Lemma readBoundedHeader_ok r maximum h r' :
  readBoundedHeader r maximum = (Ok h, r') →
  r_data r = h ++ r_data r' ∧ r_end r' = r_end r ∧ zlen h ≤ maximum ∧ ∃ h0, h = h0 ++ crlf2.
Proof.
  unfold readBoundedHeader. destruct (header_loop _ _ _) as [x rest] eqn:E.
  intros [= -> <-]. apply header_loop_ok in E as (body & E1 & E2 & Hl & Hs). cbn in *. by subst.
Qed.

(** The CONNECT response header.  When the proxy's stream starts with a
    header whose first blank line ends it within the limit,
    [readBoundedHeader] returns exactly that header and leaves every
    following byte of the tunnel unread; a header it returns is never longer
    than the limit. *)
Theorem readBoundedHeader_exact h0 rest e maximum :
  zlen (h0 ++ crlf2) ≤ maximum →
  (∀ a b, h0 ++ crlf2 = a ++ crlf2 ++ b → b = []) →
  readBoundedHeader (mkReader (h0 ++ crlf2 ++ rest) e) maximum = (Ok (h0 ++ crlf2), mkReader rest e).
Proof.
  intros Hm Hfirst. unfold readBoundedHeader. cbn [r_data r_end].
  rewrite app_assoc, header_loop_complete; try done.
  - by destruct h0.
  - by exists h0.
  - cbn [app]. intros b1 b2 h1 Eb Hb2 ->. rewrite <-app_assoc in Eb. by apply Hfirst in Eb.
Qed.

(** The CONNECT handshake.  [performConnect] succeeds only when the proxy
    answered with a complete header within the limit whose status line is
    accepted; the resulting tunnel reads exactly the bytes after that header,
    has no deadline left, and, if the request went out in full, has sent
    exactly the CONNECT request for the target. *)
Theorem performConnect_ok deadline t address tunnel :
  performConnect deadline t address = Ok tunnel →
  t_id tunnel = t_id t ∧ t_out tunnel = (Write (t_out t) (connect_request address)).2 ∧
  t_readDeadline tunnel = ZeroTime ∧ t_writeDeadline tunnel = ZeroTime ∧
  (∃ header, r_data (t_in t) = header ++ r_data (t_in tunnel) ∧ connect_accepted header = true ∧
     zlen header ≤ maxConnectResponseHeader ∧ ∃ h0, header = h0 ++ crlf2) ∧
  ((Write (t_out t) (connect_request address)).1.1 = length (connect_request address) →
   w_out (t_out tunnel) = w_out (t_out t) ++ connect_request address).
Proof.
  unfold performConnect. cbn [set_t_readDeadline set_t_writeDeadline t_out t_in].
  destruct (Write _ _) as [[n [e|]] out] eqn:Ew; [done|].
  destruct (readBoundedHeader _ _) as [[header|e] reader] eqn:Er; [|done].
  apply readBoundedHeader_ok in Er as (Hd & _ & Hl & Hs).
  case_if as Ea; [done|]. apply negb_false_iff in Ea. intros [= <-].
  cbn [set_t_readDeadline set_t_writeDeadline set_t_in set_t_out
       t_id t_out t_in t_readDeadline t_writeDeadline].
  split_and!; try done; [by eauto|].
  cbn [fst]. intros ->. unfold Write in Ew. destruct (w_plan (t_out t)) as [|[k oe] plan].
  - by injection Ew as <-.
  - injection Ew as Hn _ <-. cbn [w_out]. rewrite Hn. by rewrite take_ge.
Qed.


(** * The sniffing connection under writes and a concurrent close *)

Record sniff_inv (c : hostnameSniffingConn) (w : World) : Prop := {
  si_pending : zlen (pending c) ≤ maxInitialClientBytes;
  si_held : is_Some (connection c) → pending c = [];
  si_ready : ready c = true ↔ is_Some (connection c) ∨ is_Some (initErr c);
  si_closed : closed c = true → is_Some (initErr c);
  si_open : w_open w = match connection c with
                       | Some t => if closed c then ∅ else {[t_id t]}
                       | None => ∅
                       end;
  si_dials : w_dials w = [] ∨
             (w_dials w = [(str "tcp4", proxyAddress c)] ∧
              (is_Some (connection c) ∨ is_Some (initErr c)));
}.

(** Nothing has been dialled or closed yet. *)
Record fresh (c : hostnameSniffingConn) (w : World) : Prop := {
  fr_connection : connection c = None;
  fr_initErr : initErr c = None;
  fr_closed : closed c = false;
  fr_open : w_open w = ∅;
  fr_dials : w_dials w = [];
  fr_pending : pending c = [];
}.

Lemma SniffClose_inv c w :
  sniff_inv c w → sniff_inv (SniffClose c w).1 (SniffClose c w).2.
Proof.
  intros Hi. unfold SniffClose. destruct (closed c) eqn:Ec; [done|]. destruct Hi.
  destruct c as [pa de dp cd rd co pe ie cl r wd]. cbn in *. subst cl.
  destruct ie as [e|], co as [t|]; cbn in *; split; cbn; try done; eauto;
    rewrite ?si_open0; try set_solver; naive_solver.
Qed.

Lemma dial_fresh w network address :
  w_open w = ∅ → w_dials w = [] →
  w_dials (dial w network address).2 = [(network, address)] ∧
  match (dial w network address).1 with
  | Ok t => w_open (dial w network address).2 = {[t_id t]}
  | Err _ => w_open (dial w network address).2 = ∅
  end.
Proof.
  intros Ho Hd. unfold dial. destruct (direct _ _ _) as [[plan stream]|e]; cbn; rewrite Hd; [|done].
  split; [done|]. rewrite Ho. set_solver.
Qed.

Lemma performConnect_frame deadline t address tunnel :
  performConnect deadline t address = Ok tunnel →
  t_id tunnel = t_id t ∧ ∃ n, Write (t_out t) (connect_request address) = (n, None, t_out tunnel).
Proof.
  unfold performConnect. cbn [set_t_readDeadline set_t_writeDeadline t_out]. destruct (Write _ _) as [[n [e|]] out]; [done|].
  destruct (readBoundedHeader _ _) as [[header|e] reader]; [|done].
  case_if; [done|]. intros [= <-]. split; [done|]. by exists n.
Qed.

(** [out] is what the first dial, to [proxy], gave, after CONNECT to
    [target]. *)
Definition requested (proxy target : gostring) (out : Writer) : Prop :=
  ∃ plan stream, direct 0 (str "tcp4") proxy = Ok (plan, stream) ∧
    ∃ n, Write (mkWriter [] plan) (connect_request target) = (n, None, out).

(** The dial and handshake of [establish]. *)
Lemma connect_phase_spec deadline c w target connected w' :
  w_open w = ∅ → w_dials w = [] →
  match dial w (str "tcp4") (proxyAddress c) with
  | (Err err, w) => (Err err, w)
  | (Ok rawConnection, w) =>
      match performConnect deadline rawConnection target with
      | Err err => (Err err, close_conn rawConnection w)
      | Ok tunnel => (Ok tunnel, w)
      end
  end = (connected, w') →
  w_dials w' = [(str "tcp4", proxyAddress c)] ∧
  match connected with
  | Ok t => w_open w' = {[t_id t]} ∧ requested (proxyAddress c) target (t_out t)
  | Err _ => w_open w' = ∅
  end.
Proof.
  intros Ho Hd. pose proof (dial_fresh w (str "tcp4") (proxyAddress c) Ho Hd) as [Hdl Hop].
  destruct (dial _ _ _) as [[raw|e] w1] eqn:Edial; cbn in *; [|by intros [= <- <-]].
  destruct (performConnect _ _ _) as [t|e] eqn:Ep; intros [= <- <-]; cbn; [|split; [done|set_solver]].
  apply performConnect_frame in Ep as [-> Hto]. split_and!; [done..|]. unfold dial in Edial. rewrite Hd in Edial. cbn in Edial.
  destruct (direct 0 _ _) as [[plan stream]|e] eqn:Edir; [|done]. injection Edial as <- <-. by exists plan, stream.
Qed.

Lemma apply_deadlines_frame c t :
  t_id (apply_deadlines c t) = t_id t ∧ t_out (apply_deadlines c t) = t_out t.
Proof. unfold apply_deadlines. by destruct (IsZero (readDeadline c)), (IsZero (writeDeadline c)). Qed.

(** The fields fixed when the connection was made. *)
Definition same_target (c c' : hostnameSniffingConn) : Prop :=
  proxyAddress c' = proxyAddress c ∧ destination c' = destination c ∧ destinationPort c' = destinationPort c.

Lemma establish_spec now closing c w target err c' w' :
  fresh c w → sniff_inv c w → establish now closing c w target = (err, c', w') →
  sniff_inv c' w' ∧ pending c' = [] ∧ same_target c c' ∧
  match err with
  | None => ∃ t, connection c' = Some t ∧ requested (proxyAddress c) target (t_out t)
  | Some e => connection c' = None ∧ initErr c' = Some e
  end.
Proof.
  intros [Hco Hie Hcl Hop Hdi Hpe] Hinv. unfold establish.
  destruct (match dial w _ _ with (_, _) => _ end) as [connected w1] eqn:Ephase.
  apply connect_phase_spec in Ephase as [Hd1 Hc1]; [|done|done].
  destruct c as [pa de dp cd rd co pe ie cl rdl wdl]. cbn in *. subst co ie cl pe.
  destruct closing; cbn; [|destruct connected as [t|e]; cbn].
  - destruct connected as [t|e]; cbn; intros [= <- <- <-]; cbn; split_and!; try done;
      split; cbn; eauto; try done; try (by intros [? ?]); try set_solver.
  - intros [= <- <- <-]. destruct Hc1 as [Hc1 Hb].
    match goal with |- context [apply_deadlines ?c t] =>
      destruct (apply_deadlines_frame c t) as (Hi & Hto);
      revert Hi Hto; generalize (apply_deadlines c t) end.
    intros t' Hi Hto. cbn. split_and!; [|done|done|].
    + split; cbn; try done; [naive_solver|by rewrite Hi|naive_solver].
    + eexists. split; [done|]. unfold requested. by rewrite Hto.
  - intros [= <- <- <-]. cbn. split_and!; try done. split; cbn; try done; naive_solver.
Qed.

Lemma write_all_rounds_spec out plan payload n err w :
  write_all_rounds out plan payload = (n, err, w) →
  (n ≤ length payload)%nat ∧ w_out w = out ++ take n payload ∧
  (err = None → n = length payload).
Proof.
  revert out payload n. induction plan as [|[k e] plan IH]; intros out [|b p] n; cbn [write_all_rounds].
  - intros [= <- <- <-]. by rewrite app_nil_r.
  - intros [= <- <- <-]. split_and!; [cbn; lia| |done]. by rewrite take_ge.
  - intros [= <- <- <-]. by rewrite app_nil_r.
  - set (k' := Nat.min k (length (b :: p))). assert (k' ≤ length (b :: p))%nat by lia.
    destruct e as [e|]; [by intros [= <- <- <-]|]. case_decide; [by intros [= <- <- <-]|].
    destruct (write_all_rounds _ _ _) as [[m e'] w'] eqn:E. intros [= <- <- <-].
    apply IH in E as (Hm & -> & Hn). rewrite length_drop in Hm, Hn. split_and!; [lia| |].
    + rewrite <-app_assoc. f_equal. by rewrite take_take_drop.
    + intros ->. specialize (Hn eq_refl). lia.
Qed.

Lemma writeAllConnection_spec t payload n err t' :
  writeAllConnection t payload = (n, err, t') →
  0 ≤ n ≤ zlen payload ∧ w_out (t_out t') = w_out (t_out t) ++ take (Z.to_nat n) payload ∧
  (err = None → n = zlen payload) ∧ t_id t' = t_id t.
Proof.
  unfold writeAllConnection. destruct (write_all_rounds _ _ _) as [[m e] w] eqn:E.
  intros [= <- <- <-]. apply write_all_rounds_spec in E as (? & Ho & Hn). cbn.
  rewrite Nat2Z.id. unfold zlen. split_and!; try done; [lia..|]. intros He. by rewrite Hn.
Qed.

Lemma tunnel_Write_spec t payload n err t' :
  tunnel_Write t payload = (n, err, t') →
  0 ≤ n ≤ zlen payload ∧ w_out (t_out t') = w_out (t_out t) ++ take (Z.to_nat n) payload ∧
  t_id t' = t_id t.
Proof.
  unfold tunnel_Write, Write, zlen. destruct (t_writeShut t); [intros [= <- <- <-]; rewrite app_nil_r; split_and!; done || lia|].
  destruct (w_plan (t_out t)) as [|[k e] plan];
    intros [= <- <- <-]; cbn; rewrite Nat2Z.id; split_and!; try done; try lia.
  by rewrite take_ge.
Qed.

(** Replacing the connection by the same one after a write. *)
Lemma set_connection_inv c w t t' :
  sniff_inv c w → connection c = Some t → t_id t' = t_id t →
  sniff_inv (set_connection (Some t') c) w.
Proof.
  intros [] Hc Hi. destruct c. cbn in *. subst. split; cbn; try done.
  - intros _. by apply si_held0.
  - rewrite si_ready0. naive_solver.
  - by rewrite Hi.
  - destruct si_dials0 as [?|[? _]]; [by left|right]. naive_solver.
Qed.

(** The CONNECT target for a connection that has accepted [accepted]: the host
    name found at the front of what was written, or the original destination
    when there is none or more was written than is held back. *)
Inductive chosen (dest : gostring) (port : Z) (accepted : list byte) : gostring → Prop :=
| chosen_host held rest host :
    accepted = held ++ rest → sniffHostname held port = Some (host, sniffResolved) →
    chosen dest port accepted (JoinHostPort host (Itoa port))
| chosen_unavailable held rest host :
    accepted = held ++ rest → sniffHostname held port = Some (host, sniffUnavailable) →
    chosen dest port accepted dest
| chosen_overflow held payload n rest :
    accepted = held ++ take n payload ++ rest → maxInitialClientBytes < zlen held + zlen payload →
    chosen dest port accepted dest.

Lemma chosen_app dest port accepted more target :
  chosen dest port accepted target → chosen dest port (accepted ++ more) target.
Proof.
  intros [held rest host -> Hs|held rest host -> Hs|held payload n rest -> Hl].
  - by apply (chosen_host _ _ _ held (rest ++ more)); [by rewrite <-app_assoc|].
  - by apply (chosen_unavailable _ _ _ held (rest ++ more) host); [by rewrite <-app_assoc|].
  - by apply (chosen_overflow _ _ _ held payload n (rest ++ more)); [by rewrite <-!app_assoc|].
Qed.

(** What a connection owes its peer: before CONNECT everything accepted is
    pending; afterwards it follows the request on the wire. *)
Definition forwards (c : hostnameSniffingConn) (accepted : list byte) : Prop :=
  match connection c with
  | Some t => ∃ target out, chosen (destination c) (destinationPort c) accepted target ∧
      requested (proxyAddress c) target out ∧ w_out (t_out t) = w_out out ++ accepted
  | None => pending c = accepted
  end.

Definition write_post (c : hostnameSniffingConn) (payload : list byte)
    (n : Z) (err : option error) (c' : hostnameSniffingConn) (w' : World) : Prop :=
  sniff_inv c' w' ∧ 0 ≤ n ≤ zlen payload ∧
  (∀ accepted, forwards c accepted → err = None →
     forwards c' (accepted ++ take (Z.to_nat n) payload)) ∧
  same_target c c' ∧ (err = None → connection c' = None → initErr c' = None).

Lemma set_pending_fresh c w :
  sniff_inv c w → connection c = None → closed c = false → initErr c = None →
  fresh (set_pending [] c) w ∧ sniff_inv (set_pending [] c) w.
Proof.
  intros [] Hco Hcl Hie. destruct c. cbn in *. subst. cbn in *.
  destruct si_dials0 as [Hd|[Hd Hx]]; [|exfalso; destruct Hx as [[? ?]|[? ?]]; done].
  split; split; cbn; try done. by left.
Qed.

(** The tunnel of [c'] carries [data] after the request to [target]. *)
Lemma forwards_established c c' t t' target data :
  same_target c c' → chosen (destination c) (destinationPort c) data target →
  requested (proxyAddress c) target (t_out t) → w_out (t_out t') = w_out (t_out t) ++ data →
  forwards (set_connection (Some t') c') data.
Proof.
  intros (Hp & Hd & Hq) Hch Hr Ho. unfold forwards. destruct c'. cbn in *. subst. by exists target, (t_out t).
Qed.

Lemma kept_target c c' t : same_target c c' → same_target c (set_connection t c').
Proof. by destruct c, c'. Qed.

Lemma SniffWrite_spec now closing c w payload :
  sniff_inv c w →
  ∃ n err c' w', SniffWrite now closing c w payload = Some (n, err, c', w') ∧
    write_post c payload n err c' w'.
Proof.
  intros Hinv. unfold SniffWrite. pose proof (zlen_nonneg payload).
  destruct (connection c) as [t|] eqn:Hco.
  { destruct (closed c); [do 4 eexists; split; [done|]; split_and!; [done|lia|lia|done|done|done]|].
    destruct (tunnel_Write t payload) as [[n err] t'] eqn:Ew.
    apply tunnel_Write_spec in Ew as (Hn & Ho & Hi). do 4 eexists. split; [done|].
    split_and!; [by eapply set_connection_inv|lia|lia| |by apply kept_target|done].
    unfold forwards. rewrite Hco. intros acc (target & out & Hch & Hr & Hw) _. destruct c; cbn in *.
    exists target, out. split_and!; [by apply chosen_app|done|]. by rewrite Ho, Hw, app_assoc. }
  case_if as Ecl.
  { do 4 eexists. split; [done|]. split_and!; [done|lia|lia|done|done|done]. }
  bool_to_prop. match goal with H : closed c = false |- _ => rename H into Hcl end.
  assert (initErr c = None) as Hie by (destruct (initErr c); [exfalso; eauto|done]).
  assert (Hpend : ∀ acc, forwards c acc → pending c = acc) by (unfold forwards; by rewrite Hco).
  case_if as Emax.
  { destruct (set_pending_fresh c w Hinv Hco Hcl Hie) as [Hfr Hinv0].
    destruct (establish _ _ _ _ _) as [[[e|] c1] w1] eqn:Ee;
      apply establish_spec in Ee as (Hi1 & Hp1 & Hsame & Hres); try done.
    { do 4 eexists. split; [done|]. split_and!; [done|lia|lia|done|done|done]. }
    destruct Hres as (t & Hc1 & Hreq). rewrite Hc1.
    destruct (writeAllConnection t _) as [[n0 [e|]] t1] eqn:E1;
      apply writeAllConnection_spec in E1 as (Hn0 & Ho1 & Hnn & Hi).
    { do 4 eexists. split; [done|]. split_and!; [by eapply set_connection_inv|lia|lia|done|by apply kept_target|done]. }
    destruct (tunnel_Write t1 payload) as [[n err] t2] eqn:E2.
    apply tunnel_Write_spec in E2 as (Hn & Ho2 & Hi2). do 4 eexists. split; [done|].
    split_and!; [eapply set_connection_inv; [done|done|congruence]|lia|lia| |by apply kept_target|done].
    intros acc Hf%Hpend _. subst acc. eapply (forwards_established (set_pending [] c)); [done| |done|].
    - apply (chosen_overflow _ _ _ (pending c) payload (Z.to_nat n) []); [by rewrite app_nil_r|bool_to_prop; lia].
    - rewrite Ho2, Ho1, (Hnn eq_refl). unfold zlen. rewrite Nat2Z.id, take_ge by done. by rewrite app_assoc. }
  bool_to_prop. set (c0 := set_pending (pending c ++ payload) c).
  destruct (sniffHostname_returns (pending c0) (destinationPort c0)) as [[host res] Es]. rewrite Es.
  cbn [mbind option_bind].
  assert (Hp0 : pending c0 = pending c ++ payload) by (by destruct c).
  assert (Hinv1 : sniff_inv c0 w).
  { destruct Hinv. unfold c0. destruct c; cbn in *; subst. split; cbn; try done.
    rewrite zlen_app. lia. }
  assert (connection c0 = None ∧ closed c0 = false ∧ initErr c0 = None) as (Hco0 & Hcl0 & Hie0)
    by (unfold c0; by destruct c).
  case_decide.
  { do 4 eexists. split; [done|]. split_and!; [done|lia|lia| |by destruct c|done].
    intros acc Hf%Hpend _. unfold forwards. rewrite Hco0, Hp0, Hf. unfold zlen. by rewrite Nat2Z.id, take_ge. }
  destruct (set_pending_fresh c0 w Hinv1 Hco0 Hcl0 Hie0) as [Hfr Hinv0].
  destruct (establish _ _ _ _ _) as [[[e|] c1] w1] eqn:Ee;
    apply establish_spec in Ee as (Hi1 & Hp1 & Hsame & Hres); try done.
  { do 4 eexists. split; [done|]. split_and!; [done|lia|lia|done|done|done]. }
  destruct Hres as (t & Hc1 & Hreq). rewrite Hc1.
  destruct (writeAllConnection t _) as [[n0 err] t1] eqn:E1;
    apply writeAllConnection_spec in E1 as (Hn0 & Ho1 & Hnn & Hi).
  do 4 eexists. split; [done|]. split_and!; [by eapply set_connection_inv|lia|lia| |by apply kept_target|done].
  intros acc Hf%Hpend He. subst acc. rewrite Hp0, zlen_app in *.
  replace (take (Z.to_nat (Z.min _ _)) payload) with payload
    by (rewrite (Hnn He), take_ge; [done|unfold zlen; lia]).
  eapply (forwards_established c0); [done| |done|].
  - case_decide as Eres; [subst res; by eapply (chosen_host _ _ _ _ []); [by rewrite app_nil_r|]|].
    eapply (chosen_unavailable _ _ _ (pending c ++ payload) [] host); [by rewrite app_nil_r|]. rewrite Es. by destruct res.
  - rewrite Ho1, (Hnn He), take_ge; [done|]. unfold zlen. rewrite length_app. lia.
Qed.

(** ** Runs *)

(** The calls the relay makes on a sniffing connection.  Writes are
    serialised by [writeMu]; [OpWrite]'s flag is a [Close] that runs while a
    write is dialling. *)
Inductive sniff_op :=
| OpWrite (now : Time) (closing : bool) (payload : list byte)
| OpClose
| OpCloseRead
| OpCloseWrite
| OpSetReadDeadline (d : Time)
| OpSetWriteDeadline (d : Time)
| OpSetDeadline (d : Time).

(** The connection, its dials, the bytes its writes accepted, and whether a
    write has failed. *)
Record sniff_run := mkSniffRun {
  run_conn : hostnameSniffingConn;
  run_world : World;
  run_accepted : list byte;
  run_failed : bool;
}.

Definition sniff_step (s : sniff_run) (op : sniff_op) : option sniff_run :=
  let pure c := Some (mkSniffRun c (run_world s) (run_accepted s) (run_failed s)) in
  match op with
  | OpWrite now closing payload =>
      r ← SniffWrite now closing (run_conn s) (run_world s) payload;
      let '(n, err, c, w) := r in
      Some (mkSniffRun c w (run_accepted s ++ take (Z.to_nat n) payload)
              (run_failed s || bool_decide (is_Some err)))
  | OpClose =>
      let '(c, w) := SniffClose (run_conn s) (run_world s) in
      Some (mkSniffRun c w (run_accepted s) (run_failed s))
  | OpCloseRead =>
      let '(c, w) := SniffCloseRead (run_conn s) (run_world s) in
      Some (mkSniffRun c w (run_accepted s) (run_failed s))
  | OpCloseWrite =>
      let '(c, w) := SniffCloseWrite (run_conn s) (run_world s) in
      Some (mkSniffRun c w (run_accepted s) (run_failed s))
  | OpSetReadDeadline d => pure (SniffSetReadDeadline d (run_conn s))
  | OpSetWriteDeadline d => pure (SniffSetWriteDeadline d (run_conn s))
  | OpSetDeadline d => pure (SniffSetDeadline d (run_conn s))
  end.

Fixpoint sniff_runs (s : sniff_run) (ops : list sniff_op) : option sniff_run :=
  match ops with [] => Some s | op :: ops => s' ← sniff_step s op; sniff_runs s' ops end.

Definition sniff_start (deadline : Time) (proxy destination : gostring) (port : Z) : sniff_run :=
  mkSniffRun (newHostnameSniffingConn deadline proxy destination port) (mkWorld [] ∅) [] false.

Definition run_ok (s0 s : sniff_run) : Prop :=
  sniff_inv (run_conn s) (run_world s) ∧ same_target (run_conn s0) (run_conn s) ∧
  (run_failed s = false → forwards (run_conn s) (run_accepted s) ∧
     (connection (run_conn s) = None → closed (run_conn s) = true ∨ initErr (run_conn s) = None)).

Lemma on_connection_ok f c w accepted :
  (∀ t, t_id (f t) = t_id t ∧ t_out (f t) = t_out t) →
  sniff_inv c w →
  sniff_inv (on_connection f c) w ∧ (forwards c accepted → forwards (on_connection f c) accepted).
Proof.
  intros Hf Hi. unfold on_connection, forwards. destruct (connection c) as [t|] eqn:Ec; [|by rewrite Ec].
  destruct (Hf t) as (? & Ho). split; [by eapply set_connection_inv|].
  destruct c. cbn. by rewrite Ho.
Qed.

Lemma set_deadlines_ok c w r wr accepted :
  sniff_inv c w → let c' := set_writeDeadline wr (set_readDeadline r c) in
  sniff_inv c' w ∧ (forwards c accepted → forwards c' accepted).
Proof. intros []. destruct c. split; [split; cbn in *; done|done]. Qed.

Lemma SniffClose_forwards c w accepted :
  forwards c accepted → forwards (SniffClose c w).1 accepted.
Proof.
  unfold SniffClose, forwards. destruct c as [pa de dp cd rd co pe ie cl r wd]. cbn.
  destruct cl, ie, co; cbn; try done; by intros ?.
Qed.

Lemma SniffClose_frame c w : closed (SniffClose c w).1 = true ∧ same_target c (SniffClose c w).1.
Proof. unfold SniffClose. destruct (closed c) eqn:E; [done|]. by destruct c as [? ? ? ? ? [] ? [] ? ? ?]. Qed.

Lemma sniff_step_ok s0 s op : run_ok s0 s → ∃ s', sniff_step s op = Some s' ∧ run_ok s0 s'.
Proof.
  intros (Hi & Hst & Hf). destruct s as [c w acc failed]. cbn in *.
  assert (Hclose : run_ok s0 (mkSniffRun (SniffClose c w).1 (SniffClose c w).2 acc failed)).
  { destruct (SniffClose_frame c w) as [Hc (? & ? & ?)]. destruct Hst as (? & ? & ?).
    split_and!; cbn; [by apply SniffClose_inv|by split_and!; congruence|]. intros E.
    split; [by apply SniffClose_forwards, Hf|by left]. }
  assert (Hset : ∀ f r wr, (∀ t, t_id (f t) = t_id t ∧ t_out (f t) = t_out t) →
    run_ok s0 (mkSniffRun (on_connection f (set_writeDeadline wr (set_readDeadline r c))) w acc failed)).
  { intros f r wr Hfr. destruct (set_deadlines_ok c w r wr acc Hi) as [Hi2 Hf2].
    destruct (on_connection_ok f _ w acc Hfr Hi2) as [Hi3 Hf3]. split_and!; cbn; [done|..].
    - unfold on_connection. destruct c as [? ? ? ? ? [] ? ? ? ? ?]; done.
    - intros E. destruct (Hf E) as [Hw Hn]. split; [auto|]. unfold on_connection in *. by destruct c as [? ? ? ? ? [] ? ? ? ? ?]. }
  destruct op as [now closing payload| | | |d|d|d]; cbn.
  - destruct (SniffWrite_spec now closing c w payload Hi) as (n & err & c' & w' & -> & Hi' & _ & Hfw & (? & ? & ?) & Hn).
    cbn. eexists. split; [done|]. destruct Hst as (? & ? & ?). split_and!; cbn; [done|by split_and!; congruence|].
    intros [E1 E2]%orb_false_iff. assert (err = None) as -> by (destruct err; [by apply bool_decide_eq_false in E2; destruct E2; eauto|done]).
    split; [apply Hfw; [by apply Hf|done]|right; auto].
  - destruct (SniffClose c w) as [c' w']. eauto.
  - unfold SniffCloseRead. destruct (connection c) eqn:Ec; [eexists; split; [done|]; by split_and!; cbn; rewrite ?Ec|].
    destruct (SniffClose c w) as [c' w']. eauto.
  - unfold SniffCloseWrite. destruct (connection c) as [t|] eqn:Ec; [|destruct (SniffClose c w) as [c' w']; eauto].
    eexists. split; [done|]. destruct (on_connection_ok (set_t_writeShut true) c w acc) as [Hi3 Hf3]; [done|done|].
    unfold on_connection in Hi3, Hf3. rewrite Ec in Hi3, Hf3. split_and!; cbn; [done|by destruct c|].
    intros E. split; [by apply Hf3, Hf|by destruct c].
  - eexists. split; [done|]. unfold SniffSetReadDeadline.
    replace (set_readDeadline d c) with (set_writeDeadline (writeDeadline c) (set_readDeadline d c)) by by destruct c.
    by apply Hset.
  - eexists. split; [done|]. unfold SniffSetWriteDeadline.
    replace (set_writeDeadline d c) with (set_writeDeadline d (set_readDeadline (readDeadline c) c)) by by destruct c.
    by apply Hset.
  - eexists. split; [done|]. by apply Hset.
Qed.

Lemma sniff_runs_ok s0 s ops : run_ok s0 s → ∃ s', sniff_runs s ops = Some s' ∧ run_ok s0 s'.
Proof.
  revert s. induction ops as [|op ops IH]; intros s Hs; cbn [sniff_runs]; [by eauto|].
  destruct (sniff_step_ok s0 s op Hs) as (s' & -> & Hs'). cbn. by apply IH.
Qed.

Lemma sniff_start_ok deadline proxy destination port :
  run_ok (sniff_start deadline proxy destination port) (sniff_start deadline proxy destination port).
Proof. split_and!; [|done|split; [done|by right]]. split; cbn; try done; [naive_solver|by left]. Qed.

(** C33: the life of a sniffing connection.  After any sequence of writes,
    closes, half-closes and deadline changes, with a close possibly racing
    any dial: no operation panics; at most 64 KiB are held back; at most one
    connection was dialled, to the capture proxy and never to the
    destination; readers are unblocked exactly when there is a connection or
    an error; and after a close no dialled connection is left open. *)
Theorem sniff_life deadline proxy destination port ops :
  ∃ s, sniff_runs (sniff_start deadline proxy destination port) ops = Some s ∧
    sniff_inv (run_conn s) (run_world s) ∧
    (closed (run_conn s) = true → w_open (run_world s) = ∅).
Proof.
  destruct (sniff_runs_ok _ _ ops (sniff_start_ok deadline proxy destination port)) as (s & E & Hi & _).
  exists s. split_and!; [done..|]. intros Hc. rewrite (si_open _ _ Hi).
  destruct (connection (run_conn s)); [by rewrite Hc|done].
Qed.


(** * Dialling *)

(** C35: what proxy mode may dial.  Everything except TCP to an intercepted
    port is dialled directly, exactly as requested.  TCP to an intercepted
    port never reaches its destination directly: an address literal is not
    dialled at all yet, and a host name only dials the proxy. *)
Theorem DialContext_routes now deadline d w network address r w' :
  DialContext now deadline d w network address = (r, w') →
  let intercepted := ∃ host portText port,
    (network = str "tcp" ∨ network = str "tcp4") ∧ SplitHostPort address = Some (host, portText) ∧
    Atoi portText = Some port ∧ port ∈ cd_ports d in
  (¬ intercepted ∧ (w' = (dial w network address).2 ∨ (w' = w ∧ SplitHostPort address = None))) ∨
  (intercepted ∧
   ((w' = w ∧ ∃ port, r = Ok (Sniffing (newHostnameSniffingConn deadline (cd_proxyAddress d) address port))) ∨
    w_dials w' = w_dials w ++ [(str "tcp4", cd_proxyAddress d)])).
Proof.
  unfold DialContext. cbv zeta. case_if as En.
  { apply andb_true_iff in En as [E1 E2]. bool_to_prop. intros E. left. split; [naive_solver|]. left.
    destruct (dial w network address) as [[t|e] w1]; by injection E as _ <-. }
  apply andb_false_iff in En.
  assert (Hn : network = str "tcp" ∨ network = str "tcp4").
  { destruct En as [En|En]; apply negb_false_iff, bool_decide_eq_true in En; auto. }
  destruct (SplitHostPort address) as [[host pt]|] eqn:Es.
  2:{ intros [= <- <-]. left. split; [naive_solver|]. by right. }
  destruct (Atoi pt) as [port|] eqn:Ea.
  2:{ intros E. left. split; [naive_solver|]. left.
      destruct (dial w network address) as [[t|e] w1]; by injection E as _ <-. }
  case_if as Ei.
  { unfold Intercepts in Ei. bool_to_prop. intros E. left. split; [naive_solver|]. left.
    destruct (dial w network address) as [[t|e] w1]; by injection E as _ <-. }
  unfold Intercepts in Ei. bool_to_prop. intros E. right. split; [naive_solver|].
  case_if in E as Eip; [injection E as <- <-; left; by eauto|]. right. revert E.
  unfold dial. destruct (direct _ _ _) as [[plan stream]|e]; [|by intros [= <- <-]].
  destruct (performConnect _ _ _); by intros [= <- <-].
Qed.
End connect.

(** ** Concrete runs *)

#[local] Instance no_http : HTTPRequests := λ _, Err (ESentinel EOF).
#[local] Existing Instance ascii_unicode.

Definition sample_response : gostring :=
  str "HTTP/1.1 200 Connection established" ++ crlf2.

Definition sample_direct (_ : nat) (_ _ : gostring) : result error (WritePlan * Reader) :=
  Ok ([], mkReader (sample_response ++ [x16]) (ESentinel EOF)).

(** A status line without a carriage return is ended by its first blank line. *)
Lemma crlf2_first h0 a b :
  bool_decide (x0d ∈ h0) = false → h0 ++ crlf2 = a ++ crlf2 ++ b → b = [].
Proof.
  intros Hn E. apply bool_decide_eq_false in Hn. destruct (decide (length a < length h0)%nat) as [Hlt|Hge].
  - exfalso. apply Hn. apply (list_elem_of_lookup_2 _ (length a)).
    rewrite <-(lookup_app_l h0 crlf2), E by done. by rewrite lookup_app_r, Nat.sub_diag.
  - apply (f_equal length) in E. rewrite !length_app in E. apply length_zero_iff_nil. lia.
Qed.

Lemma readBoundedHeader_exact_witness :
  readBoundedHeader (mkReader (str "HTTP/1.1 200" ++ crlf2 ++ [x16]) (ESentinel EOF)) 64
  = (Ok (str "HTTP/1.1 200" ++ crlf2), mkReader [x16] (ESentinel EOF)).
Proof.
  apply readBoundedHeader_exact; [vm_compute; congruence|].
  intros a b. apply crlf2_first. vm_compute. reflexivity.
Defined.

Definition sample_raw : Tunnel :=
  mkTunnel 0 (mkWriter [] []) (mkReader (sample_response ++ [x16]) (ESentinel EOF)) false ZeroTime ZeroTime.

Lemma performConnect_ok_witness :
  ∃ tunnel, performConnect 5 sample_raw (str "a.example:443") = Ok tunnel ∧
    w_out (t_out tunnel) = connect_request (str "a.example:443").
Proof.
  destruct (performConnect 5 sample_raw (str "a.example:443")) as [tunnel|] eqn:E;
    [|vm_compute in E; discriminate].
  exists tunnel. split; [reflexivity|].
  apply performConnect_ok in E as (_ & _ & _ & _ & _ & Hb). by apply Hb.
Defined.



Definition sample_dialer : ConnectDialer := mkConnectDialer (str "127.0.0.1:8081") (list_to_set InterceptPorts).

Lemma DialContext_routes_witness :
  ∃ r w', DialContext sample_direct 0 ZeroTime sample_dialer (mkWorld [] ∅) (str "tcp") (str "a.example:443") = (r, w') ∧
    w_dials w' = [(str "tcp4", str "127.0.0.1:8081")].
Proof.
  destruct (DialContext sample_direct 0 ZeroTime sample_dialer (mkWorld [] ∅) (str "tcp") (str "a.example:443"))
    as [r w'] eqn:E.
  exists r, w'. split; [reflexivity|].
  destruct (DialContext_routes _ _ _ _ _ _ _ _ _ E) as [[Hn _]|[_ [[-> [p Hp]]|Hd]]]; [| |exact Hd].
  - exfalso. apply Hn. exists (str "a.example"), (str "443"), 443. split_and!; [by left|reflexivity|reflexivity|].
    vm_compute. reflexivity.
  - subst r. vm_compute in E. discriminate.
Defined.

End connect.
