(* ===== verification/Tunnel.v ===== *)
(** The tunnel under a CONNECT handshake (src/internal/proxy/connect.go): the
    [bufio.Reader] through which the response header is read, the
    [bufferedConn] that keeps it, and the half-close, linger and address
    methods of [bufferedConn] and [hostnameSniffingConn].

    [Connect] reads from flat byte streams.  Here the proxy's bytes arrive in
    segments and pass through bufio's 4096-byte buffer;
    [buffered_tunnel_stream] shows that nothing depends on the segmentation
    and that no byte after the header is lost or repeated. *)
From S2P Require Import Prelude Errors GoIO GoStrings GoOS GoNet Sniff Connect.
Import sniff connect.

Module tunnel.

(** * [bufio.Reader] *)

(** One arrival on the connection: a read of a [net.Conn] returns at least
    one byte or an error. *)
Record Segment := mkSegment { seg_head : byte; seg_tail : list byte }.
Definition seg_bytes (s : Segment) : list byte := seg_head s :: seg_tail s.

(** The buffered bytes, the arrivals to come, and the error that ends them. *)
Record BufReader := mkBufReader { br_buf : list byte; br_src : list Segment; br_end : error }.

(** [bufio.NewReader]'s default size. *)
Definition bufSize : nat := 4096.

Definition NewReader (src : list Segment) (e : error) : BufReader := mkBufReader [] src e.

(** What the reader will deliver. *)
Definition contents (r : BufReader) : list byte := br_buf r ++ concat (map seg_bytes (br_src r)).

(** A read of at most [S n] bytes from the connection. *)
Definition source_read (n : nat) (s : Segment) (src : list Segment) : list byte * list Segment :=
  (take (S n) (seg_bytes s),
   match drop (S n) (seg_bytes s) with
   | [] => src
   | b :: rest => mkSegment b rest :: src
   end).

Definition ReadByte (r : BufReader) : result error byte * BufReader :=
  match br_buf r with
  | b :: buf => (Ok b, mkBufReader buf (br_src r) (br_end r))
  | [] =>
      match br_src r with
      | [] => (Err (br_end r), r)
      | s :: src =>
          match source_read (pred bufSize) s src with
          | ([], src) => (Err (br_end r), mkBufReader [] src (br_end r))
          | (b :: buf, src) => (Ok b, mkBufReader buf src (br_end r))
          end
      end
  end.

(** [reader.Read(payload)] with [len(payload) = n]: the buffer first; a
    large read of an empty buffer goes to the connection directly. *)
Definition Read (n : nat) (r : BufReader) : list byte * option error * BufReader :=
  match n, br_buf r with
  | O, _ => ([], None, r)
  | S m, [] =>
      match br_src r with
      | [] => ([], Some (br_end r), r)
      | s :: src =>
          if decide (bufSize ≤ n)%nat then
            let '(got, src) := source_read m s src in (got, None, mkBufReader [] src (br_end r))
          else
            let '(buf, src) := source_read (pred bufSize) s src in
            (take n buf, None, mkBufReader (drop n buf) src (br_end r))
      end
  | S m, buf => (take n buf, None, mkBufReader (drop n buf) (br_src r) (br_end r))
  end.

(** [readBoundedHeader] over that reader; [rounds] is how many bytes are left
    to the maximum. *)
Fixpoint buffered_header (rounds : nat) (header : list byte) (r : BufReader) : result error (list byte) * BufReader :=
  match rounds with
  | O => (Err (ENew (str "local capture proxy returned an oversized CONNECT response")), r)
  | S rounds =>
      match ReadByte r with
      | (Err _, r) => (Err (ENew (str "local capture proxy closed during CONNECT")), r)
      | (Ok value, r) =>
          let header := header ++ [value] in
          if (4 <=? zlen header) && streq (drop (length header - 4) header) crlf2 then (Ok header, r)
          else buffered_header rounds header r
      end
  end.

(** * [bufferedConn] *)

(** The dialled connection: which optional methods it has, and what has been
    done to it. *)
Record RawConn := mkRawConn {
  hasCloseRead : bool;
  hasCloseWrite : bool;
  hasSetLinger : bool;
  readClosed : bool;
  writeClosed : bool;
  fullyClosed : bool;
  linger : option Z;
  LocalAddr : gostring;
  RemoteAddr : gostring;
}.

Definition raw_CloseRead (c : RawConn) : RawConn :=
  mkRawConn (hasCloseRead c) (hasCloseWrite c) (hasSetLinger c) true (writeClosed c) (fullyClosed c) (linger c)
    (LocalAddr c) (RemoteAddr c).
Definition raw_CloseWrite (c : RawConn) : RawConn :=
  mkRawConn (hasCloseRead c) (hasCloseWrite c) (hasSetLinger c) (readClosed c) true (fullyClosed c) (linger c)
    (LocalAddr c) (RemoteAddr c).
Definition raw_Close (c : RawConn) : RawConn :=
  mkRawConn (hasCloseRead c) (hasCloseWrite c) (hasSetLinger c) (readClosed c) (writeClosed c) true (linger c)
    (LocalAddr c) (RemoteAddr c).
Definition raw_SetLinger (seconds : Z) (c : RawConn) : RawConn :=
  mkRawConn (hasCloseRead c) (hasCloseWrite c) (hasSetLinger c) (readClosed c) (writeClosed c) (fullyClosed c)
    (Some seconds) (LocalAddr c) (RemoteAddr c).

Record bufferedConn := mkBufferedConn { Conn : RawConn; reader : BufReader }.

Definition newBufferedConn (connection : RawConn) (reader : BufReader) : bufferedConn := mkBufferedConn connection reader.

Definition buffered_Read (n : nat) (c : bufferedConn) : list byte * option error * bufferedConn :=
  let '(got, err, r) := Read n (reader c) in (got, err, mkBufferedConn (Conn c) r).

Definition buffered_CloseRead (c : bufferedConn) : option error * bufferedConn :=
  if negb (hasCloseRead (Conn c)) then (Some (ENew (str "proxy connection does not support closing its read side")), c)
  else (None, mkBufferedConn (raw_CloseRead (Conn c)) (reader c)).

Definition buffered_CloseWrite (c : bufferedConn) : option error * bufferedConn :=
  if negb (hasCloseWrite (Conn c)) then (Some (ENew (str "proxy connection does not support closing its write side")), c)
  else (None, mkBufferedConn (raw_CloseWrite (Conn c)) (reader c)).

Definition buffered_SetLinger (seconds : Z) (c : bufferedConn) : option error * bufferedConn :=
  if negb (hasSetLinger (Conn c)) then (Some (ENew (str "proxy connection does not support configuring linger")), c)
  else (None, mkBufferedConn (raw_SetLinger seconds (Conn c)) (reader c)).

(** The part of [performConnect] that reads the answer: the tunnel on
    acceptance. *)
Definition buffered_connect (connection : RawConn) (src : list Segment) (e : error) : result error bufferedConn :=
  match buffered_header (Z.to_nat maxConnectResponseHeader) [] (NewReader src e) with
  | (Err err, _) => Err err
  | (Ok header, r) =>
      if negb (connect_accepted header) then Err (ENew (str "local capture proxy rejected the CONNECT request"))
      else Ok (newBufferedConn connection r)
  end.

(** Reads of the given sizes, one after the other, up to the first error. *)
Fixpoint reads (sizes : list nat) (c : bufferedConn) : list byte * bufferedConn :=
  match sizes with
  | [] => ([], c)
  | n :: sizes =>
      match buffered_Read n c with
      | (got, Some _, c) => (got, c)
      | (got, None, c) => let '(more, c) := reads sizes c in (got ++ more, c)
      end
  end.

(** * The sniffing connection's half-close, linger and addresses *)

(** [hostnameSniffingConn] with its established connection, a [bufferedConn],
    seen through the methods below. *)
Record LazyConn := mkLazyConn { lz_conn : hostnameSniffingConn; lz_tunnel : option bufferedConn }.

(** [c.Close()] with no connection: no connection is dialled afterwards. *)
Definition lazy_close (c : LazyConn) : LazyConn :=
  mkLazyConn (SniffClose (lz_conn c) (mkWorld [] ∅)).1 (lz_tunnel c).

Definition lazy_half (half : bufferedConn → option error * bufferedConn) (c : LazyConn) : option error * LazyConn :=
  match lz_tunnel c with
  | None => (None, lazy_close c)
  | Some t => let '(err, t) := half t in (err, mkLazyConn (lz_conn c) (Some t))
  end.

Definition lazy_CloseRead : LazyConn → option error * LazyConn := lazy_half buffered_CloseRead.
Definition lazy_CloseWrite : LazyConn → option error * LazyConn := lazy_half buffered_CloseWrite.

Definition lazy_SetLinger (seconds : Z) (c : LazyConn) : option error * LazyConn :=
  match lz_tunnel c with
  | None => (None, c)
  | Some t => let '(err, t) := buffered_SetLinger seconds t in (err, mkLazyConn (lz_conn c) (Some t))
  end.

Definition lazy_LocalAddr (c : LazyConn) : gostring :=
  match lz_tunnel c with Some t => LocalAddr (Conn t) | None => proxyAddress (lz_conn c) end.

Definition lazy_RemoteAddr (c : LazyConn) : gostring :=
  match lz_tunnel c with Some t => RemoteAddr (Conn t) | None => destination (lz_conn c) end.

(** * Nothing depends on the segmentation *)

Lemma source_read_spec n s src :
  let '(got, src') := source_read n s src in
  got ++ concat (map seg_bytes src') = seg_bytes s ++ concat (map seg_bytes src) ∧
  got ≠ [] ∧ (length got ≤ S n)%nat.
Proof.
  unfold source_read. split_and!; [|done|rewrite length_take; lia].
  rewrite <-(take_drop (S n) (seg_bytes s)) at 3. rewrite <-(assoc_L app). f_equal.
  by destruct (drop (S n) (seg_bytes s)).
Qed.

Lemma ReadByte_spec r :
  let '(x, r') := ReadByte r in
  br_end r' = br_end r ∧
  match contents r with
  | [] => x = Err (br_end r) ∧ contents r' = []
  | b :: rest => x = Ok b ∧ contents r' = rest
  end.
Proof.
  unfold ReadByte, contents. destruct r as [[|b buf] [|s src] e]; cbn [br_buf br_src br_end]; try done.
  pose proof (source_read_spec (pred bufSize) s src) as Hs.
  destruct (source_read _ _ _) as [[|b buf] src']; destruct Hs as (Hc & Hne & _); [done|].
  cbn [br_buf br_src br_end map concat app] in *. split; [done|]. by rewrite <-Hc.
Qed.

(** Reading through the buffer is reading the flat stream. *)
Lemma buffered_header_flat rounds header r :
  let '(x, r') := buffered_header rounds header r in
  header_loop (zlen header + Z.of_nat rounds) header (contents r) = (x, contents r') ∧ br_end r' = br_end r.
Proof.
  revert header r. induction rounds as [|rounds IH]; intros header r; cbn [buffered_header].
  - split; [|done]. destruct (contents r); cbn [header_loop]; by rewrite (proj2 (Z.ltb_ge _ _)) by lia.
  - pose proof (ReadByte_spec r) as Hb. destruct (ReadByte r) as [x r']. destruct Hb as [He Hb].
    destruct (contents r) as [|b rest]; destruct Hb as [-> Hr]; cbn [header_loop];
      rewrite (proj2 (Z.ltb_lt _ _)) by lia; [by rewrite Hr|].
    destruct ((4 <=? zlen (header ++ [b])) && _); [by rewrite Hr|].
    specialize (IH (header ++ [b]) r'). destruct (buffered_header rounds (header ++ [b]) r') as [x r2].
    rewrite Hr, He in IH. replace (zlen header + Z.of_nat (S rounds)) with (zlen (header ++ [b]) + Z.of_nat rounds); [done|].
    zlen_lia.
Qed.

Lemma Read_spec n r :
  let '(got, err, r') := Read n r in
  got ++ contents r' = contents r ∧ (length got ≤ n)%nat ∧ br_end r' = br_end r ∧
  (∀ e, err = Some e → e = br_end r ∧ contents r = [] ∧ got = []) ∧
  ((0 < n)%nat → contents r ≠ [] → got ≠ [] ∧ err = None).
Proof.
  unfold Read, contents. destruct r as [buf src e]; cbn [br_buf br_src br_end]. destruct n as [|m].
  { split_and!; try done. lia. }
  destruct buf as [|b buf].
  - destruct src as [|s src]; [split_and!; try done; [cbn; lia|by intros ? [= <-]]|].
    case_decide as Hn.
    + pose proof (source_read_spec m s src) as Hs. destruct (source_read m s src) as [got src'].
      destruct Hs as (Hc & Hne & Hl). by split_and!.
    + pose proof (source_read_spec (pred bufSize) s src) as Hs. destruct (source_read _ s src) as [got src'].
      destruct Hs as (Hc & Hne & Hl). cbn [br_buf br_src br_end app map concat] in *.
      split_and!; [|rewrite length_take; lia|done|done|by destruct got].
      by rewrite (assoc_L app), take_drop.
  - split_and!; [|rewrite length_take; lia|done|done|done]. cbn [br_buf br_src br_end].
    by rewrite (assoc_L app), take_drop.
Qed.

Lemma reads_spec sizes c :
  let '(got, c') := reads sizes c in
  got ++ contents (reader c') = contents (reader c) ∧ Conn c' = Conn c ∧
  (Forall (λ n, 0 < n)%nat sizes → (length sizes ≤ length got)%nat ∨ got = contents (reader c)).
Proof.
  revert c. induction sizes as [|n sizes IH]; intros c; cbn [reads]; [split_and!; [done|done|by left]|].
  unfold buffered_Read. pose proof (Read_spec n (reader c)) as Hr. destruct (Read n (reader c)) as [[got err] r'].
  destruct Hr as (Hc & _ & _ & He & Hp). destruct err as [e|]; cbn [reader Conn].
  - destruct (He e eq_refl) as (_ & Hnil & ->). split_and!; [done|done|]. intros _. right. by rewrite Hnil.
  - specialize (IH (mkBufferedConn (Conn c) r')). destruct (reads sizes _) as [more c']. cbn [reader Conn] in IH.
    destruct IH as (IH1 & IH2 & IH3). split_and!; [by rewrite <-(assoc_L app), IH1|done|].
    intros [Hn Hs]%Forall_cons. destruct (IH3 Hs) as [Hl| ->]; [|by right].
    destruct (decide (contents (reader c) = [])) as [Hnil|Hne].
    + right. rewrite Hnil in Hc. apply app_eq_nil in Hc as [-> Hc]. rewrite Hc in IH1. apply app_eq_nil in IH1 as [-> _].
      by rewrite Hnil.
    + left. destruct (Hp Hn Hne) as [Hg _]. destruct got; [done|]. cbn [length app]. rewrite length_app. lia.
Qed.

(** C36: tunnel bytes survive the handshake.  However the proxy's bytes arrive
    and whatever sizes are read, the buffered handshake accepts exactly when
    the flat one of [Connect] does; then the reads of the [bufferedConn]
    deliver exactly the bytes after the response header, those that came in
    the header's own segment included, in order, none lost or repeated, and
    each read of a positive size makes progress until they are all
    delivered. *)
Theorem buffered_tunnel_stream connection src e :
  match readBoundedHeader (mkReader (concat (map seg_bytes src)) e) maxConnectResponseHeader with
  | (Err err, _) => buffered_connect connection src e = Err err
  | (Ok header, rest) =>
      if connect_accepted header then
        ∃ c, buffered_connect connection src e = Ok c ∧ Conn c = connection ∧
          ∀ sizes, let '(got, c') := reads sizes c in
            got ++ contents (reader c') = r_data rest ∧ Conn c' = connection ∧
            (Forall (λ n, 0 < n)%nat sizes → (length sizes ≤ length got)%nat ∨ got = r_data rest)
      else ∃ err, buffered_connect connection src e = Err err
  end.
Proof.
  unfold readBoundedHeader, buffered_connect. cbn [r_data r_end].
  pose proof (buffered_header_flat (Z.to_nat maxConnectResponseHeader) [] (NewReader src e)) as Hh.
  destruct (buffered_header _ _ _) as [x r]. destruct Hh as [Hh _].
  rewrite Z2Nat.id in Hh by done. change (zlen (@nil byte) + _) with maxConnectResponseHeader in Hh.
  change (contents (NewReader src e)) with (concat (map seg_bytes src)) in Hh. rewrite Hh.
  destruct x as [header|err]; [|done]. destruct (connect_accepted header); cbn [negb]; [|eauto].
  eexists. split_and!; [done|done|]. intros sizes. cbn [r_data].
  pose proof (reads_spec sizes (newBufferedConn connection r)) as Hr. by destruct (reads _ _) as [got c'].
Qed.

(** Half-closing a sniffing connection that has not connected closes it. *)
Lemma lazy_half_unconnected half c :
  lz_tunnel c = None →
  (lazy_half half c).1 = None ∧ closed (lz_conn (lazy_half half c).2) = true ∧
  (closed (lz_conn c) = false → ready (lz_conn (lazy_half half c).2) = true).
Proof.
  intros Ht. unfold lazy_half. rewrite Ht. split; [done|]. unfold lazy_close, SniffClose. cbn [lz_conn snd].
  destruct (closed (lz_conn c)) eqn:E; cbn; [done|]. by destruct (initErr (lz_conn c)).
Qed.

(** On a connected one it touches that direction only. *)
Lemma lazy_half_connected c t :
  lz_tunnel c = Some t →
  (∃ t', lz_tunnel (lazy_CloseWrite c).2 = Some t' ∧ reader t' = reader t ∧
     readClosed (Conn t') = readClosed (Conn t) ∧ fullyClosed (Conn t') = fullyClosed (Conn t) ∧
     ((lazy_CloseWrite c).1 = None ↔ hasCloseWrite (Conn t) = true)) ∧
  (∃ t', lz_tunnel (lazy_CloseRead c).2 = Some t' ∧ reader t' = reader t ∧
     writeClosed (Conn t') = writeClosed (Conn t) ∧ fullyClosed (Conn t') = fullyClosed (Conn t) ∧
     ((lazy_CloseRead c).1 = None ↔ hasCloseRead (Conn t) = true)).
Proof.
  intros Ht. unfold lazy_CloseWrite, lazy_CloseRead, lazy_half, buffered_CloseWrite, buffered_CloseRead. rewrite Ht. split.
  - destruct (hasCloseWrite (Conn t)); cbn; eexists; by split_and!.
  - destruct (hasCloseRead (Conn t)); cbn; eexists; by split_and!.
Qed.
End tunnel.
