(* ===== verification/Hdc.v ===== *)
(** The hdc manager (src/internal/hdc/manager.go): discovery, target rows,
    single-device selection, reverse mappings and installed applications.

    Running hdc is outside the program: [Run] gives the trimmed output and
    the error of a command line.  [sha256] and [encoding/json] are
    parameters. *)
From S2P Require Import Prelude Errors GoStrings GoNet Protocol.

Module hdc.
Import apperror.

Definition EnvironmentPath : gostring := str "HARMONY_NETBRIDGE_HDC".
Definition defaultHDCPath : gostring :=
  str "/Applications/DevEco-Studio.app/Contents/sdk/default/openharmony/toolchains/hdc".

Record Target := mkTarget {
  ID : gostring;
  Connection : gostring;
  Status : gostring;
  Endpoint : gostring;
}.

Record InstalledApplication := mkApp { BundleName : gostring; Label : gostring }.

#[global] Instance InstalledApplication_eq_dec : EqDecision InstalledApplication.
Proof. solve_decision. Defined.

Record Mapping := mkMapping { DevicePort : Z; HostPort : Z }.

#[global] Instance Mapping_eq_dec : EqDecision Mapping.
Proof. solve_decision. Defined.

Definition newline : byte := x0a.

(** * Discovery *)

(** What [os.Stat] tells about a path that exists. *)
Record FileInfo := mkFileInfo { fi_regular : bool; fi_perm : Z }.

(** [filepath.Abs] and [os.Stat] of the machine. *)
Record Paths := mkPaths {
  path_Abs : gostring → result error gostring;
  path_Clean : gostring → gostring;
  path_Stat : gostring → option FileInfo;
}.

Definition validateExecutable (os : Paths) (candidate : gostring) : result error gostring :=
  match path_Abs os candidate with
  | Err err => Err (Wrap CodeHDCNotFound (str "the configured hdc path is invalid") (Some err))
  | Ok cleaned =>
      match path_Stat os cleaned with
      | Some info =>
          if negb (fi_regular info) || (Z.land (fi_perm info) 73 =? 0) then
            Err (New CodeHDCNotFound (str "the configured hdc path does not point to an executable file"))
          else Ok cleaned
      | None =>
          Err (New CodeHDCNotFound (str "the configured hdc path does not point to an executable file"))
      end
  end.

(** [configured]: the environment variable ([] when unset); [found]: the
    outcome of [exec.LookPath]. *)
Definition Discover (os : Paths) (explicit configured : gostring) (found : option gostring)
    : result error gostring :=
  if negb (streq explicit []) then validateExecutable os explicit
  else if negb (streq configured []) then validateExecutable os configured
  else
    match found with
    | Some candidate => Ok (path_Clean os candidate)
    | None =>
        match validateExecutable os defaultHDCPath with
        | Ok candidate => Ok candidate
        | Err _ =>
            Err (New CodeHDCNotFound
                   (str "hdc was not found. Install DevEco Studio, add hdc to PATH, or pass --hdc."))
        end
    end.

Section hdc.
Context `{Unicode}.

(** * Targets *)

Definition Usable (t : Target) : bool :=
  EqualFold (Status t) (str "Connected") || EqualFold (Status t) (str "Online").

(** One line of the report; [None]: [fields[0]] is out of range. *)
Definition parse_target_line (line : gostring) : option (option Target) :=
  let line := TrimSpace line in
  if streq line [] || EqualFold line (str "[Empty]") then Some None
  else
    match Fields line with
    | [] => None
    | [id] => Some (Some (mkTarget id [] (str "Connected") []))
    | id :: connection :: rest =>
        let status := match rest with s :: _ => s | [] => [] end in
        let endpoint := match rest with _ :: _ :: _ => Join (tail rest) (str " ") | _ => [] end in
        Some (Some (mkTarget id connection status endpoint))
    end.

Fixpoint parse_target_lines (lines : list gostring) : option (list Target) :=
  match lines with
  | [] => Some []
  | line :: lines =>
      t ← parse_target_line line;
      rest ← parse_target_lines lines;
      Some (option_list t ++ rest)
  end.

Definition ParseTargets (output : gostring) : option (list Target) :=
  parse_target_lines (Split output newline).

Fixpoint find_requested (targets : list Target) (requested : gostring) : result error Target :=
  match targets with
  | [] => Err (New CodeDeviceNotFound (str "the requested Harmony device was not returned by hdc"))
  | target :: targets =>
      if negb (streq (ID target) requested) then find_requested targets requested
      else if negb (Usable target) then
        Err (New CodeDeviceOffline (str "the selected Harmony device is not Connected in hdc"))
      else Ok target
  end.

Definition SelectTarget (targets : list Target) (requested : gostring) : result error Target :=
  if negb (streq requested []) then find_requested targets requested
  else
    match filter (λ t, Usable t = true) targets with
    | [] =>
        if bool_decide (targets ≠ []) then
          Err (New CodeDeviceOffline (str "a Harmony device is visible to hdc but is not Connected. Unlock or reconnect it and authorize debugging."))
        else
          Err (New CodeNoDevice (str "no Harmony device is connected. Connect one over USB and authorize debugging."))
    | [target] => Ok target
    | _ =>
        Err (New CodeMultipleDevices (str "multiple Harmony devices are Connected. Select exactly one with --device."))
    end.

(** * Output checks and redaction *)

(** The tests of one line of [isFailureOutput]. *)
Definition failure_line (line : gostring) : option bool :=
  let trimmed := TrimSpace line in
  if HasPrefix trimmed (str "[Fail]") then Some true
  else if HasPrefix trimmed (str "[E") then
    match IndexByte trimmed (chr "]") with
    | Some closingBracket =>
        if 2 <? Z.of_nat closingBracket then
          digits ← sub trimmed 2 (Z.of_nat closingBracket);
          Some (bool_decide (is_Some (ParseUint digits 64)))
        else Some false
    | None => Some false
    end
  else Some false.

Fixpoint failure_lines (lines : list gostring) : option bool :=
  match lines with
  | [] => Some false
  | line :: lines => f ← failure_line line; if f : bool then Some true else failure_lines lines
  end.

Definition isFailureOutput (output : gostring) : option bool := failure_lines (Split output newline).

(** [sha256.Sum256] *)
Variable Sum256 : list byte → list byte.

Definition RedactTarget (targetID : gostring) : gostring :=
  if streq targetID [] then str "device-unknown"
  else str "device-" ++ hex_encode (take 4 (Sum256 targetID)).

Definition RedactedName (t : Target) : gostring := RedactTarget (ID t).

Definition sanitizeOutput (output targetID : gostring) : gostring :=
  ReplaceAll (TrimSpace output) targetID (RedactTarget targetID).

(** [fmt.Errorf("%w: %s", err, text)] keeps [err] in the chain. *)
Definition commandFailure (err : option error) (output targetID : gostring) : error :=
  let safeOutput := sanitizeOutput output targetID in
  match err with
  | None => ENew (str "unexpected hdc output: " ++ safeOutput)
  | Some err => if streq safeOutput [] then err else EWrapf safeOutput err
  end.

(** * Commands *)

Variable Run : list gostring → gostring * option error.

Definition TaskString (m : Mapping) : gostring :=
  str "tcp:" ++ Itoa (DevicePort m) ++ str " tcp:" ++ Itoa (HostPort m).

Definition validateMapping (m : Mapping) : option error :=
  if (DevicePort m <? 1) || (65535 <? DevicePort m) || (HostPort m <? 1) || (65535 <? HostPort m)
  then Some (New CodePortConflict (str "the requested TCP port is outside 1...65535"))
  else None.

Definition tcp_node (port : Z) : gostring := str "tcp:" ++ Itoa port.

Definition Version : option (result error gostring) :=
  let '(output, err) := Run [str "-v"] in
  match err with
  | Some err => Some (Err (EWrapf (str "query hdc version") err))
  | None =>
      f ← isFailureOutput output;
      if f : bool then Some (Err (ENew (str "query hdc version: hdc reported a failure")))
      else Some (Ok (TrimSpace output))
  end.

Definition ListTargets : option (result error (list Target)) :=
  let '(output, err) := Run [str "list"; str "targets"; str "-v"] in
  match err with
  | Some err => Some (Err (EWrapf (str "list hdc targets") err))
  | None =>
      f ← isFailureOutput output;
      if f : bool then Some (Err (ENew (str "list hdc targets: hdc reported a failure")))
      else ts ← ParseTargets output; Some (Ok ts)
  end.

Definition add_args (targetID : gostring) (m : Mapping) : list gostring :=
  [str "-t"; targetID; str "rport"; tcp_node (DevicePort m); tcp_node (HostPort m)].
Definition ls_args (targetID : gostring) : list gostring :=
  [str "-t"; targetID; str "fport"; str "ls"].
Definition rm_args (targetID : gostring) (m : Mapping) : list gostring :=
  [str "-t"; targetID; str "fport"; str "rm"; tcp_node (DevicePort m); tcp_node (HostPort m)].

(** The commands run, and the error. *)
Definition AddReverse (targetID : gostring) (m : Mapping) : list (list gostring) * option error :=
  match validateMapping m with
  | Some err => ([], Some err)
  | None =>
      let '(output, err) := Run (add_args targetID m) in
      ([add_args targetID m],
       if bool_decide (is_Some err) || negb (Contains output (str "Forwardport result:OK")) then
         Some (Wrap CodeRPortFailed (str "hdc could not create the reverse port mapping")
                 (Some (commandFailure err output targetID)))
       else None)
  end.

Definition reverse_line (targetID deviceNode hostNode line : gostring) : bool :=
  match Fields line with
  | f0 :: f1 :: f2 :: (_ :: _) as rest =>
      if negb (streq f0 targetID) || negb (streq f1 deviceNode) || negb (streq f2 hostNode) then false
      else
        let direction := Trim (List.last rest []) (str "[]") in
        EqualFold direction (str "reverse")
  | _ => false
  end.

Definition hasExactReverseMapping (output targetID : gostring) (m : Mapping) : bool :=
  let deviceNode := tcp_node (DevicePort m) in
  let hostNode := tcp_node (HostPort m) in
  existsb (reverse_line targetID deviceNode hostNode) (Split output newline).

Definition HasReverse (targetID : gostring) (m : Mapping)
    : option (list (list gostring) * result error bool) :=
  match validateMapping m with
  | Some err => Some ([], Err err)
  | None =>
      let '(output, err) := Run (ls_args targetID) in
      let failed := Err (Wrap CodeRPortFailed (str "hdc could not inspect the reverse port mapping")
                           (Some (commandFailure err output targetID))) in
      match err with
      | Some _ => Some ([ls_args targetID], failed)
      | None =>
          f ← isFailureOutput output;
          Some ([ls_args targetID],
                if f : bool then failed else Ok (hasExactReverseMapping output targetID m))
      end
  end.

Definition Remove (targetID : gostring) (m : Mapping) : list (list gostring) * option error :=
  match validateMapping m with
  | Some err => ([], Some err)
  | None =>
      let '(output, err) := Run (rm_args targetID m) in
      ([rm_args targetID m],
       match err with
       | Some _ => Some (EWrapf (str "remove hdc mapping") (commandFailure err output targetID))
       | None =>
           if negb (streq output []) && negb (Contains (ToLower output) (str "success")) then
             Some (ENew (str "remove hdc mapping: " ++ sanitizeOutput output targetID))
           else None
       end)
  end.

(** * Installed applications *)

Definition is_letter (b : byte) : bool := is_upper b || is_lower b.

(** The character loop of one segment. *)
Fixpoint segment_ok (segmentIndex characterIndex : Z) (n : Z) (segment : gostring) : bool :=
  match segment with
  | [] => true
  | character :: rest =>
      if (characterIndex =? 0) &&
         (negb (is_letter character) && ((segmentIndex =? 0) || negb (is_digit character))) then false
      else if negb (is_letter character) && negb (is_digit character) &&
              negb (bool_decide (character = chr "_")) then false
      else if (characterIndex =? n - 1) && negb (is_letter character) && negb (is_digit character) then false
      else segment_ok segmentIndex (characterIndex + 1) n rest
  end.

Fixpoint segments_ok (segmentIndex : Z) (segments : list gostring) : bool :=
  match segments with
  | [] => true
  | segment :: rest =>
      if streq segment [] then false
      else segment_ok segmentIndex 0 (zlen segment) segment && segments_ok (segmentIndex + 1) rest
  end.

Definition isValidBundleName (bundleName : gostring) : bool :=
  if (zlen bundleName <? 7) || (128 <? zlen bundleName) then false
  else
    let segments := Split bundleName dot in
    if zlen segments <? 3 then false else segments_ok 0 segments.

(** [a < b] on Go strings. *)
Fixpoint strlt (a b : gostring) : bool :=
  match a, b with
  | _, [] => false
  | [], _ :: _ => true
  | x :: a, y :: b => (b2z x <? b2z y) || ((b2z x =? b2z y) && strlt a b)
  end.

Definition sort_label (a : InstalledApplication) : gostring :=
  if streq (Label a) [] then BundleName a else Label a.

Definition app_less (a b : InstalledApplication) : bool :=
  if EqualFold (sort_label a) (sort_label b) then strlt (BundleName a) (BundleName b)
  else strlt (ToLower (sort_label a)) (ToLower (sort_label b)).

Fixpoint insert_app (a : InstalledApplication) (l : list InstalledApplication) :=
  match l with
  | [] => [a]
  | x :: l' => if app_less a x then a :: l else x :: insert_app a l'
  end.

(** [sort.Slice] as an insertion sort. *)
Definition sort_apps (l : list InstalledApplication) : list InstalledApplication :=
  foldl (λ acc a, insert_app a acc) [] l.

Definition bad_label_chars : gostring := [x0d; x0a; x00].

Definition clean_label (label : gostring) : gostring :=
  let label := TrimSpace label in
  if (256 <? zlen label) || ContainsAny label bad_label_chars then [] else label.

(** The filtering loop; [normalized] in order of appearance. *)
Fixpoint normalize_loop (applications : list InstalledApplication)
    (normalized : list InstalledApplication) : list InstalledApplication :=
  match applications with
  | [] => normalized
  | application :: rest =>
      let bundleName := TrimSpace (BundleName application) in
      if negb (isValidBundleName bundleName) then normalize_loop rest normalized
      else if bool_decide (bundleName ∈ map BundleName normalized) then normalize_loop rest normalized
      else
        let normalized := normalized ++ [mkApp bundleName (clean_label (Label application))] in
        if zlen normalized =? 4096 then normalized else normalize_loop rest normalized
  end.

Definition normalizeInstalledApplications (applications : list InstalledApplication)
    : list InstalledApplication := sort_apps (normalize_loop applications []).

Definition ParseInstalledApplicationNames (output : gostring) : list InstalledApplication :=
  if 1024 * 1024 <? zlen output then []
  else normalizeInstalledApplications
         (map (λ line, mkApp (TrimSpace line) []) (Split output newline)).

Context `{!protocol.JSON (list InstalledApplication)}.

Definition ParseInstalledApplicationLabels (output : gostring) : list InstalledApplication :=
  let trimmed := TrimSpace output in
  if (zlen trimmed =? 0) || (1024 * 1024 <? zlen trimmed) then []
  else
    match protocol.json_Unmarshal trimmed with
    | Err _ => []
    | Ok applications => normalizeInstalledApplications applications
    end.

Definition ListInstalledApplications (targetID : gostring)
    : option (result error (list InstalledApplication)) :=
  let '(labelOutput, labelErr) :=
    Run [str "-t"; targetID; str "shell"; str "bm"; str "dump"; str "-a"; str "-l"] in
  labelFailed ← isFailureOutput labelOutput;
  let labelled :=
    if bool_decide (labelErr = None) && negb labelFailed
    then ParseInstalledApplicationLabels labelOutput else [] in
  if bool_decide (labelled ≠ []) then Some (Ok labelled)
  else
    let '(output, err) := Run [str "-t"; targetID; str "shell"; str "bm"; str "dump"; str "-a"] in
    match err with
    | Some _ => Some (Err (EWrapf (str "list installed applications") (commandFailure err output targetID)))
    | None =>
        failed ← isFailureOutput output;
        if failed : bool then
          Some (Err (ENew (str "list installed applications: hdc reported a failure")))
        else
          let applications := ParseInstalledApplicationNames output in
          if bool_decide (applications = []) then
            Some (Err (ENew (str "list installed applications: bm returned no valid applications")))
          else Some (Ok applications)
    end.

(** * Parsers return on every output *)

Lemma parse_target_line_returns line : ∃ t, parse_target_line line = Some t.
Proof.
  unfold parse_target_line. cbv zeta. case_if as E; [by eauto|]. bool_to_prop.
  destruct (Fields (TrimSpace line)) as [|id [|c rest]] eqn:Ef; [|by eauto..].
  exfalso. by eapply Fields_TrimSpace.
Qed.

Lemma parse_target_lines_returns lines : ∃ ts, parse_target_lines lines = Some ts.
Proof.
  induction lines as [|l lines [ts IH]]; cbn [parse_target_lines]; [by eauto|].
  destruct (parse_target_line_returns l) as [t ->]. rewrite IH. cbn. eauto.
Qed.

Lemma Index_bound t sep i :
  (0 < length sep)%nat → Index t sep = Some i → (i + length sep ≤ length t)%nat.
Proof.
  intros Hs E%Index_Some. apply (f_equal length) in E. rewrite !length_app, length_take, length_drop in E. lia.
Qed.

Lemma failure_lines_returns lines : ∃ b, failure_lines lines = Some b.
Proof.
  induction lines as [|l lines [b IH]]; cbn [failure_lines]; [by eauto|].
  assert (∃ f, failure_line l = Some f) as [[] ->]; [|by cbn; eauto..].
  unfold failure_line. cbv zeta. case_if; [by eauto|]. case_if; [|by eauto].
  destruct (IndexByte _ _) as [i|] eqn:Ei; [|by eauto]. case_if; [|by eauto]. bool_to_prop.
  apply Index_bound in Ei; [|cbn; lia]. cbn in Ei. rewrite sub_Some by (unfold zlen; lia). cbn. eauto.
Qed.

(** Hdc output cannot crash the daemon.  For every output text and error
    hdc produces, listing targets, reading the version and inspecting a
    mapping return a value or an error; in particular [fields[0]] in
    [ParseTargets] is always in range. *)
Theorem hdc_queries_total targetID m :
  (∃ r, ListTargets = Some r) ∧ (∃ r, Version = Some r) ∧ (∃ r, HasReverse targetID m = Some r) ∧
  (∀ output, ∃ ts, ParseTargets output = Some ts).
Proof.
  assert (∀ output, ∃ b, isFailureOutput output = Some b) as Hf by (intros; apply failure_lines_returns).
  assert (∀ output, ∃ ts, ParseTargets output = Some ts) as Hp by (intros; apply parse_target_lines_returns).
  split_and!; [..|done].
  - unfold ListTargets. destruct (Run _) as [output [e|]]; [by eauto|].
    destruct (Hf output) as [[] ->]; cbn; [by eauto|]. destruct (Hp output) as [ts ->]. cbn. eauto.
  - unfold Version. destruct (Run _) as [output [e|]]; [by eauto|].
    destruct (Hf output) as [[] ->]; cbn; eauto.
  - unfold HasReverse. destruct (validateMapping m); [by eauto|].
    destruct (Run _) as [output [e|]]; [by eauto|]. destruct (Hf output) as [[] ->]; cbn; eauto.
Qed.

(** * Selection *)

Lemma find_requested_spec targets requested :
  match find_requested targets requested with
  | Ok t => t ∈ targets ∧ ID t = requested ∧ Usable t = true
  | Err e =>
      (errors_As_App e = Some (CodeDeviceNotFound, str "the requested Harmony device was not returned by hdc") ∧
       ∀ t, t ∈ targets → ID t ≠ requested) ∨
      (errors_As_App e = Some (CodeDeviceOffline, str "the selected Harmony device is not Connected in hdc") ∧
       ∃ t, t ∈ targets ∧ ID t = requested ∧ Usable t = false)
  end.
Proof.
  induction targets as [|t targets IH]; cbn [find_requested]; [left; set_solver|].
  case_if as E1; bool_to_prop.
  - destruct (find_requested targets requested); [set_solver|].
    destruct IH as [[? IH]|(? & t' & ? & ? & ?)]; [left|right]; [|by eauto 6 using list_elem_of_further].
    split; [done|]. intros x [->|Hx]%elem_of_cons; eauto.
  - case_if as E2; bool_to_prop; [right; eauto 6 using list_elem_of_here|].
    split_and!; [apply list_elem_of_here|done|done].
Qed.

Lemma SelectTarget_elem targets requested t : SelectTarget targets requested = Ok t → t ∈ targets.
Proof.
  unfold SelectTarget. case_if as E.
  - pose proof (find_requested_spec targets requested) as Hf. destruct (find_requested _ _); [|done]. intros [= <-]. apply Hf.
  - destruct (filter _ targets) as [|x [|y l]] eqn:Ef; repeat case_if_auto; try done. intros [= <-].
    assert (x ∈ filter (λ t, Usable t = true) targets) as Hx by (rewrite Ef; apply list_elem_of_here).
    by apply list_elem_of_filter in Hx as [_ ?].
Qed.

(** Single-device safety.  [SelectTarget] returns a target only if hdc
    listed it and reports it usable, and then either it is the requested one
    or, with none requested, it is the only usable one.  Otherwise the error
    says which of the four situations holds. *)
Theorem SelectTarget_spec targets requested :
  let usable := filter (λ t, Usable t = true) targets in
  match SelectTarget targets requested with
  | Ok t =>
      t ∈ targets ∧ Usable t = true ∧
      (requested = [] ∧ usable = [t] ∨ requested ≠ [] ∧ ID t = requested)
  | Err e =>
      ∃ code message, errors_As_App e = Some (code, message) ∧
      (code = CodeDeviceNotFound ∧ requested ≠ [] ∧ (∀ t, t ∈ targets → ID t ≠ requested) ∨
       code = CodeDeviceOffline ∧ requested ≠ [] ∧ (∃ t, t ∈ targets ∧ ID t = requested ∧ Usable t = false) ∨
       code = CodeDeviceOffline ∧ requested = [] ∧ usable = [] ∧ targets ≠ [] ∨
       code = CodeNoDevice ∧ requested = [] ∧ targets = [] ∨
       code = CodeMultipleDevices ∧ requested = [] ∧ (2 ≤ length usable)%nat)
  end.
Proof.
  cbv zeta. unfold SelectTarget. case_if as E; bool_to_prop.
  - pose proof (find_requested_spec targets requested) as Hf.
    destruct (find_requested _ _) as [t|e]; [naive_solver|].
    destruct Hf as [[Ha Hf]|[Ha Hf]]; do 2 eexists; (split; [exact Ha|]); tauto.
  - destruct (filter _ targets) as [|t [|t2 ts]] eqn:Ef.
    + case_if; bool_to_prop; (do 2 eexists; split; [reflexivity|]); [tauto|].
      destruct targets; [tauto|]. exfalso. naive_solver.
    + assert (t ∈ filter (λ t, Usable t = true) targets) as [? ?]%list_elem_of_filter
        by (rewrite Ef; apply list_elem_of_here). tauto.
    + do 2 eexists. split; [reflexivity|]. cbn [length]. right. right. right. right. split_and!; [done..|lia].
Qed.

(** * Commands *)

(** Mapping commands.  Ports outside 1...65535 are refused before any
    hdc command runs; otherwise exactly one command runs, for exactly the
    requested target and ports, and [AddReverse] reports success only when
    hdc confirmed the mapping. *)
Theorem mapping_commands targetID m :
  let valid := 1 ≤ DevicePort m ≤ 65535 ∧ 1 ≤ HostPort m ≤ 65535 in
  (¬ valid → ∃ e1 e2, AddReverse targetID m = ([], Some e1) ∧ Remove targetID m = ([], Some e1) ∧
     HasReverse targetID m = Some ([], Err e2) ∧
     errors_As_App e1 = Some (CodePortConflict, str "the requested TCP port is outside 1...65535")) ∧
  (valid →
     (AddReverse targetID m).1 = [add_args targetID m] ∧ (Remove targetID m).1 = [rm_args targetID m] ∧
     (∃ r, HasReverse targetID m = Some ([ls_args targetID], r)) ∧
     ((AddReverse targetID m).2 = None ↔
        (Run (add_args targetID m)).2 = None ∧
        Contains (Run (add_args targetID m)).1 (str "Forwardport result:OK") = true)).
Proof.
  cbv zeta. unfold AddReverse, Remove, HasReverse, validateMapping. split.
  - intros Hv. case_if as E; [by do 2 eexists|]. bool_to_prop. exfalso. apply Hv. lia.
  - intros Hv. case_if as E; [exfalso; rewrite !orb_true_iff in E; destruct E as [[[?|?]|?]|?]; bool_to_prop; lia|].
    destruct (Run (add_args _ _)) as [o e]. destruct (Run (rm_args _ _)) as [o2 e2].
    destruct (Run (ls_args _)) as [o3 e3]. cbn. split_and!; [done..| |].
    + destruct e3; [by eauto|]. destruct (failure_lines_returns (Split o3 newline)) as [b Eb].
      unfold isFailureOutput. rewrite Eb. cbn. eauto.
    + case_if as E2; [|apply orb_false_iff in E2 as [E2 E3]; bool_to_prop].
      * split; [done|]. intros [-> E3]. apply orb_true_iff in E2 as [E2|E2]; bool_to_prop; [by destruct E2|congruence].
      * split; [|done]. intros _. split; [|done]. destruct e; [exfalso; eauto|done].
Qed.

(** * Installed applications *)

Definition bundle_char (b : byte) : bool :=
  is_letter b || is_digit b || bool_decide (b = chr "_") || bool_decide (b = dot).

Lemma segment_ok_chars si ci n segment :
  segment_ok si ci n segment = true → forallb bundle_char segment = true.
Proof.
  revert ci. induction segment as [|c segment IH]; intros ci; cbn [segment_ok forallb]; [done|].
  case_if as E1; [done|]. case_if as E2; [done|]. case_if as E3; [done|]. intros Hs.
  rewrite (IH _ Hs), andb_true_r. unfold bundle_char.
  destruct (is_letter c), (is_digit c), (bool_decide (c = chr "_")); done.
Qed.

Lemma segments_ok_chars si segments :
  segments_ok si segments = true → Forall (λ s, s ≠ [] ∧ forallb bundle_char s = true) segments.
Proof.
  revert si. induction segments as [|s segments IH]; intros si; cbn [segments_ok]; [constructor|].
  case_if as E; [done|]. bool_to_prop. intros [Hs Hr]%andb_true_iff.
  constructor; [split; [done|by eapply segment_ok_chars]|by eapply IH].
Qed.

Lemma Join_bundle segments :
  Forall (λ s, s ≠ [] ∧ forallb bundle_char s = true) segments →
  forallb bundle_char (Join segments [dot]) = true.
Proof.
  induction 1 as [|s segments [_ Hs] _ IH]; [done|]. destruct segments as [|s2 segments]; [done|].
  change (forallb bundle_char (s ++ [dot] ++ Join (s2 :: segments) [dot]) = true).
  by rewrite !forallb_app, Hs, IH.
Qed.

Lemma isValidBundleName_chars name :
  isValidBundleName name = true → 7 ≤ zlen name ≤ 128 ∧ forallb bundle_char name = true.
Proof.
  unfold isValidBundleName. case_if as E; [done|]. bool_to_prop. cbv zeta. case_if; [done|].
  intros Hs%segments_ok_chars. split; [lia|]. rewrite <-(Join_Split name dot). by apply Join_bundle.
Qed.

(** What every reported application satisfies. *)
Definition app_ok (a : InstalledApplication) : Prop :=
  isValidBundleName (BundleName a) = true ∧ 7 ≤ zlen (BundleName a) ≤ 128 ∧
  forallb bundle_char (BundleName a) = true ∧
  zlen (Label a) ≤ 256 ∧ ContainsAny (Label a) bad_label_chars = false.

Lemma clean_label_ok label :
  zlen (clean_label label) ≤ 256 ∧ ContainsAny (clean_label label) bad_label_chars = false.
Proof. unfold clean_label. cbv zeta. case_if; [done|]. by bool_to_prop. Qed.

Lemma normalize_loop_ok apps acc :
  Forall app_ok acc → NoDup (map BundleName acc) → zlen acc < 4096 →
  Forall app_ok (normalize_loop apps acc) ∧ NoDup (map BundleName (normalize_loop apps acc)) ∧
  zlen (normalize_loop apps acc) ≤ 4096.
Proof.
  revert acc. induction apps as [|a apps IH]; intros acc Hok Hnd Hl; cbn [normalize_loop]; [split_and!; [done..|lia]|].
  case_if as Ev; [by apply IH|]. case_if as Es; [by apply IH|]. bool_to_prop.
  set (new := mkApp _ _).
  assert (Forall app_ok (acc ++ [new])).
  { apply Forall_app. split; [done|]. constructor; [|constructor]. unfold app_ok, new. cbn.
    destruct (isValidBundleName_chars _ Ev). destruct (clean_label_ok (Label a)). done. }
  assert (NoDup (map BundleName (acc ++ [new]))).
  { rewrite map_app. apply NoDup_app. split_and!; [done| |apply NoDup_singleton]. set_solver. }
  assert (zlen (acc ++ [new]) = zlen acc + 1) as Hz by (rewrite zlen_app; done).
  case_if as Ec; bool_to_prop; [split_and!; [done..|lia]|]. apply IH; [done..|lia].
Qed.

Lemma insert_app_perm a l : insert_app a l ≡ₚ a :: l.
Proof.
  induction l as [|x l IH]; cbn [insert_app]; [done|]. case_if; [done|].
  rewrite IH. apply Permutation_swap.
Qed.

Lemma sort_apps_perm l : sort_apps l ≡ₚ l.
Proof.
  unfold sort_apps. assert (∀ acc, foldl (λ acc a, insert_app a acc) acc l ≡ₚ acc ++ l) as Hg; [|apply Hg].
  induction l as [|a l IH]; intros acc; cbn [foldl]; [by rewrite app_nil_r|].
  rewrite IH, insert_app_perm. cbn. by rewrite Permutation_middle.
Qed.

(** The application list sent to the device is bounded and clean.  For
    any report, [normalizeInstalledApplications] yields at most 4096
    applications with distinct bundle names, each a valid name of 7 to 128
    letters, digits, underscores and dots, and labels of at most 256 bytes
    without line breaks or NUL; the sort only permutes them. *)
Theorem normalizeInstalledApplications_ok apps :
  let result := normalizeInstalledApplications apps in
  result ≡ₚ normalize_loop apps [] ∧ Forall app_ok result ∧
  NoDup (map BundleName result) ∧ zlen result ≤ 4096.
Proof.
  cbv zeta. unfold normalizeInstalledApplications. pose proof (sort_apps_perm (normalize_loop apps [])) as Hp.
  destruct (normalize_loop_ok apps []) as (Hf & Hn & Hl); [constructor|constructor|done|].
  split_and!; [done|by rewrite Hp|by rewrite Hp|]. unfold zlen in *. by rewrite Hp.
Qed.

(** * The mapping table *)

(** A word of hdc's table: printable ASCII without blanks. *)
Definition word_char (b : byte) : bool := in_range 33 126 (b2z b).
Definition word (s : gostring) : Prop := s ≠ [] ∧ forallb word_char s = true.

Definition blanks (n : nat) : gostring := replicate n x20.

(** Words with the number of blanks after each. *)
Definition row (ws : list (gostring * nat)) : gostring :=
  concat (map (λ w, w.1 ++ blanks w.2) ws).

Lemma word_char_ascii b : word_char b = true → is_ascii b = true.
Proof. by destruct b. Qed.
Lemma word_char_nonspace b : word_char b = true → IsSpace (b2z b) = false.
Proof. by destruct b. Qed.

Lemma fields_go_word w rs cur :
  forallb word_char w = true →
  fields_go (map (λ b, (b2z b, [b])) w ++ rs) cur = fields_go rs (cur ++ w).
Proof.
  revert cur. induction w as [|b w IH]; intros cur Hw; cbn [map app]; [by rewrite app_nil_r|].
  cbn in Hw. apply andb_true_iff in Hw as [Hb Hw]. cbn [fields_go].
  rewrite word_char_nonspace by done. rewrite IH by done. by rewrite <-app_assoc.
Qed.

Lemma fields_go_blanks n rs : fields_go (map (λ b, (b2z b, [b])) (blanks n) ++ rs) [] = fields_go rs [].
Proof. induction n as [|n IH]; [done|]. cbn. exact IH. Qed.

Lemma fields_go_word_blanks w n rs :
  word w → (0 < n)%nat ∨ rs = [] →
  fields_go (map (λ b, (b2z b, [b])) (w ++ blanks n) ++ rs) [] = w :: fields_go rs [].
Proof.
  intros [Hne Hw] Hn. rewrite map_app, <-app_assoc, fields_go_word by done. cbn [app].
  destruct n as [|n].
  - destruct Hn as [Hn| ->]; [lia|]. cbn. by rewrite decide_False.
  - cbn [blanks replicate map app fields_go]. change (IsSpace (b2z x20)) with true. cbv iota.
    rewrite decide_False by done. f_equal. apply fields_go_blanks.
Qed.

Lemma row_ascii ws : Forall (λ w, word w.1) ws → forallb is_ascii (row ws) = true.
Proof.
  induction 1 as [|[w n] ws [_ Hw] _ IH]; [done|]. unfold row. cbn [map concat fst snd].
  rewrite !forallb_app. unfold row in IH. rewrite IH, andb_true_r. apply andb_true_iff. split.
  - apply forallb_forall. intros b Hb. apply word_char_ascii. rewrite forallb_forall in Hw. by apply Hw.
  - apply forallb_forall. intros b Hb. by apply list_elem_of_In, elem_of_replicate in Hb as [-> _].
Qed.

(** Rows whose inner gaps are non-empty. *)
Fixpoint spaced (ws : list (gostring * nat)) : Prop :=
  match ws with
  | [] | [_] => True
  | w :: ws => (0 < w.2)%nat ∧ spaced ws
  end.

Lemma Fields_row ws : Forall (λ w, word w.1) ws → spaced ws → Fields (row ws) = map fst ws.
Proof.
  intros Hw Hs. unfold Fields. rewrite runes_ascii by (by apply row_ascii).
  induction Hw as [|[w n] ws Hw Hr IH]; [done|]. unfold row in *. cbn [map concat fst snd].
  rewrite map_app, fields_go_word_blanks; [|done|].
  - f_equal. apply IH. by destruct ws; [|destruct Hs].
  - destruct ws; [by right|left]. by destruct Hs.
Qed.

(** One entry of [hdc fport ls]: the device, the two ports, the direction,
    and the gaps between the columns. *)
Record Entry := mkEntry { en_target : gostring; en_mapping : Mapping; en_reverse : bool; en_gap : nat }.

Definition direction_text (reverse : bool) : gostring :=
  if reverse then str "[Reverse]" else str "[Forward]".

Definition entry_words (en : Entry) : list (gostring * nat) :=
  [(en_target en, S (en_gap en)); (tcp_node (DevicePort (en_mapping en)), 1%nat);
   (tcp_node (HostPort (en_mapping en)), S (en_gap en)); (direction_text (en_reverse en), 0%nat)].

Definition port_ok (p : Z) : Prop := 1 ≤ p ≤ 65535.
Definition mapping_ok (m : Mapping) : Prop := port_ok (DevicePort m) ∧ port_ok (HostPort m).
Definition entry_ok (en : Entry) : Prop := word (en_target en) ∧ mapping_ok (en_mapping en).

Lemma digit_word_char b : is_digit b = true → word_char b = true.
Proof. by destruct b. Qed.

Lemma tcp_node_word p : port_ok p → word (tcp_node p).
Proof.
  intros Hp. split; [done|]. unfold tcp_node, Itoa. destruct (Z.ltb_spec p 0); [unfold port_ok in Hp; lia|].
  rewrite forallb_app. apply andb_true_iff. split; [done|].
  destruct (utoa_spec p) as (_ & Hd & _); [lia|]. apply forallb_forall. intros b Hb.
  apply digit_word_char. rewrite forallb_forall in Hd. by apply Hd.
Qed.

Lemma tcp_node_inj p q : port_ok p → port_ok q → tcp_node p = tcp_node q → p = q.
Proof.
  unfold tcp_node, port_ok. intros Hp Hq E%(inj (app (str "tcp:"))).
  apply Itoa_inj in E; [done|unfold min_int64, max_int64; lia..].
Qed.

Lemma entry_words_ok en : entry_ok en → Forall (λ w, word w.1) (entry_words en).
Proof.
  intros [Hw [Hd Hh]]. repeat constructor; cbn; try done; try (by apply tcp_node_word); try (by apply Hw);
    by destruct (en_reverse en).
Qed.

Lemma reverse_line_entry en targetID m :
  entry_ok en → mapping_ok m →
  reverse_line targetID (tcp_node (DevicePort m)) (tcp_node (HostPort m)) (row (entry_words en)) = true ↔
  en_target en = targetID ∧ en_mapping en = m ∧ en_reverse en = true.
Proof.
  intros [Hw [Hd Hh]] [Hd' Hh']. unfold reverse_line. rewrite Fields_row.
  2:{ by apply entry_words_ok. }
  2:{ cbn. lia. }
  cbn [entry_words map fst]. destruct en as [t [d h] rev g], m as [d' h']. cbn in *. split.
  - case_if as E; [done|]. bool_to_prop. intros Er. split_and!; [done| |by destruct rev].
    f_equal; by apply tcp_node_inj.
  - intros (-> & [= -> ->] & ->). rewrite !bool_decide_eq_true_2 by done. done.
Qed.

Lemma Split_Join lines :
  lines ≠ [] → Forall (λ l, newline ∉ l) lines → Split (Join lines [newline]) newline = lines.
Proof.
  intros Hne Hl. induction Hl as [|l lines Hn Hr IH]; [done|]. destruct lines as [|l2 lines].
  - by apply Split_none.
  - change (Split (l ++ newline :: Join (l2 :: lines) [newline]) newline = l :: l2 :: lines).
    rewrite Split_app by done. by rewrite IH.
Qed.

Lemma row_no_newline ws : Forall (λ w, word w.1) ws → newline ∉ row ws.
Proof.
  intros Hw Hin. unfold row in Hin. apply list_elem_of_In, in_concat in Hin as (x & (w & <- & Hw')%in_map_iff & Hin).
  rewrite Forall_forall in Hw. apply list_elem_of_In in Hw'. destruct (Hw _ Hw') as [_ Hc].
  apply in_app_iff in Hin as [Hin|Hin].
  - rewrite forallb_forall in Hc. by apply Hc in Hin.
  - apply list_elem_of_In, elem_of_replicate in Hin as [? _]. done.
Qed.

Lemma table_no_newline entries :
  Forall entry_ok entries → Forall (λ l, newline ∉ l) (map (λ en, row (entry_words en)) entries).
Proof.
  intros Hok. apply Forall_map. eapply Forall_impl; [exact Hok|].
  intros en Hen. by apply row_no_newline, entry_words_ok.
Qed.

Lemma table_lookup entries targetID m :
  entries ≠ [] → Forall entry_ok entries → mapping_ok m →
  hasExactReverseMapping (Join (map (λ en, row (entry_words en)) entries) [newline]) targetID m = true ↔
  ∃ en, en ∈ entries ∧ en_target en = targetID ∧ en_mapping en = m ∧ en_reverse en = true.
Proof.
  intros Hne Hok Hm. unfold hasExactReverseMapping. cbv zeta.
  rewrite Split_Join.
  - rewrite existsb_exists. rewrite Forall_forall in Hok. split.
    + intros (line & (en & <- & Hin)%in_map_iff & Hr). apply list_elem_of_In in Hin.
      apply reverse_line_entry in Hr; [|by apply Hok|done]. eauto.
    + intros (en & Hin & Hr). exists (row (entry_words en)). split.
      * apply in_map_iff. exists en. split; [done|]. by apply list_elem_of_In.
      * apply reverse_line_entry; auto.
  - by destruct entries.
  - by apply table_no_newline.
Qed.

(** Mapping ownership is recognised exactly.  For hdc's mapping table
    with any devices, ports, directions and column gaps,
    [hasExactReverseMapping] answers yes exactly when the table has a reverse
    entry for this very device and port pair: no other device, no forward
    mapping and no port that merely starts with the same digits is taken for
    the bridge's own mapping. *)
Theorem hasExactReverseMapping_table entries targetID m :
  entries ≠ [] → Forall entry_ok entries → mapping_ok m →
  hasExactReverseMapping (Join (map (λ en, row (entry_words en)) entries) [newline]) targetID m = true ↔
  ∃ en, en ∈ entries ∧ en_target en = targetID ∧ en_mapping en = m ∧ en_reverse en = true.
Proof. apply table_lookup. Qed.
End hdc.

(** ** A concrete table *)

Definition sample_entries : list Entry :=
  [mkEntry (str "ABC123") (mkMapping 18889 18889) true 3;
   mkEntry (str "ABC123") (mkMapping 1888 18889) false 3].

Lemma hasExactReverseMapping_table_witness :
  @hasExactReverseMapping ascii_unicode
    (Join (map (λ en, row (entry_words en)) sample_entries) [newline]) (str "ABC123") (mkMapping 1888 18889)
  = true ↔
  ∃ en, en ∈ sample_entries ∧ en_target en = str "ABC123" ∧ en_mapping en = mkMapping 1888 18889 ∧
        en_reverse en = true.
Proof.
  apply (@hasExactReverseMapping_table ascii_unicode).
  - discriminate.
  - repeat constructor; vm_compute; congruence.
  - repeat constructor; vm_compute; congruence.
Defined.
End hdc.
