(* ===== verification/Daemon.v ===== *)
(** Building blocks of the daemon (src/internal/daemon/server.go): its
    configuration, frame writers and sequence numbers, heartbeats, error
    classification, and the HTTP requests it answers on the device port. *)
From S2P Require Import Prelude Errors GoIO GoStrings GoOS Protocol State Engine Hdc.
Import protocol.

Module daemon.

Definition DefaultDevicePort : Z := 27183.
Definition DefaultMTU : Z := engine.DefaultMTU.
Definition MinimumMTU : Z := 576.
Definition MaximumMTU : Z := 1500.
Definition defaultHandshakeTimeout : Duration := 5 * Second.
Definition defaultHeartbeatInterval : Duration := 5 * Second.
Definition defaultHeartbeatTimeout : Duration := 15 * Second.
Definition defaultMappingCheckInterval : Duration := 2 * Second.
Definition maxCertificateBytes : Z := 64 * 1024.
Definition maxHTTPRequestBytes : Z := 8 * 1024.
Definition maxInstalledAppsBytes : Z := 1024 * 1024.
Definition certificateDownloadPath : gostring := str "/mitmproxy-ca-cert.cer".
Definition installedAppsPath : gostring := str "/installed-apps.json".

(** * Configuration *)

(** The adapters are recorded by presence. *)
Record Config := mkConfig {
  DeviceID : gostring;
  DeviceLabel : gostring;
  cfg_DevicePort : Z;
  cfg_MTU : Z;
  hasForwarder : bool;
  hasAppLister : bool;
  HandshakeTimeout : Duration;
  HeartbeatInterval : Duration;
  HeartbeatTimeout : Duration;
  MappingCheckInterval : Duration;
  hasProxyFactory : bool;
  hasProxyRecovery : bool;
}.

(** [New]: the configuration the server runs with. *)
Definition New (Sum256 : list byte → list byte) (config : Config) : result error Config :=
  if streq (DeviceID config) [] then
    Err (apperror.New apperror.CodeDeviceNotFound (str "the daemon requires one selected Harmony device"))
  else
    let label := if streq (DeviceLabel config) []
                 then hdc.RedactTarget Sum256 (DeviceID config) else DeviceLabel config in
    let port := if cfg_DevicePort config =? 0 then DefaultDevicePort else cfg_DevicePort config in
    if (port <? 1) || (65535 <? port) then
      Err (apperror.New apperror.CodePortConflict (str "the device TCP port is outside 1...65535"))
    else
      let mtu := if cfg_MTU config =? 0 then DefaultMTU else cfg_MTU config in
      if (mtu <? MinimumMTU) || (MaximumMTU <? mtu) then
        Err (ENew (str "VPN MTU " ++ Itoa mtu ++ str " is outside " ++ Itoa MinimumMTU ++
                   str "..." ++ Itoa MaximumMTU))
      else if negb (hasForwarder config) then Err (ENew (str "daemon forwarder is required"))
      else
        let handshake := if HandshakeTimeout config <=? 0 then defaultHandshakeTimeout
                         else HandshakeTimeout config in
        let interval := if HeartbeatInterval config <=? 0 then defaultHeartbeatInterval
                        else HeartbeatInterval config in
        let timeout := if HeartbeatTimeout config <=? 0 then defaultHeartbeatTimeout
                       else HeartbeatTimeout config in
        let timeout := if timeout <=? interval then i64 (3 * interval) else timeout in
        let check := if MappingCheckInterval config <=? 0 then defaultMappingCheckInterval
                     else MappingCheckInterval config in
        Ok (mkConfig (DeviceID config) label port mtu true (hasAppLister config) handshake interval
              timeout check (hasProxyFactory config) (hasProxyRecovery config)).

(** * Sequence numbers and frame writers *)

Definition nextSequence (sequence : Z) : Z :=
  if sequence =? max_uint32 then 1 else u32 (sequence + 1).

Record frameWriter := mkFrameWriter { fw_conn : Writer; fw_sequence : Z }.

Definition newFrameWriter (connection : Writer) (firstSequence : Z) : frameWriter :=
  mkFrameWriter connection firstSequence.

(** [frameWriter.Write]; the sequence advances even when the write fails. *)
Definition fw_Write (w : frameWriter) (frameType : Type_) (payload : list byte)
    : option error * frameWriter :=
  let sequence := fw_sequence w in
  let w := mkFrameWriter (fw_conn w) (nextSequence sequence) in
  let '(err, conn) := WriteFrame (fw_conn w) (mkFrame frameType 0 sequence payload) in
  (err, mkFrameWriter conn (fw_sequence w)).

(** The receiving side's check, one frame after the other: the next expected
    sequence, or [None] when a frame is out of order. *)
Fixpoint check_sequences (expected : Z) (frames : list Frame) : option Z :=
  match frames with
  | [] => Some expected
  | frame :: frames =>
      if negb (Sequence frame =? expected) then None
      else check_sequences (nextSequence expected) frames
  end.

(** * Heartbeats *)

Record heartbeatTracker := mkTracker { hb_pending : list byte; hb_sentAt : Time }.

Definition newTracker : heartbeatTracker := mkTracker [] ZeroTime.

(** [begin]: the payload to send ([[]]: none), and whether the pending one
    has timed out. *)
Definition begin (h : heartbeatTracker) (now : Time) (timeout : Duration)
    : list byte * bool * heartbeatTracker :=
  if negb (zlen (hb_pending h) =? 0) then ([], timeout <=? time_Sub now (hb_sentAt h), h)
  else
    let payload := be_put 8 (u64 now) in
    (payload, false, mkTracker payload now).

Definition acknowledge (h : heartbeatTracker) (payload : list byte) (now : Time)
    : option Duration * heartbeatTracker :=
  if (zlen (hb_pending h) =? 0) || negb (streq payload (hb_pending h)) then (None, h)
  else (Some (time_Sub now (hb_sentAt h)), mkTracker [] ZeroTime).

(** One tick of [runHeartbeat] after the check of the VPN state. *)
Inductive beat := BeatClose | BeatSkip | BeatPing (payload : list byte).

Definition heartbeat_tick (h : heartbeatTracker) (now : Time) (timeout : Duration)
    : beat * heartbeatTracker :=
  match begin h now timeout with
  | (_, true, h) => (BeatClose, h)
  | ([], false, h) => (BeatSkip, h)
  | (payload, false, h) => (BeatPing payload, h)
  end.

(** What [recordHeartbeat] publishes. *)
Definition publish_heartbeat (control : bool) (now : Time) (milliseconds : Z) (snapshot : state.Snapshot)
    : state.Snapshot :=
  if control
  then state.set_ControlRTTMillis milliseconds (state.set_ControlHeartbeatAt now snapshot)
  else state.set_DataRTTMillis milliseconds (state.set_DataHeartbeatAt now snapshot).

(** [recordHeartbeat]: the snapshot mutation, if the pong is accepted. *)
Definition recordHeartbeat (control : bool) (h : heartbeatTracker) (payload : list byte) (now : Time)
    : option (state.Snapshot → state.Snapshot) * heartbeatTracker :=
  if negb (zlen payload =? 8) then (None, h)
  else
    match acknowledge h payload now with
    | (None, h) => (None, h)
    | (Some roundTrip, h) =>
        let milliseconds := Z.max 0 (Milliseconds roundTrip) in
        (Some (publish_heartbeat control now milliseconds), h)
    end.

(** * Errors and small predicates *)

Definition protocolErrorCode (err : error) : gostring :=
  match errors_As_Protocol err with
  | Some (code, _) => code
  | None =>
      if errors_Is err ErrDeadlineExceeded then apperror.CodeHandshakeTimeout else str "INVALID_FRAME"
  end.

Definition safeProtocolError (err : error) : gostring :=
  match errors_As_Protocol err with
  | Some (code, message) => code ++ str ": " ++ message
  | None =>
      if errors_Is err ErrDeadlineExceeded then apperror.CodeHandshakeTimeout
      else if errors_Is err EOF || errors_Is err ErrUnexpectedEOF then str "peer closed during handshake"
      else str "socket read failed"
  end.

Fixpoint hasCapability (capabilities : list gostring) (expected : gostring) : bool :=
  match capabilities with
  | [] => false
  | capability :: rest => if streq capability expected then true else hasCapability rest expected
  end.

Definition relayStateStats (st : engine.Stats) : state.RelayStats :=
  state.mkRelayStats (engine.PacketsFromDevice st) (engine.BytesFromDevice st)
    (engine.PacketsToDevice st) (engine.BytesToDevice st) (engine.TCPFlows st) (engine.UDPFlows st)
    (engine.DNSQueries st) (engine.ProxyTCPFlows st) (engine.BlockedQUICFlows st).

(** [newRelay] without a test factory: the relay configuration. *)
Definition newRelay (config : Config) (proxy : option state.ProxySnapshot) : engine.Config :=
  engine.mkConfig true None (u32 (cfg_MTU config)) 0 0 0 0
    (match proxy with Some info => state.InterceptPorts info | None => [] end)
    (match proxy with Some _ => true | None => false end).

(** * The first four bytes *)

Definition http_prefixes : list gostring :=
  [str "GET "; str "HEAD"; str "POST"; str "PUT "; str "DELE"; str "PATC"; str "OPTI"; str "TRAC";
   str "CONN"; str "PRI "].

Definition looksLikeHTTPRequest (prefix : list byte) : bool := bool_decide (prefix ∈ http_prefixes).

(** What [handleDevice] does with a new connection. *)
Inductive device_request :=
| DeviceHTTP (reader : Reader)
| DeviceControl (frame : Frame)
| DeviceData (frame : Frame)
| DeviceReject (code message : gostring).

Definition handleDevice (connection : Reader) : device_request :=
  let invalid err := DeviceReject (protocolErrorCode err) (str "invalid HNB/1 handshake") in
  match ReadFull connection 4 with
  | (Err err, _) => invalid err
  | (Ok prefix, connection) =>
      let reader := MultiReader prefix connection in
      if looksLikeHTTPRequest prefix then DeviceHTTP reader
      else
        match ReadFrame reader with
        | (Err err, _) => invalid err
        | (Ok frame, _) =>
            if negb (Sequence frame =? 1) then
              DeviceReject (str "INVALID_HANDSHAKE") (str "the first HNB/1 frame must use sequence 1")
            else if Type' frame =? TypeHello then DeviceControl frame
            else if Type' frame =? TypeDataHello then DeviceData frame
            else DeviceReject (str "INVALID_HANDSHAKE")
                   (str "the first HNB/1 frame must be HELLO or DATA_HELLO")
        end
  end.

(** * HELLO *)

Section hello.
Context `{JSON Hello, JSON DataHello}.

(** The checks of [handleControlConnection] before a session is created. *)
Definition validate_hello (payload : list byte) : result (gostring * gostring) Hello :=
  match UnmarshalJSONPayload payload with
  | Err err => Err (protocolErrorCode err, str "HELLO payload is invalid")
  | Ok hello =>
      if negb (streq (Hello_Role hello) (str "control")) ||
         (negb (streq (Hello_Mode hello) (str "phase1")) && negb (streq (Hello_Mode hello) (str "vpn"))) ||
         negb (streq (Hello_Message hello) (str "hello")) then
        Err (str "INVALID_HANDSHAKE", str "HELLO does not describe a supported control session")
      else if negb (SupportsVersion (Hello_SupportedVersions hello)) then
        Err (apperror.CodeVersionUnsupported, str "the App does not support HNB/1")
      else if negb (hasCapability (Hello_Capabilities hello) (str "control")) ||
              (streq (Hello_Mode hello) (str "vpn") &&
               negb (hasCapability (Hello_Capabilities hello) (str "data"))) then
        Err (str "CAPABILITY_MISSING", str "HELLO is missing required control or data capability")
      else Ok hello
  end.

(** The checks of [handleDataConnection] before the session lock. *)
Definition validate_data_hello (payload : list byte) : result (gostring * gostring) gostring :=
  let invalid := Err (str "INVALID_DATA_HELLO", str "DATA_HELLO payload is invalid") in
  match UnmarshalJSONPayload payload with
  | Err _ => invalid
  | Ok hello =>
      if negb (streq (DataHello_Role hello) (str "data")) ||
         negb (ValidSessionToken (DataHello_SessionToken hello)) then invalid
      else Ok (DataHello_SessionToken hello)
  end.
End hello.

Definition ack_capabilities (proxyEnabled : bool) (mode : gostring) : list gostring :=
  [str "control"] ++ (if proxyEnabled then [str "proxy"] else []) ++
  (if streq mode (str "vpn")
   then [str "data"; str "tcp"; str "udp"; str "dns"; str "heartbeat"; str "reconnect"; str "mtu"]
   else []).

(** * HTTP on the device port *)

(** What [http.ReadRequest] yields, as far as the handler looks. *)
Record HTTPRequest := mkHTTPRequest {
  Method : gostring;
  RawQuery : gostring;
  Path : gostring;
  Authorization : gostring;
}.

(** A response: status, body ([None]: the status text) and headers. *)
Record HTTPResponse := mkHTTPResponse {
  rsp_status : Z;
  rsp_body : option (list byte);
  rsp_headers : list (gostring * gostring);
}.

Definition plain (status : Z) : HTTPResponse := mkHTTPResponse status None [].

(** [writeDeviceHTTPResponse]: the headers sent. *)
Definition response_headers (r : HTTPResponse) : list (gostring * gostring) :=
  let hs := rsp_headers r ++ [(str "Cache-Control", str "no-store")] in
  if bool_decide (str "Content-Type" ∈ map fst hs) then hs
  else hs ++ [(str "Content-Type", str "text/plain; charset=utf-8")].

(** What the certificate handler finds on disk: [os.Lstat], then
    [os.ReadFile]. *)
Record CertFile := mkCertFile {
  cf_regular : bool;
  cf_size : Z;
  cf_read : result error (list byte);
}.

(** The body of the application list. *)
Record InstalledApps := mkInstalledApps { Applications : list hdc.InstalledApplication }.

Section http.
(** [http.ReadRequest] over the limited reader; [filepath.Clean] and
    [filepath.IsAbs]; the PEM and X.509 libraries; the certificate file. *)
Variable ReadRequest : list byte → result error HTTPRequest.
Variable Clean : gostring → gostring.
Variable IsAbs : gostring → bool.
Variable pem_Decode : list byte → option (gostring * list byte * list byte).
Variable ParseCertificate : list byte → option (bool * bool).
Variable Lstat : gostring → result error CertFile.
Context `{!JSON InstalledApps}.

Definition validateCACertificate (payload : list byte) : option error :=
  let check der :=
    match ParseCertificate der with
    | None => Some (ENew (str "managed proxy CA is not an X.509 certificate"))
    | Some (constraintsValid, isCA) =>
        if negb constraintsValid || negb isCA
        then Some (ENew (str "managed proxy certificate is not a CA")) else None
    end in
  match pem_Decode payload with
  | Some (blockType, bytes, rest) =>
      if negb (streq blockType (str "CERTIFICATE")) || negb (zlen (TrimSpace rest) =? 0)
      then Some (ENew (str "managed proxy CA PEM is invalid"))
      else check bytes
  | None => check payload
  end.

Definition currentProxyCACertificate (proxy : option state.ProxySnapshot) : result error (list byte) :=
  match proxy with
  | None => Err (ENew (str "managed proxy is not active"))
  | Some info =>
      let certificatePath := Clean (state.CACertFile info) in
      if negb (state.Enabled info) || negb (streq (state.Status info) state.ProxyActive) ||
         streq (state.CACertFile info) [] || negb (IsAbs certificatePath) then
        Err (ENew (str "managed proxy CA path is unavailable"))
      else
        match Lstat certificatePath with
        | Err err => Err err
        | Ok file =>
            if negb (cf_regular file) || (cf_size file <=? 0) || (maxCertificateBytes <? cf_size file) then
              Err (ENew (str "managed proxy CA is not a bounded regular file"))
            else
              match cf_read file with
              | Err err => Err err
              | Ok certificate =>
                  if (zlen certificate =? 0) || (maxCertificateBytes <? zlen certificate) then
                    Err (ENew (str "managed proxy CA size is invalid"))
                  else
                    match validateCACertificate certificate with
                    | Some err => Err err
                    | None => Ok certificate
                    end
              end
        end
  end.

Definition handleCertificateDownloadRequest (proxy : option state.ProxySnapshot) : HTTPResponse :=
  match currentProxyCACertificate proxy with
  | Err _ => plain 503
  | Ok certificate =>
      mkHTTPResponse 200 (Some certificate)
        [(str "Content-Disposition", str "attachment; filename=" ++ [x22] ++ str "mitmproxy-ca-cert.cer" ++ [x22]);
         (str "Content-Type", str "application/pkix-cert")]
  end.

(** The session fields the handlers read under the lock. *)
Record SessionView := mkSessionView {
  sv_controlConnected : bool;
  sv_controlToken : gostring;
  sv_proxy : option state.ProxySnapshot;
}.

Definition validControlAuthorization (v : SessionView) (authorization : gostring) : bool :=
  if negb (HasPrefix authorization (str "Bearer ")) then false
  else
    let token := TrimSpace (TrimPrefix authorization (str "Bearer ")) in
    if negb (ValidSessionToken token) then false
    else sv_controlConnected v && (zlen token =? zlen (sv_controlToken v)) &&
         streq token (sv_controlToken v).

(** [apps]: the outcome of the application lister. *)
Definition handleInstalledAppsRequest (v : SessionView) (hasLister : bool)
    (apps : result error (list hdc.InstalledApplication)) (authorization : gostring) : HTTPResponse :=
  if negb (validControlAuthorization v authorization) then
    mkHTTPResponse 401 None
      [(str "WWW-Authenticate", str "Bearer realm=" ++ [x22] ++ str "HarmonyNetBridge" ++ [x22])]
  else if negb hasLister then plain 503
  else
    match apps with
    | Err _ => plain 503
    | Ok applications =>
        if zlen applications =? 0 then plain 503
        else
          match json_Marshal (mkInstalledApps applications) with
          | Err _ => plain 500
          | Ok payload =>
              if (zlen payload =? 0) || (maxInstalledAppsBytes <? zlen payload) then plain 500
              else mkHTTPResponse 200 (Some payload)
                     [(str "Content-Type", str "application/json; charset=utf-8")]
          end
    end.

Definition handleDeviceHTTPRequest (v : SessionView) (hasLister : bool)
    (apps : result error (list hdc.InstalledApplication)) (input : list byte) : HTTPResponse :=
  match ReadRequest (take (Z.to_nat (maxHTTPRequestBytes + 1)) input) with
  | Err _ => plain 400
  | Ok request =>
      if negb (streq (Method request) (str "GET")) then
        mkHTTPResponse 405 None [(str "Allow", str "GET")]
      else if negb (streq (RawQuery request) []) then plain 404
      else if streq (Path request) installedAppsPath then
        handleInstalledAppsRequest v hasLister apps (Authorization request)
      else if streq (Path request) certificateDownloadPath then
        handleCertificateDownloadRequest (sv_proxy v)
      else plain 404
  end.
End http.

(** * Sequence numbers stay in step *)

Lemma nextSequence_range q : 1 ≤ q ≤ max_uint32 → 1 ≤ nextSequence q ≤ max_uint32.
Proof.
  unfold nextSequence, max_uint32. intros. case_if; bool_to_prop; [lia|]. rewrite u32_small; lia.
Qed.

Fixpoint sequence_after (n : nat) (q : Z) : Z :=
  match n with O => q | S n => sequence_after n (nextSequence q) end.

(** The closed form: sequence numbers run through 1...2^32-1 and wrap from
    the last to 1. *)
Lemma sequence_after_closed n q :
  1 ≤ q ≤ max_uint32 → sequence_after n q = (q - 1 + Z.of_nat n) mod max_uint32 + 1.
Proof.
  revert q. induction n as [|n IH]; intros q Hq; cbn [sequence_after].
  - rewrite Z.add_0_r, Z.mod_small; unfold max_uint32 in *; lia.
  - rewrite IH by (by apply nextSequence_range). unfold nextSequence. case_if as E; bool_to_prop.
    + subst q. f_equal. replace (max_uint32 - 1 + Z.of_nat (S n)) with (1 - 1 + Z.of_nat n + 1 * max_uint32) by lia.
      by rewrite Z.mod_add.
    + rewrite u32_small by (unfold max_uint32 in *; lia). do 2 f_equal. lia.
Qed.

(** The frames a writer emits for a list of writes. *)
Fixpoint numbered (q : Z) (writes : list (Type_ * list byte)) : list Frame :=
  match writes with
  | [] => []
  | (t, p) :: writes => mkFrame t 0 q p :: numbered (nextSequence q) writes
  end.

Fixpoint fw_writes (w : frameWriter) (writes : list (Type_ * list byte))
    : option error * frameWriter :=
  match writes with
  | [] => (None, w)
  | (t, p) :: writes =>
      match fw_Write w t p with
      | (Some err, w) => (Some err, w)
      | (None, w) => fw_writes w writes
      end
  end.

(** Reading frame after frame, as the session loops do. *)
Fixpoint read_frames (n : nat) (r : Reader) : result error (list Frame * Reader) :=
  match n with
  | O => Ok ([], r)
  | S n =>
      match ReadFrame r with
      | (Err err, _) => Err err
      | (Ok frame, r) => rest ← read_frames n r; Ok (frame :: rest.1, rest.2)
      end
  end.

Lemma numbered_checked q writes :
  check_sequences q (numbered q writes) = Some (sequence_after (length writes) q).
Proof.
  revert q. induction writes as [|[t p] writes IH]; intros q; [done|].
  cbn [numbered check_sequences Sequence length sequence_after]. rewrite Z.eqb_refl. apply IH.
Qed.

Lemma valid_frame_wf t q p :
  1 ≤ q ≤ max_uint32 → zlen p < 2 ^ 32 → validateFrame (mkFrame t 0 q p) = None → Frame_wf (mkFrame t 0 q p).
Proof.
  intros Hq Hp Hv. unfold validateFrame in Hv. cbn in Hv. apply validateHeader_None in Hv as (Hk & _).
  apply knownType_range in Hk. unfold max_uint32 in Hq. split; cbn; lia.
Qed.

Lemma fw_writes_stream w writes w' :
  1 ≤ fw_sequence w ≤ max_uint32 → Forall (λ x, zlen x.2 < 2 ^ 32) writes →
  fw_writes w writes = (None, w') →
  fw_sequence w' = sequence_after (length writes) (fw_sequence w) ∧
  ∃ sent, w_out (fw_conn w') = w_out (fw_conn w) ++ sent ∧
    ∀ rest e, read_frames (length writes) (mkReader (sent ++ rest) e)
              = Ok (numbered (fw_sequence w) writes, mkReader rest e).
Proof.
  revert w. induction writes as [|[t p] writes IH]; intros w Hq Hl; cbn [fw_writes].
  - intros [= <-]. split; [done|]. exists []. by rewrite app_nil_r.
  - unfold fw_Write. cbn [fw_conn fw_sequence].
    destruct (WriteFrame (fw_conn w) _) as [[err|] conn] eqn:Ew; [done|]. intros Hr.
    apply Forall_cons in Hl as [Hp Hl]. cbn [snd] in Hp. apply WriteFrame_ok in Ew as [Hv Ho].
    pose proof (valid_frame_wf _ _ _ Hq Hp Hv) as Hwf.
    apply IH in Hr as (Hs & sent & Hout & Hread); [|by apply nextSequence_range|done].
    cbn [fw_sequence fw_conn] in *. split; [done|].
    exists (encode (mkFrame t 0 (fw_sequence w) p) ++ sent).
    split; [by rewrite Hout, Ho, app_assoc|]. intros rest e. cbn [length read_frames].
    rewrite <-app_assoc, ReadFrame_encode by done. rewrite Hread. done.
Qed.

(** Sequence numbers stay in step.  Frames sent through one
    [frameWriter], however the connection splits the writes, are read back
    in order with their types and payloads, and every one of them passes the
    receiver's contiguity check, for any number of frames: both sides wrap
    from 2^32-1 to 1, and the reserved sequence 0 is never used. *)
Theorem writer_reader_lockstep w writes w' rest e :
  1 ≤ fw_sequence w ≤ max_uint32 → Forall (λ x, zlen x.2 < 2 ^ 32) writes →
  fw_writes w writes = (None, w') →
  ∃ sent frames, w_out (fw_conn w') = w_out (fw_conn w) ++ sent ∧
    read_frames (length writes) (mkReader (sent ++ rest) e) = Ok (frames, mkReader rest e) ∧
    map (λ f, (Type' f, Payload f)) frames = writes ∧
    check_sequences (fw_sequence w) frames = Some (fw_sequence w') ∧
    fw_sequence w' = (fw_sequence w - 1 + zlen writes) mod max_uint32 + 1.
Proof.
  intros Hq Hl Hw. apply fw_writes_stream in Hw as (Hs & sent & Hout & Hread); [|done|done].
  exists sent, (numbered (fw_sequence w) writes). split_and!; [done|apply Hread| | |].
  - clear. generalize (fw_sequence w). induction writes as [|[t p] writes IH]; intros q; [done|].
    cbn [numbered map]. by rewrite IH.
  - by rewrite numbered_checked, Hs.
  - rewrite Hs. by apply sequence_after_closed.
Qed.

(** * Heartbeats *)

Lemma length_be_put8 v : zlen (be_put 8 v) = 8.
Proof. unfold zlen. by rewrite length_be_put. Qed.

(** What a tracker may hold: nothing, or an eight-byte ping. *)
Definition tracker_ok (h : heartbeatTracker) : Prop :=
  hb_pending h = [] ∨ zlen (hb_pending h) = 8.

Lemma begin_ok h now timeout : tracker_ok h → tracker_ok (begin h now timeout).2.
Proof.
  unfold begin, tracker_ok. intros Hh. case_if; [done|]. right. apply length_be_put8.
Qed.

(** Heartbeats.  A tick sends a ping only when none is outstanding, and
    closes the connection exactly when the outstanding one is at least the
    timeout old; the pong that echoes the ping is accepted once, yields the
    time since it was sent and clears it; any other pong changes nothing. *)
Theorem heartbeat_protocol h now timeout :
  tracker_ok h →
  let '(b, h1) := heartbeat_tick h now timeout in
  (b = BeatClose ↔ hb_pending h ≠ [] ∧ timeout ≤ time_Sub now (hb_sentAt h)) ∧
  (hb_pending h ≠ [] → h1 = h) ∧
  (hb_pending h = [] →
     ∃ payload, b = BeatPing payload ∧ zlen payload = 8 ∧ hb_pending h1 = payload ∧
       (∀ later, acknowledge h1 payload later = (Some (time_Sub later now), newTracker)) ∧
       (∀ other later, other ≠ payload → acknowledge h1 other later = (None, h1)) ∧
       (∀ other later, acknowledge newTracker other later = (None, newTracker))).
Proof.
  intros Hh. unfold heartbeat_tick, begin. destruct (hb_pending h) as [|b0 p] eqn:Ep.
  - rewrite (proj2 (Z.eqb_eq _ 0)) by done. cbn [negb].
    assert (zlen (be_put 8 (u64 now)) = 8) as Hl by apply length_be_put8.
    destruct (be_put 8 (u64 now)) as [|x l] eqn:Eb; [done|]. split_and!; [naive_solver|done|].
    intros _. exists (x :: l). split_and!; try done.
    + intros later. unfold acknowledge. cbn [hb_pending hb_sentAt]. rewrite Hl. cbn [Z.eqb orb].
      by rewrite bool_decide_eq_true_2.
    + intros other later Ho. unfold acknowledge. cbn [hb_pending]. rewrite Hl. cbn [Z.eqb orb].
      by rewrite bool_decide_eq_false_2.
  - rewrite (proj2 (Z.eqb_neq _ 0)) by (rewrite zlen_cons; pose proof (zlen_nonneg p); lia). cbn [negb].
    destruct (Z.leb_spec timeout (time_Sub now (hb_sentAt h))).
    + split_and!; [split; [by split|done]|done|done].
    + split_and!; [split; [done|intros [_ ?]; lia]|done|done].
Qed.

(** * Disclosure over HTTP *)

Section http_props.
Variable ReadRequest : list byte → result error HTTPRequest.
Variable Clean : gostring → gostring.
Variable IsAbs : gostring → bool.
Variable pem_Decode : list byte → option (gostring * list byte * list byte).
Variable ParseCertificate : list byte → option (bool * bool).
Variable Lstat : gostring → result error CertFile.
Context `{!JSON InstalledApps}.

Lemma certificate_ok proxy certificate :
  currentProxyCACertificate Clean IsAbs pem_Decode ParseCertificate Lstat proxy = Ok certificate →
  ∃ info file, proxy = Some info ∧ state.Enabled info = true ∧ state.Status info = state.ProxyActive ∧
    Lstat (Clean (state.CACertFile info)) = Ok file ∧ cf_regular file = true ∧
    0 < zlen certificate ≤ maxCertificateBytes ∧
    validateCACertificate pem_Decode ParseCertificate certificate = None.
Proof.
  unfold currentProxyCACertificate. destruct proxy as [info|]; [|done]. cbv zeta. case_if as E1; [done|].
  destruct (Lstat _) as [file|e] eqn:El; [|done]. case_if as E2; [done|].
  destruct (cf_read file) as [c|e]; [|done]. case_if as E3; [done|].
  destruct (validateCACertificate _ _ c) eqn:Ev; [done|]. intros [= <-]. bool_to_prop.
  pose proof (zlen_nonneg c). exists info, file. split_and!; try done; lia.
Qed.

Lemma authorized_token v authorization :
  validControlAuthorization v authorization = true →
  sv_controlConnected v = true ∧
  ∃ token, authorization = str "Bearer " ++ token ∧ TrimSpace token = sv_controlToken v ∧
    ValidSessionToken (sv_controlToken v) = true.
Proof.
  unfold validControlAuthorization. case_if as E1; [done|]. cbv zeta. case_if as E2; [done|].
  intros E. bool_to_prop. apply negb_false_iff in E2. split; [done|].
  unfold HasPrefix in E1. bool_to_prop. destruct E1 as [token ->]. exists token.
  assert (TrimPrefix (str "Bearer " ++ token) (str "Bearer ") = token) as Et.
  { unfold TrimPrefix. case_if as Ep; [by rewrite drop_app_length|].
    apply bool_decide_eq_false in Ep. destruct Ep. by exists token. }
  rewrite Et in *. subst. by split_and!; congruence.
Qed.

(** C22: what the HTTP side port discloses.  Whatever bytes arrive, a response
    with a body of its own is one of two: the application list, and then the
    request was a GET for its path carrying the token of the live control
    session; or the certificate of the active managed proxy, and then it is a
    bounded regular file that validated as a CA certificate.  Everything else
    is answered by a bare status. *)
Theorem http_disclosure v hasLister apps input body :
  rsp_body (handleDeviceHTTPRequest ReadRequest Clean IsAbs pem_Decode ParseCertificate Lstat
              v hasLister apps input) = Some body →
  ∃ request, ReadRequest (take (Z.to_nat (maxHTTPRequestBytes + 1)) input) = Ok request ∧
    Method request = str "GET" ∧ RawQuery request = [] ∧
    ((Path request = installedAppsPath ∧ sv_controlConnected v = true ∧
      (∃ token, Authorization request = str "Bearer " ++ token ∧ TrimSpace token = sv_controlToken v ∧
         ValidSessionToken (sv_controlToken v) = true) ∧
      ∃ applications, apps = Ok applications ∧ applications ≠ [] ∧
        json_Marshal (mkInstalledApps applications) = Ok body ∧ zlen body ≤ maxInstalledAppsBytes) ∨
     (Path request = certificateDownloadPath ∧
      ∃ info file, sv_proxy v = Some info ∧ state.Enabled info = true ∧
        state.Status info = state.ProxyActive ∧
        Lstat (Clean (state.CACertFile info)) = Ok file ∧ cf_regular file = true ∧
        0 < zlen body ≤ maxCertificateBytes ∧
        validateCACertificate pem_Decode ParseCertificate body = None)).
Proof.
  unfold handleDeviceHTTPRequest. destruct (ReadRequest _) as [request|e]; [|done].
  case_if as E1; [done|]. case_if as E2; [done|]. bool_to_prop. intros Hb. exists request.
  split_and!; [done..|]. case_if in Hb as E3; bool_to_prop.
  - left. unfold handleInstalledAppsRequest in Hb. case_if in Hb as Ea; [done|]. bool_to_prop.
    apply authorized_token in Ea as [Hc Ht]. case_if in Hb as El; [done|].
    destruct apps as [applications|e]; [|done]. case_if in Hb as E4; [done|].
    destruct (json_Marshal _) as [payload|e] eqn:Ej; [|done]. case_if in Hb as E5; [done|].
    cbn in Hb. injection Hb as <-. bool_to_prop. split_and!; [done..|].
    exists applications. split_and!; try done. by intros ->.
  - case_if in Hb as E4; [|done]. bool_to_prop. right. split; [done|].
    unfold handleCertificateDownloadRequest in Hb.
    destruct (currentProxyCACertificate _ _ _ _ _ _) as [certificate|e] eqn:Ec; [|done].
    cbn in Hb. injection Hb as <-. by apply certificate_ok.
Qed.
End http_props.

(** The daemon's configuration.  [New] accepts a configuration only with
    a device, a port in 1...65535, an MTU in 576...1500 and a forwarder; the
    one it returns has positive intervals, a heartbeat timeout longer than
    the interval (whose triple is a time.Duration), and the given values where
    they were in range. *)
Theorem daemon_New_spec Sum256 config c :
  3 * HeartbeatInterval config ≤ max_int64 → New Sum256 config = Ok c →
  DeviceID c = DeviceID config ∧ DeviceID c ≠ [] ∧ DeviceLabel c ≠ [] ∧
  1 ≤ cfg_DevicePort c ≤ 65535 ∧ 576 ≤ cfg_MTU c ≤ 1500 ∧ hasForwarder config = true ∧
  0 < HandshakeTimeout c ∧ 0 < HeartbeatInterval c < HeartbeatTimeout c ∧ 0 < MappingCheckInterval c ∧
  (cfg_DevicePort config ≠ 0 → cfg_DevicePort c = cfg_DevicePort config) ∧
  (cfg_MTU config ≠ 0 → cfg_MTU c = cfg_MTU config).
Proof.
  intros Hint. unfold New. case_if as E1; [done|]. cbv zeta.
  set (port := if cfg_DevicePort config =? 0 then _ else _).
  set (mtu := if cfg_MTU config =? 0 then _ else _).
  case_if as E2; [done|]. case_if as E3; [done|]. case_if as E4; [done|]. bool_to_prop.
  assert (Hport : cfg_DevicePort config ≠ 0 → port = cfg_DevicePort config)
    by (unfold port; intros ?; case_if; bool_to_prop; done).
  assert (Hmtu : cfg_MTU config ≠ 0 → mtu = cfg_MTU config)
    by (unfold mtu; intros ?; case_if; bool_to_prop; done).
  unfold MinimumMTU, MaximumMTU in *. set (interval := if HeartbeatInterval config <=? 0 then _ else _).
  assert (0 < interval ∧ i64 (3 * interval) = 3 * interval) as [Hpos H3].
  { unfold interval, defaultHeartbeatInterval, Second. split; [case_if; bool_to_prop; lia|].
    apply i64_small. unfold min_int64, max_int64 in *. case_if; bool_to_prop; lia. }
  rewrite H3. clearbody interval. intros [= <-].
  cbn [DeviceID DeviceLabel cfg_DevicePort cfg_MTU HandshakeTimeout HeartbeatInterval HeartbeatTimeout
       MappingCheckInterval].
  unfold defaultHandshakeTimeout, defaultHeartbeatInterval, defaultHeartbeatTimeout, defaultMappingCheckInterval, Second.
  split_and!; try done; try lia; try (repeat case_if; bool_to_prop; lia).
  case_if as El; bool_to_prop; [|done]. unfold hdc.RedactTarget. by rewrite bool_decide_eq_false_2.
Qed.

(** ** Concrete runs *)

Definition sample_writes : list (Type_ * list byte) :=
  [(TypePing, be_put 8 7); (TypeIPPacket, [x45; x00]); (TypePong, be_put 8 9)].

(** A writer one frame before the wrap, on a connection with short writes. *)
Definition sample_writer : frameWriter :=
  mkFrameWriter (mkWriter [] [(3%nat, None); (1%nat, None)]) max_uint32.

Lemma writer_reader_lockstep_witness :
  ∃ sent frames, w_out (fw_conn (fw_writes sample_writer sample_writes).2) = [] ++ sent ∧
    read_frames 3 (mkReader (sent ++ [x01]) (ESentinel EOF)) = Ok (frames, mkReader [x01] (ESentinel EOF)) ∧
    map (λ f, (Type' f, Payload f)) frames = sample_writes ∧
    check_sequences max_uint32 frames = Some 3 ∧ 3 = (max_uint32 - 1 + 3) mod max_uint32 + 1.
Proof.
  apply (writer_reader_lockstep sample_writer sample_writes (fw_writes sample_writer sample_writes).2
           [x01] (ESentinel EOF)).
  - vm_compute. split; discriminate.
  - repeat constructor.
  - vm_compute. reflexivity.
Defined.

Lemma heartbeat_protocol_witness :
  let '(b, h1) := heartbeat_tick newTracker 5 (15 * Second) in
  (b = BeatClose ↔ hb_pending newTracker ≠ [] ∧ 15 * Second ≤ time_Sub 5 (hb_sentAt newTracker)) ∧
  (hb_pending newTracker ≠ [] → h1 = newTracker) ∧
  (hb_pending newTracker = [] →
     ∃ payload, b = BeatPing payload ∧ zlen payload = 8 ∧ hb_pending h1 = payload ∧
       (∀ later, acknowledge h1 payload later = (Some (time_Sub later 5), newTracker)) ∧
       (∀ other later, other ≠ payload → acknowledge h1 other later = (None, h1)) ∧
       (∀ other later, acknowledge newTracker other later = (None, newTracker))).
Proof. apply (heartbeat_protocol newTracker 5 (15 * Second)). by left. Defined.

Definition sample_token : gostring := hex_encode (be_put 16 77).
Definition sample_view : SessionView := mkSessionView true sample_token None.
Definition sample_read (_ : list byte) : result error HTTPRequest :=
  Ok (mkHTTPRequest (str "GET") [] installedAppsPath (str "Bearer " ++ sample_token)).
#[local] Instance sample_json : JSON InstalledApps :=
  {| json_Marshal _ := Ok (str "[]"); json_Unmarshal _ := Err (ESentinel EOF) |}.

Lemma http_disclosure_witness :
  ∃ request, sample_read (take (Z.to_nat (maxHTTPRequestBytes + 1)) []) = Ok request ∧
    Authorization request = str "Bearer " ++ sample_token.
Proof.
  destruct (http_disclosure sample_read (λ p, p) (λ _, true) (λ _, None) (λ _, None)
    (λ _, Err (ESentinel EOF)) sample_view true
    (Ok [hdc.mkApp (str "com.example.app") []]) [] (str "[]")) as (request & E & _ & _ & _).
  - vm_compute. reflexivity.
  - exists request. split; [exact E|]. vm_compute in E. injection E as <-. vm_compute. reflexivity.
Defined.

Definition sample_daemon_config : Config :=
  mkConfig (str "ABC123") [] 0 0 true true 0 (20 * Second) 0 0 false false.

Lemma daemon_New_spec_witness :
  ∃ c, New (λ _, be_put 32 1) sample_daemon_config = Ok c ∧ HeartbeatInterval c < HeartbeatTimeout c.
Proof.
  destruct (New (λ _, be_put 32 1) sample_daemon_config) as [c|e] eqn:E; [|vm_compute in E; discriminate].
  exists c. split; [reflexivity|].
  apply daemon_New_spec in E as (_ & _ & _ & _ & _ & _ & _ & Hh & _); [apply Hh|vm_compute; discriminate].
Defined.
End daemon.
