(* ===== verification/Session.v ===== *)
(** The sessions of the daemon (src/internal/daemon/server.go): the fields
    guarded by [Server.mu], the critical sections of the control and data
    handlers, of [releaseControl], [releaseData], [applyVPNStatus], the
    mapping monitor, the local control commands and [shutdown], and their
    interleavings.

    Every critical section and every [update] is one atomic step, a handler
    is a thread whose program counter says which step comes next, and an
    event picks the thread that moves.  Connections and relays are named by
    numbers.  [controlWriter] is set and cleared with its connection and
    [dataWriter] is never read, so neither is repeated here; [openRelays] and [closedConns] record the effect of
    [Close] calls. *)
From S2P Require Import Prelude Errors GoStrings GoOS Protocol State Daemon.
Import daemon.

Module session.

Definition phase1 : gostring := str "phase1".
Definition vpn : gostring := str "vpn".

Record Server := mkServer {
  controlConnection : option nat;
  controlMode : gostring;
  controlToken : gostring;
  dataConnection : option nat;
  dataRelay : option nat;
  reconnectPending : bool;
  stopping : bool;
  proxySession : bool;
  store : state.Store;
  os : OS;
  openRelays : gset nat;
  nextRelay : nat;
  closedConns : gset nat;
}.
Definition set_controlConnection (v : option nat) (s : Server) : Server :=
  {| controlConnection := v; controlMode := controlMode s; controlToken := controlToken s;
     dataConnection := dataConnection s; dataRelay := dataRelay s;
     reconnectPending := reconnectPending s; stopping := stopping s;
     proxySession := proxySession s; store := store s; os := os s; openRelays := openRelays s;
     nextRelay := nextRelay s; closedConns := closedConns s |}.
Definition set_controlMode (v : gostring) (s : Server) : Server :=
  {| controlConnection := controlConnection s; controlMode := v;
     controlToken := controlToken s; dataConnection := dataConnection s;
     dataRelay := dataRelay s; reconnectPending := reconnectPending s; stopping := stopping s;
     proxySession := proxySession s; store := store s; os := os s; openRelays := openRelays s;
     nextRelay := nextRelay s; closedConns := closedConns s |}.
Definition set_controlToken (v : gostring) (s : Server) : Server :=
  {| controlConnection := controlConnection s; controlMode := controlMode s; controlToken := v;
     dataConnection := dataConnection s; dataRelay := dataRelay s;
     reconnectPending := reconnectPending s; stopping := stopping s;
     proxySession := proxySession s; store := store s; os := os s; openRelays := openRelays s;
     nextRelay := nextRelay s; closedConns := closedConns s |}.
Definition set_dataConnection (v : option nat) (s : Server) : Server :=
  {| controlConnection := controlConnection s; controlMode := controlMode s;
     controlToken := controlToken s; dataConnection := v; dataRelay := dataRelay s;
     reconnectPending := reconnectPending s; stopping := stopping s;
     proxySession := proxySession s; store := store s; os := os s; openRelays := openRelays s;
     nextRelay := nextRelay s; closedConns := closedConns s |}.
Definition set_dataRelay (v : option nat) (s : Server) : Server :=
  {| controlConnection := controlConnection s; controlMode := controlMode s;
     controlToken := controlToken s; dataConnection := dataConnection s; dataRelay := v;
     reconnectPending := reconnectPending s; stopping := stopping s;
     proxySession := proxySession s; store := store s; os := os s; openRelays := openRelays s;
     nextRelay := nextRelay s; closedConns := closedConns s |}.
Definition set_reconnectPending (v : bool) (s : Server) : Server :=
  {| controlConnection := controlConnection s; controlMode := controlMode s;
     controlToken := controlToken s; dataConnection := dataConnection s;
     dataRelay := dataRelay s; reconnectPending := v; stopping := stopping s;
     proxySession := proxySession s; store := store s; os := os s; openRelays := openRelays s;
     nextRelay := nextRelay s; closedConns := closedConns s |}.
Definition set_stopping (v : bool) (s : Server) : Server :=
  {| controlConnection := controlConnection s; controlMode := controlMode s;
     controlToken := controlToken s; dataConnection := dataConnection s;
     dataRelay := dataRelay s; reconnectPending := reconnectPending s; stopping := v;
     proxySession := proxySession s; store := store s; os := os s; openRelays := openRelays s;
     nextRelay := nextRelay s; closedConns := closedConns s |}.
Definition set_proxySession (v : bool) (s : Server) : Server :=
  {| controlConnection := controlConnection s; controlMode := controlMode s;
     controlToken := controlToken s; dataConnection := dataConnection s;
     dataRelay := dataRelay s; reconnectPending := reconnectPending s; stopping := stopping s;
     proxySession := v; store := store s; os := os s; openRelays := openRelays s;
     nextRelay := nextRelay s; closedConns := closedConns s |}.
Definition set_store (v : state.Store) (s : Server) : Server :=
  {| controlConnection := controlConnection s; controlMode := controlMode s;
     controlToken := controlToken s; dataConnection := dataConnection s;
     dataRelay := dataRelay s; reconnectPending := reconnectPending s; stopping := stopping s;
     proxySession := proxySession s; store := v; os := os s; openRelays := openRelays s;
     nextRelay := nextRelay s; closedConns := closedConns s |}.
Definition set_os (v : OS) (s : Server) : Server :=
  {| controlConnection := controlConnection s; controlMode := controlMode s;
     controlToken := controlToken s; dataConnection := dataConnection s;
     dataRelay := dataRelay s; reconnectPending := reconnectPending s; stopping := stopping s;
     proxySession := proxySession s; store := store s; os := v; openRelays := openRelays s;
     nextRelay := nextRelay s; closedConns := closedConns s |}.
Definition set_openRelays (v : gset nat) (s : Server) : Server :=
  {| controlConnection := controlConnection s; controlMode := controlMode s;
     controlToken := controlToken s; dataConnection := dataConnection s;
     dataRelay := dataRelay s; reconnectPending := reconnectPending s; stopping := stopping s;
     proxySession := proxySession s; store := store s; os := os s; openRelays := v;
     nextRelay := nextRelay s; closedConns := closedConns s |}.
Definition set_nextRelay (v : nat) (s : Server) : Server :=
  {| controlConnection := controlConnection s; controlMode := controlMode s;
     controlToken := controlToken s; dataConnection := dataConnection s;
     dataRelay := dataRelay s; reconnectPending := reconnectPending s; stopping := stopping s;
     proxySession := proxySession s; store := store s; os := os s; openRelays := openRelays s;
     nextRelay := v; closedConns := closedConns s |}.
Definition set_closedConns (v : gset nat) (s : Server) : Server :=
  {| controlConnection := controlConnection s; controlMode := controlMode s;
     controlToken := controlToken s; dataConnection := dataConnection s;
     dataRelay := dataRelay s; reconnectPending := reconnectPending s; stopping := stopping s;
     proxySession := proxySession s; store := store s; os := os s; openRelays := openRelays s;
     nextRelay := nextRelay s; closedConns := v |}.

Section session.
(** Persistence of the snapshot: JSON, process id, state file. *)
Variable MarshalIndent : state.Snapshot → result error (list byte).
Variable pid : Z.
Variable stateFile : gostring.

(** [Server.update]: the store changes and the file is rewritten; a write
    failure is only logged. *)
Definition update (now : Time) (mutate : state.Snapshot → state.Snapshot) (s : Server) : Server :=
  let '(snapshot, st) := state.Update (store s) now mutate in
  let '(_, os') := state.WriteFile MarshalIndent (os s) pid stateFile snapshot in
  set_os os' (set_store st s).

Definition get (s : Server) : state.Snapshot := state.Get (store s).

Definition close_conn (c : nat) (s : Server) : Server := set_closedConns ({[c]} ∪ closedConns s) s.
Definition close_conn_opt (c : option nat) (s : Server) : Server :=
  match c with Some c => close_conn c s | None => s end.
Definition close_relay (r : option nat) (s : Server) : Server :=
  match r with Some r => set_openRelays (openRelays s ∖ {[r]}) s | None => s end.

(** * Snapshot mutations *)

Definition clear_error (snap : state.Snapshot) : state.Snapshot :=
  state.set_LastError [] (state.set_LastErrorCode [] snap).
Definition set_error (code text : gostring) (snap : state.Snapshot) : state.Snapshot :=
  state.set_LastError text (state.set_LastErrorCode code snap).

Definition publish_control (mode : gostring) (isReconnect : bool) (snap : state.Snapshot) : state.Snapshot :=
  let snap := state.set_Transport state.TransportControlConnected snap in
  let snap := if isReconnect then state.set_Reconnects (state.Reconnects snap + 1) snap else snap in
  let snap :=
    if streq mode vpn then
      let snap := state.set_VPN state.VPNStarting snap in
      let snap := state.set_ControlHeartbeatAt ZeroTime (state.set_ControlRTTMillis 0 snap) in
      let snap := state.set_DataHeartbeatAt ZeroTime (state.set_DataRTTMillis 0 snap) in
      let snap := state.set_Relay state.zeroRelayStats snap in
      state.set_Message (str "VPN control connected; waiting for native data channel") snap
    else
      state.set_Message (str "Phase 1 handshake completed (hello/world)")
        (state.set_VPN state.VPNStopped snap) in
  clear_error snap.

Definition publish_data (snap : state.Snapshot) : state.Snapshot :=
  clear_error (state.set_Message (str "VPN data channel authenticated; waiting for TUN")
    (state.set_VPN state.VPNStarting (state.set_Transport state.TransportDataConnected snap))).

Definition publish_control_release (mode : gostring) (snap : state.Snapshot) : state.Snapshot :=
  let snap := state.set_Transport state.TransportPortReady snap in
  if streq mode vpn && streq (state.VPN snap) state.VPNStopped then
    clear_error (state.set_Message (str "HarmonyOS VPN stopped; waiting for a new connection") snap)
  else if streq mode vpn then
    set_error apperror.CodeAppDisconnected (str "The Harmony VPN control connection closed")
      (state.set_Message (str "Harmony VPN control disconnected; waiting for automatic reconnect")
         (state.set_VPN state.VPNReconnecting snap))
  else
    set_error apperror.CodeAppDisconnected (str "The Harmony App control connection closed")
      (state.set_Message (str "Harmony App disconnected; waiting for a new connection")
         (state.set_VPN state.VPNStopped snap)).

Definition publish_data_release (failed : bool) (snap : state.Snapshot) : state.Snapshot :=
  let snap := state.set_Transport state.TransportControlConnected snap in
  if failed then
    set_error apperror.CodeAppDisconnected (str "The Harmony VPN data connection closed")
      (state.set_Message (str "VPN data channel disconnected; waiting for automatic reconnect")
         (state.set_VPN state.VPNReconnecting snap))
  else
    state.set_Message (str "VPN data channel stopped") (state.set_VPN state.VPNStopped snap).

(** The table of [applyVPNStatus]. *)
Definition vpn_report (proxy : bool) (reported : gostring) : option (state.VPNStatus * gostring) :=
  if streq reported state.VPNAuthRequired then
    Some (state.VPNAuthRequired, str "HarmonyOS is waiting for VPN authorization")
  else if streq reported state.VPNStarting then
    Some (state.VPNStarting, str "HarmonyOS is creating the VPN tunnel")
  else if streq reported state.VPNReconnecting then
    Some (state.VPNReconnecting, str "HarmonyOS is rebuilding the VPN after a transport interruption")
  else if streq reported state.VPNActive then
    Some (state.VPNActive,
          if proxy then str "IPv4 relay and HTTP(S) capture proxy are active"
          else str "IPv4 TCP, UDP, and DNS relay is active")
  else if streq reported state.VPNStopped then
    Some (state.VPNStopped, str "HarmonyOS VPN stopped safely")
  else if streq reported state.VPNFailed then
    Some (state.VPNFailed, str "HarmonyOS reported a VPN failure")
  else None.

Definition publish_vpn (status : state.VPNStatus) (message : gostring) (snap : state.Snapshot) : state.Snapshot :=
  let snap := state.set_Message message (state.set_VPN status snap) in
  if streq status state.VPNFailed
  then set_error apperror.CodeVPNCreateFailed message snap else clear_error snap.

Definition mapping_message (available : bool) : gostring :=
  if available then str "USB bridge restored; waiting for HarmonyNetBridge App to reconnect"
  else str "USB bridge unavailable; waiting for the selected Harmony device to reconnect".

Definition mapping_transport (available : bool) : state.TransportStatus :=
  if available then state.TransportPortReady else state.TransportDeviceOffline.

Definition mapping_vpn (current : state.VPNStatus) : state.VPNStatus :=
  if streq current state.VPNActive || streq current state.VPNStarting || streq current state.VPNAuthRequired
  then state.VPNReconnecting else current.

Definition mapping_code (available : bool) : gostring :=
  if available then [] else apperror.CodeRPortFailed.

Definition publish_mapping (available : bool) (vpnStatus : state.VPNStatus) (snap : state.Snapshot) : state.Snapshot :=
  set_error (mapping_code available)
    (if available then [] else str "The hdc reverse mapping is unavailable")
    (state.set_Message (mapping_message available)
       (state.set_VPN vpnStatus (state.set_Transport (mapping_transport available) snap))).

Definition publish_stopping (snap : state.Snapshot) : state.Snapshot :=
  if streq (state.Daemon snap) state.DaemonFailed then snap
  else state.set_Message (str "Stopping HarmonyNetBridge") (state.set_Daemon state.DaemonStopping snap).

(** The local [stop] command. *)
Definition publish_stop (snap : state.Snapshot) : state.Snapshot :=
  state.set_Message (str "Stopping HarmonyNetBridge") (state.set_Daemon state.DaemonStopping snap).

(** * Critical sections *)

(** [handleControlConnection], under the lock: [None] is SESSION_BUSY. *)
Definition admit_control (c : nat) (mode token : gostring) (s : Server) : option (bool * Server) :=
  if bool_decide (is_Some (controlConnection s)) || stopping s then None
  else
    let isReconnect := streq mode vpn && reconnectPending s in
    let s := set_controlConnection (Some c) s in
    let s := set_controlMode mode s in
    let s := set_controlToken token s in
    let s := if streq mode vpn then set_reconnectPending false s else s in
    Some (isReconnect, s).

(** [handleDataConnection], first section: [None] is DATA_SESSION_REJECTED. *)
Definition attach_data (d : nat) (token : gostring) (s : Server) : option Server :=
  if stopping s || bool_decide (controlConnection s = None) || negb (streq (controlMode s) vpn) ||
     negb (streq (controlToken s) token) || bool_decide (is_Some (dataConnection s))
  then None
  else Some (set_dataConnection (Some d) s).

(** [handleDataConnection], second section with its publication: [None]
    means the session is gone and the relay must be closed. *)
Definition bind_relay (now : Time) (d r : nat) (s : Server) : option Server :=
  if negb (bool_decide (dataConnection s = Some d)) || bool_decide (controlConnection s = None) || stopping s
  then None
  else Some (update now publish_data (set_dataRelay (Some r) s)).

(** [releaseControl], under the lock: [None] when another session owns the
    slot; otherwise what was taken. *)
Record Taken := mkTaken {
  tk_mode : gostring; tk_data : option nat; tk_relay : option nat; tk_stopping : bool }.

Definition take_control (c : nat) (previousVPN : state.VPNStatus) (s : Server) : option (Taken * Server) :=
  if negb (bool_decide (controlConnection s = Some c)) then None
  else
    let taken := mkTaken (controlMode s) (dataConnection s) (dataRelay s) (stopping s) in
    let s := set_controlConnection None (set_controlMode [] (set_controlToken [] s)) in
    let s := set_dataConnection None (set_dataRelay None s) in
    let s := if streq (tk_mode taken) vpn && negb (tk_stopping taken) &&
                negb (streq previousVPN state.VPNStopped)
             then set_reconnectPending true s else s in
    Some (taken, s).

(** [releaseData], under the lock: the relay, and whether to publish. *)
Definition take_data (d : nat) (s : Server) : option (option nat * bool * Server) :=
  if negb (bool_decide (dataConnection s = Some d)) then None
  else
    let relay := dataRelay s in
    let publish := bool_decide (is_Some (controlConnection s)) && streq (controlMode s) vpn &&
                   negb (stopping s) in
    Some (relay, publish, set_dataRelay None (set_dataConnection None s)).

(** [applyVPNStatus]: the check, under the lock; [None] is INVALID_VPN_STATUS. *)
Definition check_vpn (c : nat) (reported : gostring) (s : Server) : option (state.VPNStatus * gostring) :=
  let validConnection := bool_decide (controlConnection s = Some c) && streq (controlMode s) vpn in
  let dataConnected := bool_decide (is_Some (dataConnection s)) in
  if negb validConnection || (streq reported state.VPNActive && negb dataConnected) then None
  else vpn_report (proxySession s) reported.

(** [shutdown], under the lock. *)
Definition take_all (s : Server) : (option nat * option nat * option nat) * Server :=
  let taken := (controlConnection s, dataConnection s, dataRelay s) in
  let s := set_stopping true s in
  let s := set_controlConnection None (set_controlMode [] (set_controlToken [] s)) in
  let s := set_dataConnection None (set_dataRelay None s) in
  (taken, set_proxySession false s).

(** * Threads *)

Inductive Thread :=
(* a control handler *)
| CStart (mode token : gostring)
| CPublish (mode : gostring) (isReconnect : bool)
| CServe (mode : gostring)
| CApply (mode : gostring) (status : state.VPNStatus) (message : gostring)
| CRelease (mode : gostring)
| CTake (mode : gostring) (previousVPN : state.VPNStatus)
| CClose (taken : Taken)
| CRepublish (mode : gostring)
(* a data handler *)
| DStart (token : gostring)
| DRelay (token : gostring)
| DBind (token : gostring) (relay : nat)
| DServe (token : gostring)
| DRelease (token : gostring)
| DClose (relay : option nat) (publish : bool)
| DRepublish
(* one call of markMappingAvailable or markMappingUnavailable *)
| MCheck (available : bool)
| MRead (available : bool)
| MPublish (available : bool) (vpnStatus : state.VPNStatus)
(* a local control command: status with refreshRelayStats, stop *)
| LStatus
| LRefresh
| LStop
(* shutdown *)
| SStart
| SPublish (control data relay : option nat)
| SClose (control data relay : option nat)
| Done.

Record World := mkWorld { server : Server; threads : gmap nat Thread }.

(** What makes a thread move where it is not determined by the state. *)
Inductive Input :=
| Go                                          (* the next step *)
| Report (reported : gostring)                (* a VPN_STATUS frame arrives *)
| Leave                                       (* the peer is gone or breaks the protocol *)
| RelayReady (ok : bool)                      (* newRelay returns *)
| Stats (st : state.RelayStats)               (* a relay's counters *)
| Pong (milliseconds : Z).                    (* a pong that recordHeartbeat accepts *)

(** One step of thread [tid] in state [t]: its next state and the server;
    [None] when the input does not apply. *)
Definition thread_step (now : Time) (tid : nat) (t : Thread) (i : Input) (s : Server)
    : option (Thread * Server) :=
  match t, i with
  | CStart mode token, Go =>
      match admit_control tid mode token s with
      | None => Some (Done, close_conn tid s)
      | Some (isReconnect, s) => Some (CPublish mode isReconnect, s)
      end
  | CPublish mode isReconnect, Go => Some (CServe mode, update now (publish_control mode isReconnect) s)
  | CPublish mode _, Leave => Some (CRelease mode, s)
  | CServe mode, Report reported =>
      if negb (streq mode vpn) then Some (CRelease mode, s)
      else
        match check_vpn tid reported s with
        | None => Some (CRelease mode, s)
        | Some (status, message) => Some (CApply mode status message, s)
        end
  | CServe mode, Leave => Some (CRelease mode, s)
  | CServe mode, Pong ms =>
      if negb (streq mode vpn) then Some (CRelease mode, s)
      else Some (CServe mode, update now (publish_heartbeat true now ms) s)
  | CApply mode status message, Go => Some (CServe mode, update now (publish_vpn status message) s)
  | CRelease mode, Go => Some (CTake mode (state.VPN (get s)), s)
  | CTake _ previousVPN, Go =>
      match take_control tid previousVPN s with
      | None => Some (Done, close_conn tid s)
      | Some (taken, s) => Some (CClose taken, s)
      end
  | CClose taken, Go =>
      let s := close_relay (tk_relay taken) (close_conn_opt (tk_data taken) s) in
      if tk_stopping taken then Some (Done, close_conn tid s) else Some (CRepublish (tk_mode taken), s)
  | CRepublish mode, Go =>
      Some (Done, close_conn tid (update now (publish_control_release mode) s))
  | DStart token, Go =>
      match attach_data tid token s with
      | None => Some (Done, close_conn tid s)
      | Some s => Some (DRelay token, s)
      end
  | DRelay token, RelayReady true =>
      let r := nextRelay s in
      Some (DBind token r, set_nextRelay (S r) (set_openRelays ({[r]} ∪ openRelays s) s))
  | DRelay token, RelayReady false => Some (DRelease token, s)
  | DBind token r, Go =>
      match bind_relay now tid r s with
      | None => Some (Done, close_conn tid (close_relay (Some r) s))
      | Some s => Some (DServe token, s)
      end
  | DServe token, Leave => Some (DRelease token, s)
  | DServe token, Pong ms => Some (DServe token, update now (publish_heartbeat false now ms) s)
  | DRelease _, Go =>
      match take_data tid s with
      | None => Some (Done, close_conn tid s)
      | Some (relay, publish, s) => Some (DClose relay publish, s)
      end
  | DClose relay publish, Stats st =>
      let s := close_conn tid s in
      let s := match relay with
               | Some _ => close_relay relay (update now (state.set_Relay st) s)
               | None => s
               end in
      if publish then Some (DRepublish, s) else Some (Done, s)
  | DRepublish, Go => Some (Done, update now (publish_data_release true) s)
  | MCheck available, Go =>
      if stopping s || bool_decide (is_Some (controlConnection s)) then Some (Done, s)
      else Some (MRead available, s)
  | MRead available, Go =>
      let current := get s in
      let vpnStatus := mapping_vpn (state.VPN current) in
      if streq (state.Transport current) (mapping_transport available) &&
         streq (state.VPN current) vpnStatus &&
         streq (state.Message current) (mapping_message available) &&
         streq (state.LastErrorCode current) (mapping_code available)
      then Some (Done, s) else Some (MPublish available vpnStatus, s)
  | MPublish available vpnStatus, Go => Some (Done, update now (publish_mapping available vpnStatus) s)
  | LStatus, Go =>
      match dataRelay s with None => Some (Done, s) | Some _ => Some (LRefresh, s) end
  | LRefresh, Stats st => Some (Done, update now (state.set_Relay st) s)
  | LStop, Go => Some (Done, update now publish_stop s)
  | SStart, Go =>
      let '((control, data, relay), s) := take_all s in Some (SPublish control data relay, s)
  | SPublish control data relay, Go =>
      Some (SClose control data relay, update now publish_stopping s)
  | SClose control data relay, Go =>
      Some (Done, close_conn_opt control (close_relay relay (close_conn_opt data s)))
  | _, _ => None
  end.

(** How a thread may begin. *)
Definition initial (t : Thread) : bool :=
  match t with CStart _ _ | DStart _ | MCheck _ | LStatus | LStop | SStart => true | _ => false end.

Inductive world_step (w : World) : World → Prop :=
| step_spawn tid t :
    threads w !! tid = None → initial t = true →
    world_step w (mkWorld (server w) (<[tid := t]> (threads w)))
| step_thread now tid t i t' s' :
    threads w !! tid = Some t → thread_step now tid t i (server w) = Some (t', s') →
    world_step w (mkWorld s' (<[tid := t']> (threads w))).

(** The daemon when its listeners start: no session, no relay. *)
Definition start (st : state.Store) (disk : OS) (proxy : bool) : World :=
  mkWorld (mkServer None [] [] None None false false proxy st disk ∅ 0 ∅) ∅.

Definition reachable (w : World) : Prop :=
  ∃ st disk proxy, state.Transport (state.Get st) ≠ state.TransportDataConnected ∧
    rtc world_step (start st disk proxy) w.

(** * Invariant *)

(** The mode of a handler that may own the control slot. *)
Definition control_live (t : Thread) : option gostring :=
  match t with
  | CPublish m _ | CServe m | CApply m _ _ | CRelease m | CTake m _ => Some m
  | _ => None
  end.

(** The token of a handler that may own the data slot. *)
Definition data_live (t : Thread) : option gostring :=
  match t with DRelay k | DBind k _ | DServe k | DRelease k => Some k | _ => None end.

(** Handlers past the point where their relay is in the slot. *)
Definition bound (t : Thread) : bool := match t with DServe _ | DRelease _ => true | _ => false end.

(** The relay a thread is responsible for closing or binding. *)
Definition held (t : Thread) : option nat :=
  match t with
  | DBind _ r => Some r
  | CClose taken => tk_relay taken
  | DClose r _ => r
  | SPublish _ _ r | SClose _ _ r => r
  | _ => None
  end.

(** Threads that will still publish a transport state. *)
Definition republishes (t : Thread) : bool :=
  match t with
  | CClose taken => negb (tk_stopping taken)
  | CRepublish _ | DRepublish => true
  | DClose _ publish => publish
  | _ => false
  end.

Definition data_connected (s : Server) : Prop :=
  state.Transport (get s) = state.TransportDataConnected.

Record session_inv (w : World) : Prop := {
  i_control c : controlConnection (server w) = Some c →
    ∃ t, threads w !! c = Some t ∧ control_live t = Some (controlMode (server w));
  i_data d : dataConnection (server w) = Some d →
    ∃ t, threads w !! d = Some t ∧ data_live t = Some (controlToken (server w));
  i_data_control d : dataConnection (server w) = Some d →
    is_Some (controlConnection (server w)) ∧ controlMode (server w) = vpn;
  i_relay r : dataRelay (server w) = Some r →
    ∃ d t, dataConnection (server w) = Some d ∧ threads w !! d = Some t ∧ bound t = true;
  i_stopping : stopping (server w) = true → controlConnection (server w) = None;
  i_open r : r ∈ openRelays (server w) →
    dataRelay (server w) = Some r ∨ ∃ tid t, threads w !! tid = Some t ∧ held t = Some r;
  i_transport : data_connected (server w) →
    is_Some (dataConnection (server w)) ∨ stopping (server w) = true ∨
    ∃ tid t, threads w !! tid = Some t ∧ republishes t = true;
}.

(** [update] touches the snapshot and the disk only. *)
Lemma update_spec now f s :
  ∃ st disk, update now f s = set_os disk (set_store st s) ∧
    state.Transport (state.Get st) = state.Transport (f (get s)).
Proof.
  unfold update, get, state.Update, state.Get.
  destruct (state.WriteFile _ _ _ _ _) as [e disk]. do 2 eexists. split; [done|]. done.
Qed.

(** What the steps do to the published snapshot. *)
Lemma get_update now f s : get (update now f s) = state.set_UpdatedAt now (f (get s)).
Proof. unfold update, get, state.Update, state.Get. by destruct (state.WriteFile _ _ _ _ _). Qed.
Lemma get_close_conn c s : get (close_conn c s) = get s.
Proof. done. Qed.
Lemma get_close_conn_opt c s : get (close_conn_opt c s) = get s.
Proof. by destruct c. Qed.
Lemma get_close_relay r s : get (close_relay r s) = get s.
Proof. by destruct r. Qed.

(** The session fields two server states agree on. *)
Definition same_session (s s' : Server) : Prop :=
  controlConnection s' = controlConnection s ∧ controlMode s' = controlMode s ∧
  controlToken s' = controlToken s ∧ dataConnection s' = dataConnection s ∧
  dataRelay s' = dataRelay s ∧ stopping s' = stopping s.

(** A step that leaves the slots alone. *)
Lemma inv_keep w tid t t' s' :
  session_inv w → threads w !! tid = Some t → same_session (server w) s' →
  (controlConnection (server w) = Some tid → ∀ m, control_live t = Some m → control_live t' = Some m) →
  (dataConnection (server w) = Some tid →
     (∀ k, data_live t = Some k → data_live t' = Some k) ∧ (bound t = true → bound t' = true)) →
  (∀ r, r ∈ openRelays s' → held t' = Some r ∨ (r ∈ openRelays (server w) ∧ held t ≠ Some r)) →
  (data_connected s' → data_connected (server w) ∧ (republishes t = true → republishes t' = true)) →
  session_inv (mkWorld s' (<[tid := t']> (threads w))).
Proof.
  intros [Ic Id Idc Ir Is Io It] Ht (E1 & E2 & E3 & E4 & E5 & E6) Hc Hd Hr Htr.
  split; cbn; rewrite ?E1, ?E2, ?E3, ?E4, ?E5, ?E6.
  - intros c Ec. destruct (Ic c Ec) as (x & Hx & Hl). destruct (decide (c = tid)) as [->|Hne].
    + rewrite Ht in Hx. injection Hx as <-. exists t'. rewrite lookup_insert_eq. eauto.
    + exists x. by rewrite lookup_insert_ne.
  - intros d Ed. destruct (Id d Ed) as (x & Hx & Hl). destruct (decide (d = tid)) as [->|Hne].
    + rewrite Ht in Hx. injection Hx as <-. exists t'. rewrite lookup_insert_eq. split; [done|].
      by apply (proj1 (Hd Ed)).
    + exists x. by rewrite lookup_insert_ne.
  - done.
  - intros r Er. destruct (Ir r Er) as (d & x & Ed & Hx & Hb). exists d. destruct (decide (d = tid)) as [->|Hne].
    + rewrite Ht in Hx. injection Hx as <-. exists t'. rewrite lookup_insert_eq. split_and!; [done..|].
      by apply (proj2 (Hd Ed)).
    + exists x. by rewrite lookup_insert_ne.
  - done.
  - intros r Hin. destruct (Hr r Hin) as [Hh|[Hin' Hh]]; [right; exists tid, t'; by rewrite lookup_insert_eq|].
    destruct (Io r Hin') as [?|(tid' & x & Hx & Hhx)]; [by left|right].
    destruct (decide (tid' = tid)) as [->|Hne]; [rewrite Ht in Hx; congruence|].
    exists tid', x. by rewrite lookup_insert_ne.
  - intros Hdc. destruct (Htr Hdc) as [Hdc' Hrep].
    destruct (It Hdc') as [?|[?|(tid' & x & Hx & Hpx)]]; [by left|by right; left|right; right].
    destruct (decide (tid' = tid)) as [->|Hne].
    + rewrite Ht in Hx. injection Hx as <-. exists tid, t'. rewrite lookup_insert_eq. auto.
    + exists tid', x. by rewrite lookup_insert_ne.
Qed.

Lemma inv_spawn w tid t :
  session_inv w → threads w !! tid = None → initial t = true →
  session_inv (mkWorld (server w) (<[tid := t]> (threads w))).
Proof.
  intros [Ic Id Idc Ir Is Io It] Hn Hi.
  assert (Hkeep : ∀ tid' x, threads w !! tid' = Some x → <[tid := t]> (threads w) !! tid' = Some x).
  { intros tid' x Hx. rewrite lookup_insert_ne; [done|]. intros ->. congruence. }
  split; cbn; try done.
  - intros c (x & ? & ?)%Ic. eauto.
  - intros d (x & ? & ?)%Id. eauto.
  - intros r (d & x & ? & ? & ?)%Ir. eauto 6.
  - intros r [?|(tid' & x & ? & ?)]%Io; eauto 6.
  - intros [?|[?|(tid' & x & ? & ?)]]%It; eauto 7.
Qed.

(** The owner of a slot is not a thread in another state. *)
Lemma not_control_owner w tid t :
  session_inv w → threads w !! tid = Some t → control_live t = None →
  controlConnection (server w) ≠ Some tid.
Proof. intros Hi Ht Hl E. destruct (i_control _ Hi _ E) as (x & Hx & ?). congruence. Qed.

Lemma not_data_owner w tid t :
  session_inv w → threads w !! tid = Some t → data_live t = None →
  dataConnection (server w) ≠ Some tid.
Proof. intros Hi Ht Hl E. destruct (i_data _ Hi _ E) as (x & Hx & ?). congruence. Qed.

Lemma inv_admit w tid mode token isReconnect s' :
  session_inv w → threads w !! tid = Some (CStart mode token) →
  admit_control tid mode token (server w) = Some (isReconnect, s') →
  session_inv (mkWorld s' (<[tid := CPublish mode isReconnect]> (threads w))).
Proof.
  intros Hi Ht. unfold admit_control. case_if as E; [done|]. bool_to_prop. intros [= _ <-].
  generalize (streq mode vpn) as b. intros b.
  assert (controlConnection (server w) = None) as Hc by (destruct (controlConnection _); [exfalso; eauto|done]).
  assert (dataConnection (server w) = None) as Hd.
  { destruct (dataConnection (server w)) as [d|] eqn:Ed; [|done].
    destruct (i_data_control _ Hi _ Ed) as [[? ?] _]. congruence. }
  assert (dataRelay (server w) = None) as Hr.
  { destruct (dataRelay (server w)) as [r|] eqn:Er; [|done].
    destruct (i_relay _ Hi _ Er) as (? & ? & ? & _). congruence. }
  destruct Hi as [Ic Id Idc Ir Is Io It]. destruct w as [s ths]. destruct s; cbn in *; subst.
  destruct b; (split; cbn; try done;
    [intros c [= <-]; eexists; rewrite lookup_insert_eq; done
    |intros r Hin; destruct (Io r Hin) as [?|(tid' & x & Hx & ?)]; [by left|right];
     exists tid', x; rewrite lookup_insert_ne; [done|intros ->; rewrite Ht in Hx; by simplify_eq/=]
    |intros Hdc; destruct (It Hdc) as [[? ?]|[?|(tid' & x & Hx & ?)]]; [done|done|right; right];
     exists tid', x; rewrite lookup_insert_ne; [done|intros ->; rewrite Ht in Hx; by simplify_eq/=]]).
Qed.

Lemma inv_attach w tid token s' :
  session_inv w → threads w !! tid = Some (DStart token) →
  attach_data tid token (server w) = Some s' →
  session_inv (mkWorld s' (<[tid := DRelay token]> (threads w))).
Proof.
  intros Hi Ht. unfold attach_data. case_if as E; [done|]. bool_to_prop. intros [= <-].
  assert (dataConnection (server w) = None) as Hd by (destruct (dataConnection _); [exfalso; eauto|done]).
  assert (dataRelay (server w) = None) as Hr.
  { destruct (dataRelay (server w)) as [r|] eqn:Er; [|done].
    destruct (i_relay _ Hi _ Er) as (? & ? & ? & _). congruence. }
  pose proof (not_control_owner w tid _ Hi Ht eq_refl) as Hnc.
  destruct Hi as [Ic Id Idc Ir Is Io It]. destruct w as [s ths]. destruct s; cbn in *; subst.
  split; cbn; try done.
  - intros c Hc. destruct (Ic c Hc) as (x & ? & ?). exists x. rewrite lookup_insert_ne by congruence. done.
  - intros d [= <-]. eexists. by rewrite lookup_insert_eq.
  - intros d _. split; [|done]. destruct controlConnection0; [by eauto|done].
  - intros r Hin. destruct (Io r Hin) as [?|(tid' & x & Hx & ?)]; [by left|right].
    exists tid', x. rewrite lookup_insert_ne; [done|intros ->; rewrite Ht in Hx; by simplify_eq/=].
  - intros _. left. by eexists.
Qed.

Lemma inv_bind w now tid token r s' :
  session_inv w → threads w !! tid = Some (DBind token r) →
  bind_relay now tid r (server w) = Some s' →
  session_inv (mkWorld s' (<[tid := DServe token]> (threads w))).
Proof.
  intros Hi Ht. unfold bind_relay. case_if as E; [done|]. bool_to_prop. intros [= <-].
  assert (dataRelay (server w) = None) as Hr.
  { destruct (dataRelay (server w)) as [r0|] eqn:Er; [|done].
    destruct (i_relay _ Hi _ Er) as (d & x & Hd & Hx & Hb). by simplify_eq. }
  destruct (update_spec now publish_data (set_dataRelay (Some r) (server w))) as (st & disk & -> & _).
  destruct Hi as [Ic Id Idc Ir Is Io It]. destruct w as [s ths]. destruct s; cbn in *; subst.
  split; cbn; try done.
  - intros c Hc. destruct (Ic c Hc) as (x & Hx & Hl). destruct (decide (c = tid)) as [->|Hne].
    + rewrite Ht in Hx. by simplify_eq.
    + exists x. by rewrite lookup_insert_ne.
  - intros d Hd. simplify_eq. destruct (Id _ eq_refl) as (x & Hx & Hl). rewrite Ht in Hx. simplify_eq/=.
    eexists. by rewrite lookup_insert_eq.
  - intros r0 [= <-]. exists tid, (DServe token). by rewrite lookup_insert_eq.
  - intros r0 Hin. destruct (Io r0 Hin) as [?|(tid' & x & Hx & Hh)]; [done|].
    destruct (decide (tid' = tid)) as [->|Hne]; [left; rewrite Ht in Hx; by simplify_eq/=|right].
    exists tid', x. by rewrite lookup_insert_ne.
  - intros _. left. by eexists.
Qed.

Lemma inv_take_control w tid mode previous taken s' :
  session_inv w → threads w !! tid = Some (CTake mode previous) →
  take_control tid previous (server w) = Some (taken, s') →
  session_inv (mkWorld s' (<[tid := CClose taken]> (threads w))).
Proof.
  intros Hi Ht. unfold take_control. case_if as E; [done|]. bool_to_prop. cbn [tk_mode tk_stopping].
  assert (stopping (server w) = false) as Hst.
  { destruct (stopping (server w)) eqn:Es; [|done]. apply (i_stopping _ Hi) in Es. congruence. }
  destruct Hi as [Ic Id Idc Ir Is Io It]. destruct w as [s ths]. destruct s; cbn in *; subst.
  intros [= <- <-].
  assert (Hgoal : session_inv (mkWorld (set_dataConnection None (set_dataRelay None (set_controlConnection None
    (set_controlMode [] (set_controlToken [] (mkServer (Some tid) controlMode0 controlToken0 dataConnection0
      dataRelay0 reconnectPending0 false proxySession0 store0 os0 openRelays0 nextRelay0 closedConns0))))))
    (<[tid := CClose (mkTaken controlMode0 dataConnection0 dataRelay0 false)]> ths))).
  { split; cbn; try done.
    - intros r Hin. right. destruct (Io r Hin) as [->|(tid' & x & Hx & Hh)].
      + exists tid. eexists. by rewrite lookup_insert_eq.
      + exists tid', x. rewrite lookup_insert_ne; [done|]. intros ->. rewrite Ht in Hx. by simplify_eq/=.
    - intros _. right. right. exists tid. eexists. by rewrite lookup_insert_eq. }
  case_if; [|exact Hgoal]. destruct Hgoal. by split.
Qed.

Lemma inv_take_data w tid token relay publish s' :
  session_inv w → threads w !! tid = Some (DRelease token) →
  take_data tid (server w) = Some (relay, publish, s') →
  session_inv (mkWorld s' (<[tid := DClose relay publish]> (threads w))).
Proof.
  intros Hi Ht. unfold take_data. case_if as E; [done|]. bool_to_prop. intros [= <- <- <-].
  destruct (i_data_control _ Hi _ E) as [[c Hc] Hm].
  assert (stopping (server w) = false) as Hst.
  { destruct (stopping (server w)) eqn:Es; [|done]. apply (i_stopping _ Hi) in Es. congruence. }
  rewrite Hc, Hm, Hst, bool_decide_eq_true_2 by eauto.
  destruct Hi as [Ic Id Idc Ir Is Io It]. destruct w as [s ths]. destruct s; cbn in *; subst.
  split; cbn; try done.
  - intros c0 Hc0. destruct (Ic c0 Hc0) as (x & Hx & Hl). exists x.
    rewrite lookup_insert_ne; [done|]. intros ->. rewrite Ht in Hx. by simplify_eq/=.
  - intros r Hin. right. destruct (Io r Hin) as [->|(tid' & x & Hx & Hh)].
    + exists tid. eexists. by rewrite lookup_insert_eq.
    + exists tid', x. rewrite lookup_insert_ne; [done|]. intros ->. rewrite Ht in Hx. by simplify_eq/=.
  - intros _. right. right. exists tid. eexists. by rewrite lookup_insert_eq.
Qed.

Lemma inv_take_all w tid :
  session_inv w → threads w !! tid = Some SStart →
  session_inv (mkWorld (take_all (server w)).2
    (<[tid := SPublish (controlConnection (server w)) (dataConnection (server w)) (dataRelay (server w))]> (threads w))).
Proof.
  intros [Ic Id Idc Ir Is Io It] Ht. destruct w as [s ths]. destruct s; cbn in *.
  split; cbn; try done.
  - intros r Hin. right. destruct (Io r Hin) as [->|(tid' & x & Hx & Hh)].
    + exists tid. eexists. by rewrite lookup_insert_eq.
    + exists tid', x. rewrite lookup_insert_ne; [done|]. intros ->. rewrite Ht in Hx. by simplify_eq/=.
  - intros _. by right; left.
Qed.

(** ** Every thread step *)

Lemma same_session_refl s : same_session s s.
Proof. done. Qed.

(** Publications that leave the transport alone or move it elsewhere. *)
Definition keeps_transport (f : state.Snapshot → state.Snapshot) : Prop :=
  ∀ snap, state.Transport (f snap) = state.TransportDataConnected →
          state.Transport snap = state.TransportDataConnected.
Definition moves_transport (f : state.Snapshot → state.Snapshot) : Prop :=
  ∀ snap, state.Transport (f snap) ≠ state.TransportDataConnected.

Lemma moves_control mode b : moves_transport (publish_control mode b).
Proof. intros snap. unfold publish_control. by destruct b, (streq mode vpn). Qed.
Lemma moves_control_release mode : moves_transport (publish_control_release mode).
Proof. intros snap. unfold publish_control_release. cbn. by repeat case_if. Qed.
Lemma moves_data_release b : moves_transport (publish_data_release b).
Proof. intros snap. by destruct b. Qed.
Lemma moves_mapping b v : moves_transport (publish_mapping b v).
Proof. intros snap. by destruct b. Qed.
Lemma keeps_vpn a b : keeps_transport (publish_vpn a b).
Proof. intros snap. unfold publish_vpn. by case_if. Qed.
Lemma keeps_stopping : keeps_transport publish_stopping.
Proof. intros snap. unfold publish_stopping. by case_if. Qed.
Lemma keeps_stop : keeps_transport publish_stop.
Proof. by intros snap. Qed.
Lemma keeps_heartbeat b now ms : keeps_transport (publish_heartbeat b now ms).
Proof. intros snap. by destruct b. Qed.
Lemma keeps_relay st : keeps_transport (state.set_Relay st).
Proof. by intros snap. Qed.

Lemma update_same now f s : same_session s (update now f s) ∧ openRelays (update now f s) = openRelays s.
Proof. destruct (update_spec now f s) as (st & disk & -> & _). by destruct s. Qed.

Lemma update_keeps now f s : keeps_transport f → data_connected (update now f s) → data_connected s.
Proof.
  intros Hf. destruct (update_spec now f s) as (st & disk & -> & Ht). unfold data_connected, get in *.
  destruct s; cbn in *. rewrite Ht. apply Hf.
Qed.

Lemma update_moves now f s : moves_transport f → ¬ data_connected (update now f s).
Proof.
  intros Hf. destruct (update_spec now f s) as (st & disk & -> & Ht). unfold data_connected, get in *.
  destruct s; cbn in *. rewrite Ht. apply Hf.
Qed.

Lemma close_same c s : same_session s (close_conn c s) ∧ openRelays (close_conn c s) = openRelays s ∧
  (data_connected (close_conn c s) → data_connected s).
Proof. by destruct s. Qed.
Lemma close_opt_same c s : same_session s (close_conn_opt c s) ∧ openRelays (close_conn_opt c s) = openRelays s ∧
  (data_connected (close_conn_opt c s) → data_connected s).
Proof. destruct c; [apply close_same|done]. Qed.
Lemma close_relay_same r s : same_session s (close_relay r s) ∧
  (∀ x, x ∈ openRelays (close_relay r s) → x ∈ openRelays s ∧ r ≠ Some x) ∧
  (data_connected (close_relay r s) → data_connected s).
Proof. destruct r as [r|]; [|done]. destruct s. cbn. split_and!; try done. set_solver. Qed.

Lemma same_session_trans s1 s2 s3 : same_session s1 s2 → same_session s2 s3 → same_session s1 s3.
Proof. unfold same_session. intuition congruence. Qed.

(** A thread that owns no slot and holds nothing may stop. *)
Lemma inv_quit w tid t s' :
  session_inv w → threads w !! tid = Some t → same_session (server w) s' →
  controlConnection (server w) ≠ Some tid → dataConnection (server w) ≠ Some tid →
  (∀ r, r ∈ openRelays s' → r ∈ openRelays (server w) ∧ held t ≠ Some r) →
  (data_connected s' → data_connected (server w) ∧ republishes t = false) →
  session_inv (mkWorld s' (<[tid := Done]> (threads w))).
Proof.
  intros Hi Ht Hs Hc Hd Hr Hdc. eapply inv_keep; try done; [by right; apply Hr|].
  intros E. destruct (Hdc E) as [? Hp]. split; [done|]. congruence.
Qed.

(** An [update] by a thread that keeps its roles. *)
Lemma inv_update w tid t t' now f :
  session_inv w → threads w !! tid = Some t →
  control_live t' = control_live t → data_live t' = data_live t → bound t' = bound t → held t' = held t →
  moves_transport f ∨ (keeps_transport f ∧ republishes t' = republishes t) →
  session_inv (mkWorld (update now f (server w)) (<[tid := t']> (threads w))).
Proof.
  intros Hi Ht E1 E2 E3 E4 Hf. destruct (update_same now f (server w)) as [Hs Ho].
  eapply inv_keep; try done; rewrite ?E1, ?E2, ?E3; auto.
  - intros r. rewrite Ho, E4. destruct (decide (held t = Some r)); auto.
  - intros Hdc. destruct Hf as [Hf|[Hf Er]]; [by apply update_moves in Hdc|].
    rewrite Er. split; [|done]. by eapply update_keeps.
Qed.

Lemma inv_same w tid t t' :
  session_inv w → threads w !! tid = Some t →
  control_live t' = control_live t → data_live t' = data_live t → (bound t = true → bound t' = true) →
  held t' = held t → republishes t' = republishes t →
  session_inv (mkWorld (server w) (<[tid := t']> (threads w))).
Proof.
  intros Hi Ht E1 E2 E3 E4 E5. eapply inv_keep; try done; rewrite ?E1, ?E2, ?E5; auto.
  intros r Hr. rewrite E4. destruct (decide (held t = Some r)); auto.
Qed.

Lemma inv_CClose w tid taken :
  session_inv w → threads w !! tid = Some (CClose taken) →
  let s := close_relay (tk_relay taken) (close_conn_opt (tk_data taken) (server w)) in
  if tk_stopping taken then session_inv (mkWorld (close_conn tid s) (<[tid := Done]> (threads w)))
  else session_inv (mkWorld s (<[tid := CRepublish (tk_mode taken)]> (threads w))).
Proof.
  intros Hi Ht s. destruct (close_opt_same (tk_data taken) (server w)) as (S1 & O1 & D1).
  destruct (close_relay_same (tk_relay taken) (close_conn_opt (tk_data taken) (server w))) as (S2 & O2 & D2).
  fold s in S2, O2, D2. destruct (close_same tid s) as (S3 & O3 & D3).
  pose proof (not_control_owner w tid _ Hi Ht eq_refl). pose proof (not_data_owner w tid _ Hi Ht eq_refl).
  destruct (tk_stopping taken) eqn:Es.
  - eapply inv_quit; try done; [by repeat (eapply same_session_trans; [eassumption|])|..].
    + intros r Hr. rewrite O3 in Hr. apply O2 in Hr as [Hr Hh]. rewrite O1 in Hr. done.
    + intros Hdc. split; [by auto|]. cbn. by rewrite Es.
  - eapply inv_keep; try done; [by eapply same_session_trans| |].
    + intros r Hr. right. apply O2 in Hr as [Hr Hh]. rewrite O1 in Hr. done.
    + intros Hdc. split; [by auto|done].
Qed.

Lemma inv_DClose w now tid relay publish st :
  session_inv w → threads w !! tid = Some (DClose relay publish) →
  let s := match relay with
           | Some _ => close_relay relay (update now (state.set_Relay st) (close_conn tid (server w)))
           | None => close_conn tid (server w)
           end in
  session_inv (mkWorld s (<[tid := if publish then DRepublish else Done]> (threads w))).
Proof.
  intros Hi Ht s. destruct (close_same tid (server w)) as (S1 & O1 & D1).
  assert (same_session (server w) s ∧ (∀ r, r ∈ openRelays s → r ∈ openRelays (server w) ∧ relay ≠ Some r) ∧
               (data_connected s → data_connected (server w))) as (S2 & O2 & D2).
  { subst s. destruct relay as [r|]; [|split_and!; [done|rewrite O1; by intros|done]].
    destruct (update_same now (state.set_Relay st) (close_conn tid (server w))) as [Su Ou].
    destruct (close_relay_same (Some r) (update now (state.set_Relay st) (close_conn tid (server w)))) as (S3 & O3 & D3).
    split_and!.
    - by repeat (eapply same_session_trans; [eassumption|]).
    - intros x [Hx Hn]%O3. rewrite Ou, O1 in Hx. done.
    - intros Hdc. apply D1. eapply update_keeps; [apply keeps_relay|]. by apply D3. }
  pose proof (not_control_owner w tid _ Hi Ht eq_refl). pose proof (not_data_owner w tid _ Hi Ht eq_refl).
  eapply inv_keep; try done.
  - intros r Hr%O2. by right.
  - intros Hdc. split; [by apply D2|]. by destruct publish.
Qed.

Lemma inv_SClose w tid c d r :
  session_inv w → threads w !! tid = Some (SClose c d r) →
  session_inv (mkWorld (close_conn_opt c (close_relay r (close_conn_opt d (server w))))
                       (<[tid := Done]> (threads w))).
Proof.
  intros Hi Ht. destruct (close_opt_same d (server w)) as (S1 & O1 & D1).
  destruct (close_relay_same r (close_conn_opt d (server w))) as (S2 & O2 & D2).
  destruct (close_opt_same c (close_relay r (close_conn_opt d (server w)))) as (S3 & O3 & D3).
  eapply inv_quit; try done.
  - by repeat (eapply same_session_trans; [eassumption|]).
  - by eapply not_control_owner.
  - by eapply not_data_owner.
  - intros x Hx. rewrite O3 in Hx. apply O2 in Hx as [Hx ?]. rewrite O1 in Hx. done.
  - auto.
Qed.

(** A refused bind: the slot cannot be this connection's any more, so not
    releasing it leaks nothing. *)
Lemma bind_refused w now tid token r :
  session_inv w → threads w !! tid = Some (DBind token r) →
  bind_relay now tid r (server w) = None → dataConnection (server w) ≠ Some tid.
Proof.
  intros Hi Ht Hb E. unfold bind_relay in Hb. case_if in Hb as Ec; [|done].
  destruct (i_data_control _ Hi _ E) as [[c Hc] _].
  rewrite E, Hc, !bool_decide_eq_true_2, bool_decide_eq_false_2 in Ec by done. cbn in Ec.
  apply (i_stopping _ Hi) in Ec. congruence.
Qed.

(** A thread without a slot that only closes its connection. *)
Lemma inv_reject w tid t :
  session_inv w → threads w !! tid = Some t →
  controlConnection (server w) ≠ Some tid → dataConnection (server w) ≠ Some tid →
  held t = None → republishes t = false →
  session_inv (mkWorld (close_conn tid (server w)) (<[tid := Done]> (threads w))).
Proof.
  intros Hi Ht Hc Hd Hh Hp. destruct (close_same tid (server w)) as (S1 & O1 & D1).
  eapply inv_quit; try done. intros r. rewrite O1. by rewrite Hh.
Qed.

Lemma thread_step_inv w now tid t i t' s' :
  session_inv w → threads w !! tid = Some t → thread_step now tid t i (server w) = Some (t', s') →
  session_inv (mkWorld s' (<[tid := t']> (threads w))).
Proof.
  intros Hi Ht Hstep.
  assert (Hnc : control_live t = None → controlConnection (server w) ≠ Some tid) by (by eapply not_control_owner).
  assert (Hnd : data_live t = None → dataConnection (server w) ≠ Some tid) by (by eapply not_data_owner).
  destruct t, i; try discriminate Hstep; cbn [thread_step] in Hstep.
  - destruct (admit_control _ _ _ _) as [[b s1]|] eqn:E; injection Hstep as <- <-; [by eapply inv_admit|].
    apply (inv_reject w tid _ Hi Ht); auto.
  - injection Hstep as <- <-. eapply inv_update; try done. left. apply moves_control.
  - injection Hstep as <- <-. by eapply inv_same.
  - case_if in Hstep as E; [injection Hstep as <- <-; by eapply inv_same|].
    destruct (check_vpn _ _ _) as [[a b]|]; injection Hstep as <- <-; by eapply inv_same.
  - injection Hstep as <- <-. by eapply inv_same.
  - case_if in Hstep as E; injection Hstep as <- <-; [by eapply inv_same|].
    eapply inv_update; try done. right. split; [apply keeps_heartbeat|done].
  - injection Hstep as <- <-. eapply inv_update; try done. right. split; [apply keeps_vpn|done].
  - injection Hstep as <- <-. by eapply inv_same.
  - destruct (take_control _ _ _) as [[taken s1]|] eqn:E; injection Hstep as <- <-; [by eapply inv_take_control|].
    apply (inv_reject w tid _ Hi Ht); auto. unfold take_control in E. case_if in E as Eo; [|done]. by bool_to_prop.
  - pose proof (inv_CClose w tid taken Hi Ht) as Hcc. cbn in Hcc.
    destruct (tk_stopping taken); by injection Hstep as <- <-.
  - injection Hstep as <- <-. destruct (update_same now (publish_control_release mode) (server w)) as [S1 O1].
    destruct (close_same tid (update now (publish_control_release mode) (server w))) as (S2 & O2 & D2).
    apply (inv_quit w tid _ _ Hi Ht);
      [by eapply same_session_trans|by apply Hnc|by apply Hnd|by rewrite O2, O1|].
    intros Hdc%D2. by apply update_moves in Hdc; [|apply moves_control_release].
  - destruct (attach_data _ _ _) as [s1|] eqn:E; injection Hstep as <- <-; [by eapply inv_attach|].
    apply (inv_reject w tid _ Hi Ht); auto.
  - destruct ok; injection Hstep as <- <-; [|by eapply inv_same].
    eapply inv_keep; try done; destruct w as [s ths]; destruct s; cbn; try done. intros r Hr.
    destruct (decide (r = nextRelay0)) as [->|Hne]; [by left|right]. set_solver.
  - destruct (bind_relay _ _ _ _) as [s1|] eqn:E; injection Hstep as <- <-; [by eapply inv_bind|].
    destruct (close_relay_same (Some relay) (server w)) as (S1 & O1 & D1).
    destruct (close_same tid (close_relay (Some relay) (server w))) as (S2 & O2 & D2).
    apply (inv_quit w tid _ _ Hi Ht);
      [by eapply same_session_trans|by apply Hnc|by eapply bind_refused|intros r Hr; apply O1; rewrite <-O2; exact Hr|by auto].
  - injection Hstep as <- <-. by eapply inv_same.
  - injection Hstep as <- <-. eapply inv_update; try done. right. split; [apply keeps_heartbeat|done].
  - destruct (take_data _ _) as [[[r b] s1]|] eqn:E; injection Hstep as <- <-; [by eapply inv_take_data|].
    apply (inv_reject w tid _ Hi Ht); auto. unfold take_data in E. case_if in E as Eo; [|done]. by bool_to_prop.
  - pose proof (inv_DClose w now tid relay publish st Hi Ht) as Hdc. cbn in Hdc.
    destruct publish; by injection Hstep as <- <-.
  - injection Hstep as <- <-. eapply inv_update; try done. left. apply moves_data_release.
  - case_if in Hstep as E; injection Hstep as <- <-; by eapply inv_same.
  - cbv zeta in Hstep. case_if in Hstep as E; injection Hstep as <- <-; by eapply inv_same.
  - injection Hstep as <- <-. eapply inv_update; try done. left. apply moves_mapping.
  - destruct (dataRelay (server w)); injection Hstep as <- <-; by eapply inv_same.
  - injection Hstep as <- <-. eapply inv_update; try done. right. split; [apply keeps_relay|done].
  - injection Hstep as <- <-. eapply inv_update; try done. right. split; [apply keeps_stop|done].
  - injection Hstep as <- <-. by apply inv_take_all.
  - injection Hstep as <- <-. eapply inv_update; try done. right. split; [apply keeps_stopping|done].
  - injection Hstep as <- <-. by apply inv_SClose.
Qed.

Lemma world_step_inv w w' : session_inv w → world_step w w' → session_inv w'.
Proof.
  intros Hi [tid t Hn Ht|now tid t i t' s' Ht Hs]; [by apply inv_spawn|by eapply thread_step_inv].
Qed.

Lemma reachable_inv w : reachable w → session_inv w.
Proof.
  intros (st & disk & proxy & Htr & Hr).
  assert (session_inv (start st disk proxy)) as H0 by (split; cbn; try done).
  revert H0. induction Hr as [|a b c Hs _ IH]; [done|]. intros Ha. apply IH. by eapply world_step_inv.
Qed.

(** * Theorems *)

(** C1: sessions are consistent in every interleaving.  A data connection
    occupies its slot only while a VPN control session does, its handler is
    alive and presented exactly the current session token; an occupied
    control slot belongs to a live handler of the recorded mode; a relay sits
    in the slot only for a data handler that bound it; and once the daemon is
    stopping no slot is occupied again. *)
Theorem sessions_consistent w :
  reachable w →
  let s := server w in
  (∀ d, dataConnection s = Some d →
     controlMode s = vpn ∧
     (∃ c tc, controlConnection s = Some c ∧ threads w !! c = Some tc ∧ control_live tc = Some vpn) ∧
     ∃ td, threads w !! d = Some td ∧ data_live td = Some (controlToken s)) ∧
  (∀ c, controlConnection s = Some c →
     ∃ tc, threads w !! c = Some tc ∧ control_live tc = Some (controlMode s)) ∧
  (∀ r, dataRelay s = Some r → ∃ d td, dataConnection s = Some d ∧ threads w !! d = Some td ∧ bound td = true) ∧
  (stopping s = true → controlConnection s = None ∧ dataConnection s = None ∧ dataRelay s = None).
Proof.
  intros Hr%reachable_inv. cbv zeta.
  assert (Hnone : dataConnection (server w) = None → dataRelay (server w) = None).
  { intros E. destruct (dataRelay (server w)) as [r|] eqn:Er; [|done].
    destruct (i_relay _ Hr _ Er) as (? & ? & ? & _). congruence. }
  split_and!; [|apply (i_control _ Hr)|apply (i_relay _ Hr)|].
  - intros d Hd. destruct (i_data_control _ Hr _ Hd) as [[c Hc] Hm]. split_and!; [done| |by apply (i_data _ Hr)].
    destruct (i_control _ Hr _ Hc) as (tc & ? & ?). exists c, tc. split_and!; congruence.
  - intros Hs. apply (i_stopping _ Hr) in Hs as Hc.
    assert (dataConnection (server w) = None).
    { destruct (dataConnection (server w)) as [d|] eqn:Ed; [|done].
      destruct (i_data_control _ Hr _ Ed) as [[? ?] _]. congruence. }
    auto.
Qed.

Definition all_done (w : World) : Prop := ∀ tid t, threads w !! tid = Some t → t = Done.

(** C3: no relay is leaked.  In every interleaving of handshakes, control and
    data losses, failed relay starts and shutdown, each relay that is still
    open is the one in the data slot or is held by a thread that will bind or
    close it; when all handlers have finished, every slot is free and every
    relay has been closed. *)
Theorem relays_not_leaked w :
  reachable w →
  (∀ r, r ∈ openRelays (server w) →
     dataRelay (server w) = Some r ∨ ∃ tid t, threads w !! tid = Some t ∧ held t = Some r) ∧
  (all_done w → controlConnection (server w) = None ∧ dataConnection (server w) = None ∧
                openRelays (server w) = ∅).
Proof.
  intros Hr%reachable_inv. split; [apply (i_open _ Hr)|]. intros Hd.
  assert (controlConnection (server w) = None) as Hc.
  { destruct (controlConnection (server w)) as [c|] eqn:Ec; [|done].
    destruct (i_control _ Hr _ Ec) as (t & ->%Hd & ?). done. }
  assert (dataConnection (server w) = None) as Hdc.
  { destruct (dataConnection (server w)) as [d|] eqn:Ed; [|done].
    destruct (i_data _ Hr _ Ed) as (t & ->%Hd & ?). done. }
  split_and!; [done..|]. apply elem_of_equiv_empty_L. intros r Hin.
  destruct (i_open _ Hr r Hin) as [Hrel|(tid & t & ->%Hd & ?)]; [|done].
  destruct (i_relay _ Hr _ Hrel) as (? & ? & ? & _). congruence.
Qed.

(** C9: DATA_CONNECTED is never left behind.  Whenever the published
    transport state says DATA_CONNECTED, there is a data connection, or the
    daemon is stopping, or a handler that has just lost the session has yet
    to publish; so when all handlers have finished and the daemon is not
    stopping, the published state says otherwise. *)
Theorem data_state_follows w :
  reachable w → data_connected (server w) →
  (is_Some (dataConnection (server w)) ∨ stopping (server w) = true ∨
   ∃ tid t, threads w !! tid = Some t ∧ republishes t = true) ∧
  (all_done w → stopping (server w) = true).
Proof.
  intros Hr%reachable_inv Hdc. pose proof (i_transport _ Hr Hdc) as Ht. split; [done|].
  intros Hd. destruct Ht as [[d Hdd]|[?|(tid & t & ->%Hd & ?)]]; [|done|done].
  destruct (i_data _ Hr _ Hdd) as (t & ->%Hd & ?). done.
Qed.

(** ** Handlers finish on their own *)

(** An input that ends the open-ended states. *)
Definition leave_input (t : Thread) : Input :=
  match t with
  | CPublish _ _ | CServe _ | DServe _ => Leave
  | DRelay _ => RelayReady false
  | DClose _ _ | LRefresh => Stats state.zeroRelayStats
  | _ => Go
  end.

Definition steps_left (t : Thread) : nat :=
  match t with
  | CStart _ _ => 6 | CApply _ _ _ => 6 | CPublish _ _ | CServe _ => 5 | CRelease _ => 4 | CTake _ _ => 3
  | CClose _ => 2 | CRepublish _ => 1
  | DStart _ => 5 | DBind _ _ => 5 | DRelay _ => 4 | DServe _ => 4 | DRelease _ => 3 | DClose _ _ => 2 | DRepublish => 1
  | MCheck _ => 3 | MRead _ => 2 | MPublish _ _ => 1
  | LStatus => 2 | LRefresh => 1 | LStop => 1
  | SStart => 3 | SPublish _ _ _ => 2 | SClose _ _ _ => 1
  | Done => 0
  end.

Lemma leave_progress now tid t s :
  t ≠ Done → ∃ t' s', thread_step now tid t (leave_input t) s = Some (t', s') ∧ (steps_left t' < steps_left t)%nat.
Proof.
  intros Ht. destruct t; cbn [leave_input thread_step]; try done;
    try (do 2 eexists; split; [reflexivity|cbn; lia]).
  - destruct (admit_control _ _ _ _) as [[b s']|]; do 2 eexists; (split; [reflexivity|cbn; lia]).
  - destruct (take_control _ _ _) as [[b s']|]; do 2 eexists; (split; [reflexivity|cbn; lia]).
  - cbv zeta. destruct (tk_stopping taken); do 2 eexists; (split; [reflexivity|cbn; lia]).
  - destruct (attach_data _ _ _) as [s'|]; do 2 eexists; (split; [reflexivity|cbn; lia]).
  - destruct (bind_relay _ _ _ _) as [s'|]; do 2 eexists; (split; [reflexivity|cbn; lia]).
  - destruct (take_data _ _) as [[[r b] s']|]; do 2 eexists; (split; [reflexivity|cbn; lia]).
  - cbv zeta. destruct publish; do 2 eexists; (split; [reflexivity|cbn; lia]).
  - destruct (_ || _); do 2 eexists; (split; [reflexivity|cbn; lia]).
  - cbv zeta. destruct (_ && _); do 2 eexists; (split; [reflexivity|cbn; lia]).
  - destruct (dataRelay s); do 2 eexists; (split; [reflexivity|cbn; lia]).
Qed.

(** No handler gets stuck.  Whatever state the other handlers left the
    server in, a handler whose peer has gone runs to its end by itself within
    six of its own steps: no step waits for another handler, and releasing is
    always possible. *)
Theorem handlers_finish (now : Time) w tid t :
  threads w !! tid = Some t →
  ∃ n w', (n ≤ 6)%nat ∧ nsteps world_step n w w' ∧ threads w' !! tid = Some Done.
Proof.
  assert (∀ k w t, (steps_left t ≤ k)%nat → threads w !! tid = Some t →
    ∃ n w', (n ≤ k)%nat ∧ nsteps world_step n w w' ∧ threads w' !! tid = Some Done) as Hgen.
  { clear w t. induction k as [|k IH]; intros w t Hk Ht.
    - destruct t; cbn in Hk; try lia. exists 0%nat, w. split_and!; [done|constructor|done].
    - destruct (decide (steps_left t = 0%nat)) as [E|E].
      + destruct t; cbn in E; try lia. exists 0%nat, w. split_and!; [lia|constructor|done].
      + destruct (leave_progress now tid t (server w)) as (t' & s' & Hs & Hl); [by intros ->|].
        destruct (IH (mkWorld s' (<[tid := t']> (threads w))) t') as (n & w' & Hn & Hsteps & Hd);
          [lia|by cbn; rewrite lookup_insert_eq|].
        exists (S n), w'. split_and!; [lia| |done]. econstructor; [|done]. by eapply step_thread. }
  intros Ht. apply (Hgen 6%nat w t); [|done]. destruct t; cbn; lia.
Qed.

(** ** Executable runs *)

Inductive command :=
| Spawn (tid : nat) (t : Thread)
| Move (now : Time) (tid : nat) (i : Input).

Definition world_exec1 (w : World) (c : command) : option World :=
  match c with
  | Spawn tid t =>
      if bool_decide (threads w !! tid = None) && initial t
      then Some (mkWorld (server w) (<[tid := t]> (threads w))) else None
  | Move now tid i =>
      t ← threads w !! tid;
      r ← thread_step now tid t i (server w);
      Some (mkWorld r.2 (<[tid := r.1]> (threads w)))
  end.

Fixpoint world_exec (w : World) (cs : list command) : option World :=
  match cs with [] => Some w | c :: cs => w' ← world_exec1 w c; world_exec w' cs end.

Lemma world_exec_steps w cs w' : world_exec w cs = Some w' → rtc world_step w w'.
Proof.
  revert w. induction cs as [|c cs IH]; intros w; cbn [world_exec]; [by intros [= <-]|].
  destruct (world_exec1 w c) as [w1|] eqn:E; [|done]. cbn. intros Hr. eapply rtc_l; [|by apply IH].
  destruct c as [tid t|now tid i]; cbn in E.
  - case_if in E as Ec; [|done]. injection E as <-. bool_to_prop. by apply step_spawn.
  - destruct (threads w !! tid) as [t|] eqn:Et; [|done]. cbn in E.
    destruct (thread_step _ _ _ _ _) as [[t' s']|] eqn:Es; [|done]. injection E as <-. by eapply step_thread.
Qed.
End session.
#[global] Hint Rewrite get_update get_close_conn get_close_conn_opt get_close_relay : session_get.

(** ** Concrete runs *)

Definition sample_store : state.Store := state.NewStore (state.NewStarting 0 (str "device-01") 27183).
Definition sample_start : World := start sample_store (mkOS ∅ []) false.

Definition sample_run (cs : list command) : option World :=
  world_exec state.label_codec 42 (str "/run/state.json") sample_start cs.

Lemma sample_reachable cs w :
  sample_run cs = Some w → reachable state.label_codec 42 (str "/run/state.json") w.
Proof.
  intros Hr. exists sample_store, (mkOS ∅ []), false. split; [vm_compute; discriminate|].
  by eapply world_exec_steps.
Qed.

Definition t1 : gostring := str "token-1".
Definition t2 : gostring := str "token-2".

(** A control session on connection 1 with its data channel on 2. *)
Definition connect : list command :=
  [Spawn 1 (CStart vpn t1); Move 1 1 Go; Move 2 1 Go; Spawn 2 (DStart t1); Move 3 2 Go;
   Move 4 2 (RelayReady true); Move 5 2 Go].

(** Control is lost; both handlers finish. *)
Definition disconnect : list command :=
  [Move 6 1 Leave; Move 7 1 Go; Move 8 1 Go; Move 9 1 Go; Move 10 1 Go; Move 11 2 Leave; Move 12 2 Go].

(** A stale PORT_READY.  [releaseControl] frees the slot, then closes the
    relay and publishes without holding the lock.  A session admitted in
    between publishes CONTROL_CONNECTED first and is then overwritten: the
    daemon reports PORT_READY and RECONNECTING for a live control session and
    nothing further is pending. *)
Definition stale_release : list command :=
  connect ++
  [Move 6 1 Leave; Move 7 1 Go; Move 8 1 Go;                   (* slot freed, not yet published *)
   Spawn 3 (CStart vpn t2); Move 9 3 Go; Move 10 3 Go;         (* the App reconnects *)
   Move 11 1 Go; Move 12 1 Go;                                 (* the old handler publishes *)
   Move 13 2 Leave; Move 14 2 Go].

Theorem stale_control_release :
  ∃ w, reachable state.label_codec 42 (str "/run/state.json") w ∧
    controlConnection (server w) = Some 3%nat ∧ threads w !! 3%nat = Some (CServe vpn) ∧
    (∀ tid t, threads w !! tid = Some t → tid ≠ 3%nat → t = Done) ∧
    state.Transport (get (server w)) = state.TransportPortReady ∧
    state.VPN (get (server w)) = state.VPNReconnecting.
Proof.
  destruct (sample_run stale_release) as [w|] eqn:E; [|vm_compute in E; discriminate].
  exists w. split; [by eapply sample_reachable|]. vm_compute in E. injection E as <-.
  split_and!; [reflexivity|reflexivity| |reflexivity|reflexivity].
  intros tid t Ht Hne. apply elem_of_map_to_list in Ht. vm_compute in Ht. set_solver.
Qed.


(** ACTIVE without a data channel.  [applyVPNStatus] checks for the data
    connection under the lock and publishes after releasing it; a data loss
    in between publishes RECONNECTING first and is then overwritten. *)
Definition late_active : list command :=
  connect ++
  [Move 6 1 (Report state.VPNActive);                                       (* the check passes *)
   Move 7 2 Leave; Move 8 2 Go; Move 9 2 (Stats state.zeroRelayStats); Move 10 2 Go;   (* data is lost *)
   Move 11 1 Go].                                                           (* ACTIVE is published *)

Theorem active_without_data :
  ∃ w, reachable state.label_codec 42 (str "/run/state.json") w ∧
    dataConnection (server w) = None ∧ dataRelay (server w) = None ∧
    (∀ tid t, threads w !! tid = Some t → t = CServe vpn ∨ t = Done) ∧
    state.Transport (get (server w)) = state.TransportControlConnected ∧
    state.VPN (get (server w)) = state.VPNActive.
Proof.
  destruct (sample_run late_active) as [w|] eqn:E; [|vm_compute in E; discriminate].
  exists w. split; [by eapply sample_reachable|]. vm_compute in E. injection E as <-.
  split_and!; [reflexivity|reflexivity| |reflexivity|reflexivity].
  intros tid t Ht. apply elem_of_map_to_list in Ht. vm_compute in Ht. set_solver.
Qed.

(** Witnesses: the connected state, and the state after a clean loss. *)
Lemma sessions_consistent_witness :
  ∃ w, sample_run connect = Some w ∧ dataConnection (server w) = Some 2%nat ∧
    controlMode (server w) = vpn.
Proof.
  destruct (sample_run connect) as [w|] eqn:E; [|vm_compute in E; discriminate].
  exists w. split; [reflexivity|]. apply sample_reachable in E as Hr.
  assert (dataConnection (server w) = Some 2%nat) as Hd by (vm_compute in E; by injection E as <-).
  destruct (sessions_consistent _ _ _ w Hr) as (Hc & _). split; [done|]. by apply (Hc 2%nat).
Defined.

Lemma relays_not_leaked_witness :
  ∃ w, sample_run (connect ++ disconnect) = Some w ∧ openRelays (server w) = ∅.
Proof.
  destruct (sample_run (connect ++ disconnect)) as [w|] eqn:E; [|vm_compute in E; discriminate].
  exists w. split; [reflexivity|]. apply sample_reachable in E as Hr.
  apply (relays_not_leaked _ _ _ w Hr). intros tid t Ht. vm_compute in E. injection E as <-.
  apply elem_of_map_to_list in Ht. vm_compute in Ht. set_solver.
Defined.

Lemma data_state_follows_witness :
  ∃ w, sample_run connect = Some w ∧
    (is_Some (dataConnection (server w)) ∨ stopping (server w) = true ∨
     ∃ tid t, threads w !! tid = Some t ∧ republishes t = true).
Proof.
  destruct (sample_run connect) as [w|] eqn:E; [|vm_compute in E; discriminate].
  exists w. split; [reflexivity|]. apply sample_reachable in E as Hr.
  apply (data_state_follows _ _ _ w Hr). vm_compute in E. by injection E as <-.
Defined.

Lemma handlers_finish_witness :
  ∃ n w', (n ≤ 6)%nat ∧
    nsteps (world_step state.label_codec 42 (str "/run/state.json")) n
      (mkWorld (server sample_start) {[7%nat := CServe vpn]}) w' ∧
    threads w' !! 7%nat = Some Done.
Proof.
  apply (handlers_finish state.label_codec 42 (str "/run/state.json") 0
           (mkWorld (server sample_start) {[7%nat := CServe vpn]}) 7 (CServe vpn)).
  reflexivity.
Defined.
End session.
