(* ===== verification/SessionSpec.v ===== *)
(** The session service as its peers see it, and the refinement of the daemon
    to it.

    [Spec] is a six-action automaton: a session is admitted, a data channel
    attaches and binds a relay, either is dropped, the service stops.
    [session_refines] shows that the visible actions of every interleaving of
    the handlers of [Session] form a run of the automaton. *)
From S2P Require Import Prelude Errors GoStrings GoOS Protocol State Daemon Session.
Import session.

Module sessionspec.

(** * The abstract service *)

Record Active := mkActive {
  a_owner : nat;
  a_mode : gostring;
  a_token : gostring;
  a_data : option (nat * option nat);   (* data connection and its relay *)
}.

(** [Open pending active]: serving, an interrupted VPN session pending or
    not, with the current session if any. *)
Inductive Spec :=
| Open (pending : bool) (active : option Active)
| Closed.

Inductive action :=
| Admit (c : nat) (mode token : gostring) (isReconnect : bool)
| Attach (d : nat) (token : gostring)
| Bind (d r : nat)
| DropData (d : nat)
| DropControl (c : nat) (interrupted : bool)
| Stop.

Definition with_data (a : Active) (data : option (nat * option nat)) : Active :=
  mkActive (a_owner a) (a_mode a) (a_token a) data.

(** The automaton; [None]: the action is not allowed here. *)
Definition spec_act (x : action) (spec : Spec) : option Spec :=
  match spec, x with
  | _, Stop => Some Closed
  | Open pending None, Admit c mode token isReconnect =>
      let isVPN := streq mode vpn in
      if Bool.eqb isReconnect (isVPN && pending)
      then Some (Open (pending && negb isVPN) (Some (mkActive c mode token None))) else None
  | Open pending (Some a), Attach d token =>
      if streq (a_mode a) vpn && streq (a_token a) token && bool_decide (a_data a = None)
      then Some (Open pending (Some (with_data a (Some (d, None))))) else None
  | Open pending (Some a), Bind d r =>
      if bool_decide (a_data a = Some (d, None))
      then Some (Open pending (Some (with_data a (Some (d, Some r))))) else None
  | Open pending (Some a), DropData d =>
      if bool_decide (fst <$> a_data a = Some d)
      then Some (Open pending (Some (with_data a None))) else None
  | Open pending (Some a), DropControl c interrupted =>
      if bool_decide (a_owner a = c)
      then Some (Open (pending || (streq (a_mode a) vpn && interrupted)) None) else None
  | _, _ => None
  end.

Fixpoint spec_run (spec : Spec) (trace : list action) : option Spec :=
  match trace with
  | [] => Some spec
  | x :: trace => spec' ← spec_act x spec; spec_run spec' trace
  end.

(** * The daemon's visible actions *)

Definition abs (s : Server) : Spec :=
  if stopping s then Closed
  else Open (reconnectPending s)
    ((λ c, mkActive c (controlMode s) (controlToken s)
             ((λ d, (d, dataRelay s)) <$> dataConnection s)) <$> controlConnection s).

(** The action a thread step performs, read off the program counter. *)
Definition visible (tid : nat) (t t' : Thread) : option action :=
  match t, t' with
  | CStart mode token, CPublish _ isReconnect => Some (Admit tid mode token isReconnect)
  | DStart token, DRelay _ => Some (Attach tid token)
  | DBind _ r, DServe _ => Some (Bind tid r)
  | DRelease _, DClose _ _ => Some (DropData tid)
  | CTake _ previousVPN, CClose _ => Some (DropControl tid (negb (streq previousVPN state.VPNStopped)))
  | SStart, SPublish _ _ _ => Some Stop
  | _, _ => None
  end.

Section sessionspec.
Variable MarshalIndent : state.Snapshot → result error (list byte).
Variable pid : Z.
Variable stateFile : gostring.
#[local] Abbreviation thread_step := (thread_step MarshalIndent pid stateFile).
#[local] Abbreviation update := (update MarshalIndent pid stateFile).
#[local] Abbreviation world_step := (world_step MarshalIndent pid stateFile).

(** Executions with their visible actions. *)
Inductive runs : World → list action → World → Prop :=
| runs_nil w : runs w [] w
| runs_spawn w tid t trace w' :
    threads w !! tid = None → initial t = true →
    runs (mkWorld (server w) (<[tid := t]> (threads w))) trace w' → runs w trace w'
| runs_move w now tid t i t' s' trace w' :
    threads w !! tid = Some t → thread_step now tid t i (server w) = Some (t', s') →
    runs (mkWorld s' (<[tid := t']> (threads w))) trace w' →
    runs w (option_list (visible tid t t') ++ trace) w'.

(** Every execution has its trace. *)
Lemma rtc_runs w w' : rtc world_step w w' → ∃ trace, runs w trace w'.
Proof.
  induction 1 as [w|w1 w2 w3 [tid t Hn Hi|now tid t i t' s' Ht Hs] _ [trace IH]].
  - exists []. constructor.
  - exists trace. by eapply runs_spawn.
  - eexists. by eapply runs_move.
Qed.

(** ** Effects that are invisible *)

Lemma abs_update now f s : abs (update now f s) = abs s.
Proof. destruct (update_spec MarshalIndent pid stateFile now f s) as (st & disk & -> & _). by destruct s. Qed.
Lemma abs_close_conn c s : abs (close_conn c s) = abs s.
Proof. by destruct s. Qed.
Lemma abs_close_conn_opt c s : abs (close_conn_opt c s) = abs s.
Proof. by destruct c, s. Qed.
Lemma abs_close_relay r s : abs (close_relay r s) = abs s.
Proof. by destruct r, s. Qed.
Lemma abs_set_openRelays v s : abs (set_openRelays v s) = abs s.
Proof. by destruct s. Qed.
Hint Rewrite abs_update abs_set_openRelays abs_close_conn abs_close_conn_opt abs_close_relay : session_abs.

(** ** The critical sections implement the actions *)

Lemma admit_refines c mode token b s s' :
  admit_control c mode token s = Some (b, s') →
  dataConnection s = None →
  spec_act (Admit c mode token b) (abs s) = Some (abs s').
Proof.
  unfold admit_control, abs. destruct s; cbn -[vpn]. intros H ->. case_if in H as E; [done|]. bool_to_prop. subst.
  destruct controlConnection0; [exfalso; eauto|]. injection H as <- <-.
  cbn -[vpn]. by destruct (streq mode vpn), reconnectPending0.
Qed.

Lemma attach_refines d token s s' :
  attach_data d token s = Some s' → dataRelay s = None →
  spec_act (Attach d token) (abs s) = Some (abs s').
Proof.
  unfold attach_data, abs. destruct s; cbn -[vpn]. intros H ->. case_if in H as E; [done|]. bool_to_prop. injection H as <-. subst.
  destruct controlConnection0; [|done]. destruct dataConnection0; [exfalso; eauto|]. cbn.
  by rewrite !bool_decide_eq_true_2.
Qed.

Lemma bind_refines now d r s s' :
  bind_relay MarshalIndent pid stateFile now d r s = Some s' → dataRelay s = None →
  spec_act (Bind d r) (abs s) = Some (abs s').
Proof.
  unfold bind_relay. case_if as E; [done|]. bool_to_prop. intros [= <-] Hr. rewrite abs_update.
  unfold abs. destruct s; cbn in *. subst. destruct controlConnection0; [|done]. cbn.
  by rewrite bool_decide_eq_true_2.
Qed.

Lemma take_data_refines d s r b s' :
  take_data d s = Some (r, b, s') → is_Some (controlConnection s) → stopping s = false →
  spec_act (DropData d) (abs s) = Some (abs s').
Proof.
  unfold take_data. case_if as E; [done|]. bool_to_prop. intros [= <- <- <-] [c Hc] Hs.
  unfold abs. destruct s; cbn in *. subst. cbn. by rewrite bool_decide_eq_true_2.
Qed.

Lemma take_control_refines c v s taken s' :
  take_control c v s = Some (taken, s') → stopping s = false →
  spec_act (DropControl c (negb (streq v state.VPNStopped))) (abs s) = Some (abs s').
Proof.
  unfold take_control. case_if as E; [done|]. bool_to_prop. cbn [tk_mode tk_stopping]. intros [= <- <-] Hs.
  unfold abs. destruct s; cbn -[vpn] in *. subst. cbn -[vpn].
  rewrite bool_decide_eq_true_2, andb_true_r by done.
  destruct (streq controlMode0 vpn && _); cbn; by rewrite ?orb_true_r, ?orb_false_r.
Qed.

(** ** Simulation *)

Lemma empty_slots w :
  session_inv w → controlConnection (server w) = None → dataConnection (server w) = None.
Proof.
  intros Hi Hc. destruct (dataConnection (server w)) as [d|] eqn:E; [|done].
  destruct (i_data_control _ Hi _ E) as [[? ?] _]. congruence.
Qed.

Lemma unbound_relay w tid t :
  session_inv w → threads w !! tid = Some t → bound t = false →
  dataConnection (server w) = None ∨ dataConnection (server w) = Some tid → dataRelay (server w) = None.
Proof.
  intros Hi Ht Hb Hd. destruct (dataRelay (server w)) as [r|] eqn:E; [|done].
  destruct (i_relay _ Hi _ E) as (d & x & ? & ? & ?). destruct Hd; simplify_eq; congruence.
Qed.

Lemma owner_open w c : session_inv w → controlConnection (server w) = Some c → stopping (server w) = false.
Proof. intros Hi Hc. destruct (stopping (server w)) eqn:E; [|done]. apply (i_stopping _ Hi) in E. congruence. Qed.

Lemma spec_run_one x spec : spec_run spec (option_list (Some x)) = spec_act x spec.
Proof. cbn. by destruct (spec_act x spec). Qed.

Lemma spec_act_stop spec : spec_act Stop spec = Some Closed.
Proof. by destruct spec as [? []|]. Qed.

#[local] Ltac invisible := cbn [visible]; change (option_list None) with (@nil action); cbn [spec_run];
  by autorewrite with session_abs.

(** One step is one allowed action or invisible. *)
Lemma step_refines w now tid t i t' s' :
  session_inv w → threads w !! tid = Some t → thread_step now tid t i (server w) = Some (t', s') →
  spec_run (abs (server w)) (option_list (visible tid t t')) = Some (abs s').
Proof.
  intros Hi Ht Hs. destruct t, i; try discriminate Hs; cbn [session.thread_step] in Hs;
    try (injection Hs as <- <-; invisible).
  - destruct (admit_control _ _ _ _) as [[b s1]|] eqn:E; injection Hs as <- <-; cbn [visible]; [rewrite spec_run_one|invisible].
    rewrite (admit_refines _ _ _ _ _ _ E); [done|]. apply empty_slots; [done|].
    unfold admit_control in E. case_if in E as Ec; [done|]. bool_to_prop.
    destruct (controlConnection (server w)); [exfalso; eauto|done].
  - case_if in Hs as E; [by injection Hs as <- <-|].
    by destruct (check_vpn _ _ _) as [[a b]|]; injection Hs as <- <-.
  - case_if in Hs as E; injection Hs as <- <-; invisible.
  - destruct (take_control _ _ _) as [[taken s1]|] eqn:E; injection Hs as <- <-; cbn [visible]; [rewrite spec_run_one|invisible].
    rewrite (take_control_refines _ _ _ _ _ E); [done|]. eapply owner_open; [done|].
    unfold take_control in E. case_if in E as Ec; [done|]. by bool_to_prop.
  - cbv zeta in Hs. destruct (tk_stopping taken); injection Hs as <- <-; invisible.
  - destruct (attach_data _ _ _) as [s1|] eqn:E; injection Hs as <- <-; cbn [visible]; [rewrite spec_run_one|invisible].
    rewrite (attach_refines _ _ _ _ E); [done|]. eapply unbound_relay; [done..|]. left.
    unfold attach_data in E. case_if in E as Ec; [done|]. bool_to_prop.
    destruct (dataConnection (server w)); [exfalso; eauto|done].
  - destruct ok; injection Hs as <- <-; cbn; [|done]. by destruct w as [[] ?].
  - destruct (bind_relay _ _ _ _ _ _ _) as [s1|] eqn:E; injection Hs as <- <-; cbn [visible]; [rewrite spec_run_one|invisible].
    rewrite (bind_refines _ _ _ _ _ E); [done|]. eapply unbound_relay; [done..|]. right.
    unfold bind_relay in E. case_if in E as Ec; [done|]. by bool_to_prop.
  - destruct (take_data _ _) as [[[r b] s1]|] eqn:E; injection Hs as <- <-; cbn [visible]; [rewrite spec_run_one|invisible].
    assert (dataConnection (server w) = Some tid) as Hd.
    { unfold take_data in E. case_if in E as Ec; [done|]. by bool_to_prop. }
    destruct (i_data_control _ Hi _ Hd) as [[c Hc] _].
    rewrite (take_data_refines _ _ _ _ _ E); [done|by eauto|by eapply owner_open].
  - cbv zeta in Hs. destruct publish, relay; injection Hs as <- <-; invisible.
  - case_if in Hs as E; by injection Hs as <- <-.
  - cbv zeta in Hs. case_if in Hs as E; by injection Hs as <- <-.
  - destruct (dataRelay (server w)); by injection Hs as <- <-.
  - injection Hs as <- <-. cbn [visible]. by rewrite spec_run_one, spec_act_stop.
Qed.

Lemma spec_run_app spec tr1 tr2 :
  spec_run spec (tr1 ++ tr2) = (spec' ← spec_run spec tr1; spec_run spec' tr2).
Proof.
  revert spec. induction tr1 as [|x tr1 IH]; intros spec; [done|]. cbn. by destruct (spec_act x spec); cbn.
Qed.

Lemma runs_refine w trace w' :
  runs w trace w' → session_inv w → spec_run (abs (server w)) trace = Some (abs (server w')).
Proof.
  induction 1 as [w|w tid t trace w' Hn Ht _ IH|w now tid t i t' s' trace w' Ht Hs _ IH]; intros Hi; [done|..].
  - apply IH. by apply inv_spawn.
  - rewrite spec_run_app, (step_refines _ _ _ _ _ _ _ Hi Ht Hs). apply IH. by eapply thread_step_inv.
Qed.

Lemma start_world_inv st disk proxy :
  state.Transport (state.Get st) ≠ state.TransportDataConnected → session_inv (start st disk proxy).
Proof. intros H. by split. Qed.

(** C2: the daemon implements the session service.  The visible actions of
    every interleaving of handshakes, losses, monitor marks and shutdown are a
    run of the abstract automaton, which ends in the abstraction of the
    server's fields: one session at a time; a data channel only for the
    current VPN session's token, one at a time; a relay bound once per data
    channel; drops only by the owner; a session counted as a reconnect
    exactly when a VPN session was interrupted since the last VPN admission;
    nothing after a stop but stops. *)
Theorem session_refines st disk proxy trace w :
  state.Transport (state.Get st) ≠ state.TransportDataConnected →
  runs (start st disk proxy) trace w →
  spec_run (Open false None) trace = Some (abs (server w)).
Proof. intros Ht Hr. apply (runs_refine _ _ _ Hr). by apply start_world_inv. Qed.

(** ** Executable traces *)

Fixpoint trace_exec (w : World) (cs : list command) : option (list action * World) :=
  match cs with
  | [] => Some ([], w)
  | c :: cs =>
      w' ← world_exec1 MarshalIndent pid stateFile w c;
      r ← trace_exec w' cs;
      let x := match c with
               | Spawn _ _ => None
               | Move _ tid _ => t ← threads w !! tid; t' ← threads w' !! tid; visible tid t t'
               end in
      Some (option_list x ++ r.1, r.2)
  end.

Lemma trace_exec_runs w cs trace w' : trace_exec w cs = Some (trace, w') → runs w trace w'.
Proof.
  revert w trace. induction cs as [|c cs IH]; intros w trace; cbn [trace_exec]; [intros [= <- <-]; constructor|].
  destruct (world_exec1 _ _ _ w c) as [w1|] eqn:E; [|done]. cbn.
  destruct (trace_exec w1 cs) as [[tr w2]|] eqn:E2; [|done]. cbn. intros [= <- <-]. apply IH in E2.
  destruct c as [tid t|now tid i]; cbn in E.
  - case_if in E as Ec; [|done]. injection E as <-. bool_to_prop. by eapply runs_spawn.
  - destruct (threads w !! tid) as [t|] eqn:Et; [|done]. cbn in E.
    destruct (session.thread_step _ _ _ _ _ _ _ _) as [[t' s']|] eqn:Es; [|done]. injection E as <-.
    cbn. rewrite lookup_insert_eq. cbn. by eapply runs_move.
Qed.
End sessionspec.

(** A session with its data channel, then the loss of control: the next VPN
    session will count as a reconnect. *)
Lemma session_refines_witness :
  let trace := [Admit 1 vpn t1 false; Attach 2 t1; Bind 2 0; DropControl 1 true] in
  ∃ w, trace_exec state.label_codec 42 (str "/run/state.json") sample_start (connect ++ disconnect) = Some (trace, w) ∧
    spec_run (Open false None) trace = Some (abs (server w)) ∧ abs (server w) = Open true None.
Proof.
  cbv zeta. destruct (trace_exec _ _ _ _ _) as [[trace w]|] eqn:E; [|vm_compute in E; discriminate].
  assert (trace = [Admit 1 vpn t1 false; Attach 2 t1; Bind 2 0; DropControl 1 true]) as ->
    by (vm_compute in E; by injection E as <- <-).
  exists w. split; [reflexivity|]. split.
  - apply (session_refines state.label_codec 42 (str "/run/state.json") sample_store (mkOS ∅ []) false).
    + vm_compute. discriminate.
    + by apply trace_exec_runs in E.
  - vm_compute in E. by injection E as <-.
Defined.
End sessionspec.
