(* ===== verification/Handlers.v ===== *)
(** The release paths of src/internal/daemon/server.go as the straight-line
    functions they are, line for line, the step machine of [Session] run
    without interruption, and what the published states can be.

    [handlers_uninterrupted] shows that cutting the functions into atomic
    steps lost nothing; [release_effects] what they do to the fields of the
    server and of the snapshot; [published_states_declared] that whatever the App
    reports and however the handlers interleave, the published status strings
    are among the constants src/internal/state/state.go declares. *)
From S2P Require Import Prelude Errors GoStrings GoOS Protocol State Daemon Session.
Import session.

Module handlers.

Section handlers.
Variable MarshalIndent : state.Snapshot → result error (list byte).
Variable pid : Z.
Variable stateFile : gostring.
#[local] Abbreviation thread_step := (thread_step MarshalIndent pid stateFile).
#[local] Abbreviation update := (update MarshalIndent pid stateFile).

Definition releaseControl (now : Time) (connection : nat) (s : Server) : Server :=
  let previous := get s in
  match take_control connection (state.VPN previous) s with
  | None => s
  | Some (taken, s) =>
      let s := close_conn_opt (tk_data taken) s in
      let s := close_relay (tk_relay taken) s in
      if negb (tk_stopping taken)
      then update now (publish_control_release (tk_mode taken)) s
      else s
  end.

(** [stats] is what the relay's [Snapshot] returns. *)
Definition releaseData (now : Time) (stats : state.RelayStats) (connection : nat) (failed : bool) (s : Server) : Server :=
  match take_data connection s with
  | None => s
  | Some (dataRelay, publish, s) =>
      let s := close_conn connection s in
      let s := match dataRelay with
               | Some _ => close_relay dataRelay (update now (state.set_Relay stats) s)
               | None => s
               end in
      if publish then update now (publish_data_release failed) s else s
  end.

Definition markMappingUnavailable (now : Time) (s : Server) : Server :=
  let controlConnected := bool_decide (is_Some (controlConnection s)) in
  if stopping s || controlConnected then s
  else
    let current := get s in
    let vpnStatus :=
      if streq (state.VPN current) state.VPNActive || streq (state.VPN current) state.VPNStarting ||
         streq (state.VPN current) state.VPNAuthRequired
      then state.VPNReconnecting else state.VPN current in
    let message := str "USB bridge unavailable; waiting for the selected Harmony device to reconnect" in
    if streq (state.Transport current) state.TransportDeviceOffline && streq (state.VPN current) vpnStatus &&
       streq (state.Message current) message && streq (state.LastErrorCode current) apperror.CodeRPortFailed
    then s
    else update now (λ snapshot,
      let snapshot := state.set_Transport state.TransportDeviceOffline snapshot in
      let snapshot := state.set_VPN vpnStatus snapshot in
      let snapshot := state.set_Message message snapshot in
      let snapshot := state.set_LastErrorCode apperror.CodeRPortFailed snapshot in
      state.set_LastError (str "The hdc reverse mapping is unavailable") snapshot) s.

Definition markMappingAvailable (now : Time) (s : Server) : Server :=
  let controlConnected := bool_decide (is_Some (controlConnection s)) in
  if stopping s || controlConnected then s
  else
    let current := get s in
    let vpnStatus :=
      if streq (state.VPN current) state.VPNActive || streq (state.VPN current) state.VPNStarting ||
         streq (state.VPN current) state.VPNAuthRequired
      then state.VPNReconnecting else state.VPN current in
    let message := str "USB bridge restored; waiting for HarmonyNetBridge App to reconnect" in
    if streq (state.Transport current) state.TransportPortReady && streq (state.VPN current) vpnStatus &&
       streq (state.Message current) message && streq (state.LastErrorCode current) (str "")
    then s
    else update now (λ snapshot,
      let snapshot := state.set_Transport state.TransportPortReady snapshot in
      let snapshot := state.set_VPN vpnStatus snapshot in
      let snapshot := state.set_Message message snapshot in
      let snapshot := state.set_LastErrorCode [] snapshot in
      state.set_LastError [] snapshot) s.

Definition refreshRelayStats (now : Time) (stats : state.RelayStats) (s : Server) : Server :=
  match dataRelay s with
  | None => s
  | Some _ => update now (state.set_Relay stats) s
  end.

(** The part of [shutdown] that ends the sessions. *)
Definition shutdown_sessions (now : Time) (s : Server) : Server :=
  let '((control, data, relay), s) := take_all s in
  let s := update now publish_stopping s in
  close_conn_opt control (close_relay relay (close_conn_opt data s)).

(** * A handler that is not interrupted *)

(** What ends an open-ended wait. *)
Definition last_input (stats : state.RelayStats) (t : Thread) : Input :=
  match t with DClose _ _ | LRefresh => Stats stats | t => leave_input t end.

Fixpoint alone (fuel : nat) (now : Time) (stats : state.RelayStats) (tid : nat) (t : Thread) (s : Server)
    : Thread * Server :=
  match fuel with
  | O => (t, s)
  | S fuel =>
      match thread_step now tid t (last_input stats t) s with
      | None => (t, s)
      | Some (t', s') => alone fuel now stats tid t' s'
      end
  end.

Lemma close_conn_twice c s : close_conn c (close_conn c s) = close_conn c s.
Proof. destruct s. unfold close_conn, set_closedConns. cbn. f_equal. set_solver. Qed.
Lemma close_conn_update c now f s : close_conn c (update now f s) = update now f (close_conn c s).
Proof. unfold session.update. destruct s. cbn. by destruct (state.WriteFile _ _ _ _ _). Qed.
Lemma close_conn_relay c r s : close_conn c (close_relay r s) = close_relay r (close_conn c s).
Proof. by destruct r. Qed.

#[local] Ltac walk := cbn [alone last_input leave_input session.thread_step]; cbv zeta.

(** Cutting the functions into atomic steps lost nothing: a handler that is
    not interrupted ends, within four steps, in the state the straight-line
    function computes. *)
Lemma handlers_uninterrupted now stats tid mode token s :
  alone 4 now stats tid (CRelease mode) s = (Done, close_conn tid (releaseControl now tid s)) ∧
  alone 4 now stats tid (DRelease token) s = (Done, close_conn tid (releaseData now stats tid true s)) ∧
  alone 4 now stats tid (MCheck false) s = (Done, markMappingUnavailable now s) ∧
  alone 4 now stats tid (MCheck true) s = (Done, markMappingAvailable now s) ∧
  alone 4 now stats tid LStatus s = (Done, refreshRelayStats now stats s) ∧
  alone 4 now stats tid SStart s = (Done, shutdown_sessions now s).
Proof.
  split_and!; walk.
  - unfold releaseControl. destruct (take_control _ _ _) as [[taken s1]|]; [|done].
    walk. by destruct (tk_stopping taken).
  - unfold releaseData. destruct (take_data _ _) as [[[r publish] s1]|]; [|done].
    walk. destruct publish, r as [r|]; walk;
      by rewrite ?close_conn_update, ?close_conn_relay, ?close_conn_update, ?close_conn_twice.
  - unfold markMappingUnavailable. destruct (_ || _); [done|]. walk.
    unfold mapping_transport, mapping_message, mapping_code, mapping_vpn. cbv iota. by destruct (_ && _).
  - unfold markMappingAvailable. change (str "") with (@nil byte). destruct (_ || _); [done|]. walk.
    unfold mapping_transport, mapping_message, mapping_code, mapping_vpn. cbv iota.
    destruct (decide (state.LastErrorCode (get s) = [])) as [E|E];
      [rewrite !(bool_decide_eq_true_2 (state.LastErrorCode (get s) = [])) by exact E
      |rewrite !(bool_decide_eq_false_2 (state.LastErrorCode (get s) = [])) by exact E];
      by destruct (_ && _).
  - unfold refreshRelayStats. by destruct (dataRelay s).
  - done.
Qed.

(** * What the release paths do

    Stated on the fields of the server and of the snapshot, before ([s]) and
    after ([s']). *)

Definition slots_free (s : Server) : Prop :=
  controlConnection s = None ∧ controlMode s = [] ∧ controlToken s = [] ∧ dataConnection s = None ∧ dataRelay s = None.

(** What a release leaves of the snapshot in any case. *)
Definition kept (snap snap' : state.Snapshot) : Prop :=
  state.Daemon snap' = state.Daemon snap ∧ state.Reconnects snap' = state.Reconnects snap ∧
  state.Device snap' = state.Device snap ∧ state.DevicePort snap' = state.DevicePort snap ∧
  state.Proxy snap' = state.Proxy snap.

Record control_released (tid : nat) (s s' : Server) : Prop := {
  cr_slots : slots_free s';
  cr_flags : stopping s' = stopping s ∧ proxySession s' = proxySession s;
  cr_closed : closedConns s' = {[tid]} ∪ option_to_set (dataConnection s) ∪ closedConns s;
  cr_relays : openRelays s' = openRelays s ∖ option_to_set (dataRelay s);
  cr_reconnect : reconnectPending s' = true ↔
    reconnectPending s = true ∨ controlMode s = vpn ∧ stopping s = false ∧ state.VPN (get s) ≠ state.VPNStopped;
  cr_kept : kept (get s) (get s');
  cr_stopping : stopping s = true → get s' = get s;
  cr_ended : stopping s = false → controlMode s = vpn → state.VPN (get s) = state.VPNStopped →
    state.Transport (get s') = state.TransportPortReady ∧ state.VPN (get s') = state.VPNStopped ∧
    state.LastErrorCode (get s') = [] ∧ state.LastError (get s') = [];
  cr_lost : stopping s = false → controlMode s = vpn → state.VPN (get s) ≠ state.VPNStopped →
    state.Transport (get s') = state.TransportPortReady ∧ state.VPN (get s') = state.VPNReconnecting ∧
    state.LastErrorCode (get s') = apperror.CodeAppDisconnected;
  cr_phase1 : stopping s = false → controlMode s ≠ vpn →
    state.Transport (get s') = state.TransportPortReady ∧ state.VPN (get s') = state.VPNStopped ∧
    state.LastErrorCode (get s') = apperror.CodeAppDisconnected;
}.

Record data_released (tid : nat) (stats : state.RelayStats) (s s' : Server) : Prop := {
  dr_control : controlConnection s' = controlConnection s ∧ controlMode s' = controlMode s ∧
    controlToken s' = controlToken s ∧ reconnectPending s' = reconnectPending s ∧ stopping s' = stopping s;
  dr_slots : dataConnection s' = None ∧ dataRelay s' = None;
  dr_closed : closedConns s' = {[tid]} ∪ closedConns s;
  dr_relays : openRelays s' = openRelays s ∖ option_to_set (dataRelay s);
  dr_kept : kept (get s) (get s');
  dr_stats : state.Relay (get s') = match dataRelay s with Some _ => stats | None => state.Relay (get s) end;
  dr_lost : is_Some (controlConnection s) → controlMode s = vpn → stopping s = false →
    state.Transport (get s') = state.TransportControlConnected ∧ state.VPN (get s') = state.VPNReconnecting ∧
    state.LastErrorCode (get s') = apperror.CodeAppDisconnected;
  dr_silent : controlConnection s = None ∨ controlMode s ≠ vpn ∨ stopping s = true →
    state.Transport (get s') = state.Transport (get s) ∧ state.VPN (get s') = state.VPN (get s) ∧
    state.LastErrorCode (get s') = state.LastErrorCode (get s);
}.

Record sessions_ended (s s' : Server) : Prop := {
  se_slots : slots_free s';
  se_flags : stopping s' = true ∧ proxySession s' = false ∧ reconnectPending s' = reconnectPending s;
  se_closed : closedConns s' = option_to_set (controlConnection s) ∪ option_to_set (dataConnection s) ∪ closedConns s;
  se_relays : openRelays s' = openRelays s ∖ option_to_set (dataRelay s);
  se_daemon : state.Daemon (get s') =
    if decide (state.Daemon (get s) = state.DaemonFailed) then state.DaemonFailed else state.DaemonStopping;
  se_rest : state.Transport (get s') = state.Transport (get s) ∧ state.VPN (get s') = state.VPN (get s) ∧
    state.LastErrorCode (get s') = state.LastErrorCode (get s);
}.

(** A mapping mark touches nothing but the snapshot and its file. *)
Record mapping_marked (available : bool) (s s' : Server) : Prop := {
  mm_server : s' = set_store (store s') (set_os (os s') s);
  mm_kept : kept (get s) (get s');
  mm_quiet : stopping s = true ∨ is_Some (controlConnection s) → s' = s;
  mm_published : stopping s = false → controlConnection s = None →
    state.Transport (get s') = (if available then state.TransportPortReady else state.TransportDeviceOffline) ∧
    state.LastErrorCode (get s') = (if available then [] else apperror.CodeRPortFailed) ∧
    state.VPN (get s') =
      (if decide (state.VPN (get s) ∈ [state.VPNActive; state.VPNStarting; state.VPNAuthRequired])
       then state.VPNReconnecting else state.VPN (get s));
}.

(** [update] puts the new snapshot in the store and rewrites the file. *)
Lemma update_eq now f s :
  ∃ disk, update now f s = set_os disk (set_store (state.mkStore (state.set_UpdatedAt now (f (get s)))) s).
Proof. unfold session.update, state.Update. destruct (state.WriteFile _ _ _ _ _) as [e disk]. by exists disk. Qed.

(** Replaces the calls of [update] by their effect, [disk] being the new disk. *)
#[local] Ltac publish :=
  repeat match goal with
  | |- context [session.update ?M ?p ?f ?now ?g ?s] =>
      let disk := fresh "disk" in let E := fresh "E" in
      destruct (update_eq now g s) as (disk & E); rewrite E; clear E
  end.

Lemma closed_relay r s : close_relay r s = set_openRelays (openRelays s ∖ option_to_set r) s.
Proof. destruct r; [done|]. destruct s. unfold set_openRelays. cbn. f_equal. set_solver. Qed.
Lemma closed_conn_opt c s : close_conn_opt c s = set_closedConns (option_to_set c ∪ closedConns s) s.
Proof. destruct c; [done|]. destruct s. unfold set_closedConns. cbn. f_equal. set_solver. Qed.

Lemma control_release_published mode snap :
  let snap' := publish_control_release mode snap in
  kept snap snap' ∧ state.Transport snap' = state.TransportPortReady ∧
  (mode = vpn → state.VPN snap = state.VPNStopped →
     state.VPN snap' = state.VPNStopped ∧ state.LastErrorCode snap' = [] ∧ state.LastError snap' = []) ∧
  (mode = vpn → state.VPN snap ≠ state.VPNStopped →
     state.VPN snap' = state.VPNReconnecting ∧ state.LastErrorCode snap' = apperror.CodeAppDisconnected) ∧
  (mode ≠ vpn → state.VPN snap' = state.VPNStopped ∧ state.LastErrorCode snap' = apperror.CodeAppDisconnected).
Proof.
  unfold publish_control_release. change (state.VPN (state.set_Transport _ snap)) with (state.VPN snap).
  destruct (decide (mode = vpn)) as [Hm|Hm]; [rewrite (bool_decide_true (mode = vpn)) by done|rewrite (bool_decide_false (mode = vpn)) by done];
    cbn [andb]; [|done].
  by destruct (decide (state.VPN snap = state.VPNStopped)) as [Hv|Hv];
    [rewrite (bool_decide_true (state.VPN snap = state.VPNStopped)) by done
    |rewrite (bool_decide_false (state.VPN snap = state.VPNStopped)) by done].
Qed.

(** [take_control], field by field. *)
Lemma take_control_owner tid s :
  controlConnection s = Some tid → ∃ s1,
  take_control tid (state.VPN (get s)) s = Some (mkTaken (controlMode s) (dataConnection s) (dataRelay s) (stopping s), s1) ∧
  get s1 = get s ∧ slots_free s1 ∧ stopping s1 = stopping s ∧ proxySession s1 = proxySession s ∧
  closedConns s1 = closedConns s ∧ openRelays s1 = openRelays s ∧
  (reconnectPending s1 = true ↔
     reconnectPending s = true ∨ controlMode s = vpn ∧ stopping s = false ∧ state.VPN (get s) ≠ state.VPNStopped).
Proof.
  intros Hc. unfold take_control. rewrite bool_decide_true by done. cbn [negb tk_mode tk_stopping].
  set (pending := streq (controlMode s) vpn && negb (stopping s) && negb (streq (state.VPN (get s)) state.VPNStopped)).
  assert (pending = true ↔ controlMode s = vpn ∧ stopping s = false ∧ state.VPN (get s) ≠ state.VPNStopped) as Hp.
  { subst pending. rewrite !andb_true_iff, !negb_true_iff, bool_decide_eq_true, bool_decide_eq_false. tauto. }
  clearbody pending. eexists. split; [done|]. rewrite <-Hp.
  destruct pending; split_and!; cbn; try done; (split; [by auto|by intros [?|?]]).
Qed.

Lemma releaseControl_spec now tid s :
  controlConnection s = Some tid → control_released tid s (close_conn tid (releaseControl now tid s)).
Proof.
  intros Hc. unfold releaseControl.
  destruct (take_control_owner tid s Hc) as (s1 & -> & Hg & Hf & Hs & Hx & Hcl & Ho & Hr).
  cbn [tk_mode tk_stopping tk_data tk_relay]. rewrite closed_relay, closed_conn_opt.
  destruct (control_release_published (controlMode s) (get s1)) as (Hk & Ht & Hst & Hl & Hph).
  destruct (stopping s) eqn:Es; cbn [negb]; [|publish]; split.
  all: try exact Hf.
  all: try (change ({[tid]} ∪ (option_to_set (dataConnection s) ∪ closedConns s1) = {[tid]} ∪ option_to_set (dataConnection s) ∪ closedConns s);
    by rewrite Hcl, (assoc_L (∪))).
  all: try (change (openRelays s1 ∖ option_to_set (dataRelay s) = openRelays s ∖ option_to_set (dataRelay s)); by rewrite Ho).
  all: rewrite <-?Hg, ?Es; try done.

  all: rewrite <-?Hg in Hr; try exact Hr.
  - intros _ Hm Hv. exact (conj Ht (Hst Hm Hv)).
  - intros _ Hm Hv. exact (conj Ht (Hl Hm Hv)).
  - intros _ Hm. exact (conj Ht (Hph Hm)).
Qed.

Lemma releaseData_spec now stats tid s :
  dataConnection s = Some tid → data_released tid stats s (close_conn tid (releaseData now stats tid true s)).
Proof.
  intros Hd. unfold releaseData, take_data. rewrite bool_decide_true by done. cbn [negb].
  set (publish := _ && _ && negb _).
  assert (publish = true ↔ is_Some (controlConnection s) ∧ controlMode s = vpn ∧ stopping s = false) as Hp.
  { subst publish. rewrite !andb_true_iff, negb_true_iff, !bool_decide_eq_true. tauto. }
  assert (openRelays s = openRelays s ∖ ∅) as Ho by set_solver.
  assert ({[tid]} ∪ ({[tid]} ∪ closedConns s) = {[tid]} ∪ closedConns s) as Hcl by set_solver.
  clearbody publish. destruct publish; destruct (dataRelay s) as [r|] eqn:Er; rewrite ?closed_relay; publish; split; rewrite ?Er;
    try done.
  all: try (intros Hc Hm Hs; discriminate (proj2 Hp (conj Hc (conj Hm Hs)))).
  all: try exact Hcl.
  all: destruct (proj1 Hp eq_refl) as ([c Hc] & Hm & Hs); intros [?|[?|?]]; congruence.
Qed.

Lemma shutdown_sessions_spec now s : sessions_ended s (shutdown_sessions now s).
Proof.
  unfold shutdown_sessions, take_all. rewrite !closed_conn_opt, closed_relay. publish. unfold publish_stopping.
  change (state.Daemon (get _)) with (state.Daemon (get s)).
  destruct (decide (state.Daemon (get s) = state.DaemonFailed)) as [E|E];
    [rewrite (bool_decide_true (state.Daemon (get s) = state.DaemonFailed)) by done
    |rewrite (bool_decide_false (state.Daemon (get s) = state.DaemonFailed)) by done]; split;
    try rewrite decide_True by done; try rewrite decide_False by done; try done.
  all: match goal with |- closedConns ?x = _ =>
    change (option_to_set (controlConnection s) ∪ (option_to_set (dataConnection s) ∪ closedConns s) =
            option_to_set (controlConnection s) ∪ option_to_set (dataConnection s) ∪ closedConns s) end; by rewrite (assoc_L (∪)).
Qed.

Lemma mapping_vpn_cases v :
  mapping_vpn v = if decide (v ∈ [state.VPNActive; state.VPNStarting; state.VPNAuthRequired]) then state.VPNReconnecting else v.
Proof.
  unfold mapping_vpn. destruct (streq v state.VPNActive || streq v state.VPNStarting || streq v state.VPNAuthRequired) eqn:E;
    [rewrite decide_True; [done|]|rewrite decide_False; [done|]];
    rewrite ?orb_true_iff, ?orb_false_iff, ?bool_decide_eq_true, ?bool_decide_eq_false in E; rewrite !elem_of_cons, elem_of_nil; tauto.
Qed.

Lemma mark_spec now stats tid available s :
  mapping_marked available s (alone 4 now stats tid (MCheck available) s).2.
Proof.
  walk. destruct (stopping s) eqn:Es; [by split; [destruct s|..|rewrite Es]|].
  destruct (controlConnection s) as [c|] eqn:Ec; [by split; [destruct s|..|rewrite Ec]|].
  cbn [orb]. rewrite bool_decide_false by (by intros []). walk.
  destruct (_ && _ && _ && _) eqn:E; walk; cbn [snd].
  - rewrite !andb_true_iff, !bool_decide_eq_true in E. destruct E as [[[Ht Hv] Hm] He]. split; [by destruct s|done..|].
    intros _ _. rewrite Ht, He, <-mapping_vpn_cases. by destruct available.
  - publish. split; [by destruct s|done| |].
    + intros [?|[? ?]]; congruence.
    + intros _ _. rewrite <-mapping_vpn_cases. by destruct available.
Qed.

(** C12: what the release paths do.  For every server state and each path run
    without interruption:
    - the control handler that owns the session frees every slot, closes its
      own and the data connection and the relay, remembers a lost VPN session
      for the reconnect counter, and publishes PORT_READY with STOPPED after a
      clean stop and RECONNECTING with APP_DISCONNECTED after a loss; a
      handler that owns no session only closes its connection;
    - the data handler that owns the channel frees the data slots alone,
      publishes the relay's counters and, under a live VPN session,
      CONTROL_CONNECTED and RECONNECTING;
    - shutdown frees every slot and closes whatever was in it, and STOPPING
      never hides FAILED;
    - a mapping mark publishes the mapping's state when no session is up, and
      otherwise does nothing. *)
Theorem release_effects now stats tid mode token available s :
  (∀ t s', alone 4 now stats tid (CRelease mode) s = (t, s') →
     t = Done ∧ (controlConnection s = Some tid → control_released tid s s') ∧
     (controlConnection s ≠ Some tid → s' = set_closedConns ({[tid]} ∪ closedConns s) s)) ∧
  (∀ t s', alone 4 now stats tid (DRelease token) s = (t, s') →
     t = Done ∧ (dataConnection s = Some tid → data_released tid stats s s') ∧
     (dataConnection s ≠ Some tid → s' = set_closedConns ({[tid]} ∪ closedConns s) s)) ∧
  (∀ t s', alone 4 now stats tid SStart s = (t, s') → t = Done ∧ sessions_ended s s') ∧
  (∀ t s', alone 4 now stats tid (MCheck available) s = (t, s') → t = Done ∧ mapping_marked available s s').
Proof.
  destruct (handlers_uninterrupted now stats tid mode token s) as (E1 & E2 & E3 & E4 & _ & E6).
  rewrite E1, E2, E6. split_and!; intros t s' E; [injection E as <- <-; split_and!..|].
  - done.
  - apply releaseControl_spec.
  - intros Hc. unfold releaseControl, take_control. by rewrite bool_decide_false.
  - done.
  - apply releaseData_spec.
  - intros Hd. unfold releaseData, take_data. by rewrite bool_decide_false.
  - done.
  - apply shutdown_sessions_spec.
  - pose proof (mark_spec now stats tid available s) as Hm. rewrite E in Hm. split; [|exact Hm].
    destruct available; congruence.
Qed.

(** * The published status strings *)

Definition daemon_statuses : list gostring :=
  [state.DaemonStopped; state.DaemonStarting; state.DaemonRunning; state.DaemonStopping; state.DaemonFailed].
Definition transport_statuses : list gostring :=
  [state.TransportNoDevice; state.TransportDeviceOffline; state.TransportPortReady;
   state.TransportControlConnected; state.TransportDataConnected].
Definition vpn_statuses : list gostring :=
  [state.VPNUnavailable; state.VPNAuthRequired; state.VPNStarting; state.VPNReconnecting; state.VPNActive;
   state.VPNStopped; state.VPNFailed].

Definition declared (snap : state.Snapshot) : Prop :=
  state.Daemon snap ∈ daemon_statuses ∧ state.Transport snap ∈ transport_statuses ∧ state.VPN snap ∈ vpn_statuses.

Definition thread_declared (t : Thread) : Prop :=
  match t with
  | CApply _ status _ | MPublish _ status => status ∈ vpn_statuses
  | _ => True
  end.

Lemma vpn_report_declared proxy reported status message :
  vpn_report proxy reported = Some (status, message) → status ∈ vpn_statuses.
Proof. unfold vpn_report. repeat case_match; intros; simplify_eq; set_solver. Qed.

Lemma mapping_vpn_declared v : v ∈ vpn_statuses → mapping_vpn v ∈ vpn_statuses.
Proof. unfold mapping_vpn. case_match; [set_solver|done]. Qed.

#[local] Ltac by_decision := decide_now.

(** Publications keep the statuses declared. *)
Lemma publish_declared snap :
  declared snap →
  (∀ mode b, declared (publish_control mode b snap)) ∧ declared (publish_data snap) ∧
  (∀ mode, declared (publish_control_release mode snap)) ∧ (∀ b, declared (publish_data_release b snap)) ∧
  (∀ status message, status ∈ vpn_statuses → declared (publish_vpn status message snap)) ∧
  (∀ b v, v ∈ vpn_statuses → declared (publish_mapping b v snap)) ∧
  declared (publish_stopping snap) ∧ declared (publish_stop snap) ∧
  (∀ b now ms, declared (daemon.publish_heartbeat b now ms snap)) ∧ (∀ st, declared (state.set_Relay st snap)).
Proof.
  intros (Hd & Ht & Hv).
  unfold declared, publish_control, publish_control_release, publish_data_release, publish_vpn, publish_mapping,
    publish_stopping, daemon.publish_heartbeat.
  split_and!; intros; repeat case_match; cbn -[daemon_statuses transport_statuses vpn_statuses];
    split_and?; first [done|by_decision].
Qed.

Lemma declared_UpdatedAt now snap : declared snap → declared (state.set_UpdatedAt now snap).
Proof. done. Qed.

Lemma step_declared now tid t i s t' s' :
  declared (get s) → thread_declared t → thread_step now tid t i s = Some (t', s') →
  declared (get s') ∧ thread_declared t'.
Proof.
  intros Hs Ht E. pose proof (publish_declared (get s) Hs) as (Pc & Pd & Pcr & Pdr & Pv & Pm & Ps & Pst & Ph & Pr).
  destruct t, i; cbn [session.thread_step] in E; try discriminate E;
    unfold check_vpn, admit_control, attach_data, bind_relay, take_control, take_data, take_all in E;
    repeat case_match; simplify_eq; cbn [thread_declared]; autorewrite with session_get;
    (split; [try apply declared_UpdatedAt; auto|try done]); eauto using vpn_report_declared.
  apply mapping_vpn_declared, Hs.
Qed.

(** C15: published statuses are declared constants.  Starting from a declared
    snapshot, in every interleaving and whatever strings the App reports, the
    daemon, transport and VPN statuses the daemon publishes are among the
    constants of the state package; an undeclared report is never stored. *)
Theorem published_states_declared st disk proxy w :
  declared (state.Get st) → rtc (world_step MarshalIndent pid stateFile) (start st disk proxy) w →
  declared (get (server w)).
Proof.
  intros H0 Hr.
  assert (declared (get (server (start st disk proxy))) ∧
    map_Forall (λ _ t, thread_declared t) (threads (start st disk proxy))) as [Hs Ht]
    by (split; [exact H0|apply map_Forall_empty]).
  clear H0. induction Hr as [w|w1 w2 w3 Hstep _ IH]; [done|].
  destruct Hstep as [tid t Hn Hi|now tid t i t' s' Hth E].
  - apply IH; [done|]. apply map_Forall_insert_2; [by destruct t|done].
  - destruct (step_declared now tid t i (server w1) t' s' Hs (Ht _ _ Hth) E) as [Hs' Ht'].
    apply IH; [done|]. by apply map_Forall_insert_2.
Qed.
End handlers.

(** The sessions of [sample_run] start from a declared snapshot. *)
Lemma published_states_declared_witness :
  ∃ w, sample_run (connect ++ disconnect) = Some w ∧ declared (get (server w)).
Proof.
  assert (is_Some (sample_run (connect ++ disconnect))) as [w E]
    by decide_now.
  exists w. split; [exact E|].
  apply (published_states_declared state.label_codec 42 (str "/run/state.json") sample_store (mkOS ∅ []) false).
  - unfold declared. decide_now.
  - by eapply world_exec_steps.
Defined.
End handlers.
