(* ===== verification/Handshake.v ===== *)
(** A new device connection from its first byte to an established session
    (src/internal/daemon/server.go): [handleDevice], then
    [handleControlConnection] up to HELLO_ACK or [handleDataConnection] up to
    DATA_ACK, with what is sent to the peer and what the session fields become.

    The handlers run uninterrupted here; [Session] has the interleavings.
    The result of opening a connection is the handler's next state in
    [Session], so that the two models join. *)
From S2P Require Import Prelude Errors GoIO GoStrings GoOS Protocol State Daemon Session.
Import protocol daemon session.

Module handshake.

Section handshake.
Context `{JSON Hello, JSON HelloAck, JSON ErrorPayload, JSON DataHello}.
Variable MarshalIndent : state.Snapshot → result error (list byte).
Variable pid : Z.
Variable stateFile : gostring.
#[local] Abbreviation update := (update MarshalIndent pid stateFile).
#[local] Abbreviation bind_relay := (bind_relay MarshalIndent pid stateFile).

(** [sendProtocolError]: a failure to encode or to write is ignored. *)
Definition sendProtocolError (connection : Writer) (sequence : Z) (code message : gostring) : Writer :=
  match MarshalJSONPayload (mkErrorPayload code message true) with
  | Err _ => connection
  | Ok payload => (WriteFrame connection (mkFrame TypeError 0 sequence payload)).2
  end.

(** [handleControlConnection] before its frame loop.  [rand] is the random
    source, [mtu] the configured MTU. *)
Definition open_control (now : Time) (mtu : Z) (rand : Reader) (c : nat) (frame : Frame)
    (connection : Writer) (s : Server) : Thread * Writer * Server :=
  match validate_hello (Payload frame) with
  | Err (code, message) => (Done, sendProtocolError connection 1 code message, s)
  | Ok hello =>
      match (NewSessionToken rand).1 with
      | Err _ =>
          (Done, sendProtocolError connection 1 apperror.CodeInternal
                   (str "the Mac could not create a bridge session"), s)
      | Ok token =>
          let mode := Hello_Mode hello in
          match admit_control c mode token s with
          | None =>
              (Done, sendProtocolError connection 1 (str "SESSION_BUSY")
                       (str "another Harmony control session is already active"), s)
          | Some (isReconnect, s) =>
              match MarshalJSONPayload (mkHelloAck CurrentVersion token
                      (ack_capabilities (proxySession s) mode) mtu (str "world")) with
              | Err _ => (CRelease mode, connection, s)
              | Ok payload =>
                  let s := update now (publish_control mode isReconnect) s in
                  match WriteFrame connection (mkFrame TypeHelloAck 0 1 payload) with
                  | (Some _, connection) => (CRelease mode, connection, s)
                  | (None, connection) => (CServe mode, connection, s)
                  end
              end
          end
      end
  end.

(** [handleDataConnection] before its frame loop.  [relay] says whether
    [newRelay] succeeds. *)
Definition open_data (now : Time) (relay : bool) (d : nat) (frame : Frame)
    (connection : Writer) (s : Server) : Thread * Writer * Server :=
  match validate_data_hello (Payload frame) with
  | Err (code, message) => (Done, sendProtocolError connection 1 code message, s)
  | Ok token =>
      match attach_data d token s with
      | None =>
          (Done, sendProtocolError connection 1 (str "DATA_SESSION_REJECTED")
                   (str "DATA_HELLO does not match an available VPN control session"), s)
      | Some s =>
          if negb relay then
            (DRelease token, sendProtocolError connection 1 (str "RELAY_UNAVAILABLE")
                               (str "the Mac packet relay could not be started"), s)
          else
            let r := nextRelay s in
            let s := set_nextRelay (S r) (set_openRelays ({[r]} ∪ openRelays s) s) in
            match bind_relay now d r s with
            | None => (Done, connection, close_relay (Some r) s)
            | Some s =>
                match WriteFrame connection (mkFrame TypeDataAck 0 1 []) with
                | (Some _, connection) => (DRelease token, connection, s)
                | (None, connection) => (DServe token, connection, s)
                end
            end
      end
  end.

(** A connection with its identity, what the peer sends and where its answer
    goes, and the outcomes the handlers depend on. *)
Record Dial := mkDial {
  dl_id : nat;
  dl_in : Reader;
  dl_out : Writer;
  dl_rand : Reader;
  dl_relay : bool;
}.

(** [handleDevice] with the handlers; [None]: an HTTP request ([Daemon]). *)
Definition open_device (now : Time) (mtu : Z) (dl : Dial) (s : Server) : option (Thread * Writer * Server) :=
  match handleDevice (dl_in dl) with
  | DeviceHTTP _ => None
  | DeviceReject code message => Some (Done, sendProtocolError (dl_out dl) 1 code message, s)
  | DeviceControl frame => Some (open_control now mtu (dl_rand dl) (dl_id dl) frame (dl_out dl) s)
  | DeviceData frame => Some (open_data now (dl_relay dl) (dl_id dl) frame (dl_out dl) s)
  end.

(** * Dispatch on a frame the peer encodes *)

Lemma encode_magic f : take 4 (encode f) = magic.
Proof. done. Qed.

Lemma handleDevice_frame f rest e :
  Frame_wf f → validateFrame f = None → Sequence f = 1 →
  handleDevice (mkReader (encode f ++ rest) e) =
    if Type' f =? TypeHello then DeviceControl f
    else if Type' f =? TypeDataHello then DeviceData f
    else DeviceReject (str "INVALID_HANDSHAKE") (str "the first HNB/1 frame must be HELLO or DATA_HELLO").
Proof.
  intros Hwf Hv Hs. unfold handleDevice.
  assert (Hl : length (take 4 (encode f)) = 4%nat) by done.
  rewrite <-(take_drop 4 (encode f)), <-app_assoc, ReadFull_app by done.
  rewrite encode_magic. change (looksLikeHTTPRequest magic) with false. cbv iota.
  unfold MultiReader. cbn [r_data r_end]. rewrite app_assoc, <-(encode_magic f), take_drop.
  by rewrite ReadFrame_encode, Hs by done.
Qed.

(** A control frame with a bounded payload is valid. *)
Lemma control_frame_valid t p :
  knownType t = true → t ≠ TypeIPPacket → zlen p ≤ MaxControlPayload →
  Frame_wf (mkFrame t 0 1 p) ∧ validateFrame (mkFrame t 0 1 p) = None.
Proof.
  intros Ht Hn Hp. assert (zlen p < 2 ^ 32) as Hp' by (unfold MaxControlPayload in Hp; lia).
  assert (Frame_wf (mkFrame t 0 1 p)) as Hwf.
  { apply knownType_range in Ht. split; cbn; lia. }
  split; [done|]. rewrite validateFrame_header by done. apply validateHeader_None. split_and!; [done..|].
  apply validateLength_None. cbn. by rewrite (proj2 (Z.eqb_neq t TypeIPPacket)).
Qed.

Lemma handleDevice_hello p rest e :
  zlen p ≤ MaxControlPayload →
  handleDevice (mkReader (encode (mkFrame TypeHello 0 1 p) ++ rest) e) = DeviceControl (mkFrame TypeHello 0 1 p) ∧
  handleDevice (mkReader (encode (mkFrame TypeDataHello 0 1 p) ++ rest) e) = DeviceData (mkFrame TypeDataHello 0 1 p).
Proof.
  intros Hp. destruct (control_frame_valid TypeHello p) as [W1 W2]; [done..|].
  destruct (control_frame_valid TypeDataHello p) as [W3 W4]; [done..|].
  by rewrite !handleDevice_frame.
Qed.

Lemma MarshalJSONPayload_bound {A} `{JSON A} (v : A) p : MarshalJSONPayload v = Ok p → zlen p ≤ MaxControlPayload.
Proof. unfold MarshalJSONPayload. destruct (json_Marshal v); [|done]. case_if as E; [done|]. intros [= <-]. by bool_to_prop. Qed.

Lemma sendProtocolError_frame out code message :
  sendProtocolError (mkWriter out []) 1 code message = mkWriter out [] ∨
  ∃ payload, MarshalJSONPayload (mkErrorPayload code message true) = Ok payload ∧
    sendProtocolError (mkWriter out []) 1 code message =
      mkWriter (out ++ encode (mkFrame TypeError 0 1 payload)) [].
Proof.
  unfold sendProtocolError. destruct (MarshalJSONPayload _) as [p|] eqn:E; [right|by left].
  exists p. split; [done|]. apply MarshalJSONPayload_bound in E.
  by rewrite WriteFrame_plain by (by apply control_frame_valid).
Qed.

(** * What opening a connection can do *)

Lemma attach_fields d token s s' :
  attach_data d token s = Some s' →
  s' = set_dataConnection (Some d) s ∧ stopping s = false ∧ is_Some (controlConnection s) ∧
  controlMode s = vpn ∧ controlToken s = token ∧ dataConnection s = None.
Proof.
  unfold attach_data. case_if as E; [done|]. bool_to_prop. intros [= <-].
  destruct (controlConnection s); [|done]. destruct (dataConnection s); [exfalso; eauto|].
  split_and!; [done|done|by eexists|done..].
Qed.

Lemma admit_fields c mode token b s s' :
  admit_control c mode token s = Some (b, s') →
  controlConnection s = None ∧ stopping s = false ∧
  controlConnection s' = Some c ∧ controlMode s' = mode ∧ controlToken s' = token ∧
  dataConnection s' = dataConnection s ∧ stopping s' = false ∧ proxySession s' = proxySession s.
Proof.
  unfold admit_control. case_if as E; [done|]. bool_to_prop. intros [= _ <-].
  destruct (controlConnection s) eqn:Ec; [exfalso; eauto|]. destruct (streq mode vpn); by split_and!.
Qed.

(** Nothing comes between attaching and binding when nobody interrupts. *)
Lemma attach_bind now d token s s1 r :
  attach_data d token s = Some s1 →
  let s2 := set_nextRelay (S r) (set_openRelays ({[r]} ∪ openRelays s1) s1) in
  bind_relay now d r s2 = Some (update now publish_data (set_dataRelay (Some r) s2)).
Proof.
  intros (-> & Hs & [c Hc] & _)%attach_fields s2. unfold session.bind_relay, s2. destruct s; cbn in *. subst.
  rewrite !bool_decide_eq_true_2, bool_decide_eq_false_2 by done. done.
Qed.

(** The answer to a refused connection: nothing, or one fatal ERROR frame. *)
Definition refusal (w : Writer) : Prop :=
  w_out w = [] ∨ ∃ code message payload,
    MarshalJSONPayload (mkErrorPayload code message true) = Ok payload ∧
    w_out w = encode (mkFrame TypeError 0 1 payload) ∧
    ∀ rest e, ReadFrame (mkReader (w_out w ++ rest) e) = (Ok (mkFrame TypeError 0 1 payload), mkReader rest e).

Lemma refused code message : refusal (sendProtocolError (mkWriter [] []) 1 code message).
Proof.
  destruct (sendProtocolError_frame [] code message) as [->|(payload & Hm & ->)]; [by left|right].
  exists code, message, payload. split_and!; [done|done|]. intros rest e. cbn [w_out app].
  destruct (control_frame_valid TypeError payload) as [Hwf Hv]; [done|done|exact (MarshalJSONPayload_bound _ _ Hm)|].
  by apply ReadFrame_encode.
Qed.

Lemma open_control_cases now mtu rand c frame s t w s' :
  open_control now mtu rand c frame (mkWriter [] []) s = (t, w, s') →
  (t = Done ∧ refusal w ∧ s' = s) ∨
  (∃ hello token, validate_hello (Payload frame) = Ok hello ∧ (NewSessionToken rand).1 = Ok token ∧
     controlConnection s = None ∧ stopping s = false ∧
     controlConnection s' = Some c ∧ controlMode s' = Hello_Mode hello ∧ controlToken s' = token ∧
     (t = CRelease (Hello_Mode hello) ∨
      t = CServe (Hello_Mode hello) ∧ ∃ payload,
        MarshalJSONPayload (mkHelloAck CurrentVersion token
          (ack_capabilities (proxySession s) (Hello_Mode hello)) mtu (str "world")) = Ok payload ∧
        w = mkWriter (encode (mkFrame TypeHelloAck 0 1 payload)) [] ∧
        state.Transport (get s') = state.TransportControlConnected)).
Proof.
  unfold open_control. destruct (validate_hello _) as [hello|[code message]];
    [|intros [= <- <- <-]; left; eauto using refused].
  destruct (NewSessionToken rand).1 as [token|]; [|intros [= <- <- <-]; left; eauto using refused].
  destruct (admit_control _ _ _ _) as [[b s1]|] eqn:E; [|intros [= <- <- <-]; left; eauto using refused].
  apply admit_fields in E as (E1 & E2 & E3 & E4 & E5 & _ & _ & E6). rewrite E6. intros Ho. right. exists hello, token.
  destruct (MarshalJSONPayload _) as [payload|] eqn:Em; [|injection Ho as <- <- <-; split_and!; eauto].
  apply MarshalJSONPayload_bound in Em as Hb.
  rewrite WriteFrame_plain in Ho by (by apply control_frame_valid). injection Ho as <- <- <-.
  destruct (update_same MarshalIndent pid stateFile now (publish_control (Hello_Mode hello) b) s1)
    as [(U1 & U2 & U3 & _) _].
  split_and!; try done; [congruence..|]. right. split; [done|]. exists payload. split_and!; [done|done|].
  rewrite get_update. unfold publish_control. by destruct b, (streq (Hello_Mode hello) vpn).
Qed.

Lemma open_data_cases now relay d frame s t w s' :
  open_data now relay d frame (mkWriter [] []) s = (t, w, s') →
  (t = Done ∧ refusal w ∧ s' = s) ∨
  (∃ token, validate_data_hello (Payload frame) = Ok token ∧ stopping s = false ∧
     is_Some (controlConnection s) ∧ controlMode s = vpn ∧ controlToken s = token ∧ dataConnection s = None ∧
     dataConnection s' = Some d ∧
     (t = DRelease token ∨
      t = DServe token ∧ w = mkWriter (encode (mkFrame TypeDataAck 0 1 [])) [] ∧ is_Some (dataRelay s') ∧
      state.Transport (get s') = state.TransportDataConnected)).
Proof.
  unfold open_data. destruct (validate_data_hello _) as [token|[code message]];
    [|intros [= <- <- <-]; left; eauto using refused].
  destruct (attach_data _ _ _) as [s1|] eqn:E; [|intros [= <- <- <-]; left; eauto using refused].
  intros Ho. right. exists token. apply attach_fields in E as Ef. destruct Ef as (-> & ? & ? & ? & ? & ?).
  case_if in Ho as Er; [injection Ho as <- <- <-; split_and!; eauto|].
  rewrite (attach_bind _ _ _ _ _ _ E) in Ho.
  rewrite WriteFrame_plain in Ho by (by apply control_frame_valid). injection Ho as <- <- <-.
  match goal with |- context [update now publish_data ?s0] =>
    destruct (update_same MarshalIndent pid stateFile now publish_data s0) as [(_ & _ & _ & U4 & U5 & _) _] end.
  split_and!; try done. right. split_and!; [done|done|rewrite U5; by eexists|]. by rewrite get_update.
Qed.

(** C10: what a new connection can achieve.  Whatever its first bytes, an HNB
    connection is refused without touching any session, answered by nothing
    or by one fatal ERROR frame that decodes; or it opened the control slot,
    which was free, with a token fresh from the random source, after a HELLO
    that passes every check, and was sent exactly one HELLO_ACK carrying that
    token before the loop is entered; or it opened the data slot, which was
    free, by presenting the token of the live VPN control session, and was
    sent exactly DATA_ACK once a relay was bound. *)
Theorem connection_opened now mtu c input rand relay s t w s' :
  open_device now mtu (mkDial c input (mkWriter [] []) rand relay) s = Some (t, w, s') →
  (t = Done ∧ refusal w ∧ s' = s) ∨
  (∃ frame hello token, handleDevice input = DeviceControl frame ∧
     validate_hello (Payload frame) = Ok hello ∧ (NewSessionToken rand).1 = Ok token ∧
     controlConnection s = None ∧ stopping s = false ∧
     controlConnection s' = Some c ∧ controlMode s' = Hello_Mode hello ∧ controlToken s' = token ∧
     (t = CRelease (Hello_Mode hello) ∨
      t = CServe (Hello_Mode hello) ∧ ∃ payload,
        MarshalJSONPayload (mkHelloAck CurrentVersion token
          (ack_capabilities (proxySession s) (Hello_Mode hello)) mtu (str "world")) = Ok payload ∧
        w = mkWriter (encode (mkFrame TypeHelloAck 0 1 payload)) [] ∧
        state.Transport (get s') = state.TransportControlConnected)) ∨
  (∃ frame token, handleDevice input = DeviceData frame ∧
     validate_data_hello (Payload frame) = Ok token ∧ stopping s = false ∧
     is_Some (controlConnection s) ∧ controlMode s = vpn ∧ controlToken s = token ∧ dataConnection s = None ∧
     dataConnection s' = Some c ∧
     (t = DRelease token ∨
      t = DServe token ∧ w = mkWriter (encode (mkFrame TypeDataAck 0 1 [])) [] ∧ is_Some (dataRelay s') ∧
      state.Transport (get s') = state.TransportDataConnected)).
Proof.
  unfold open_device. cbn [dl_in dl_out dl_rand dl_id dl_relay].
  destruct (handleDevice input) as [|frame|frame|code message] eqn:E; [done|intros [= Ho]..|intros [= <- <- <-]].
  - apply open_control_cases in Ho as [?|(hello & token & ?)]; [by left|right; left; by exists frame, hello, token].
  - apply open_data_cases in Ho as [?|(token & ?)]; [by left|right; right; by exists frame, token].
  - left. eauto using refused.
Qed.

(** * A conforming App is served *)

(** The HELLO of docs/protocol.md for a VPN session. *)
Record conforming (hello : Hello) : Prop := {
  cf_role : Hello_Role hello = str "control";
  cf_mode : Hello_Mode hello = vpn;
  cf_message : Hello_Message hello = str "hello";
  cf_version : CurrentVersion ∈ Hello_SupportedVersions hello;
  cf_control : str "control" ∈ Hello_Capabilities hello;
  cf_data : str "data" ∈ Hello_Capabilities hello;
}.

Lemma SupportsVersion_elem vs : CurrentVersion ∈ vs → SupportsVersion vs = true.
Proof.
  induction vs as [|v vs IH]; [by intros ?%not_elem_of_nil|]. cbn. intros [<-|Hv]%elem_of_cons; [done|].
  case_if; [done|by apply IH].
Qed.

Lemma hasCapability_elem cs c : c ∈ cs → hasCapability cs c = true.
Proof.
  induction cs as [|x cs IH]; [by intros ?%not_elem_of_nil|]. cbn [hasCapability].
  intros [<-|Hc]%elem_of_cons; [by rewrite bool_decide_eq_true_2|]. case_if; [done|by apply IH].
Qed.

Lemma conforming_valid p hello :
  zlen p ≤ MaxControlPayload → json_Unmarshal p = Ok hello → conforming hello → validate_hello p = Ok hello.
Proof.
  intros Hp Hj [Hr Hm Hmsg Hv Hc Hd]. unfold validate_hello, UnmarshalJSONPayload.
  rewrite (proj2 (Z.ltb_ge _ _)), Hj by done. rewrite Hr, Hm, Hmsg, SupportsVersion_elem by done.
  rewrite (hasCapability_elem _ _ Hc), (hasCapability_elem _ _ Hd). done.
Qed.

Lemma fresh_token random e :
  length random = 16%nat →
  (NewSessionToken (mkReader random e)).1 = Ok (hex_encode random) ∧ ValidSessionToken (hex_encode random) = true.
Proof.
  intros Hr. assert (∀ e, NewSessionToken (mkReader random e) = (Ok (hex_encode random), mkReader [] e)) as Hn.
  { intros e'. unfold NewSessionToken. rewrite <-(app_nil_r random) at 1. by rewrite ReadFull_app by congruence. }
  split; [by rewrite Hn|]. apply ValidSessionToken_iff. exists random. by rewrite Hn.
Qed.

Lemma data_hello_valid p token :
  zlen p ≤ MaxControlPayload → json_Unmarshal p = Ok (mkDataHello token (str "data")) →
  ValidSessionToken token = true → validate_data_hello p = Ok token.
Proof.
  intros Hp Hj Ht. unfold validate_data_hello, UnmarshalJSONPayload.
  rewrite (proj2 (Z.ltb_ge _ _)), Hj by done. cbn [DataHello_Role DataHello_SessionToken].
  by rewrite bool_decide_eq_true_2, Ht by done.
Qed.

(** C11: a conforming App gets its bridge.  On an idle daemon, the bytes of a
    conforming VPN HELLO are answered by exactly a HELLO_ACK with a valid
    token and the configured MTU; the bytes of a DATA_HELLO that presents the
    token on a second connection are then answered by exactly DATA_ACK.  After
    that the daemon holds both connections and a relay and publishes
    DATA_CONNECTED, whatever the peer sends after its frames. *)
Theorem handshake_completes now mtu c d p hello random ack dp rest1 rest2 e1 e2 e3 relay1 rand2 s :
  let token := hex_encode random in
  controlConnection s = None → dataConnection s = None → stopping s = false →
  zlen p ≤ MaxControlPayload → json_Unmarshal p = Ok hello → conforming hello → length random = 16%nat →
  MarshalJSONPayload (mkHelloAck CurrentVersion token (ack_capabilities (proxySession s) vpn) mtu (str "world")) = Ok ack →
  zlen dp ≤ MaxControlPayload → json_Unmarshal dp = Ok (mkDataHello token (str "data")) →
  ∃ s1 s2,
    open_device now mtu (mkDial c (mkReader (encode (mkFrame TypeHello 0 1 p) ++ rest1) e1) (mkWriter [] [])
                           (mkReader random e3) relay1) s =
      Some (CServe vpn, mkWriter (encode (mkFrame TypeHelloAck 0 1 ack)) [], s1) ∧
    open_device now mtu (mkDial d (mkReader (encode (mkFrame TypeDataHello 0 1 dp) ++ rest2) e2) (mkWriter [] [])
                           rand2 true) s1 =
      Some (DServe token, mkWriter (encode (mkFrame TypeDataAck 0 1 [])) [], s2) ∧
    ValidSessionToken token = true ∧ controlConnection s2 = Some c ∧ dataConnection s2 = Some d ∧
    is_Some (dataRelay s2) ∧ state.Transport (get s2) = state.TransportDataConnected ∧
    state.VPN (get s2) = state.VPNStarting.
Proof.
  intros token Hc Hd Hs Hp Hj Hcf Hr Hack Hdp Hdj. destruct (fresh_token random e3 Hr) as [Hn Hv]. fold token in Hn, Hv.
  assert (∃ b s1, admit_control c vpn token s = Some (b, s1)) as (b & s1 & Ha).
  { unfold admit_control. rewrite Hc, Hs. cbn. eauto. }
  apply admit_fields in Ha as Haf. destruct Haf as (_ & _ & A1 & A2 & A3 & A4 & A5 & A6).
  set (s1' := update now (publish_control vpn b) s1).
  destruct (update_same MarshalIndent pid stateFile now (publish_control vpn b) s1) as [(U1 & U2 & U3 & U4 & _ & U6) _].
  fold s1' in U1, U2, U3, U4, U6.
  set (s2 := set_nextRelay (S (nextRelay s1')) (set_openRelays ({[nextRelay s1']} ∪ openRelays s1')
               (set_dataConnection (Some d) s1'))).
  destruct (update_same MarshalIndent pid stateFile now publish_data (set_dataRelay (Some (nextRelay s1')) s2))
    as [(V1 & _ & _ & V4 & V5 & _) _].
  exists s1', (update now publish_data (set_dataRelay (Some (nextRelay s1')) s2)).
  destruct (handleDevice_hello p rest1 e1 Hp) as [D1 _]. destruct (handleDevice_hello dp rest2 e2 Hdp) as [_ D2].
  split_and!.
  - unfold open_device. cbn [dl_in dl_out dl_rand dl_id dl_relay]. rewrite D1.
    unfold open_control. cbn [Payload]. rewrite (conforming_valid _ _ Hp Hj Hcf), Hn, (cf_mode _ Hcf), Ha, A6, Hack.
    rewrite WriteFrame_plain; [done|]. apply control_frame_valid; [done|done|exact (MarshalJSONPayload_bound _ _ Hack)].
  - unfold open_device. cbn [dl_in dl_out dl_rand dl_id dl_relay]. rewrite D2.
    unfold open_data. cbn [Payload]. rewrite (data_hello_valid _ _ Hdp Hdj Hv).
    assert (attach_data d token s1' = Some (set_dataConnection (Some d) s1')) as Hat.
    { unfold attach_data. rewrite U6, A5, U1, A1, U2, A2, U3, A3, U4, A4, Hd.
      by rewrite (bool_decide_eq_true_2 (token = token)). }
    rewrite Hat. cbn [negb]. rewrite (attach_bind _ _ _ _ _ _ Hat). done.
  - done.
  - rewrite V1. change (controlConnection s1' = Some c). by rewrite U1.
  - by rewrite V4.
  - rewrite V5. by eexists.
  - by rewrite get_update.
  - by rewrite get_update.
Qed.

(** * The same steps as in [Session] *)

Fixpoint thread_steps (now : Time) (tid : nat) (t : Thread) (inputs : list Input) (s : Server)
    : option (Thread * Server) :=
  match inputs with
  | [] => Some (t, s)
  | i :: inputs =>
      r ← session.thread_step MarshalIndent pid stateFile now tid t i s;
      thread_steps now tid r.1 inputs r.2
  end.

(** The deferred close of a handler that has ended. *)
Definition closing (c : nat) (t : Thread) (s : Server) : Server :=
  match t with Done => close_conn c s | _ => s end.

(** Once its hello is accepted, opening a connection is a run of the handler
    of [Session] from its first state. *)
Theorem open_steps now mtu rand relay c frame connection s :
  (∀ hello token t w s', validate_hello (Payload frame) = Ok hello → (NewSessionToken rand).1 = Ok token →
     open_control now mtu rand c frame connection s = (t, w, s') →
     ∃ inputs, thread_steps now c (CStart (Hello_Mode hello) token) inputs s = Some (t, closing c t s')) ∧
  (∀ token t w s', validate_data_hello (Payload frame) = Ok token →
     open_data now relay c frame connection s = (t, w, s') →
     ∃ inputs, thread_steps now c (DStart token) inputs s = Some (t, closing c t s')).
Proof.
  split.
  - intros hello token t w s' Hh Ht. unfold open_control. rewrite Hh, Ht.
    destruct (admit_control _ _ _ _) as [[b s1]|] eqn:E;
      [|intros [= <- <- <-]; exists [Go]; cbn [thread_steps session.thread_step]; by rewrite E].
    destruct (MarshalJSONPayload _);
      [|intros [= <- <- <-]; exists [Go; Leave]; cbn [thread_steps session.thread_step]; by rewrite E].
    destruct (WriteFrame _ _) as [[err|] w1]; intros [= <- <- <-];
      [exists [Go; Go; Leave]|exists [Go; Go]]; cbn [thread_steps session.thread_step]; by rewrite E.
  - intros token t w s' Ht. unfold open_data. rewrite Ht.
    destruct (attach_data _ _ _) as [s1|] eqn:E;
      [|intros [= <- <- <-]; exists [Go]; cbn [thread_steps session.thread_step]; by rewrite E].
    case_if as Er; bool_to_prop; subst;
      [intros [= <- <- <-]; exists [Go; RelayReady false]; cbn [thread_steps session.thread_step]; by rewrite E|].
    rewrite (attach_bind _ _ _ _ _ _ E).
    destruct (WriteFrame _ _) as [[err|] w1]; intros [= <- <- <-];
      [exists [Go; RelayReady true; Go; Leave]|exists [Go; RelayReady true; Go]];
      cbn [thread_steps session.thread_step]; rewrite E; cbn [mbind option_bind fst snd thread_steps session.thread_step];
      by rewrite (attach_bind _ _ _ _ _ _ E).
Qed.
End handshake.

(** * A concrete handshake *)

(** Codecs for the payloads of the sample; the messages carry no fields but
    the token. *)
#[local] Instance sample_Hello : JSON Hello := {|
  json_Marshal _ := Ok (str "HELLO");
  json_Unmarshal _ := Ok (mkHello (str "control") vpn (str "1.0") [1] [str "control"; str "data"] (str "hello"));
|}.
#[local] Instance sample_HelloAck : JSON HelloAck := {|
  json_Marshal a := Ok (HelloAck_SessionToken a);
  json_Unmarshal p := Ok (mkHelloAck 1 p [] 1400 (str "world"));
|}.
#[local] Instance sample_ErrorPayload : JSON ErrorPayload := {|
  json_Marshal e := Ok (ErrorPayload_Code e);
  json_Unmarshal p := Ok (mkErrorPayload p [] true);
|}.
#[local] Instance sample_DataHello : JSON DataHello := {|
  json_Marshal h := Ok (DataHello_SessionToken h);
  json_Unmarshal p := Ok (mkDataHello p (str "data"));
|}.

Definition sample_random : list byte := be_put 16 77.

Definition sample_open (c : nat) (input : list byte) : option (Thread * Writer * Server) :=
  open_device state.label_codec 42 (str "/run/state.json") 5 1400
    (mkDial c (mkReader input (ESentinel EOF)) (mkWriter [] []) (mkReader sample_random (ESentinel EOF)) true)
    (server sample_start).

Lemma connection_opened_witness :
  match sample_open 1 (encode (mkFrame TypeDataHello 0 1 (hex_encode sample_random))) with
  | Some (t, w, s') => t = Done ∧ refusal w ∧ s' = server sample_start
  | None => False
  end.
Proof.
  destruct (sample_open _ _) as [[[t w] s']|] eqn:E; [|vm_compute in E; discriminate].
  destruct (connection_opened state.label_codec 42 (str "/run/state.json") 5 1400 1
    (mkReader (encode (mkFrame TypeDataHello 0 1 (hex_encode sample_random))) (ESentinel EOF))
    (mkReader sample_random (ESentinel EOF)) true (server sample_start) t w s' E)
    as [Hr|[(f & h & k & Hd & _)|(f & k & _ & _ & _ & [c Hc] & _)]].
  - exact Hr.
  - exfalso. vm_compute in Hd. discriminate.
  - exfalso. vm_compute in Hc. discriminate.
Defined.

Lemma handshake_completes_witness :
  ∃ s1 s2,
    sample_open 1 (encode (mkFrame TypeHello 0 1 (str "HELLO")) ++ str "more") =
      Some (CServe vpn, mkWriter (encode (mkFrame TypeHelloAck 0 1 (hex_encode sample_random))) [], s1) ∧
    dataConnection s2 = Some 2%nat.
Proof.
  destruct (handshake_completes state.label_codec 42 (str "/run/state.json") 5 1400 1 2 (str "HELLO")
    (mkHello (str "control") vpn (str "1.0") [1] [str "control"; str "data"] (str "hello")) sample_random
    (hex_encode sample_random) (hex_encode sample_random) (str "more") [] (ESentinel EOF) (ESentinel EOF)
    (ESentinel EOF) true (mkReader [] (ESentinel EOF)) (server sample_start))
    as (s1 & s2 & H1 & _ & _ & _ & H2 & _); try (vm_compute; reflexivity || discriminate).
  - split; try reflexivity; vm_compute; set_solver.
  - exists s1, s2. split; [exact H1|exact H2].
Defined.
End handshake.
