(* ===== verification/Run.v ===== *)
(** The daemon's life cycle (src/internal/daemon/server.go): [Run] from the
    listeners to the mapping, [monitorMapping], the cleanup half of
    [shutdown], [listenControlSocket] and the local control commands.

    The hdc manager is used through the interface [Forwarder]; the file
    Device shows that src/internal/hdc/manager.go implements it on a device
    whose hdc keeps a mapping table. *)
From S2P Require Import Prelude Errors GoStrings GoOS GoNet Protocol State Control Hdc Daemon Session.
Import daemon.

Module run.

(** * The forwarder interface *)

(** What the daemon relies on: [fwd_has f m] says whether the selected device
    has the reverse mapping [m].  A failed command may or may not have changed
    the mapping it names, and never touches another one. *)
Class Forwarder (F : Type) := {
  fwd_has : F → hdc.Mapping → bool;
  AddReverse : F → hdc.Mapping → option error * F;
  HasReverse : F → hdc.Mapping → result error bool * F;
  Remove : F → hdc.Mapping → option error * F;
  AddReverse_ok f m f' : AddReverse f m = (None, f') → fwd_has f' m = true;
  AddReverse_frame f m e f' : AddReverse f m = (e, f') → ∀ m', m' ≠ m → fwd_has f' m' = fwd_has f m';
  HasReverse_ok f m b f' : HasReverse f m = (Ok b, f') → b = fwd_has f m;
  HasReverse_same f m r f' : HasReverse f m = (r, f') → ∀ m', fwd_has f' m' = fwd_has f m';
  Remove_ok f m f' : Remove f m = (None, f') → fwd_has f' m = false;
  Remove_frame f m e f' : Remove f m = (e, f') → ∀ m', m' ≠ m → fwd_has f' m' = fwd_has f m';
}.

(** The calls made on the forwarder, oldest first. *)
Inductive call :=
| CallAdd (m : hdc.Mapping)
| CallHas (m : hdc.Mapping)
| CallRemove (m : hdc.Mapping).

(** * The control socket *)

(** What [os.Lstat] and the probe dial find at the socket path. *)
Inductive socket_probe :=
| ProbeAbsent
| ProbeError (err : error)
| ProbeNotSocket
| ProbeAlive
| ProbeDead (err : error).

(** [listenControlSocket]; [remove], [listen] and [chmod] are the outcomes of
    the system calls.  The result says whether a listener is left open and
    whether the path was unlinked first. *)
Definition listenControlSocket (probe : socket_probe) (remove listen chmod : option error)
    : option error * bool * bool :=
  let finish unlinked :=
    match listen with
    | Some err => (Some (EWrapf (str "listen on daemon control socket") err), false, unlinked)
    | None =>
        match chmod with
        | Some err => (Some (EWrapf (str "protect daemon control socket") err), false, true)
        | None => (None, true, unlinked)
        end
    end in
  match probe with
  | ProbeAbsent => finish false
  | ProbeError err => (Some (EWrapf (str "inspect daemon control socket") err), false, false)
  | ProbeNotSocket =>
      (Some (apperror.New apperror.CodeDaemonRunning
               (str "the daemon control path exists and is not a Unix socket")), false, false)
  | ProbeAlive =>
      (Some (apperror.New apperror.CodeDaemonRunning
               (str "another HarmonyNetBridge daemon is already running")), false, false)
  | ProbeDead err =>
      if negb (errors_Is err ECONNREFUSED) && negb (errors_Is err ErrNotExist) then
        (Some (apperror.New apperror.CodeDaemonRunning
                 (str "the existing daemon control socket could not be safely classified as stale")), false, false)
      else
        match remove with
        | Some err => (Some (EWrapf (str "remove stale daemon control socket") err), false, false)
        | None => finish true
        end
  end.

(** * Local control commands *)

(** [handleControl]: the response, the snapshot and whether a stop was
    requested.  [request] is what [control.Read] gave, [refresh] the effect of
    [refreshRelayStats] on the snapshot. *)
Definition handleControl (now : Time) (refresh : state.Snapshot → state.Snapshot)
    (request : result error control.Request) (snap : state.Snapshot)
    : control.Response * state.Snapshot * bool :=
  let refuse (text : string) :=
    (control.mkResponse false state.zeroSnapshot apperror.CodeInternal (str text), snap, false) in
  match request with
  | Err _ => refuse "invalid daemon control request"
  | Ok request =>
      if streq (control.Command request) control.CommandStatus then
        let snap := refresh snap in
        (control.mkResponse true snap [] [], snap, false)
      else if streq (control.Command request) control.CommandStop then
        let snap := state.set_UpdatedAt now
          (state.set_Message (str "Stopping HarmonyNetBridge") (state.set_Daemon state.DaemonStopping snap)) in
        (control.mkResponse true snap [] [], snap, true)
      else refuse "unknown daemon control command"
  end.

Section run.
Context {F : Type} `{Forwarder F}.

(** * Start-up *)

(** What the outside world answers during [Run] before serving; [se_clock n]
    is the [n]th reading of the clock. *)
Record StartEnv := mkStartEnv {
  se_ensure : option error;                      (* Paths.Ensure *)
  se_listen : result error Z;                    (* the loopback listener's port *)
  se_control : option error;                     (* listenControlSocket *)
  se_previous : state.Snapshot;                  (* the previous state file; zero when unreadable *)
  se_persist : option error;                     (* persist *)
  se_recovery : option error;                    (* ProxyRecovery *)
  se_proxy : result error state.ProxySnapshot;   (* ProxyFactory and Info *)
  se_clock : nat → Time;
}.

(** The state [Run] builds up: the forwarder and the calls made on it, the
    store, [mappingAdded] and [proxySession]. *)
Record RunState := mkRunState {
  rs_fwd : F;
  rs_calls : list call;
  rs_snapshot : state.Snapshot;
  rs_mappingAdded : bool;
  rs_proxySession : bool;
}.

(** [update] and [fail] on the stored snapshot. *)
Definition update (now : Time) (mutate : state.Snapshot → state.Snapshot) (snap : state.Snapshot) : state.Snapshot :=
  state.set_UpdatedAt now (mutate snap).

Definition fail (now : Time) (code message : gostring) (snap : state.Snapshot) : state.Snapshot :=
  update now (λ snap, state.set_LastError message (state.set_LastErrorCode code
    (state.set_Message message (state.set_Daemon state.DaemonFailed snap)))) snap.

Definition own_mapping (config : Config) (hostPort : Z) : hdc.Mapping :=
  hdc.mkMapping (cfg_DevicePort config) hostPort.

(** The previous state file describes the same device and device port. *)
Definition same_device (config : Config) (previous : state.Snapshot) : bool :=
  negb (streq (state.Device previous) []) && streq (state.Device previous) (DeviceLabel config) &&
  (state.DevicePort previous =? cfg_DevicePort config).

Definition stale_mapping (config : Config) (previous : state.Snapshot) : option hdc.Mapping :=
  if same_device config previous && (0 <? state.HostPort previous) && (state.HostPort previous <=? 65535)
  then Some (hdc.mkMapping (state.DevicePort previous) (state.HostPort previous)) else None.

Definition initial_snapshot (config : Config) (env : StartEnv) : state.Snapshot :=
  let previous := se_previous env in
  let snap := state.NewStarting (se_clock env 0) (DeviceLabel config) (cfg_DevicePort config) in
  let snap :=
    if same_device config previous && streq (state.Daemon previous) state.DaemonRunning
    then state.set_Message (str "Recovering HarmonyNetBridge after an unclean daemon exit")
           (state.set_Reconnects (state.Reconnects previous + 1) snap)
    else snap in
  update (se_clock env 1) (λ snap,
    let snap := state.set_MTU (cfg_MTU config) snap in
    if hasProxyFactory config
    then state.set_Message (str "Starting the local capture proxy")
           (state.set_Proxy (state.proxy_status true state.ProxyStarting) snap)
    else snap) snap.

Definition ready_snapshot (now : Time) (hostPort : Z) (snap : state.Snapshot) : state.Snapshot :=
  update now (λ snap,
    state.set_LastError [] (state.set_LastErrorCode [] (state.set_Message (str "Waiting for HarmonyNetBridge App")
      (state.set_HostPort hostPort (state.set_Transport state.TransportPortReady
         (state.set_Daemon state.DaemonRunning snap)))))) snap.

(** The stale mapping is removed on a best-effort basis. *)
Definition remove_stale (config : Config) (env : StartEnv) (f : F) : F * list call :=
  match stale_mapping config (se_previous env) with
  | None => (f, [])
  | Some m => ((Remove f m).2, [CallRemove m])
  end.

Definition recovery_text : gostring := str "an orphaned capture proxy could not be safely recovered".
Definition proxy_text : gostring := str "the local capture proxy could not be started".

(** The capture proxy: recovery of an orphan, then the session, if one is
    configured.  The snapshot, whether a session was opened, and the error. *)
Definition start_proxy (config : Config) (env : StartEnv) (snap : state.Snapshot)
    : state.Snapshot * bool * option error :=
  let recovered :=
    if state.Enabled (state.Proxy (se_previous env)) && hasProxyRecovery config then se_recovery env else None in
  match recovered with
  | Some err =>
      let snap := update (se_clock env 2) (λ snap,
        state.set_Proxy (state.set_Status state.ProxyFailed (state.Proxy (se_previous env))) snap) snap in
      (fail (se_clock env 3) apperror.CodeProxyUnavailable recovery_text snap, false,
       Some (apperror.Wrap apperror.CodeProxyUnavailable recovery_text (Some err)))
  | None =>
      if negb (hasProxyFactory config) then (snap, false, None)
      else
        match se_proxy env with
        | Err err =>
            let snap := update (se_clock env 2) (λ snap,
              state.set_Proxy (state.set_Status state.ProxyFailed (state.Proxy snap)) snap) snap in
            (fail (se_clock env 3) apperror.CodeProxyUnavailable proxy_text snap, false,
             Some (apperror.Wrap apperror.CodeProxyUnavailable proxy_text (Some err)))
        | Ok info =>
            (update (se_clock env 2) (λ snap,
               state.set_Message (str "Local capture proxy ready; preparing the USB bridge")
                 (state.set_Proxy info snap)) snap, true, None)
        end
  end.

(** [Run] up to the point where it starts serving.  [inl err]: it returned
    before the deferred [shutdown] was installed; [inr (err, mapping, st)]:
    [shutdown] runs on [st], at once when there is an error and after serving
    otherwise. *)
Definition run_start (config : Config) (env : StartEnv) (f : F)
    : error + (option error * hdc.Mapping * RunState) :=
  match se_ensure env with
  | Some err => inl err
  | None =>
  match se_listen env with
  | Err err => inl (apperror.Wrap apperror.CodePortConflict (str "Mac loopback listener could not be created") (Some err))
  | Ok hostPort =>
  let mapping := own_mapping config hostPort in
  match se_control env with
  | Some err => inl err
  | None =>
  match se_persist env with
  | Some err => inl err
  | None =>
  match start_proxy config env (initial_snapshot config env) with
  | (snap, proxy, Some err) => inr (Some err, mapping, mkRunState f [] snap false proxy)
  | (snap, proxy, None) =>
      let '(f, calls) := remove_stale config env f in
      match AddReverse f mapping with
      | (Some err, f) =>
          inr (Some err, mapping, mkRunState f (calls ++ [CallAdd mapping])
            (fail (se_clock env 4) apperror.CodeRPortFailed (str "hdc reverse mapping could not be created") snap)
            false proxy)
      | (None, f) =>
          inr (None, mapping, mkRunState f (calls ++ [CallAdd mapping])
            (ready_snapshot (se_clock env 4) hostPort snap) true proxy)
      end
  end end end end end.

(** * The mapping monitor *)

Inductive mark := MarkUnavailable | MarkAvailable.

(** One round of [monitorMapping] after a tick.  [stop1] and [stop2]: the
    context ended or the daemon is stopping after the check and after the
    restore; [between]: what happened to the device between the two.  The result is the new flag ([None]: the monitor returns), the
    marks published and the calls. *)
Definition monitor_round (m : hdc.Mapping) (unavailable stop1 stop2 : bool) (between : F → F) (f : F)
    : option bool * list mark * list call * F :=
  let '(present, f) := HasReverse f m in
  if stop1 then (None, [], [CallHas m], f)
  else
    match present with
    | Err _ => (Some true, [MarkUnavailable], [CallHas m], f)
    | Ok true => (Some false, if unavailable then [MarkAvailable] else [], [CallHas m], f)
    | Ok false =>
        let '(err, f) := AddReverse (between f) m in
        if stop2 then (None, [MarkUnavailable], [CallHas m; CallAdd m], f)
        else
          match err with
          | Some _ => (Some true, [MarkUnavailable], [CallHas m; CallAdd m], f)
          | None => (Some false, [MarkUnavailable; MarkAvailable], [CallHas m; CallAdd m], f)
          end
    end.

(** One tick: what happened to the device since the last round and within
    this one, and the two stop checks. *)
Record Tick := mkTick { tk_device : F → F; tk_between : F → F; tk_stop1 : bool; tk_stop2 : bool }.

(** [monitorMapping] over the ticks it sees before its context ends. *)
Fixpoint monitorMapping (m : hdc.Mapping) (unavailable : bool) (ticks : list Tick) (f : F)
    : list mark * list call * F :=
  match ticks with
  | [] => ([], [], f)
  | tick :: ticks =>
      let '(flag, marks, calls, f) := monitor_round m unavailable (tk_stop1 tick) (tk_stop2 tick) (tk_between tick) (tk_device tick f) in
      match flag with
      | None => (marks, calls, f)
      | Some unavailable =>
          let '(marks', calls', f) := monitorMapping m unavailable ticks f in
          (marks ++ marks', calls ++ calls', f)
      end
  end.

(** * Serving *)

(** What ends the [select] of [Run]. *)
Inductive Ending :=
| EndContext
| EndStop
| EndListener (err : option error) (isStopping : bool)
| EndProxy (isStopping : bool) (err : option error).

(** The snapshot and the value [Run] returns.  Control commands and session
    handlers are not stopped by the end of serving: [late n] is what they
    publish in the [n]th gap between two steps of [Run] and of [shutdown] on
    the snapshot. *)
Definition serve_end (now : nat → Time) (late : nat → state.Snapshot → state.Snapshot) (e : Ending) (snap : state.Snapshot)
    : state.Snapshot * option error :=
  match e with
  | EndContext | EndStop => (snap, None)
  | EndListener err isStopping =>
      match err with
      | None => (snap, None)
      | Some err =>
          if isStopping then (snap, None)
          else (fail (now 5%nat) apperror.CodeInternal (str "a daemon listener stopped unexpectedly") snap, Some err)
      end
  | EndProxy isStopping err =>
      if isStopping then (snap, None)
      else
        let snap := update (now 5%nat) (λ snap,
          state.set_Proxy (state.set_PID 0 (state.set_Status state.ProxyFailed (state.Proxy snap))) snap) snap in
        let snap := late 0%nat snap in
        (fail (now 6%nat) apperror.CodeProxyUnavailable (str "the local capture proxy stopped unexpectedly") snap,
         Some (default (ENew (str "local capture proxy stopped unexpectedly")) err))
  end.

(** * Shutdown *)

(** What [shutdown] did: its error, the state it leaves, how often the proxy
    session was closed and whether the state file stays. *)
Record Cleanup := mkCleanup {
  cl_errors : list error;
  cl_state : RunState;
  cl_proxyCloses : nat;
  cl_keepsStateFile : bool;
}.

Definition close_proxy (now : nat → Time) (late : nat → state.Snapshot → state.Snapshot) (proxyClose : option error)
    (snap : state.Snapshot) : state.Snapshot :=
  let set_off status := λ snap,
    state.set_Proxy (state.set_PID 0 (state.set_Status status (state.Proxy snap))) snap in
  match proxyClose with
  | Some _ =>
      fail (now 9%nat) apperror.CodeProxyUnavailable
        (str "the daemon stopped, but its capture proxy could not be terminated cleanly")
        (late 3%nat (update (now 8%nat) (set_off state.ProxyFailed) snap))
  | None =>
      if negb (streq (state.Daemon snap) state.DaemonFailed) then update (now 8%nat) (set_off state.ProxyOff) (late 3%nat snap)
      else snap
  end.

(** [shutdown] as far as the mapping, the proxy session, the snapshot and the
    state file go (its sessions and relays are the thread [SStart] of
    [Session]). [proxyClose] is the outcome of closing the proxy.  The state
    file is kept or deleted by the snapshot at the last check; an update that
    comes after a deletion would write it again. *)
Definition shutdown (now : nat → Time) (late : nat → state.Snapshot → state.Snapshot) (mapping : hdc.Mapping)
    (proxyClose : option error) (st : RunState) : Cleanup :=
  let snap := update (now 7%nat) session.publish_stopping (late 1%nat (rs_snapshot st)) in
  let snap := late 2%nat snap in
  let '(snap, errs, closes) :=
    if rs_proxySession st then (close_proxy now late proxyClose snap, option_list proxyClose, 1%nat)
    else (snap, [], 0%nat) in
  let snap := late 4%nat snap in
  let '(f, snap, errs, calls) :=
    if rs_mappingAdded st then
      match Remove (rs_fwd st) mapping with
      | (Some err, f) =>
          (f, fail (now 10%nat) apperror.CodeRPortFailed
                (str "the daemon stopped, but its owned hdc reverse mapping could not be removed") snap,
           errs ++ [err], [CallRemove mapping])
      | (None, f) => (f, snap, errs, [CallRemove mapping])
      end
    else (rs_fwd st, snap, errs, []) in
  let snap := late 5%nat snap in
  mkCleanup errs (mkRunState f (rs_calls st ++ calls) snap (rs_mappingAdded st) false) closes
    (streq (state.Daemon snap) state.DaemonFailed).

(** * A whole run *)

(** [sv_sessions]: what the session handlers and control commands published
    while serving; [sv_late]: what those still running publish afterwards;
    [sv_device]: what happened to the device between the
    monitor's last round and the cleanup. *)
Record ServeEnv := mkServeEnv {
  sv_ticks : list Tick;
  sv_device : F → F;
  sv_sessions : state.Snapshot → state.Snapshot;
  sv_late : nat → state.Snapshot → state.Snapshot;
  sv_end : Ending;
  sv_proxyClose : option error;
}.

(** [Run]: the error it returns ([[]] is nil, a list of several is their
    [errors.Join]) and, once [shutdown] is installed, what was cleaned up.
    When start-up fails no handler is running yet. *)
Definition Run (config : Config) (env : StartEnv) (serve : ServeEnv) (f : F)
    : list error * option Cleanup :=
  match run_start config env f with
  | inl err => ([err], None)
  | inr (Some err, mapping, st) =>
      ([err], Some (shutdown (se_clock env) (λ _ snap, snap) mapping (sv_proxyClose serve) st))
  | inr (None, mapping, st) =>
      let '(_, calls, f) := monitorMapping mapping false (sv_ticks serve) (rs_fwd st) in
      let '(snap, err) := serve_end (se_clock env) (sv_late serve) (sv_end serve) (sv_sessions serve (rs_snapshot st)) in
      let cleanup := shutdown (se_clock env) (sv_late serve) mapping (sv_proxyClose serve)
        (mkRunState (sv_device serve f) (rs_calls st ++ calls) snap (rs_mappingAdded st) (rs_proxySession st)) in
      (match err with
       | Some err => [err]
       | None => cl_errors cleanup
       end, Some cleanup)
  end.

(** * Mapping ownership *)

(** A call that cannot remove anything. *)
Definition keeps (m : hdc.Mapping) (c : call) : Prop := c = CallAdd m ∨ c = CallHas m.

Lemma monitor_round_calls m u s1 s2 between f flag marks calls f' :
  monitor_round m u s1 s2 between f = (flag, marks, calls, f') →
  Forall (keeps m) calls ∧
  ∀ m', m' ≠ m → (∀ g, fwd_has (between g) m' = fwd_has g m') → fwd_has f' m' = fwd_has f m'.
Proof.
  unfold monitor_round, keeps. destruct (HasReverse f m) as [present f1] eqn:E1.
  destruct (AddReverse (between f1) m) as [err f2] eqn:E2.
  assert (∀ m', m' ≠ m → fwd_has f1 m' = fwd_has f m') by (intros; by eapply HasReverse_same).
  assert (∀ m', m' ≠ m → (∀ g, fwd_has (between g) m' = fwd_has g m') → fwd_has f2 m' = fwd_has f m').
  { intros m' Hm Hg. rewrite (AddReverse_frame _ _ _ _ E2 m' Hm), Hg. auto. }
  destruct s1; [|destruct present as [[]|]; [| |]]; [..|destruct s2; [|destruct err]|];
    intros [= <- <- <- <-]; split; eauto 10.
Qed.

Lemma monitorMapping_calls m u ticks f marks calls f' :
  monitorMapping m u ticks f = (marks, calls, f') →
  Forall (keeps m) calls ∧
  ∀ m', m' ≠ m → (∀ tick g, tick ∈ ticks → fwd_has (tk_device tick g) m' = fwd_has g m' ∧
                                          fwd_has (tk_between tick g) m' = fwd_has g m') →
    fwd_has f' m' = fwd_has f m'.
Proof.
  revert u f marks calls. induction ticks as [|tick ticks IH]; intros u f marks calls; cbn [monitorMapping].
  { intros [= <- <- <-]. split; [constructor|done]. }
  destruct (monitor_round _ _ _ _ _ _) as [[[flag mk] cs] f1] eqn:E1.
  apply monitor_round_calls in E1 as [Hc Hf]. destruct flag as [u'|].
  - destruct (monitorMapping m u' ticks f1) as [[mk2 cs2] f2] eqn:E2. intros [= <- <- <-].
    destruct (IH _ _ _ _ E2) as [Hc2 Hf2]. split; [by apply Forall_app|].
    intros m' Hm Ht. rewrite Hf2, Hf; [apply Ht; set_solver|done| |done|]; intros; apply Ht; set_solver.
  - intros [= <- <- <-]. split; [done|]. intros m' Hm Ht. rewrite Hf; [|done|]; intros; apply Ht; set_solver.
Qed.

(** The stale mapping, when start-up gets as far as removing it. *)
Definition stale_calls (config : Config) (env : StartEnv) : list call :=
  CallRemove <$> option_list (stale_mapping config (se_previous env)).

Lemma remove_stale_spec config env f f' calls :
  remove_stale config env f = (f', calls) →
  calls = stale_calls config env ∧
  ∀ m', stale_mapping config (se_previous env) ≠ Some m' → fwd_has f' m' = fwd_has f m'.
Proof.
  unfold remove_stale, stale_calls. destruct (stale_mapping _ _) as [m|]; intros [= <- <-]; [|done].
  split; [done|]. intros m' Hm. destruct (Remove f m) as [e f2] eqn:E.
  apply (Remove_frame _ _ _ _ E). congruence.
Qed.

Lemma run_start_spec config env f err mapping st :
  run_start config env f = inr (err, mapping, st) →
  (∃ hostPort, se_listen env = Ok hostPort ∧ mapping = own_mapping config hostPort) ∧
  rs_mappingAdded st = bool_decide (err = None) ∧
  (state.Daemon (rs_snapshot st) = state.DaemonFailed ↔ is_Some err) ∧
  (rs_calls st = [] ∧ is_Some err ∨ rs_calls st = stale_calls config env ++ [CallAdd mapping]) ∧
  ∀ m', m' ≠ mapping → stale_mapping config (se_previous env) ≠ Some m' →
    fwd_has (rs_fwd st) m' = fwd_has f m'.
Proof.
  unfold run_start. destruct (se_ensure env); [done|]. destruct (se_listen env) as [hostPort|]; [|done].
  destruct (se_control env); [done|]. destruct (se_persist env); [done|].
  destruct (start_proxy _ _ _) as [[snap proxy] [e|]] eqn:Ep.
  - intros [= <- <- <-]. cbn. split_and!; [by eauto|done| |by left; eauto|done].
    split; [by eauto|]. intros _. revert Ep. unfold start_proxy. repeat case_match; intros [= <- <- <-]; done.
  - destruct (remove_stale config env f) as [f1 calls] eqn:Es.
    apply remove_stale_spec in Es as [-> Hf].
    destruct (AddReverse f1 _) as [[e|] f2] eqn:Ea; intros [= <- <- <-]; cbn;
      (split_and!; [by eauto|done| |by right|
        intros m' Hm Hs; rewrite (AddReverse_frame _ _ _ _ Ea m' Hm); by apply Hf]).
    + split; [by eauto|done].
    + split; [done|]. by intros [? ?].
Qed.

Lemma shutdown_mapping now late mapping pc st :
  let cl := shutdown now late mapping pc st in
  rs_calls (cl_state cl) = rs_calls st ++ (if rs_mappingAdded st then [CallRemove mapping] else []) ∧
  rs_mappingAdded (cl_state cl) = rs_mappingAdded st ∧
  (∀ m', m' ≠ mapping → fwd_has (rs_fwd (cl_state cl)) m' = fwd_has (rs_fwd st) m') ∧
  (rs_mappingAdded st = true → cl_errors cl = [] → fwd_has (rs_fwd (cl_state cl)) mapping = false).
Proof.
  cbv zeta. unfold shutdown. destruct (rs_proxySession st), (rs_mappingAdded st); cbn;
    try (destruct (Remove _ _) as [[e|] f'] eqn:E); cbn;
    (split_and!; [done|done|try done; try (intros m' Hm; by apply (Remove_frame _ _ _ _ E))|
      intros ? Hn; try done; try (by apply app_nil in Hn as [_ ?]); by eapply Remove_ok]).
Qed.

(** What happens to the device on its own while the daemon serves. *)
Definition device_changes (serve : ServeEnv) : list (F → F) :=
  sv_device serve :: flat_map (λ tick, [tk_device tick; tk_between tick]) (sv_ticks serve).

Lemma device_changes_tick serve tick :
  tick ∈ sv_ticks serve → tk_device tick ∈ device_changes serve ∧ tk_between tick ∈ device_changes serve.
Proof.
  intros Hin. unfold device_changes. rewrite !list_elem_of_In in *.
  split; right; apply in_flat_map; exists tick; cbn; auto.
Qed.

(** C20: the daemon cleans up its own mapping and nothing else.  In every run
    that gets as far as the deferred cleanup, the calls on hdc are: at most
    one removal of the mapping the previous state file recorded for the same
    device and port, then only additions and inspections of the run's own
    mapping, and the removal of that mapping, as the last call, exactly when
    start-up created it.  Every other mapping is left as it was, and when
    [Run] returns nil the device no longer has the run's mapping. *)
Theorem Run_mapping_ownership config env serve f ret cl :
  Run config env serve f = (ret, Some cl) →
  ∃ hostPort early mid,
    let mapping := own_mapping config hostPort in
    se_listen env = Ok hostPort ∧
    rs_calls (cl_state cl) =
      early ++ mid ++ (if rs_mappingAdded (cl_state cl) then [CallRemove mapping] else []) ∧
    (early = [] ∨ early = stale_calls config env) ∧ Forall (keeps mapping) mid ∧
    (rs_mappingAdded (cl_state cl) = true ↔
       ∃ st, run_start config env f = inr (None, mapping, st)) ∧
    (∀ m', m' ≠ mapping → stale_mapping config (se_previous env) ≠ Some m' →
       (∀ change g, change ∈ device_changes serve → fwd_has (change g) m' = fwd_has g m') →
       fwd_has (rs_fwd (cl_state cl)) m' = fwd_has f m') ∧
    (ret = [] → fwd_has (rs_fwd (cl_state cl)) mapping = false).
Proof.
  unfold Run. destruct (run_start config env f) as [e|[[err mapping] st]] eqn:Es; [done|].
  destruct (run_start_spec _ _ _ _ _ _ Es) as ((hostPort & Hl & ->) & Ha & _ & Hc & Hf).
  intros HR. exists hostPort. cbv zeta. destruct err as [err|].
  - destruct (shutdown_mapping (se_clock env) (λ _ snap, snap) (own_mapping config hostPort) (sv_proxyClose serve) st)
      as (H1 & H2 & H3 & H4).
    injection HR as <- <-. rewrite H1, H2, Ha. cbn.
    assert (∃ early mid, rs_calls st ++ [] = early ++ mid ++ [] ∧
      (early = [] ∨ early = stale_calls config env) ∧ Forall (keeps (own_mapping config hostPort)) mid)
      as (early & mid & Hx & ? & ?).
    { destruct Hc as [[-> _]| ->]; [exists [], []; eauto|].
      exists (stale_calls config env), [CallAdd (own_mapping config hostPort)].
      rewrite !app_nil_r. split_and!; eauto. repeat constructor. }
    exists early, mid. split_and!; [done..| | |done].
    + split; [done|]. intros [st' ?]. congruence.
    + intros m' Hm Hs _. rewrite H3 by done. auto.
  - destruct (monitorMapping _ _ _ _) as [[marks calls] f1] eqn:Em.
    destruct (serve_end _ _ _) as [snap err].
    apply monitorMapping_calls in Em as [Hk Hf1].
    set (st' := mkRunState _ _ _ _ _) in HR.
    destruct (shutdown_mapping (se_clock env) (sv_late serve) (own_mapping config hostPort) (sv_proxyClose serve) st')
      as (H1 & H2 & H3 & H4).
    injection HR as <- <-. rewrite H1, H2. cbn [st' rs_calls rs_mappingAdded]. rewrite Ha. cbn [bool_decide decide_rel].
    destruct Hc as [[_ [? ?]]|Hc]; [done|].
    exists (stale_calls config env), (CallAdd (own_mapping config hostPort) :: calls).
    split_and!; [done| |by right|constructor; [by left|done]| | |].
    + rewrite Hc, <-!app_assoc. done.
    + split; [|done]. eauto.
    + intros m' Hm Hs Ht. rewrite H3 by done. cbn. rewrite (Ht (sv_device serve)) by (by left). rewrite Hf1; [by auto|done|].
      intros tick g [? ?]%device_changes_tick. auto.
    + destruct err; [done|]. intros He. apply H4; [|done]. cbn. by rewrite Ha.
Qed.

(** * Failure reporting *)

(** Publications that leave the daemon state, or turn it into something other
    than FAILED. *)
Definition no_failure (pub : state.Snapshot → state.Snapshot) : Prop :=
  ∀ snap, state.Daemon (pub snap) = state.DaemonFailed → state.Daemon snap = state.DaemonFailed.
Definition same_daemon (pub : state.Snapshot → state.Snapshot) : Prop :=
  ∀ snap, state.Daemon (pub snap) = state.Daemon snap.

Lemma same_daemon_failure pub : same_daemon pub → no_failure pub.
Proof. intros Hp snap. by rewrite Hp. Qed.




Lemma shutdown_fields now late mapping pc st :
  let cl := shutdown now late mapping pc st in
  cl_keepsStateFile cl = streq (state.Daemon (rs_snapshot (cl_state cl))) state.DaemonFailed ∧
  cl_proxyCloses cl = (if rs_proxySession st then 1 else 0)%nat ∧ rs_proxySession (cl_state cl) = false.
Proof.
  cbv zeta. unfold shutdown. destruct (rs_proxySession st), (rs_mappingAdded st); by try (destruct (Remove _ _) as [[e|] f']).
Qed.





(** A stop command handled after the failure and before the last check hides
    it: the state file is deleted although [Run] returns the error. *)
Lemma late_stop_hides_failure config env serve f ret cl now :
  (∃ mapping st, run_start config env f = inr (None, mapping, st)) →
  sv_late serve 5 = update now session.publish_stop →
  Run config env serve f = (ret, Some cl) → cl_keepsStateFile cl = false.
Proof.
  intros (mapping & st & Es) Hl. unfold Run. rewrite Es.
  destruct (monitorMapping _ _ _ _) as [[marks calls] f1]. destruct (serve_end _ _ _ _) as [snap err].
  set (st' := mkRunState _ _ _ _ _).
  intros [= _ <-]. destruct (shutdown_fields (se_clock env) (sv_late serve) mapping (sv_proxyClose serve) st') as (-> & _).
  apply bool_decide_eq_false. unfold shutdown.
  destruct (rs_proxySession st'), (rs_mappingAdded st'); try (destruct (Remove _ _) as [[e|] f']); cbn [rs_snapshot cl_state]; by rewrite Hl.
Qed.

(** * Monitoring *)

(** The monitor tells the truth about the mapping.  A round that is not
    interrupted ends in the available state only if the device then has the
    mapping, restoring it if hdc had dropped it; it publishes availability
    only then, and in every other case it publishes that the mapping is
    unavailable.  It never removes a mapping and touches no other one. *)
Theorem monitor_round_spec m unavailable stop2 between f :
  let '(flag, marks, calls, f') := monitor_round m unavailable false stop2 between f in
  (flag = Some false → fwd_has f' m = true ∧ (unavailable = true → MarkAvailable ∈ marks)) ∧
  (MarkAvailable ∈ marks → flag = Some false) ∧
  (flag ≠ Some false → MarkUnavailable ∈ marks) ∧
  (CallAdd m ∈ calls → fwd_has f m = false) ∧
  Forall (keeps m) calls ∧
  ∀ m', m' ≠ m → (∀ g, fwd_has (between g) m' = fwd_has g m') → fwd_has f' m' = fwd_has f m'.
Proof.
  destruct (monitor_round m unavailable false stop2 between f) as [[[flag marks] calls] f'] eqn:E.
  destruct (monitor_round_calls _ _ _ _ _ _ _ _ _ _ E) as [Hk Hf].
  cut ((flag = Some false → fwd_has f' m = true ∧ (unavailable = true → MarkAvailable ∈ marks)) ∧
    (MarkAvailable ∈ marks → flag = Some false) ∧ (flag ≠ Some false → MarkUnavailable ∈ marks) ∧
    (CallAdd m ∈ calls → fwd_has f m = false)); [intros (? & ? & ? & ?); by split_and!|].
  revert E. unfold monitor_round. destruct (HasReverse f m) as [present f1] eqn:E1.
  destruct present as [present|e].
  - pose proof (HasReverse_ok _ _ _ _ E1) as Hp. pose proof (HasReverse_same _ _ _ _ E1 m) as Hs.
    destruct present.
    + intros [= <- <- <- <-]. split_and!; [|done|done|set_solver].
      intros _. split; [congruence|]. intros ->. apply list_elem_of_here.
    + destruct (AddReverse (between f1) m) as [[e|] f2] eqn:E2; destruct stop2; intros [= <- <- <- <-];
        split_and!; try done; try set_solver.
      intros _. split; [by eapply AddReverse_ok|]. intros _. set_solver.
  - intros [= <- <- <- <-]. split_and!; [done|set_solver..].
Qed.
End run.

(** * The control socket is never stolen *)

Lemma listenControlSocket_safe probe remove listen chmod err ok unlinked :
  listenControlSocket probe remove listen chmod = (err, ok, unlinked) →
  (ok = true ↔ err = None) ∧
  (unlinked = true →
     probe = ProbeAbsent ∧ chmod ≠ None ∨
     ∃ e, probe = ProbeDead e ∧ (errors_Is e ECONNREFUSED || errors_Is e ErrNotExist) = true) ∧
  (probe = ProbeAlive ∨ probe = ProbeNotSocket →
     unlinked = false ∧ ∃ e m, err = Some e ∧ errors_As_App e = Some (apperror.CodeDaemonRunning, m)).
Proof.
  unfold listenControlSocket. destruct probe as [|e| | |e].
  1: destruct listen, chmod; intros [= <- <- <-]; naive_solver.
  1-3: intros [= <- <- <-]; naive_solver.
  destruct (errors_Is e ECONNREFUSED) eqn:E1, (errors_Is e ErrNotExist) eqn:E2; cbn;
    destruct remove, listen, chmod; intros [= <- <- <-]; split_and!; try done; try naive_solver;
    try (intros _; right; exists e; by rewrite ?E1, ?E2).
Qed.

(** * The handlers never publish FAILED *)

Lemma session_keeps_daemon MarshalIndent pid stateFile now tid t i s t' s' :
  session.thread_step MarshalIndent pid stateFile now tid t i s = Some (t', s') →
  state.Daemon (session.get s') = state.DaemonFailed → state.Daemon (session.get s) = state.DaemonFailed.
Proof.
  intros E. destruct t, i; cbn [session.thread_step] in E; try done;
    unfold session.admit_control, session.attach_data, session.bind_relay, session.take_control,
      session.take_data, session.take_all in E;
    repeat case_match; simplify_eq; autorewrite with session_get; try done.
  all: unfold session.publish_control, session.publish_vpn, session.publish_control_release,
    session.publish_mapping, session.publish_stopping, publish_heartbeat; repeat case_match; done.
Qed.
(** Apart from shutdown itself, only the stop command changes the daemon state. *)
Lemma session_same_daemon MarshalIndent pid stateFile now tid t i s t' s' :
  session.thread_step MarshalIndent pid stateFile now tid t i s = Some (t', s') →
  t ≠ session.LStop → (∀ c d r, t ≠ session.SPublish c d r) →
  state.Daemon (session.get s') = state.Daemon (session.get s).
Proof.
  intros E Hn1 Hn2. destruct t, i; cbn [session.thread_step] in E; try done;
    unfold session.admit_control, session.attach_data, session.bind_relay, session.take_control,
      session.take_data, session.take_all in E;
    repeat case_match; simplify_eq; autorewrite with session_get; try done.
  all: try (by destruct (Hn2 control data relay)).
  all: unfold session.publish_control, session.publish_vpn, session.publish_control_release,
    session.publish_mapping, publish_heartbeat; repeat case_match; done.
Qed.
End run.
