(* ===== verification/Serve.v ===== *)
(** The goroutines of a serving daemon (src/internal/daemon/server.go): the
    accept loops [serveControl] and [serveDevice], the mapping monitor started
    by [startMappingMonitor], the [select] at the end of [Run], [requestStop]
    and the order of [shutdown], as one transition system.

    [Run] treats the monitor as if it ran alone between start-up and cleanup;
    here that is shown to be what every interleaving amounts to. *)
From S2P Require Import Prelude Errors GoIO GoStrings GoOS GoNet Protocol State Control Hdc Daemon Session Run.
Import run.

Module serve.

Section serve.
Context {F : Type} `{Forwarder F}.
Variable mapping : hdc.Mapping.

(** * State *)

(** An accept loop: its listener, where it is, the connections it accepted
    and the ones it started a handler for. *)
Inductive LoopAt := Accepting | Accepted (conn : nat) | Failing (err : error) | LoopEnded.

Record Loop := mkLoop {
  lp_open : bool;
  lp_at : LoopAt;
  lp_accepted : list nat;
  lp_handled : list nat;
}.

(** [monitorMapping] with the goroutine's deferred [close(done)]: at the
    select, in [HasReverse], at the first stop check, in [AddReverse], at the
    second stop check, returning, and gone. *)
Inductive MonitorAt :=
| Idle (unavailable : bool)
| Checking (unavailable : bool)
| Checked (unavailable : bool) (present : result error bool)
| Restoring
| Restored (err : option error)
| Leaving
| MonitorEnded.

(** The monitor, the device behind the forwarder, and what was called on it
    and marked so far. *)
Record Monitor := mkMonitor {
  mo_at : MonitorAt;
  mo_fwd : F;
  mo_calls : list call;
  mo_marks : list mark;
}.

(** The channels and flags: Run's context, [stopOnce], [stopRequested],
    [stopping], the monitor's cancel function, the proxy session's [Done]
    channel (with its error), and whether a channel was closed twice. *)
Record Signals := mkSignals {
  sg_ctx : bool;
  sg_once : bool;
  sg_stopRequested : bool;
  sg_stopping : bool;
  sg_cancelled : bool;
  sg_proxyDone : option (option error);
  sg_panic : bool;
}.

(** [Run]: in its select, then [shutdown] call by call. *)
Inductive MainAt :=
| Selecting | Locking | CancellingMonitor | AwaitingMonitor | EndingSessions
| ClosingDevice | ClosingControl | ClosingProxy | RemovingMapping | Returned.

Record Serve := mkServe {
  sr_main : MainAt;
  sr_end : option Ending;
  sr_control : Loop;
  sr_device : Loop;
  sr_errors : list error;       (* serveErrors *)
  sr_monitor : Monitor;
  sr_signals : Signals;
}.

(** The capacity of [serveErrors]. *)
Definition serve_capacity : nat := 2.

Definition fresh_loop : Loop := mkLoop true Accepting [] [].

(** [startMappingMonitor]: the goroutine begins with [unavailable := false]. *)
Definition startMappingMonitor (f : F) : Monitor := mkMonitor (Idle false) f [] [].

Definition serving (f : F) : Serve :=
  mkServe Selecting None fresh_loop fresh_loop [] (startMappingMonitor f)
    (mkSignals false false false false false None false).

(** * Steps *)

Inductive loop_event := Connect (conn : nat) | StartHandler | AcceptFails (err : error) | Post.
Inductive monitor_event := Ticked | Cancels | HasReturns | FirstCheck | AddReturns | SecondCheck | CloseDone.
Inductive select_case := CaseContext | CaseStop | CaseError | CaseProxy.

Inductive event :=
| ControlLoop (ev : loop_event)
| DeviceLoop (ev : loop_event)
| MonitorStep (ev : monitor_event)
| DeviceChange (g : F → F)            (* the device on its own *)
| ContextEnds
| ProxyEnds (err : option error)
| StopCommand                         (* a control handler runs requestStop *)
| SelectCase (c : select_case)
| Shutdown.                           (* the next call of shutdown *)

(** An accept loop, [serveControl] or [serveDevice], and [serveErrors].
    [Accept] fails on its own, or because the listener is closed. *)
Definition loop_step (l : Loop) (errors : list error) (ev : loop_event) : option (Loop * list error) :=
  match ev, lp_at l with
  | Connect conn, Accepting =>
      if lp_open l
      then Some (mkLoop true (Accepted conn) (lp_accepted l ++ [conn]) (lp_handled l), errors) else None
  | StartHandler, Accepted conn =>
      Some (mkLoop (lp_open l) Accepting (lp_accepted l) (lp_handled l ++ [conn]), errors)
  | AcceptFails err, Accepting => Some (mkLoop (lp_open l) (Failing err) (lp_accepted l) (lp_handled l), errors)
  | Post, Failing err =>
      if decide (length errors < serve_capacity)%nat
      then Some (mkLoop (lp_open l) LoopEnded (lp_accepted l) (lp_handled l), errors ++ [err]) else None
  | _, _ => None
  end.

(** [monitorMapping]; [stop] is [ctx.Err() != nil || s.isStopping()]. *)
Definition monitor_step (mo : Monitor) (cancelled stop : bool) (ev : monitor_event) : option Monitor :=
  let goto p := mkMonitor p (mo_fwd mo) (mo_calls mo) (mo_marks mo) in
  let marking m p := mkMonitor p (mo_fwd mo) (mo_calls mo) (mo_marks mo ++ m) in
  match ev, mo_at mo with
  | Ticked, Idle u => Some (goto (Checking u))
  | Cancels, Idle _ => if cancelled then Some (goto Leaving) else None
  | HasReturns, Checking u =>
      let '(present, f) := HasReverse (mo_fwd mo) mapping in
      Some (mkMonitor (Checked u present) f (mo_calls mo ++ [CallHas mapping]) (mo_marks mo))
  | FirstCheck, Checked u present =>
      if stop then Some (goto Leaving)
      else
        match present with
        | Err _ => Some (marking [MarkUnavailable] (Idle true))
        | Ok true => Some (marking (if u then [MarkAvailable] else []) (Idle false))
        | Ok false => Some (marking [MarkUnavailable] Restoring)
        end
  | AddReturns, Restoring =>
      let '(err, f) := AddReverse (mo_fwd mo) mapping in
      Some (mkMonitor (Restored err) f (mo_calls mo ++ [CallAdd mapping]) (mo_marks mo))
  | SecondCheck, Restored err =>
      if stop then Some (goto Leaving)
      else
        match err with
        | Some _ => Some (goto (Idle true))
        | None => Some (marking [MarkAvailable] (Idle false))
        end
  | CloseDone, Leaving => Some (goto MonitorEnded)
  | _, _ => None
  end.

(** [requestStop]. *)
Definition requestStop (g : Signals) : Signals :=
  if sg_once g then g
  else mkSignals (sg_ctx g) true true (sg_stopping g) (sg_cancelled g) (sg_proxyDone g)
         (sg_panic g || sg_stopRequested g).

Definition set_stopping (g : Signals) : Signals :=
  mkSignals (sg_ctx g) (sg_once g) (sg_stopRequested g) true (sg_cancelled g) (sg_proxyDone g) (sg_panic g).

Definition set_cancelled (g : Signals) : Signals :=
  mkSignals (sg_ctx g) (sg_once g) (sg_stopRequested g) (sg_stopping g) true (sg_proxyDone g) (sg_panic g).

Definition close_listener (l : Loop) : Loop := mkLoop false (lp_at l) (lp_accepted l) (lp_handled l).

(** [isStopping]. *)
Definition isStopping (g : Signals) : bool := sg_stopping g.

Definition serveControl (s : Serve) (ev : loop_event) : option Serve :=
  '(l, errors) ← loop_step (sr_control s) (sr_errors s) ev;
  Some (mkServe (sr_main s) (sr_end s) l (sr_device s) errors (sr_monitor s) (sr_signals s)).

Definition serveDevice (s : Serve) (ev : loop_event) : option Serve :=
  '(l, errors) ← loop_step (sr_device s) (sr_errors s) ev;
  Some (mkServe (sr_main s) (sr_end s) (sr_control s) l errors (sr_monitor s) (sr_signals s)).

(** The [select] of [Run]. *)
Definition select_step (s : Serve) (c : select_case) : option Serve :=
  let g := sr_signals s in
  let ends e errors := Some (mkServe Locking (Some e) (sr_control s) (sr_device s) errors (sr_monitor s) g) in
  match sr_main s, c with
  | Selecting, CaseContext => if sg_ctx g then ends EndContext (sr_errors s) else None
  | Selecting, CaseStop => if sg_stopRequested g then ends EndStop (sr_errors s) else None
  | Selecting, CaseError =>
      match sr_errors s with
      | err :: errors => ends (EndListener (Some err) (isStopping g)) errors
      | [] => None
      end
  | Selecting, CaseProxy =>
      match sg_proxyDone g with
      | Some err => ends (EndProxy (isStopping g) err) (sr_errors s)
      | None => None
      end
  | _, _ => None
  end.

(** [shutdown]: the lock, the monitor, the sessions (the file Session), the
    listeners, the proxy session and the mapping. *)
Definition shutdown_step (s : Serve) : option Serve :=
  let goto p := mkServe p (sr_end s) (sr_control s) (sr_device s) (sr_errors s) (sr_monitor s) (sr_signals s) in
  let signal p g := mkServe p (sr_end s) (sr_control s) (sr_device s) (sr_errors s) (sr_monitor s) g in
  match sr_main s with
  | Selecting | Returned => None
  | Locking => Some (signal CancellingMonitor (set_stopping (sr_signals s)))
  | CancellingMonitor => Some (signal AwaitingMonitor (set_cancelled (sr_signals s)))
  | AwaitingMonitor => match mo_at (sr_monitor s) with MonitorEnded => Some (goto EndingSessions) | _ => None end
  | EndingSessions => Some (goto ClosingDevice)
  | ClosingDevice =>
      Some (mkServe ClosingControl (sr_end s) (sr_control s) (close_listener (sr_device s)) (sr_errors s)
              (sr_monitor s) (sr_signals s))
  | ClosingControl =>
      Some (mkServe ClosingProxy (sr_end s) (close_listener (sr_control s)) (sr_device s) (sr_errors s)
              (sr_monitor s) (sr_signals s))
  | ClosingProxy => Some (goto RemovingMapping)
  | RemovingMapping =>
      let mo := sr_monitor s in
      Some (mkServe Returned (sr_end s) (sr_control s) (sr_device s) (sr_errors s)
              (mkMonitor (mo_at mo) (Remove (mo_fwd mo) mapping).2 (mo_calls mo ++ [CallRemove mapping]) (mo_marks mo))
              (sr_signals s))
  end.

(** The monitor's context is a child of Run's. *)
Definition monitor_cancelled (g : Signals) : bool := sg_ctx g || sg_cancelled g.

Definition step (s : Serve) (ev : event) : option Serve :=
  let g := sr_signals s in
  let mo := sr_monitor s in
  let signal g := Some (mkServe (sr_main s) (sr_end s) (sr_control s) (sr_device s) (sr_errors s) mo g) in
  let monitor mo := mkServe (sr_main s) (sr_end s) (sr_control s) (sr_device s) (sr_errors s) mo g in
  match ev with
  | ControlLoop ev => serveControl s ev
  | DeviceLoop ev => serveDevice s ev
  | MonitorStep ev =>
      mo ← monitor_step mo (monitor_cancelled g) (monitor_cancelled g || isStopping g) ev;
      Some (monitor mo)
  | DeviceChange h => Some (monitor (mkMonitor (mo_at mo) (h (mo_fwd mo)) (mo_calls mo) (mo_marks mo)))
  | ContextEnds => signal (mkSignals true (sg_once g) (sg_stopRequested g) (sg_stopping g) (sg_cancelled g)
                             (sg_proxyDone g) (sg_panic g))
  | ProxyEnds err =>
      match sg_proxyDone g with
      | None => signal (mkSignals (sg_ctx g) (sg_once g) (sg_stopRequested g) (sg_stopping g) (sg_cancelled g)
                          (Some err) (sg_panic g))
      | Some _ => None
      end
  | StopCommand => match lp_handled (sr_control s) with [] => None | _ :: _ => signal (requestStop g) end
  | SelectCase c => select_step s c
  | Shutdown => shutdown_step s
  end.

Inductive runs (s0 : Serve) : Serve → Prop :=
| runs_refl : runs s0 s0
| runs_step s ev s' : runs s0 s → step s ev = Some s' → runs s0 s'.

(** * The monitor runs as if alone *)

(** [ticks] are complete rounds from the device [f0]: what follows them
    continues from [u] and [f]. *)
Definition rounds (f0 : F) (ticks : list Tick) (u : bool) (f : F) (marks : list mark) (calls : list call) : Prop :=
  ∀ more, monitorMapping mapping false (ticks ++ more) f0 =
    let '(marks', calls', f') := monitorMapping mapping u more f in (marks ++ marks', calls ++ calls', f').

Lemma rounds_nil f0 : rounds f0 [] false f0 [] [].
Proof. intros more. rewrite app_nil_l. by destruct (monitorMapping mapping false more f0) as [[]]. Qed.

Lemma rounds_all f0 ticks u f marks calls :
  rounds f0 ticks u f marks calls → monitorMapping mapping false ticks f0 = (marks, calls, f).
Proof. intros Hr. specialize (Hr []). cbn in Hr. by rewrite !app_nil_r in Hr. Qed.

Lemma rounds_snoc f0 ticks u f marks calls tick u' mk cs f' :
  rounds f0 ticks u f marks calls →
  monitor_round mapping u (tk_stop1 tick) (tk_stop2 tick) (tk_between tick) (tk_device tick f) = (Some u', mk, cs, f') →
  rounds f0 (ticks ++ [tick]) u' f' (marks ++ mk) (calls ++ cs).
Proof.
  intros Hr Hm more. rewrite <-app_assoc, Hr. cbn. rewrite Hm.
  destruct (monitorMapping mapping u' more f') as [[mk' cs'] f'']. by rewrite <-!app_assoc.
Qed.

Lemma rounds_last f0 ticks u f marks calls tick mk cs f' :
  rounds f0 ticks u f marks calls →
  monitor_round mapping u (tk_stop1 tick) (tk_stop2 tick) (tk_between tick) (tk_device tick f) = (None, mk, cs, f') →
  monitorMapping mapping false (ticks ++ [tick]) f0 = (marks ++ mk, calls ++ cs, f').
Proof. intros Hr Hm. rewrite Hr. cbn. by rewrite Hm. Qed.

(** Where the monitor is in the sequential run: complete rounds, the calls of
    the round it is in, and what the device did on its own since the last
    call ([g], [h], [k]). *)
Definition simulated (f0 : F) (mo : Monitor) : Prop :=
  match mo_at mo with
  | Idle u | Checking u =>
      ∃ ticks f g, rounds f0 ticks u f (mo_marks mo) (mo_calls mo) ∧ mo_fwd mo = g f
  | Checked u present =>
      ∃ ticks f g calls f1 h, rounds f0 ticks u f (mo_marks mo) calls ∧ HasReverse (g f) mapping = (present, f1) ∧
        mo_calls mo = calls ++ [CallHas mapping] ∧ mo_fwd mo = h f1
  | Restoring =>
      ∃ ticks u f g marks calls f1 h, rounds f0 ticks u f marks calls ∧ HasReverse (g f) mapping = (Ok false, f1) ∧
        mo_marks mo = marks ++ [MarkUnavailable] ∧ mo_calls mo = calls ++ [CallHas mapping] ∧ mo_fwd mo = h f1
  | Restored err =>
      ∃ ticks u f g marks calls f1 h f2 k, rounds f0 ticks u f marks calls ∧ HasReverse (g f) mapping = (Ok false, f1) ∧
        AddReverse (h f1) mapping = (err, f2) ∧ mo_marks mo = marks ++ [MarkUnavailable] ∧
        mo_calls mo = calls ++ [CallHas mapping; CallAdd mapping] ∧ mo_fwd mo = k f2
  | Leaving | MonitorEnded =>
      ∃ ticks f g, monitorMapping mapping false ticks f0 = (mo_marks mo, mo_calls mo, f) ∧ mo_fwd mo = g f
  end.

Lemma simulated_change f0 mo g :
  simulated f0 mo → simulated f0 (mkMonitor (mo_at mo) (g (mo_fwd mo)) (mo_calls mo) (mo_marks mo)).
Proof.
  unfold simulated. cbn. destruct (mo_at mo).
  - intros (ticks & f & h & Hr & ->). by exists ticks, f, (λ x, g (h x)).
  - intros (ticks & f & h & Hr & ->). by exists ticks, f, (λ x, g (h x)).
  - intros (ticks & f & h & calls & f1 & k & Hr & Hh & Hc & ->). by exists ticks, f, h, calls, f1, (λ x, g (k x)).
  - intros (ticks & u & f & h & marks & calls & f1 & k & Hr & Hh & Hm & Hc & ->).
    by exists ticks, u, f, h, marks, calls, f1, (λ x, g (k x)).
  - intros (ticks & u & f & h & marks & calls & f1 & k & f2 & l & Hr & Hh & Ha & Hm & Hc & ->).
    by exists ticks, u, f, h, marks, calls, f1, k, f2, (λ x, g (l x)).
  - intros (ticks & f & h & Hr & ->). by exists ticks, f, (λ x, g (h x)).
  - intros (ticks & f & h & Hr & ->). by exists ticks, f, (λ x, g (h x)).
Qed.

Lemma simulated_step f0 mo cancelled stop ev mo' :
  simulated f0 mo → monitor_step mo cancelled stop ev = Some mo' → simulated f0 mo'.
Proof.
  unfold simulated, monitor_step. intros Hs E. destruct ev, (mo_at mo) as [u|u|u present| |err| |] eqn:Ep; try discriminate E.
  - injection E as <-. exact Hs.
  - destruct cancelled; [|discriminate E]. injection E as <-. cbn.
    destruct Hs as (ticks & f & g & Hr%rounds_all & ->). by exists ticks, f, g.
  - destruct Hs as (ticks & f & g & Hr & Hf). destruct (HasReverse (mo_fwd mo) mapping) as [present f1] eqn:Eh.
    injection E as <-. cbn. exists ticks, f, g, (mo_calls mo), f1, id. by rewrite <-Hf.
  - destruct Hs as (ticks & f & g & calls & f1 & h & Hr & Hh & Hc & Hf). destruct stop.
    + injection E as <-. cbn. eexists _, _, h. rewrite Hf, Hc. split; [|reflexivity].
      rewrite <-(app_nil_r (mo_marks mo)). apply (rounds_last _ _ _ _ _ _ (mkTick g id true false) _ _ _ Hr).
      unfold monitor_round. cbn. by rewrite Hh.
    + destruct present as [[]|err].
      * injection E as <-. cbn. eexists _, _, h. rewrite Hf, Hc. split; [|reflexivity].
        apply (rounds_snoc _ _ _ _ _ _ (mkTick g id false false) _ _ _ _ Hr). unfold monitor_round. cbn. by rewrite Hh.
      * injection E as <-. cbn. by exists ticks, u, f, g, (mo_marks mo), calls, f1, h.
      * injection E as <-. cbn. eexists _, _, h. rewrite Hf, Hc. split; [|reflexivity].
        apply (rounds_snoc _ _ _ _ _ _ (mkTick g id false false) _ _ _ _ Hr). unfold monitor_round. cbn. by rewrite Hh.
  - destruct Hs as (ticks & u & f & g & marks & calls & f1 & h & Hr & Hh & Hm & Hc & Hf).
    destruct (AddReverse (mo_fwd mo) mapping) as [err f2] eqn:Ea. injection E as <-. cbn.
    exists ticks, u, f, g, marks, calls, f1, h, f2, id. rewrite Hf in Ea. rewrite Hc, <-app_assoc. by split_and!.
  - destruct Hs as (ticks & u & f & g & marks & calls & f1 & h & f2 & k & Hr & Hh & Ha & Hm & Hc & Hf). destruct stop.
    + injection E as <-. cbn. eexists _, _, k. rewrite Hf, Hc, Hm. split; [|reflexivity].
      apply (rounds_last _ _ _ _ _ _ (mkTick g h false true) _ _ _ Hr). unfold monitor_round. cbn. by rewrite Hh, Ha.
    + destruct err as [err|]; injection E as <-; cbn; eexists _, _, k; rewrite Hf, Hc, Hm; (split; [|reflexivity]);
        rewrite <-?app_assoc; apply (rounds_snoc _ _ _ _ _ _ (mkTick g h false false) _ _ _ _ Hr);
        unfold monitor_round; cbn; by rewrite Hh, Ha.
  - injection E as <-. exact Hs.
Qed.

(** * Invariant *)

Definition main_rank (m : MainAt) : nat :=
  match m with
  | Selecting => 0 | Locking => 1 | CancellingMonitor => 2 | AwaitingMonitor => 3 | EndingSessions => 4
  | ClosingDevice => 5 | ClosingControl => 6 | ClosingProxy => 7 | RemovingMapping => 8 | Returned => 9
  end.

Definition alive (l : Loop) : nat := match lp_at l with LoopEnded => 0 | _ => 1 end.

(** Every accepted connection has its handler, or is the one being started. *)
Definition loop_ok (l : Loop) : Prop :=
  lp_accepted l = lp_handled l ++ match lp_at l with Accepted conn => [conn] | _ => [] end.

(** [isStopping] was false when the select was left. *)
Definition end_ok (e : option Ending) : Prop :=
  match e with
  | Some (EndListener _ b) => b = false
  | Some (EndProxy b _) => b = false
  | _ => True
  end.

(** The sequential run is over and the mapping has been removed. *)
Definition removed (f0 : F) (mo : Monitor) : Prop :=
  ∃ ticks f g h calls, monitorMapping mapping false ticks f0 = (mo_marks mo, calls, f) ∧
    mo_calls mo = calls ++ [CallRemove mapping] ∧ mo_fwd mo = h (Remove (g f) mapping).2.

Record serve_inv (f0 : F) (s : Serve) : Prop := {
  si_panic : sg_panic (sr_signals s) = false;
  si_once : sg_once (sr_signals s) = sg_stopRequested (sr_signals s);
  si_stopping : sg_stopping (sr_signals s) = bool_decide (2 ≤ main_rank (sr_main s))%nat;
  si_cancelled : sg_cancelled (sr_signals s) = bool_decide (3 ≤ main_rank (sr_main s))%nat;
  si_ended : (4 ≤ main_rank (sr_main s))%nat → mo_at (sr_monitor s) = MonitorEnded;
  si_device : lp_open (sr_device s) = bool_decide (main_rank (sr_main s) < 6)%nat;
  si_control : lp_open (sr_control s) = bool_decide (main_rank (sr_main s) < 7)%nat;
  si_errors : (length (sr_errors s) + alive (sr_control s) + alive (sr_device s) ≤ serve_capacity)%nat;
  si_end : end_ok (sr_end s);
  si_loops : loop_ok (sr_control s) ∧ loop_ok (sr_device s);
  si_monitor : match sr_main s with Returned => removed f0 (sr_monitor s) | _ => simulated f0 (sr_monitor s) end;
}.

Lemma serving_inv f0 : serve_inv f0 (serving f0).
Proof.
  split; cbn; try done; [lia|]. exists [], f0, id. split; [apply rounds_nil|done].
Qed.

Lemma loop_step_ok l errors ev l' errors' :
  loop_step l errors ev = Some (l', errors') → loop_ok l →
  loop_ok l' ∧ lp_open l' = lp_open l ∧ (length errors' + alive l' ≤ length errors + alive l)%nat.
Proof.
  unfold loop_step, loop_ok, alive. intros E Hl. destruct ev, (lp_at l) eqn:Ea; try discriminate E.
  - destruct (lp_open l); [|discriminate E]. injection E as <- <-. cbn. rewrite Hl, app_nil_r. by split_and!.
  - injection E as <- <-. cbn. rewrite app_nil_r. by split_and!.
  - injection E as <- <-. cbn. by split_and!.
  - case_decide; [|discriminate E]. injection E as <- <-. cbn. rewrite length_app. cbn. split_and!; [done|done|lia].
Qed.

Lemma monitor_inv f0 s mo :
  serve_inv f0 s → (mo_at (sr_monitor s) = MonitorEnded → mo_at mo = MonitorEnded) →
  match sr_main s with Returned => removed f0 mo | _ => simulated f0 mo end →
  serve_inv f0 (mkServe (sr_main s) (sr_end s) (sr_control s) (sr_device s) (sr_errors s) mo (sr_signals s)).
Proof. intros [] Hat Hm. split; cbn; try done. auto. Qed.

Lemma signal_inv f0 s g :
  serve_inv f0 s → sg_panic g = false → sg_once g = sg_stopRequested g →
  sg_stopping g = sg_stopping (sr_signals s) → sg_cancelled g = sg_cancelled (sr_signals s) →
  serve_inv f0 (mkServe (sr_main s) (sr_end s) (sr_control s) (sr_device s) (sr_errors s) (sr_monitor s) g).
Proof. intros [] Hp Ho Hs Hc. split; cbn; rewrite ?Hs, ?Hc; done. Qed.

Lemma select_inv f0 s c s' : serve_inv f0 s → select_step s c = Some s' → serve_inv f0 s'.
Proof.
  intros [] E. unfold select_step in E. destruct (sr_main s) eqn:Em; try discriminate E. cbn in *.
  destruct c.
  - destruct (sg_ctx _); [|discriminate E]. injection E as <-. split; cbn; try done; lia.
  - destruct (sg_stopRequested _) eqn:Er; [|discriminate E]. injection E as <-. split; cbn; try done; try congruence; lia.
  - destruct (sr_errors s) as [|err errors]; [discriminate E|]. injection E as <-. cbn in si_errors0.
    split; cbn; try done; lia.
  - destruct (sg_proxyDone _); [|discriminate E]. injection E as <-. split; cbn; try done; lia.
Qed.

Lemma shutdown_inv f0 s s' : serve_inv f0 s → shutdown_step s = Some s' → serve_inv f0 s'.
Proof.
  intros [] E. unfold shutdown_step in E. destruct (sr_main s) eqn:Em; try discriminate E; cbn in *.
  - injection E as <-. split; cbn; try done; lia.
  - injection E as <-. split; cbn; try done; lia.
  - destruct (mo_at (sr_monitor s)) eqn:Ea; try discriminate E. injection E as <-. split; cbn; try done; lia.
  - injection E as <-. split; cbn; try done; intros; apply si_ended0; lia.
  - injection E as <-. split; cbn; try done; intros; apply si_ended0; lia.
  - injection E as <-. split; cbn; try done; intros; apply si_ended0; lia.
  - injection E as <-. split; cbn; try done; intros; apply si_ended0; lia.
  - injection E as <-. assert (mo_at (sr_monitor s) = MonitorEnded) as Ha by (apply si_ended0; lia).
    split; cbn; try done. unfold simulated in si_monitor0. rewrite Ha in si_monitor0.
    destruct si_monitor0 as (ticks & f & g & Hm & Hf). exists ticks, f, g, id, (mo_calls (sr_monitor s)).
    cbn. by rewrite Hm, Hf.
Qed.

Lemma serve_step_inv f0 s ev s' : serve_inv f0 s → step s ev = Some s' → serve_inv f0 s'.
Proof.
  intros Hi E. destruct ev as [ev|ev|ev|g| |err| |c|]; cbn [step] in E; unfold serveControl, serveDevice in E.
  - destruct (loop_step _ _ _) as [[l errors]|] eqn:El; [|discriminate E]. injection E as <-. destruct Hi.
    destruct (loop_step_ok _ _ _ _ _ El (proj1 si_loops0)) as (Hok & Ho & Hn).
    split; cbn; try done; [by rewrite Ho|lia|by destruct si_loops0].
  - destruct (loop_step _ _ _) as [[l errors]|] eqn:El; [|discriminate E]. injection E as <-. destruct Hi.
    destruct (loop_step_ok _ _ _ _ _ El (proj2 si_loops0)) as (Hok & Ho & Hn).
    split; cbn; try done; [by rewrite Ho|lia|by destruct si_loops0].
  - destruct (monitor_step _ _ _ _) as [mo|] eqn:Em; [|discriminate E]. injection E as <-.
    assert (mo_at (sr_monitor s) ≠ MonitorEnded) as Hne.
    { intros Ha. unfold monitor_step in Em. rewrite Ha in Em. by destruct ev. }
    apply monitor_inv; [done|done|]. destruct Hi.
    assert (simulated f0 (sr_monitor s)) as Hs.
    { destruct (sr_main s); try done. cbn in *. destruct Hne. apply si_ended0. lia. }
    pose proof (simulated_step _ _ _ _ _ _ Hs Em). destruct (sr_main s); try done.
    destruct Hne. apply si_ended0. cbn. lia.
  - injection E as <-. apply monitor_inv; [done|done|]. destruct Hi. destruct (sr_main s); try by apply simulated_change.
    destruct si_monitor0 as (ticks & f & g1 & h & calls & Hm & Hc & Hf).
    exists ticks, f, g1, (λ x, g (h x)), calls. cbn. by rewrite Hf.
  - injection E as <-. destruct Hi as [] eqn:Ei. by apply signal_inv.
  - destruct (sg_proxyDone _); [discriminate E|]. injection E as <-. destruct Hi as [] eqn:Ei. by apply signal_inv.
  - destruct (lp_handled _); [discriminate E|]. injection E as <-. pose proof Hi as [].
    apply signal_inv; [done|..]; unfold requestStop; destruct (sg_once (sr_signals s)) eqn:Eo; cbn; try done.
    + by rewrite si_panic0, <-si_once0.
    + by rewrite Eo.
  - by eapply select_inv.
  - by eapply shutdown_inv.
Qed.

Lemma serve_runs_inv f0 s : runs (serving f0) s → serve_inv f0 s.
Proof. induction 1 as [|s ev s' _ IH E]; [apply serving_inv|]. by eapply serve_step_inv. Qed.

(** * Stopping *)

(** The steps that are bound to happen: [shutdown], the monitor's answers and
    checks, and a loop that has a connection or an error in hand, or whose
    listener is closed.  The ticker is not needed. *)
Definition forced_loop (l : Loop) (ev : loop_event) : bool :=
  match ev with StartHandler | Post => true | AcceptFails _ => negb (lp_open l) | Connect _ => false end.

Definition forced (s : Serve) (ev : event) : bool :=
  match ev with
  | Shutdown => true
  | MonitorStep Ticked => false
  | MonitorStep _ => true
  | ControlLoop ev => forced_loop (sr_control s) ev
  | DeviceLoop ev => forced_loop (sr_device s) ev
  | _ => false
  end.

Definition forced_step (s s' : Serve) : Prop := ∃ ev, forced s ev = true ∧ step s ev = Some s'.

(** [Run] has returned and left no goroutine behind. *)
Definition gone (s : Serve) : Prop :=
  sr_main s = Returned ∧ mo_at (sr_monitor s) = MonitorEnded ∧
  lp_at (sr_control s) = LoopEnded ∧ lp_at (sr_device s) = LoopEnded.

Definition loop_weight (l : Loop) : nat :=
  match lp_at l with Accepted _ => 3 | Accepting => 2 | Failing _ => 1 | LoopEnded => 0 end.

Definition monitor_weight (mo : Monitor) : nat :=
  match mo_at mo with
  | Checking _ => 6 | Checked _ _ => 5 | Restoring => 4 | Restored _ => 3 | Idle _ => 2 | Leaving => 1 | MonitorEnded => 0
  end.

Definition stop_weight (s : Serve) : nat :=
  (9 - main_rank (sr_main s)) + monitor_weight (sr_monitor s) + loop_weight (sr_control s) + loop_weight (sr_device s).

Lemma loop_weight_step l errors ev l' errors' :
  loop_step l errors ev = Some (l', errors') → forced_loop l ev = true → (loop_weight l' < loop_weight l)%nat.
Proof.
  unfold loop_step, loop_weight. intros E Hf. destruct ev; try discriminate Hf; destruct (lp_at l); try discriminate E.
  - injection E as <- <-. cbn. lia.
  - injection E as <- <-. cbn. lia.
  - case_decide; [|discriminate E]. injection E as <- <-. cbn. lia.
Qed.

Lemma monitor_weight_step mo cancelled stop ev mo' :
  monitor_step mo cancelled stop ev = Some mo' → ev ≠ Ticked → (monitor_weight mo' < monitor_weight mo)%nat.
Proof.
  unfold monitor_step, monitor_weight. intros E Hf. destruct ev; try done; destruct (mo_at mo) as [u|u|u p| |err| |]; try discriminate E.
  - destruct cancelled; [|discriminate E]. injection E as <-. cbn. lia.
  - destruct (HasReverse _ _). injection E as <-. cbn. lia.
  - destruct stop; [injection E as <-; cbn; lia|]. destruct p as [[]|]; injection E as <-; cbn; lia.
  - destruct (AddReverse _ _). injection E as <-. cbn. lia.
  - destruct stop; [injection E as <-; cbn; lia|]. destruct err; injection E as <-; cbn; lia.
  - injection E as <-. cbn. lia.
Qed.

Lemma forced_weight s s' : forced_step s s' → (stop_weight s' < stop_weight s)%nat.
Proof.
  intros (ev & Hf & E). unfold stop_weight. destruct ev as [ev|ev|ev| | | | | |]; try discriminate Hf; cbn [step] in E; unfold serveControl, serveDevice in E.
  - destruct (loop_step _ _ _) as [[l errors]|] eqn:El; [|discriminate E]. injection E as <-.
    pose proof (loop_weight_step _ _ _ _ _ El Hf). cbn. lia.
  - destruct (loop_step _ _ _) as [[l errors]|] eqn:El; [|discriminate E]. injection E as <-.
    pose proof (loop_weight_step _ _ _ _ _ El Hf). cbn. lia.
  - destruct (monitor_step _ _ _ _) as [mo|] eqn:Em; [|discriminate E]. injection E as <-.
    assert (ev ≠ Ticked) as Hn by (by intros ->). pose proof (monitor_weight_step _ _ _ _ _ Em Hn). cbn. lia.
  - unfold shutdown_step in E. destruct (sr_main s); try discriminate E; [| |destruct (mo_at _); try discriminate E|..];
      injection E as <-; cbn; unfold loop_weight, monitor_weight; cbn; lia.
Qed.

Lemma forced_main s s' : sr_main s ≠ Selecting → forced_step s s' → sr_main s' ≠ Selecting.
Proof.
  intros Hm (ev & Hf & E). destruct ev as [ev|ev|ev| | | | | |]; try discriminate Hf; cbn [step] in E; unfold serveControl, serveDevice in E.
  - destruct (loop_step _ _ _) as [[l errors]|]; [|discriminate E]. by injection E as <-.
  - destruct (loop_step _ _ _) as [[l errors]|]; [|discriminate E]. by injection E as <-.
  - destruct (monitor_step _ _ _ _) as [mo|]; [|discriminate E]. by injection E as <-.
  - unfold shutdown_step in E. destruct (sr_main s); try discriminate E; [| |destruct (mo_at _); try discriminate E|..];
      by injection E as <-.
Qed.

(** A loop with an error in hand finds room for it. *)
Lemma post_enabled f0 s :
  serve_inv f0 s →
  (∀ err, lp_at (sr_control s) = Failing err → is_Some (step s (ControlLoop Post))) ∧
  (∀ err, lp_at (sr_device s) = Failing err → is_Some (step s (DeviceLoop Post))).
Proof.
  intros []. unfold alive in si_errors0.
  split; intros err Hl; cbn [step]; unfold serveControl, serveDevice, loop_step; rewrite Hl in si_errors0 |- *; rewrite decide_True by lia; by eexists.
Qed.

(** A loop whose listener is closed can go on until it has ended. *)
Lemma control_progress f0 s :
  serve_inv f0 s → lp_open (sr_control s) = false → lp_at (sr_control s) = LoopEnded ∨ ∃ s', forced_step s s'.
Proof.
  intros Hi Ho. destruct (lp_at (sr_control s)) as [|conn|err|] eqn:Ea; [right..|by left].
  - eexists _, (ControlLoop (AcceptFails (ESentinel ErrNetClosed))). split; [cbn; by rewrite Ho|]. cbn [step]. unfold serveControl, serveDevice, loop_step. by rewrite Ea.
  - eexists _, (ControlLoop StartHandler). split; [done|]. cbn [step]. unfold serveControl, serveDevice, loop_step. by rewrite Ea.
  - destruct (proj1 (post_enabled _ _ Hi) err Ea) as [s' E]. by exists s', (ControlLoop Post).
Qed.

Lemma device_progress f0 s :
  serve_inv f0 s → lp_open (sr_device s) = false → lp_at (sr_device s) = LoopEnded ∨ ∃ s', forced_step s s'.
Proof.
  intros Hi Ho. destruct (lp_at (sr_device s)) as [|conn|err|] eqn:Ea; [right..|by left].
  - eexists _, (DeviceLoop (AcceptFails (ESentinel ErrNetClosed))). split; [cbn; by rewrite Ho|]. cbn [step]. unfold serveControl, serveDevice, loop_step. by rewrite Ea.
  - eexists _, (DeviceLoop StartHandler). split; [done|]. cbn [step]. unfold serveControl, serveDevice, loop_step. by rewrite Ea.
  - destruct (proj2 (post_enabled _ _ Hi) err Ea) as [s' E]. by exists s', (DeviceLoop Post).
Qed.

(** The monitor, once cancelled, goes on until it has ended. *)
Lemma monitor_progress s :
  monitor_cancelled (sr_signals s) = true → mo_at (sr_monitor s) = MonitorEnded ∨ ∃ s', forced_step s s'.
Proof.
  intros Hc.
  assert (∀ ev, ev ≠ Ticked → is_Some (monitor_step (sr_monitor s) true true ev) → ∃ s', forced_step s s') as Hgo.
  { intros ev Hn [mo E]. eexists _, (MonitorStep ev). split; [by destruct ev|]. cbn [step]. rewrite Hc. cbn [orb]. by rewrite E. }
  destruct (mo_at (sr_monitor s)) as [u|u|u p| |err| |] eqn:Ea; [right..|by left].
  - apply (Hgo Cancels); [done|]. unfold monitor_step. rewrite Ea. by eexists.
  - apply (Hgo HasReturns); [done|]. unfold monitor_step. rewrite Ea. destruct (HasReverse _ _). by eexists.
  - apply (Hgo FirstCheck); [done|]. unfold monitor_step. rewrite Ea. by eexists.
  - apply (Hgo AddReturns); [done|]. unfold monitor_step. rewrite Ea. destruct (AddReverse _ _). by eexists.
  - apply (Hgo SecondCheck); [done|]. unfold monitor_step. rewrite Ea. by eexists.
  - apply (Hgo CloseDone); [done|]. unfold monitor_step. rewrite Ea. by eexists.
Qed.

Lemma stop_progress f0 s : serve_inv f0 s → sr_main s ≠ Selecting → gone s ∨ ∃ s', forced_step s s'.
Proof.
  intros Hi Hm. pose proof Hi as []. destruct (sr_main s) eqn:Em; try done; cbn in *.
  all: try (right; eexists _, Shutdown; split; [done|]; cbn; unfold shutdown_step; rewrite Em; reflexivity).
  - destruct (monitor_progress s) as [Ha|?]; [|right|by right].
    + unfold monitor_cancelled. rewrite si_cancelled0. apply orb_true_r.
    + eexists _, Shutdown. split; [done|]. cbn. unfold shutdown_step. by rewrite Em, Ha.
  - destruct (control_progress _ _ Hi) as [Hc|?]; [done| |by right].
    destruct (device_progress _ _ Hi) as [Hd|?]; [done| |by right].
    left. split_and!; [done|apply si_ended0; lia|done|done].
Qed.

(** C4: the concurrent daemon is the sequential one.  In every interleaving of
    the accept loops, the mapping monitor, the handlers' stop requests, the
    device and [Run]'s own goroutine: no channel is closed twice; an accept
    loop can always post its error; [Run] leaves its select before the daemon
    is marked as stopping; every accepted connection has exactly one handler;
    and once [shutdown] is past its wait the monitor makes no more calls, so
    that when [Run] has returned the calls on the forwarder are exactly those
    of [monitorMapping] run alone on some ticks, then the removal of the
    mapping, and the device is where these calls left it but for its own
    changes. *)
Theorem serve_sequential f0 s :
  runs (serving f0) s →
  sg_panic (sr_signals s) = false ∧
  (∀ err, lp_at (sr_control s) = Failing err → is_Some (step s (ControlLoop Post))) ∧
  (∀ err, lp_at (sr_device s) = Failing err → is_Some (step s (DeviceLoop Post))) ∧
  end_ok (sr_end s) ∧ loop_ok (sr_control s) ∧ loop_ok (sr_device s) ∧
  (sr_main s = Returned → removed f0 (sr_monitor s)).
Proof.
  intros Hi%serve_runs_inv. pose proof (post_enabled _ _ Hi) as [Hc Hd]. destruct Hi.
  split_and!; try done; [by apply si_loops0..|]. intros Hm. by rewrite Hm in si_monitor0.
Qed.

(** C8: the daemon stops.  Once [Run] has left its select, for whatever
    reason, a run of the steps its goroutines are bound to take has at most
    [stop_weight] of them; until it is over one of them is possible, so no
    goroutine waits for ever; and they lead to the end, where [Run] has
    returned and the monitor and both accept loops are gone. *)
Theorem serve_stops f0 s :
  runs (serving f0) s → sr_main s ≠ Selecting →
  (∀ n s', nsteps forced_step n s s' → (n ≤ stop_weight s)%nat) ∧
  (gone s ∨ ∃ s', forced_step s s') ∧
  ∃ n s', (n ≤ stop_weight s)%nat ∧ nsteps forced_step n s s' ∧ gone s'.
Proof.
  intros Hi%serve_runs_inv Hm.
  assert (∀ s1 s2, serve_inv f0 s1 ∧ sr_main s1 ≠ Selecting → forced_step s1 s2 →
    (stop_weight s2 < stop_weight s1)%nat ∧ serve_inv f0 s2 ∧ sr_main s2 ≠ Selecting) as Hstep.
  { intros s1 s2 [Hi1 Hm1] Hs. split_and!; [by apply forced_weight| |by eapply forced_main].
    destruct Hs as (ev & _ & E). by eapply serve_step_inv. }
  assert (∀ s1, serve_inv f0 s1 ∧ sr_main s1 ≠ Selecting → gone s1 ∨ ∃ s2, forced_step s1 s2) as Hprog.
  { intros s1 [Hi1 Hm1]. by eapply stop_progress. }
  split_and!; [|by auto|].
  - intros n s' Hn. by apply (measure_bounds forced_step stop_weight _ Hstep n s s' (conj Hi Hm)).
  - exact (measure_completes forced_step stop_weight _ Hstep gone s Hprog (conj Hi Hm)).
Qed.
End serve.
End serve.
