(* ===== verification/Device.v ===== *)
(** The hdc manager drives a device: [hdc.AddReverse], [hdc.HasReverse] and
    [hdc.Remove] (src/internal/hdc/manager.go), run against an hdc that keeps
    a mapping table and answers with the texts hdc prints, implement the
    interface [run.Forwarder] the daemon is verified against.  The witnesses
    of [Run] use this device. *)
From S2P Require Import Prelude Errors GoStrings GoOS GoNet Protocol State Control Hdc Daemon Session Run Serve.
Import daemon.

Module device.

(** The device's table of reverse mappings, and whether hdc can reach it. *)
Record Device := mkDevice { dv_table : list hdc.Mapping; dv_online : bool }.

#[global] Instance mapping_ok_dec m : Decision (hdc.mapping_ok m).
Proof. unfold hdc.mapping_ok, hdc.port_ok. apply _. Defined.

Definition dv_rows (d : Device) : list hdc.Mapping := filter hdc.mapping_ok (dv_table d).

Definition parse_node (s : gostring) : option Z := Atoi (TrimPrefix s (str "tcp:")).

Definition parse_mapping (a b : gostring) : option hdc.Mapping :=
  dp ← parse_node a; hp ← parse_node b; Some (hdc.mkMapping dp hp).

Lemma parse_node_tcp p : hdc.port_ok p → parse_node (hdc.tcp_node p) = Some p.
Proof.
  intros Hp. unfold parse_node, hdc.tcp_node, TrimPrefix, HasPrefix.
  rewrite bool_decide_eq_true_2 by (by eexists). rewrite drop_app_length.
  apply Atoi_Itoa. unfold hdc.port_ok in Hp. unfold min_int64, max_int64. lia.
Qed.

Section device.
Context `{Unicode}.
Variable Sum256 : list byte → list byte.

(** The selected device; its name is a word that does not look like an hdc
    report. *)
Class DeviceName (target : gostring) := {
  name_word : hdc.word target;
  name_plain : head target ≠ Some (chr "[");
}.

Variable target : gostring.
Context `{!DeviceName target}.

Definition entry (m : hdc.Mapping) : hdc.Entry := hdc.mkEntry target m true 3.

Definition table_text (rows : list hdc.Mapping) : gostring :=
  match rows with
  | [] => str "[Empty]"
  | _ => Join (map (λ en, hdc.row (hdc.entry_words en)) (map entry rows)) [hdc.newline]
  end.

(** hdc on the command lines of the manager: the output, the error and the
    device afterwards. *)
Definition exec (d : Device) (args : list gostring) : gostring * option error * Device :=
  if negb (dv_online d) then (str "[Fail]Device not founded or connected", None, d)
  else
    match args with
    | [_; t; verb; a; b] =>
        match parse_mapping a b with
        | Some m =>
            if streq t target && streq verb (str "rport") then
              if bool_decide (m ∈ dv_rows d) then (str "[Fail]TCP Port listen failed", None, d)
              else (str "Forwardport result:OK", None, mkDevice (m :: dv_table d) true)
            else (str "[Fail]", None, d)
        | None => (str "[Fail]", None, d)
        end
    | [_; t; verb; what] =>
        if streq t target && streq verb (str "fport") && streq what (str "ls")
        then (table_text (dv_rows d), None, d) else (str "[Fail]", None, d)
    | [_; t; verb; what; a; b] =>
        match parse_mapping a b with
        | Some m =>
            if streq t target && streq verb (str "fport") && streq what (str "rm") then
              if bool_decide (m ∈ dv_rows d)
              then (str "Remove forward ruler success", None, mkDevice (filter (λ x, x ≠ m) (dv_table d)) true)
              else (str "[Fail]Remove forward ruler failed, ruler is not exist", None, d)
            else (str "[Fail]", None, d)
        | None => (str "[Fail]", None, d)
        end
    | _ => (str "[Fail]", None, d)
    end.

(** The manager's [Run] on the device as it is, and the device after the
    commands the manager ran. *)
Definition Run (d : Device) (args : list gostring) : gostring * option error := (exec d args).1.
Definition after (d : Device) (commands : list (list gostring)) : Device :=
  foldl (λ d args, (exec d args).2) d commands.

Definition AddReverse (d : Device) (m : hdc.Mapping) : option error * Device :=
  let '(commands, err) := hdc.AddReverse Sum256 (Run d) target m in (err, after d commands).
Definition Remove (d : Device) (m : hdc.Mapping) : option error * Device :=
  let '(commands, err) := hdc.Remove Sum256 (Run d) target m in (err, after d commands).
Definition HasReverse (d : Device) (m : hdc.Mapping) : result error bool * Device :=
  match hdc.HasReverse Sum256 (Run d) target m with
  | Some (commands, r) => (r, after d commands)
  | None => (Err (ENew (str "crash")), d)
  end.

Definition has (d : Device) (m : hdc.Mapping) : bool := bool_decide (m ∈ dv_rows d).

Lemma validateMapping_ok m : hdc.validateMapping m = None ↔ hdc.mapping_ok m.
Proof.
  unfold hdc.validateMapping, hdc.mapping_ok, hdc.port_ok. case_if as E.
  - split; [done|]. intros. rewrite !orb_true_iff, !Z.ltb_lt in E. lia.
  - split; [|done]. intros _. rewrite !orb_false_iff, !Z.ltb_ge in E. lia.
Qed.

Lemma parse_mapping_tcp m :
  hdc.mapping_ok m →
  parse_mapping (hdc.tcp_node (hdc.DevicePort m)) (hdc.tcp_node (hdc.HostPort m)) = Some m.
Proof. intros [? ?]. unfold parse_mapping. rewrite !parse_node_tcp by done. by destruct m. Qed.

Lemma exec_add d m :
  hdc.mapping_ok m →
  exec d (hdc.add_args target m) =
    if negb (dv_online d) then (str "[Fail]Device not founded or connected", None, d)
    else if bool_decide (m ∈ dv_rows d) then (str "[Fail]TCP Port listen failed", None, d)
    else (str "Forwardport result:OK", None, mkDevice (m :: dv_table d) true).
Proof.
  intros Hm. unfold exec, hdc.add_args. rewrite parse_mapping_tcp by done. by rewrite !(bool_decide_eq_true_2 (_ = _)) by done.
Qed.

Lemma exec_rm d m :
  hdc.mapping_ok m →
  exec d (hdc.rm_args target m) =
    if negb (dv_online d) then (str "[Fail]Device not founded or connected", None, d)
    else if bool_decide (m ∈ dv_rows d)
    then (str "Remove forward ruler success", None, mkDevice (filter (λ x, x ≠ m) (dv_table d)) true)
    else (str "[Fail]Remove forward ruler failed, ruler is not exist", None, d).
Proof.
  intros Hm. unfold exec, hdc.rm_args. rewrite parse_mapping_tcp by done. by rewrite !(bool_decide_eq_true_2 (_ = _)) by done.
Qed.

Lemma exec_ls d :
  exec d (hdc.ls_args target) =
    if negb (dv_online d) then (str "[Fail]Device not founded or connected", None, d)
    else (table_text (dv_rows d), None, d).
Proof. unfold exec, hdc.ls_args. by rewrite !(bool_decide_eq_true_2 (_ = _)) by done. Qed.

(** Adding through the manager: it succeeds only on a reachable device, and
    then the mapping is in the table. *)
Lemma AddReverse_spec d m e d' :
  AddReverse d m = (e, d') →
  (e = None ∧ hdc.mapping_ok m ∧ d' = mkDevice (m :: dv_table d) true) ∨ (is_Some e ∧ d' = d).
Proof.
  unfold AddReverse, hdc.AddReverse. destruct (hdc.validateMapping m) as [err|] eqn:Ev.
  { intros [= <- <-]. right. eauto. }
  apply validateMapping_ok in Ev. unfold Run, after. rewrite exec_add by done.
  destruct (dv_online d) eqn:Eo, (bool_decide (m ∈ dv_rows d)) eqn:Em; cbn [negb fst foldl];
    rewrite exec_add, Eo, Em by done; intros [= <- <-]; [right|left|right|right]; split_and!; try done; by eexists.
Qed.

Lemma Remove_spec d m e d' :
  Remove d m = (e, d') →
  (e = None ∧ d' = mkDevice (filter (λ x, x ≠ m) (dv_table d)) true) ∨ (is_Some e ∧ d' = d).
Proof.
  unfold Remove, hdc.Remove. destruct (hdc.validateMapping m) as [err|] eqn:Ev.
  { intros [= <- <-]. right. eauto. }
  apply validateMapping_ok in Ev. unfold Run, after. rewrite exec_rm by done.
  destruct (dv_online d) eqn:Eo, (bool_decide (m ∈ dv_rows d)) eqn:Em; cbn [negb fst foldl];
    rewrite exec_rm, Eo, Em by done; intros [= <- <-]; [left|right..]; split_and!; try done; by eexists.
Qed.

Lemma entry_ok_rows d : Forall hdc.entry_ok (map entry (dv_rows d)).
Proof.
  apply Forall_map, Forall_forall. intros m [Hm _]%list_elem_of_filter. split; [apply name_word|done].
Qed.

(** A row of the table is never taken for a failure report. *)
Lemma row_not_failure en :
  hdc.entry_ok en → head (hdc.en_target en) ≠ Some (chr "[") →
  hdc.failure_line (hdc.row (hdc.entry_words en)) = Some false.
Proof.
  intros Hok Hh. assert (Hw : Forall (λ w, hdc.word w.1) (hdc.entry_words en)) by by apply hdc.entry_words_ok.
  assert (∃ b k, TrimSpace (hdc.row (hdc.entry_words en)) = b :: k ∧ b ≠ chr "[") as (b & k & Et & Hb).
  { unfold TrimSpace. rewrite runes_ascii by (by apply hdc.row_ascii).
    destruct Hok as [[Hne Hc] _]. unfold hdc.row, hdc.entry_words. cbn [map concat fst snd].
    destruct (hdc.en_target en) as [|b name]; [done|]. cbn in Hh, Hc. apply andb_true_iff in Hc as [Hc _].
    cbn [app map]. edestruct (trim_both_cons (λ r : Z * list byte, IsSpace r.1) (b2z b, [b])) as [k Ek];
      [by apply hdc.word_char_nonspace|]. rewrite Ek. exists b. eexists. split; [reflexivity|by intros ->]. }
  unfold hdc.failure_line. cbv zeta. rewrite Et. unfold HasPrefix.
  rewrite !bool_decide_eq_false_2; [done|..]; by intros [? [= -> _]].
Qed.

Lemma table_not_failure d : hdc.isFailureOutput (table_text (dv_rows d)) = Some false.
Proof.
  pose proof (entry_ok_rows d) as Hok. unfold table_text.
  destruct (dv_rows d) as [|m rows]; [reflexivity|]. unfold hdc.isFailureOutput.
  rewrite hdc.Split_Join; [|done|by apply hdc.table_no_newline].
  revert Hok. generalize (m :: rows). intros l. rewrite Forall_map.
  induction 1 as [|x l Hx _ IH]; [done|]. cbn [map hdc.failure_lines].
  rewrite row_not_failure; [exact IH|done|]. apply name_plain.
Qed.

(** Inspecting reports exactly what the table holds. *)
Lemma HasReverse_spec d m r d' :
  HasReverse d m = (r, d') → d' = d ∧ ∀ b, r = Ok b → b = has d m.
Proof.
  unfold HasReverse, hdc.HasReverse. destruct (hdc.validateMapping m) as [err|] eqn:Ev.
  { intros [= <- <-]. by split. }
  apply validateMapping_ok in Ev. unfold Run. rewrite exec_ls.
  assert (Ha : after d [hdc.ls_args target] = d).
  { unfold after. cbn [foldl]. rewrite exec_ls. by destruct (dv_online d). }
  destruct (dv_online d) eqn:Eo; cbn [negb fst].
  - rewrite table_not_failure. cbn [mbind option_bind]. rewrite Ha. intros [= <- <-]. split; [done|].
    intros b [= <-]. unfold has. pose proof (entry_ok_rows d) as Hok. unfold table_text.
    destruct (dv_rows d) as [|x rows] eqn:Er; [done|].
    apply eq_true_iff_eq. rewrite bool_decide_eq_true.
    rewrite hdc.table_lookup by done. split.
    + intros (en & (y & -> & Hy)%list_elem_of_fmap & _ & <- & _). done.
    + intros Hm. exists (entry m). split_and!; [|done..]. by apply list_elem_of_fmap_2.
  - change (hdc.isFailureOutput (str "[Fail]Device not founded or connected")) with (Some true).
    cbn [mbind option_bind]. rewrite Ha. by intros [= <- <-].
Qed.

(** ** The interface is implemented *)

#[global] Program Instance HdcDevice : run.Forwarder Device := {|
  run.fwd_has := has;
  run.AddReverse := AddReverse;
  run.HasReverse := HasReverse;
  run.Remove := Remove;
|}.
Next Obligation.
  intros f m f' [(_ & Hm & ->)|[[? ?] _]]%AddReverse_spec; [|done].
  unfold has. apply bool_decide_eq_true_2, list_elem_of_filter. split; [done|apply list_elem_of_here].
Qed.
Next Obligation.
  intros f m e f' [(_ & _ & ->)|[_ ->]]%AddReverse_spec m' Hm; [|done].
  unfold has. apply bool_decide_ext. unfold dv_rows. rewrite !list_elem_of_filter. cbn.
  rewrite elem_of_cons. naive_solver.
Qed.
Next Obligation. intros f m b f' Hb. by apply (HasReverse_spec _ _ _ _ Hb). Qed.
Next Obligation. by intros f m r f' [-> _]%HasReverse_spec m'. Qed.
Next Obligation.
  intros f m f' [(_ & ->)|[[? ?] _]]%Remove_spec; [|done].
  unfold has. apply bool_decide_eq_false_2. unfold dv_rows. cbn. rewrite !list_elem_of_filter. tauto.
Qed.
Next Obligation.
  intros f m e f' [(_ & ->)|[_ ->]]%Remove_spec m' Hm; [|done].
  unfold has. apply bool_decide_ext. unfold dv_rows. cbn. rewrite !list_elem_of_filter. tauto.
Qed.
End device.

(** ** A run on a device *)

#[global] Instance sample_name : DeviceName (str "ABC123").
Proof. split; [split; [done|reflexivity]|done]. Defined.

Definition sample_hash (_ : list byte) : list byte := replicate 32 x00.
#[local] Existing Instance ascii_unicode.
#[local] Instance sample_device : run.Forwarder Device := HdcDevice sample_hash (str "ABC123").

Definition sample_config : Config :=
  mkConfig (str "ABC123") (str "device-1") 27183 1400 true true Second Second (3 * Second) Second false false.

(** The previous daemon left a state file naming host port 50001. *)
Definition sample_previous : state.Snapshot :=
  state.set_HostPort 50001 (state.set_Daemon state.DaemonRunning (state.NewStarting 5 (str "device-1") 27183)).

Definition sample_env : run.StartEnv :=
  run.mkStartEnv None (Ok 50002) None sample_previous None None (Err (ENew [])) Z.of_nat.

(** hdc drops the table once; the daemon is then stopped. *)
Definition sample_serve : run.ServeEnv :=
  run.mkServeEnv [run.mkTick id id false false; run.mkTick (λ d : Device, mkDevice [] true) id false false] id id (λ _, id) run.EndStop None.

Definition sample_start : Device := mkDevice [hdc.mkMapping 27183 50001; hdc.mkMapping 9000 9000] true.

Definition sample_run := run.Run sample_config sample_env sample_serve sample_start.

Definition sample_cleanup : run.Cleanup (F:=Device) :=
  default (run.mkCleanup [] (run.mkRunState sample_start [] state.zeroSnapshot false false) 0 false) (sample_run.2).

Example sample_run_calls :
  sample_run.1 = [] ∧
  run.rs_calls (run.cl_state sample_cleanup) =
    let m := hdc.mkMapping 27183 50002 in
    [run.CallRemove (hdc.mkMapping 27183 50001); run.CallAdd m; run.CallHas m; run.CallHas m; run.CallAdd m;
     run.CallRemove m].
Proof. vm_compute. done. Qed.

Lemma Run_mapping_ownership_witness : ∃ hostPort early mid,
    let mapping := run.own_mapping sample_config hostPort in
    run.se_listen sample_env = Ok hostPort ∧
    run.rs_calls (run.cl_state sample_cleanup) =
      early ++ mid ++ (if run.rs_mappingAdded (run.cl_state sample_cleanup) then [run.CallRemove mapping] else []) ∧
    (early = [] ∨ early = run.stale_calls sample_config sample_env) ∧ Forall (run.keeps mapping) mid ∧
    (run.rs_mappingAdded (run.cl_state sample_cleanup) = true ↔
       ∃ st, run.run_start sample_config sample_env sample_start = inr (None, mapping, st)) ∧
    (∀ m', m' ≠ mapping → run.stale_mapping sample_config (run.se_previous sample_env) ≠ Some m' →
       (∀ change g, change ∈ run.device_changes sample_serve → run.fwd_has (change g) m' = run.fwd_has g m') →
       run.fwd_has (run.rs_fwd (run.cl_state sample_cleanup)) m' = run.fwd_has sample_start m') ∧
    (@nil error = [] → run.fwd_has (run.rs_fwd (run.cl_state sample_cleanup)) mapping = false).
Proof. apply (run.Run_mapping_ownership sample_config sample_env sample_serve sample_start). vm_compute. reflexivity. Defined.




(** The same run with a stop command handled just before the last check. *)
Definition hidden_serve : run.ServeEnv :=
  run.mkServeEnv [] (id : Device → Device) id
    (λ n, if decide (n = 5%nat) then run.update 9 session.publish_stop else id)
    (run.EndListener (Some (ENew (str "accept"))) false) None.

Example hidden_failure :
  let '(ret, cl) := run.Run sample_config sample_env hidden_serve sample_start in
  ret = [ENew (str "accept")] ∧ (run.cl_keepsStateFile <$> cl) = Some false.
Proof. vm_compute. split; reflexivity. Qed.

(** ** A concrete stop: the monitor is restoring the mapping when it comes *)

Definition serve_mapping : hdc.Mapping := hdc.mkMapping 27183 50002.

Fixpoint serve_run (s : serve.Serve (F:=Device)) (evs : list serve.event) : option (serve.Serve (F:=Device)) :=
  match evs with [] => Some s | ev :: evs => s' ← serve.step serve_mapping s ev; serve_run s' evs end.

Lemma serve_run_runs s0 s evs s' :
  serve.runs serve_mapping s0 s → serve_run s evs = Some s' → serve.runs serve_mapping s0 s'.
Proof.
  revert s. induction evs as [|ev evs IH]; intros s Hr; cbn [serve_run]; [by intros [= <-]|].
  destruct (serve.step _ s ev) as [s1|] eqn:E; [|done]. cbn. intros Hs. eapply IH; [|exact Hs]. by econstructor.
Qed.

Definition stop_events : list (serve.event (F:=Device)) :=
  [serve.ControlLoop (serve.Connect 7); serve.ControlLoop serve.StartHandler; serve.MonitorStep serve.Ticked;
   serve.MonitorStep serve.HasReturns; serve.MonitorStep serve.FirstCheck; serve.StopCommand; serve.StopCommand;
   serve.SelectCase serve.CaseStop; serve.Shutdown].

Definition rest_events : list (serve.event (F:=Device)) :=
  [serve.MonitorStep serve.AddReturns; serve.MonitorStep serve.SecondCheck; serve.MonitorStep serve.CloseDone] ++
  replicate 7 serve.Shutdown.

Definition stopping_serve : serve.Serve (F:=Device) := default (serve.serving sample_start) (serve_run (serve.serving sample_start) stop_events).
Definition returned_serve : serve.Serve (F:=Device) := default stopping_serve (serve_run stopping_serve rest_events).

Lemma stopping_serve_runs : serve.runs serve_mapping (serve.serving sample_start) stopping_serve.
Proof. apply (serve_run_runs _ (serve.serving sample_start) stop_events); [constructor|vm_compute; reflexivity]. Qed.

Lemma serve_sequential_witness :
  serve.removed serve_mapping sample_start (serve.sr_monitor returned_serve) ∧
  serve.mo_calls (serve.sr_monitor returned_serve) =
    [run.CallHas serve_mapping; run.CallAdd serve_mapping; run.CallRemove serve_mapping].
Proof.
  split; [|vm_compute; reflexivity].
  apply (serve.serve_sequential serve_mapping sample_start returned_serve); [|vm_compute; reflexivity].
  apply (serve_run_runs _ stopping_serve rest_events); [exact stopping_serve_runs|vm_compute; reflexivity].
Defined.

Lemma serve_stops_witness :
  serve.sr_main stopping_serve = serve.CancellingMonitor ∧
  ∃ n s', (n ≤ 15)%nat ∧ nsteps (serve.forced_step serve_mapping) n stopping_serve s' ∧ serve.gone s'.
Proof.
  split; [vm_compute; reflexivity|].
  apply (serve.serve_stops serve_mapping sample_start stopping_serve); [exact stopping_serve_runs|vm_compute; discriminate].
Defined.
End device.
