(* ===== verification/Channel.v ===== *)
(** Established connections (src/internal/daemon/server.go): the frame loops
    of [handleControlConnection] and [handleDataConnection], the ticks of
    [runHeartbeat] and the rounds of [writeRelayOutput], which run
    concurrently and share the frame writer and the heartbeat tracker.

    Each round is one atomic step ([frameWriter.Write] and the tracker hold
    their own locks, so two of them never interleave within a frame), and an
    event says whose round comes next.  One clock reading serves a round. *)
From S2P Require Import Prelude Errors GoIO GoStrings GoOS GoNet Protocol State Engine Daemon Session.
Import protocol daemon.

Module channel.

(** One established connection; [ch_extra] is what only one of the two kinds
    has.  [ch_open] turns false when the loop returns or the connection is
    closed. *)
Record Chan (A : Type) := mkChan {
  ch_reader : Reader;
  ch_expected : Z;
  ch_writer : frameWriter;
  ch_tracker : heartbeatTracker;
  ch_snapshot : state.Snapshot;
  ch_open : bool;
  ch_extra : A;
}.
Arguments mkChan {A} _ _ _ _ _ _ _.
Arguments ch_reader {A} _.
Arguments ch_expected {A} _.
Arguments ch_writer {A} _.
Arguments ch_tracker {A} _.
Arguments ch_snapshot {A} _.
Arguments ch_open {A} _.
Arguments ch_extra {A} _.

Section updates.
Context {A : Type}.
Implicit Types c : Chan A.

Definition set_reader r c := mkChan r (ch_expected c) (ch_writer c) (ch_tracker c) (ch_snapshot c) (ch_open c) (ch_extra c).
Definition set_expected q c := mkChan (ch_reader c) q (ch_writer c) (ch_tracker c) (ch_snapshot c) (ch_open c) (ch_extra c).
Definition set_writer w c := mkChan (ch_reader c) (ch_expected c) w (ch_tracker c) (ch_snapshot c) (ch_open c) (ch_extra c).
Definition set_tracker h c := mkChan (ch_reader c) (ch_expected c) (ch_writer c) h (ch_snapshot c) (ch_open c) (ch_extra c).
Definition set_snapshot s c := mkChan (ch_reader c) (ch_expected c) (ch_writer c) (ch_tracker c) s (ch_open c) (ch_extra c).
Definition close c := mkChan (ch_reader c) (ch_expected c) (ch_writer c) (ch_tracker c) (ch_snapshot c) false (ch_extra c).
Definition set_extra (x : A) c : Chan A := mkChan (ch_reader c) (ch_expected c) (ch_writer c) (ch_tracker c) (ch_snapshot c) (ch_open c) x.

(** [Server.update] on the published snapshot. *)
Definition update (now : Time) (mutate : state.Snapshot → state.Snapshot) c : Chan A :=
  set_snapshot (state.set_UpdatedAt now (mutate (ch_snapshot c))) c.

(** [writer.Write(...)], leaving the loop when it fails. *)
Definition write_or_close (t : Type_) (payload : list byte) c : Chan A :=
  let '(err, w) := fw_Write (ch_writer c) t payload in
  let c := set_writer w c in
  match err with Some _ => close c | None => c end.

(** One tick of [runHeartbeat]; [control] is [kind == "control"]. *)
Definition beat (control : bool) (now : Time) (timeout : Duration) c : Chan A :=
  if negb control && negb (streq (state.VPN (ch_snapshot c)) state.VPNActive) then c
  else
    let '(b, h) := heartbeat_tick (ch_tracker c) now timeout in
    let c := set_tracker h c in
    match b with
    | BeatClose => close c
    | BeatSkip => c
    | BeatPing payload => write_or_close TypePing payload c
    end.

(** A PONG, then a PING of the peer. *)
Definition pong (control : bool) (now : Time) (payload : list byte) c : Chan A :=
  let '(mutate, h) := recordHeartbeat control (ch_tracker c) payload now in
  let c := set_tracker h c in
  match mutate with Some mutate => update now mutate c | None => c end.

Definition ping (payload : list byte) c : Chan A :=
  if negb (zlen payload =? 8) then close c else write_or_close TypePong payload c.
End updates.

(** * The data channel *)

Section data.
Context `{engine.Netstack}.

(** The relay, and the packets Netstack received so far. *)
Record Data := mkData { d_relay : engine.Engine; d_injected : list (list byte) }.

Implicit Types c : Chan Data.

Definition inject (payload : list byte) c : option (Chan Data) :=
  if zlen payload =? 0 then Some (close c)
  else
    r ← engine.Inject (d_relay (ch_extra c)) payload;
    let '(err, owned, relay) := r in
    let c := set_extra (mkData relay (d_injected (ch_extra c) ++ option_list owned)) c in
    Some (match err with Some _ => close c | None => c end).

(** One frame in the loop of [handleDataConnection]; [None] is a panic. *)
Definition data_frame (now : Time) (frame : Frame) c : option (Chan Data) :=
  if negb (Sequence frame =? ch_expected c) then Some (close c)
  else
    let c := set_expected (nextSequence (ch_expected c)) c in
    if Type' frame =? TypeIPPacket then inject (Payload frame) c
    else if Type' frame =? TypePong then Some (pong false now (Payload frame) c)
    else if Type' frame =? TypePing then Some (ping (Payload frame) c)
    else Some (close c).

Definition data_read (now : Time) c : option (Chan Data) :=
  match ReadFrame (ch_reader c) with
  | (Err _, r) => Some (close (set_reader r c))
  | (Ok frame, r) => data_frame now frame (set_reader r c)
  end.

Inductive data_event :=
| DataRead (now : Time)
| DataBeat (now : Time) (timeout : Duration)
| DataOutput (packet : list byte).

(** A round of one of the three goroutines; nothing happens on a closed
    connection. *)
Definition data_step c (ev : data_event) : option (Chan Data) :=
  if negb (ch_open c) then Some c
  else
    match ev with
    | DataRead now => data_read now c
    | DataBeat now timeout => Some (beat false now timeout c)
    | DataOutput packet => Some (write_or_close TypeIPPacket packet c)
    end.

Fixpoint data_run c (evs : list data_event) : option (Chan Data) :=
  match evs with
  | [] => Some c
  | ev :: evs => c ← data_step c ev; data_run c evs
  end.
End data.

(** * The control channel *)

Section control.
Context `{JSON VPNStatusPayload, JSON ErrorPayload}.

(** [applyVPNStatus] without the lock: [check] is [session.check_vpn] on the
    server at that moment.  [None]: it returns false. *)
Definition applyVPNStatus (check : gostring → option (state.VPNStatus * gostring)) (payload : list byte)
    : option (state.Snapshot → state.Snapshot) :=
  match UnmarshalJSONPayload payload with
  | Err _ => None
  | Ok report =>
      if 512 <? zlen (VPNStatus_Message report) then None
      else
        r ← check (VPNStatus_State report);
        Some (session.publish_vpn r.1 r.2)
  end.

(** Whether [stopAcknowledged] has been closed. *)
Implicit Types c : Chan bool.

Definition sendEstablishedError (code message : gostring) c : Chan bool :=
  match MarshalJSONPayload (mkErrorPayload code message true) with
  | Err _ => c
  | Ok payload => set_writer (fw_Write (ch_writer c) TypeError payload).2 c
  end.

Definition control_refuse (code message : string) c : Chan bool :=
  close (sendEstablishedError (str code) (str message) c).

(** One frame in the loop of [handleControlConnection]. *)
Definition control_frame (mode : gostring) (check : gostring → option (state.VPNStatus * gostring))
    (now : Time) (frame : Frame) c : Chan bool :=
  if negb (Sequence frame =? ch_expected c) then
    control_refuse "INVALID_SEQUENCE" "control frame sequence is not contiguous" c
  else
    let c := set_expected (nextSequence (ch_expected c)) c in
    let isVPN := streq mode session.vpn in
    if Type' frame =? TypeStopAck then close (set_extra true c)
    else if Type' frame =? TypePong then
      if negb isVPN then close c else pong true now (Payload frame) c
    else if Type' frame =? TypePing then
      if negb isVPN then close c else ping (Payload frame) c
    else if Type' frame =? TypeVPNStatus then
      match (if isVPN then applyVPNStatus check (Payload frame) else None) with
      | None => control_refuse "INVALID_VPN_STATUS" "VPN_STATUS is invalid for this session" c
      | Some mutate => update now mutate c
      end
    else if Type' frame =? TypeError then close c
    else control_refuse "UNEXPECTED_FRAME" "this frame is not valid in a control session" c.

Definition control_read (mode : gostring) (check : gostring → option (state.VPNStatus * gostring))
    (now : Time) c : Chan bool :=
  match ReadFrame (ch_reader c) with
  | (Err _, r) => close (set_reader r c)
  | (Ok frame, r) => control_frame mode check now frame (set_reader r c)
  end.
End control.

(** * What is sent *)

(** [c'] follows [c] by the writes [ws], all successful while [c'] is open. *)
Definition sent {A} (c c' : Chan A) (ws : list (Type_ * list byte)) : Prop :=
  ch_open c' = true → fw_writes (ch_writer c) ws = (None, ch_writer c').

Lemma fw_writes_app w a b w1 :
  fw_writes w a = (None, w1) → fw_writes w (a ++ b) = fw_writes w1 b.
Proof.
  revert w. induction a as [|[t p] a IH]; intros w; cbn [fw_writes app]; [by intros [= ->]|].
  destruct (fw_Write w t p) as [[err|] w2]; [done|]. apply IH.
Qed.

Lemma sent_trans {A} (c c1 c2 : Chan A) a b :
  (ch_open c2 = true → ch_open c1 = true) → sent c c1 a → sent c1 c2 b → sent c c2 (a ++ b).
Proof. intros Ho Ha Hb Hopen. rewrite (fw_writes_app _ _ _ _ (Ha (Ho Hopen))). by apply Hb. Qed.

Lemma write_or_close_sent {A} t p (c : Chan A) : sent c (write_or_close t p c) [(t, p)].
Proof.
  unfold sent, write_or_close. destruct (fw_Write (ch_writer c) t p) as [[err|] w] eqn:E; cbn; [done|].
  intros _. by rewrite E.
Qed.

(** What a PING or PONG may carry. *)
Definition beat_write (x : Type_ * list byte) : Prop :=
  (x.1 = TypePing ∨ x.1 = TypePong) ∧ zlen x.2 = 8.

Lemma beat_sent {A} control now timeout (c : Chan A) :
  tracker_ok (ch_tracker c) →
  ∃ ws, sent c (beat control now timeout c) ws ∧ Forall beat_write ws ∧
    tracker_ok (ch_tracker (beat control now timeout c)).
Proof.
  intros Hok. unfold beat. case_if; [exists []; split_and!; [done|constructor|done]|].
  pose proof (begin_ok _ now timeout Hok) as Hb. unfold heartbeat_tick.
  destruct (begin (ch_tracker c) now timeout) as [[payload expired] h] eqn:E. cbn [snd] in Hb.
  destruct expired; [exists []; destruct payload; (split_and!; [done|by apply Forall_nil|done])|].
  destruct payload as [|x l]; [exists []; split_and!; [done|constructor|done]|].
  exists [(TypePing, x :: l)]. split_and!.
  - apply (write_or_close_sent _ _ (set_tracker h c)).
  - repeat constructor. revert E. unfold begin. case_if; [done|]. intros [= <- <- <-]. apply length_be_put8.
  - unfold write_or_close. destruct (fw_Write _ _ _) as [[err|] w]; done.
Qed.

Lemma pong_same {A} (control : bool) now payload (c : Chan A) :
  let c' := pong control now payload c in
  ch_open c' = ch_open c ∧ ch_writer c' = ch_writer c ∧ ch_extra c' = ch_extra c ∧
  ch_reader c' = ch_reader c ∧ ch_expected c' = ch_expected c ∧
  state.VPN (ch_snapshot c') = state.VPN (ch_snapshot c) ∧
  (tracker_ok (ch_tracker c) → tracker_ok (ch_tracker c')).
Proof.
  cbv zeta. unfold pong, recordHeartbeat. case_if; [by cbn; split_and!|]. unfold acknowledge.
  case_if; cbn; [by split_and!|]. destruct control; (split_and!; try done; intros _; by left).
Qed.

Lemma ping_same {A} payload (c : Chan A) :
  let c' := ping payload c in
  (ch_open c' = true → ch_open c = true ∧ zlen payload = 8) ∧ ch_extra c' = ch_extra c ∧
  ch_expected c' = ch_expected c ∧ ch_snapshot c' = ch_snapshot c.
Proof.
  cbv zeta. unfold ping, write_or_close. case_if as E; [done|]. bool_to_prop.
  by destruct (fw_Write _ _ _) as [[]].
Qed.

Section data_props.
Context `{engine.Netstack}.
Implicit Types c : Chan Data.

Definition outputs (evs : list data_event) : list (list byte) :=
  omap (λ ev, match ev with DataOutput packet => Some packet | _ => None end) evs.

(** Every step succeeds, keeps the tracker well-formed and never reopens. *)
Lemma data_step_spec c ev :
  tracker_ok (ch_tracker c) →
  ∃ c' ws, data_step c ev = Some c' ∧ tracker_ok (ch_tracker c') ∧
    (ch_open c' = true → ch_open c = true) ∧ sent c c' ws ∧
    (ch_open c' = true → Forall (λ x, beat_write x ∨ x.1 = TypeIPPacket) ws ∧
       omap (λ x, if x.1 =? TypeIPPacket then Some x.2 else None) ws = outputs [ev]).
Proof.
  intros Hok. unfold data_step. destruct (ch_open c) eqn:Eo; cbn [negb].
  2:{ exists c, []. rewrite Eo. split_and!; [done|done|done|done|done]. }
  destruct ev as [now|now timeout|packet].
  - unfold data_read. destruct (ReadFrame (ch_reader c)) as [[frame|err] r].
    2:{ exists (close (set_reader r c)), []. split_and!; try done. }
    unfold data_frame. case_if as E1; [eexists _, []; split_and!; done|].
    set (c1 := set_expected _ _).
    case_if as E2.
    + unfold inject. case_if; [eexists _, []; split_and!; done|].
      assert (∃ r, engine.Inject (d_relay (ch_extra c1)) (Payload frame) = Some r) as [[[err owned] relay] ->].
      { destruct (engine.Inject_cases (d_relay (ch_extra c1)) (Payload frame))
          as [(? & _ & ->)|(? & _ & [(_ & ? & ->)|(_ & ? & -> & _)])]; eauto. }
      cbn [mbind option_bind]. destruct err; (eexists _, []; split_and!; [done|done|done|done|done]).
    + case_if as E3.
      * destruct (pong_same false now (Payload frame) c1) as (P1 & P2 & _ & _ & _ & _ & P3).
        eexists _, []. split_and!; [done|by apply P3|by rewrite P1|unfold sent; by rewrite P2|done].
      * case_if as E4; [|eexists _, []; split_and!; done].
        unfold ping. case_if as E5; [eexists _, []; split_and!; done|].
        eexists _, [(TypePong, Payload frame)]. split_and!;
          [done|by unfold write_or_close; destruct (fw_Write _ _ _) as [[]]|done
          |apply (write_or_close_sent _ _ c1)|].
        intros _. split; [|done]. apply Forall_singleton. left. bool_to_prop. by split; [right|].
  - destruct (beat_sent false now timeout c Hok) as (ws & Hs & Hb & Ht).
    eexists _, ws. split_and!; [done|done|done|done|]. intros _. split.
    + eapply Forall_impl; [exact Hb|]. by left.
    + clear -Hb. induction Hb as [|[t p] ws [[Ht|Ht] _] _ IH]; [done|..]; cbn in *; subst t; exact IH.
  - eexists _, [(TypeIPPacket, packet)]. split_and!;
      [done|by unfold write_or_close; destruct (fw_Write _ _ _) as [[]]|done|apply write_or_close_sent|].
    intros _. split; [|done]. apply Forall_singleton. by right.
Qed.

Lemma data_run_spec c evs :
  tracker_ok (ch_tracker c) →
  ∃ c' ws, data_run c evs = Some c' ∧
    (ch_open c' = true → ch_open c = true) ∧ sent c c' ws ∧
    (ch_open c' = true → Forall (λ x, beat_write x ∨ x.1 = TypeIPPacket) ws ∧
       omap (λ x, if x.1 =? TypeIPPacket then Some x.2 else None) ws = outputs evs).
Proof.
  revert c. induction evs as [|ev evs IH]; intros c Hok; cbn [data_run].
  { exists c, []. split_and!; try done. }
  destruct (data_step_spec c ev Hok) as (c1 & ws & -> & Hok1 & Ho1 & Hs1 & Hw1). cbn [mbind option_bind].
  destruct (IH c1 Hok1) as (c2 & ws2 & -> & Ho2 & Hs2 & Hw2).
  exists c2, (ws ++ ws2). split_and!; [done|auto|by eapply sent_trans|].
  intros Ho. destruct (Hw1 (Ho2 Ho)) as [? E1], (Hw2 Ho) as [? E2]. split; [by apply Forall_app|].
  rewrite omap_app, E1, E2. unfold outputs. by rewrite <-omap_app.
Qed.

(** The bytes behind a list of successful writes decode to these writes, in
    a gap-free sequence. *)
Lemma sent_frames {A} (c c' : Chan A) ws rest e :
  sent c c' ws → ch_open c' = true → 1 ≤ fw_sequence (ch_writer c) ≤ max_uint32 →
  Forall (λ x, beat_write x ∨ x.1 = TypeIPPacket) ws →
  Forall (λ p, zlen p < 2 ^ 32) (omap (λ x, if x.1 =? TypeIPPacket then Some x.2 else None) ws) →
  ∃ bytes frames, w_out (fw_conn (ch_writer c')) = w_out (fw_conn (ch_writer c)) ++ bytes ∧
    read_frames (length frames) (mkReader (bytes ++ rest) e) = Ok (frames, mkReader rest e) ∧
    check_sequences (fw_sequence (ch_writer c)) frames = Some (fw_sequence (ch_writer c')) ∧
    omap (λ f, if Type' f =? TypeIPPacket then Some (Payload f) else None) frames =
      omap (λ x, if x.1 =? TypeIPPacket then Some x.2 else None) ws ∧
    Forall (λ f, Type' f = TypeIPPacket ∨ beat_write (Type' f, Payload f)) frames.
Proof.
  intros Hs Hopen Hq Hf Hl. specialize (Hs Hopen).
  assert (Forall (λ x : Type_ * list byte, zlen x.2 < 2 ^ 32) ws) as Hlen.
  { clear -Hl Hf. induction Hf as [|[t p] ws Hx _ IH]; [constructor|]. cbn in *.
    destruct (Z.eqb_spec t TypeIPPacket); cbn in Hl.
    - apply Forall_cons in Hl as [? ?]. constructor; auto.
    - constructor; [|auto]. destruct Hx as [[_ Hx]|Hx]; [cbn in *; lia|done]. }
  apply fw_writes_stream in Hs as (Hseq & bytes & Hb & Hread); [|done|done].
  assert (Hn : ∀ q, map (λ f, (Type' f, Payload f)) (numbered q ws) = ws).
  { clear. induction ws as [|[t p] ws IH]; intros q; [done|]. cbn. by rewrite IH. }
  set (frames := numbered (fw_sequence (ch_writer c)) ws). specialize (Hn (fw_sequence (ch_writer c))).
  exists bytes, frames. assert (length frames = length ws) as Hlf
    by (apply (f_equal length) in Hn; by rewrite length_map in Hn).
  split_and!; [done|rewrite Hlf; apply Hread|unfold frames; by rewrite numbered_checked, Hseq| |].
  - rewrite <-Hn. fold frames. clear. induction frames as [|f frames IH]; [done|]. cbn.
    case_match; cbn; [f_equal|]; exact IH.
  - apply Forall_forall. intros f Hin. rewrite Forall_forall in Hf.
    assert ((Type' f, Payload f) ∈ ws) as Hin2.
    { rewrite <-Hn. apply list_elem_of_In, in_map_iff. exists f. by rewrite <-list_elem_of_In. }
    destruct (Hf _ Hin2); [by right|by left].
Qed.

(** What the daemon sends on a data channel.  However the frame loop, the
    heartbeat and the relay's output interleave, as long as the channel stays
    open the bytes sent decode, frame by frame, to a gap-free sequence that
    passes the peer's check; its IP_PACKET frames are exactly the relay's
    packets in order, and everything else is an eight-byte PING or PONG. *)
Theorem data_channel_outbound c evs rest e :
  tracker_ok (ch_tracker c) → 1 ≤ fw_sequence (ch_writer c) ≤ max_uint32 →
  Forall (λ p, zlen p < 2 ^ 32) (outputs evs) →
  ∃ c', data_run c evs = Some c' ∧
  (ch_open c' = true →
   ∃ bytes frames, w_out (fw_conn (ch_writer c')) = w_out (fw_conn (ch_writer c)) ++ bytes ∧
     read_frames (length frames) (mkReader (bytes ++ rest) e) = Ok (frames, mkReader rest e) ∧
     check_sequences (fw_sequence (ch_writer c)) frames = Some (fw_sequence (ch_writer c')) ∧
     omap (λ f, if Type' f =? TypeIPPacket then Some (Payload f) else None) frames = outputs evs ∧
     Forall (λ f, Type' f = TypeIPPacket ∨ beat_write (Type' f, Payload f)) frames).
Proof.
  intros Hok Hq Hl. destruct (data_run_spec c evs Hok) as (c' & ws & -> & Ho & Hs & Hw).
  exists c'. split; [done|]. intros Hopen. destruct (Hw Hopen) as [Hf Hout]. rewrite <-Hout in Hl.
  destruct (sent_frames c c' ws rest e Hs Hopen Hq Hf Hl) as (bytes & frames & ? & ? & ? & Hp & ?).
  exists bytes, frames. rewrite Hp, Hout. by split_and!.
Qed.

(** * What is received *)

Fixpoint reads (evs : list data_event) : nat :=
  match evs with
  | [] => 0
  | DataRead _ :: evs => S (reads evs)
  | _ :: evs => reads evs
  end.

(** The IPv4 packet at the start of a payload. *)
Definition ip_packet (p : list byte) : list byte :=
  match idx p 2, idx p 3 with
  | Some b2, Some b3 => take (Z.to_nat (be16 b2 b3)) p
  | _, _ => p
  end.

(** The wire image of packets numbered from [q]. *)
Definition packet_stream (q : Z) (packets : list (list byte)) : list byte :=
  concat (map encode (numbered q (map (λ p, (TypeIPPacket, p)) packets))).

Definition packet_ok (p : list byte) : Prop :=
  zlen p ≤ MaxPacketPayload ∧ ∃ total, engine.ipv4_prefix p total.

Lemma packet_inject relay p :
  packet_ok p → engine.done relay = false →
  zlen p ≠ 0 ∧ ∃ relay', engine.Inject relay p = Some (None, Some (ip_packet p), relay') ∧
    engine.done relay' = false.
Proof.
  intros [_ [total Ht]] Hd. split.
  { destruct Ht as (b0 & _ & _ & E0 & _). apply idx_Some in E0. lia. }
  destruct (engine.Inject_cases relay p) as [(err & Hn & _)|(total' & Ht' & [(? & _)|(_ & relay' & E & _)])];
    [by destruct (Hn total)|congruence|].
  exists relay'. rewrite E. assert (take (Z.to_nat total') p = ip_packet p) as <-.
  { destruct Ht' as (b0 & b2 & b3 & _ & E2 & E3 & _ & -> & _). unfold ip_packet. rewrite E2, E3.
    by rewrite be16_arith. }
  split; [done|]. apply engine.inject_frame in E as [-> _]. done.
Qed.

Lemma packet_read q p packets e :
  1 ≤ q ≤ max_uint32 → packet_ok p →
  ReadFrame (mkReader (packet_stream q (p :: packets)) e) =
    (Ok (mkFrame TypeIPPacket 0 q p), mkReader (packet_stream (nextSequence q) packets) e).
Proof.
  intros Hq [Hl _]. unfold packet_stream. cbn [map numbered concat].
  assert (zlen p < 2 ^ 32) as Hp by (unfold MaxPacketPayload in Hl; lia).
  assert (validateFrame (mkFrame TypeIPPacket 0 q p) = None) as Hv.
  { unfold validateFrame. cbn [Type' Flags Sequence Payload]. apply validateHeader_None.
    split_and!; [done|done|lia|]. apply validateLength_None. pose proof (zlen_nonneg p).
    rewrite u32_small by lia. exact Hl. }
  apply ReadFrame_encode; [|done]. by apply valid_frame_wf.
Qed.

(** The other goroutines leave the receiving side alone. *)
Lemma data_step_other c ev c' :
  (∀ now, ev ≠ DataRead now) → data_step c ev = Some c' →
  ch_reader c' = ch_reader c ∧ ch_expected c' = ch_expected c ∧ ch_extra c' = ch_extra c ∧
  (ch_open c' = true → ch_open c = true).
Proof.
  intros Hne. unfold data_step. destruct (ch_open c) eqn:Eo; cbn [negb]; [|by intros [= <-]; rewrite Eo].
  assert (Hw : ∀ t p (c : Chan Data), ch_reader (write_or_close t p c) = ch_reader c ∧
    ch_expected (write_or_close t p c) = ch_expected c ∧ ch_extra (write_or_close t p c) = ch_extra c).
  { intros. unfold write_or_close. by destruct (fw_Write _ _ _) as [[]]. }
  destruct ev as [now|now timeout|packet]; [by destruct (Hne now)| |]; intros [= <-].
  - unfold beat. case_if; [done|]. destruct (heartbeat_tick _ _ _) as [[] h]; [done|done|].
    destruct (Hw TypePing payload (set_tracker h c)) as (-> & -> & ->). done.
  - destruct (Hw TypeIPPacket packet c) as (-> & -> & ->). done.
Qed.

Lemma data_run_closed c evs : ch_open c = false → data_run c evs = Some c.
Proof.
  intros Ho. induction evs as [|ev evs IH]; [done|]. cbn [data_run]. unfold data_step. by rewrite Ho.
Qed.

(** C18: what the daemon receives on a data channel.  When the peer sends
    IPv4 packets as IP_PACKET frames in sequence, then under every
    interleaving with the heartbeat and the relay's output Netstack has
    received exactly a prefix of them, in order, once each and cut to their
    IPv4 length; and while the channel is open it has received one packet per
    round of the read loop: nothing is lost. *)
Theorem data_channel_inbound c evs packets e :
  tracker_ok (ch_tracker c) → ch_open c = true → 1 ≤ ch_expected c ≤ max_uint32 →
  engine.done (d_relay (ch_extra c)) = false → Forall packet_ok packets →
  ch_reader c = mkReader (packet_stream (ch_expected c) packets) e →
  ∃ c' k, data_run c evs = Some c' ∧ (k ≤ length packets)%nat ∧ (k ≤ reads evs)%nat ∧
    d_injected (ch_extra c') = d_injected (ch_extra c) ++ map ip_packet (take k packets) ∧
    (ch_open c' = true → k = reads evs).
Proof.
  revert c packets. induction evs as [|ev evs IH]; intros c packets Hok Ho Hq Hd Hp Hr.
  { exists c, 0%nat. rewrite take_0, app_nil_r. split_and!; try done; lia. }
  cbn [data_run]. destruct (data_step_spec c ev Hok) as (c1 & ws & E1 & Hok1 & _).
  rewrite E1. cbn [mbind option_bind].
  assert (Hclosed : ch_open c1 = false → d_injected (ch_extra c1) = d_injected (ch_extra c) →
    ∃ c' k, data_run c1 evs = Some c' ∧ (k ≤ length packets)%nat ∧ (k ≤ reads (ev :: evs))%nat ∧
    d_injected (ch_extra c') = d_injected (ch_extra c) ++ map ip_packet (take k packets) ∧
    (ch_open c' = true → k = reads (ev :: evs))).
  { intros Hc Hi. exists c1, 0%nat. rewrite data_run_closed, take_0, app_nil_r by done.
    split_and!; try done; try lia. congruence. }
  destruct (match ev with DataRead _ => true | _ => false end) eqn:Ev.
  - destruct ev as [now| |]; [|done..]. revert E1. unfold data_step, data_read. rewrite Ho. cbn [negb].
    rewrite Hr. destruct packets as [|p packets].
    { change (packet_stream (ch_expected c) []) with (@nil byte). cbn [ReadFrame].
      intros [= <-]. apply Hclosed; done. }
    apply Forall_cons in Hp as [Hp1 Hp2]. rewrite packet_read by done.
    unfold data_frame. cbn [Sequence Type' Payload ch_expected set_reader]. rewrite Z.eqb_refl. cbn [negb].
    rewrite Z.eqb_refl. unfold inject.
    destruct (packet_inject _ _ Hp1 Hd) as (Hz & relay' & Ei & Hd'). rewrite (proj2 (Z.eqb_neq _ _) Hz).
    cbn [ch_extra set_expected set_reader]. rewrite Ei. cbn [mbind option_bind option_list]. intros [= <-].
    edestruct (IH _ packets Hok1) as (c' & k & -> & Hk1 & Hk2 & Hi & Hopen); cbn;
      [done|by apply nextSequence_range|done|done|done|].
    exists c', (S k). cbn [length take map reads].
    cbn [ch_extra d_injected set_extra set_expected set_reader] in Hi.
    split_and!; [done|lia|lia|rewrite Hi, <-app_assoc; done|intros Hx; by rewrite Hopen].
  - assert (∀ now, ev ≠ DataRead now) as Hne by (by intros now ->).
    destruct (data_step_other _ _ _ Hne E1) as (H1 & H2 & H3 & H4).
    assert (reads (ev :: evs) = reads evs) as Hrd by (by destruct ev).
    destruct (ch_open c1) eqn:Ec1.
    + destruct (IH c1 packets Hok1) as (c' & k & -> & Hk1 & Hk2 & Hi & Hopen);
        [done|by rewrite H2|by rewrite H3|done|by rewrite H1, H2|].
      exists c', k. rewrite Hrd. rewrite H3 in Hi. by split_and!.
    + apply Hclosed; [done|by rewrite H3].
Qed.
End data_props.

(** * Control frames *)

Section control_props.
Context `{JSON VPNStatusPayload, JSON ErrorPayload}.
Implicit Types c : Chan bool.

(** C19: what an App can do on a control channel.  A frame keeps the channel
    open only in a VPN session, at the expected sequence, and only if it is a
    PONG, an eight-byte PING or a valid VPN_STATUS; the published VPN state
    changes only through a VPN_STATUS that decodes, whose message is at most
    512 bytes and which the session check accepts, and then to the checked
    state; and only STOP_ACK acknowledges a stop. *)
Theorem control_frame_guard mode check now frame c :
  let c' := control_frame mode check now frame c in
  (ch_open c' = true →
     ch_open c = true ∧ mode = session.vpn ∧ Sequence frame = ch_expected c ∧
     ch_expected c' = nextSequence (ch_expected c) ∧
     Type' frame ∈ [TypePong; TypePing; TypeVPNStatus] ∧
     (Type' frame = TypePing → zlen (Payload frame) = 8)) ∧
  (state.VPN (ch_snapshot c') ≠ state.VPN (ch_snapshot c) →
     Type' frame = TypeVPNStatus ∧ Sequence frame = ch_expected c ∧ mode = session.vpn ∧
     ∃ report status message, UnmarshalJSONPayload (Payload frame) = Ok report ∧
       zlen (VPNStatus_Message report) ≤ 512 ∧ check (VPNStatus_State report) = Some (status, message) ∧
       state.VPN (ch_snapshot c') = status) ∧
  (ch_extra c' ≠ ch_extra c → Type' frame = TypeStopAck ∧ Sequence frame = ch_expected c ∧ ch_open c' = false).
Proof.
  cbv zeta. unfold control_frame, control_refuse.
  assert (Hsend : ∀ code message (c : Chan bool), ch_snapshot (sendEstablishedError code message c) = ch_snapshot c ∧
    ch_extra (sendEstablishedError code message c) = ch_extra c).
  { intros. unfold sendEstablishedError. by destruct (MarshalJSONPayload _). }
  assert (Hrefuse : ∀ code message (c : Chan bool), ch_snapshot (close (sendEstablishedError code message c)) = ch_snapshot c ∧
    ch_extra (close (sendEstablishedError code message c)) = ch_extra c ∧
    ch_open (close (sendEstablishedError code message c)) = false).
  { intros code message c0. by destruct (Hsend code message c0). }
  case_if as Es.
  { destruct (Hrefuse (str "INVALID_SEQUENCE") (str "control frame sequence is not contiguous") c) as (-> & -> & ->). done. }
  bool_to_prop. set (c1 := set_expected _ c).
  case_if as E1; bool_to_prop; [by split_and!|].
  case_if as E2; bool_to_prop.
  { case_if as Em; [by split_and!|]. bool_to_prop.
    destruct (pong_same true now (Payload frame) c1) as (-> & _ & -> & _ & -> & -> & _).
    split_and!; try done. intros Ho. rewrite E2. split_and!; try done. set_solver. }
  case_if as E3; bool_to_prop.
  { case_if as Em; [by split_and!|]. bool_to_prop.
    destruct (ping_same (Payload frame) c1) as (Ho & -> & -> & ->). split_and!; try done.
    intros [? ?]%Ho. rewrite E3. split_and!; try done. set_solver. }
  case_if as E4; bool_to_prop.
  { case_bool_decide as Em; [unfold applyVPNStatus; destruct (UnmarshalJSONPayload _) as [report|] eqn:Eu|].
    1: case_if as El; [|destruct (check _) as [[status message]|] eqn:Ec; cbn [mbind option_bind]].
    2: { bool_to_prop. clear Hrefuse Hsend. rewrite E4.
         change (ch_extra (update now (session.publish_vpn status message) c1)) with (ch_extra c).
         split_and!; [|intros _|by intros []].
         - intros Ho. split_and!; [exact Ho|exact Em|exact Es|reflexivity| |discriminate].
           apply list_elem_of_further, list_elem_of_further, list_elem_of_here.
         - split_and!; [reflexivity|exact Es|exact Em|]. exists report, status, message.
           split_and!; [reflexivity|exact El|exact Ec|]. unfold session.publish_vpn. by case_match. }
    all: destruct (Hrefuse (str "INVALID_VPN_STATUS") (str "VPN_STATUS is invalid for this session") c1) as (-> & -> & ->); done. }
  case_if as E5; bool_to_prop; [by split_and!|].
  destruct (Hrefuse (str "UNEXPECTED_FRAME") (str "this frame is not valid in a control session") c1) as (-> & -> & ->). done.
Qed.
End control_props.

(** ** A concrete channel *)

#[local] Existing Instance engine.gvisor.

Definition sample_chan (packets : list (list byte)) : Chan Data :=
  mkChan (mkReader (packet_stream 2 packets) (ESentinel EOF)) 2
    (mkFrameWriter (mkWriter [] [(3%nat, None); (20%nat, None)]) 2) newTracker
    (state.set_VPN state.VPNActive (state.NewStarting 5 (str "device-1") 27183)) true
    (mkData engine.sample_engine []).

(** A packet with two trailing bytes, interleaved with a heartbeat and an
    answer. *)
Definition sample_events : list data_event :=
  [DataRead 10; DataBeat 20 (15 * Second); DataOutput engine.sample_packet; DataRead 30].

Definition sample_packets : list (list byte) := [engine.sample_packet ++ [x01; x02]; engine.sample_packet].

Lemma sample_packet_ok rest : zlen rest ≤ 10 → packet_ok (engine.sample_packet ++ rest).
Proof.
  intros Hr. pose proof (zlen_nonneg rest). split.
  - rewrite zlen_app. change (zlen engine.sample_packet) with 22. unfold MaxPacketPayload. lia.
  - exists 22, x45, x00, x16. rewrite zlen_app. change (zlen engine.sample_packet) with 22.
    split_and!; try reflexivity; try (vm_compute; congruence). lia.
Qed.

Lemma data_channel_inbound_witness :
  ∃ c' k, data_run (sample_chan sample_packets) sample_events = Some c' ∧ (k ≤ 2)%nat ∧ (k ≤ 2)%nat ∧
    d_injected (ch_extra c') = [] ++ map ip_packet (take k sample_packets) ∧
    (ch_open c' = true → k = 2%nat).
Proof.
  apply (data_channel_inbound (sample_chan sample_packets) sample_events sample_packets (ESentinel EOF)).
  - by left.
  - reflexivity.
  - vm_compute. split; discriminate.
  - reflexivity.
  - constructor; [apply sample_packet_ok; vm_compute; discriminate|]. constructor; [|constructor].
    rewrite <-(app_nil_r engine.sample_packet). apply sample_packet_ok. vm_compute. discriminate.
  - reflexivity.
Defined.

Lemma data_channel_outbound_witness :
  ∃ c', data_run (sample_chan sample_packets) sample_events = Some c' ∧
  (ch_open c' = true →
   ∃ bytes frames, w_out (fw_conn (ch_writer c')) = [] ++ bytes ∧
     read_frames (length frames) (mkReader (bytes ++ []) (ESentinel EOF)) = Ok (frames, mkReader [] (ESentinel EOF)) ∧
     check_sequences 2 frames = Some (fw_sequence (ch_writer c')) ∧
     omap (λ f, if Type' f =? TypeIPPacket then Some (Payload f) else None) frames = [engine.sample_packet] ∧
     Forall (λ f, Type' f = TypeIPPacket ∨ beat_write (Type' f, Payload f)) frames).
Proof.
  apply (data_channel_outbound (sample_chan sample_packets) sample_events [] (ESentinel EOF)).
  - by left.
  - vm_compute. split; discriminate.
  - constructor; [vm_compute; reflexivity|constructor].
Defined.
End channel.
