(* ===== verification/DataPlane.v ===== *)
(** The data plane of a VPN session: an established data connection of
    src/internal/daemon/server.go ([handleDataConnection], [writeRelayOutput],
    [runHeartbeat], modelled in [Channel]) and the packet engine of
    src/internal/relay/engine.go (modelled in [EngineLife]) that it feeds and
    drains, as one transition system.  The two share the engine: its frames
    are injected into it, and its output channel is what the connection
    sends. *)
From S2P Require Import Prelude Errors GoIO GoStrings GoOS GoNet Protocol State Engine Bridge EngineLife Daemon Session Channel.
Import protocol daemon channel.

Module dataplane.
Import enginelife.

Section plane.
Context `{engine.Netstack}.

(** [pl_forwarding]: the goroutine [writeRelayOutput] has not returned. *)
Record Plane := mkPlane { pl_chan : Chan Data; pl_life : Life; pl_forwarding : bool }.

Inductive plane_event :=
| Relay (ev : event)                            (* a step of the engine or of Netstack *)
| Forward                                       (* a round of writeRelayOutput *)
| ForwardEnd                                    (* the output channel is closed and drained *)
| FrameRound (now : Time)                       (* a round of the frame loop *)
| BeatRound (now : Time) (timeout : Duration).  (* a tick of runHeartbeat *)

(** The engine as the channel sees it, and the other way round. *)
Definition relay_of_life (s : Life) (c : Chan Data) : Chan Data :=
  set_extra (mkData (lf_engine s) (d_injected (ch_extra c))) c.

Definition life_of_relay (c : Chan Data) (s : Life) : Life := set_lf_engine (d_relay (ch_extra c)) s.

(** [writeRelayOutput]: one packet of the output channel. *)
Definition forward_round (p : Plane) : option Plane :=
  if negb (pl_forwarding p) then None
  else
    match lf_output (pl_life p) with
    | [] => None
    | packet :: _ =>
        s ← step (pl_life p) Receive;
        c ← data_step (pl_chan p) (DataOutput packet);
        Some (mkPlane c s (ch_open c))
    end.

(** [writeRelayOutput]: the range loop ends and the connection is closed. *)
Definition forward_end (p : Plane) : option Plane :=
  match lf_output (pl_life p) with
  | [] =>
      if pl_forwarding p && lf_outputClosed (pl_life p)
      then Some (mkPlane (close (pl_chan p)) (pl_life p) false) else None
  | _ :: _ => None
  end.

Definition plane_step (p : Plane) (ev : plane_event) : option Plane :=
  match ev with
  | Relay Receive | Relay (Injected _) => None
  | Relay ev =>
      s ← step (pl_life p) ev;
      Some (mkPlane (relay_of_life s (pl_chan p)) s (pl_forwarding p))
  | Forward => forward_round p
  | ForwardEnd => forward_end p
  | FrameRound now =>
      c ← data_step (pl_chan p) (DataRead now);
      Some (mkPlane c (life_of_relay c (pl_life p)) (pl_forwarding p))
  | BeatRound now timeout =>
      c ← data_step (pl_chan p) (DataBeat now timeout);
      Some (mkPlane c (pl_life p) (pl_forwarding p))
  end.

Inductive plane_runs (p0 : Plane) : list plane_event → Plane → Prop :=
| plane_refl : plane_runs p0 [] p0
| plane_next evs p ev p' : plane_runs p0 evs p → plane_step p ev = Some p' → plane_runs p0 (evs ++ [ev]) p'.

(** The packets Netstack queued for the device. *)
Definition plane_emit (ev : plane_event) : list (list (list byte)) := match ev with Relay ev => emit_of ev | _ => [] end.
Definition plane_emitted (evs : list plane_event) : list (list (list byte)) := concat (map plane_emit evs).

(** * What a frame does to the engine *)

Lemma read_relay c now c' :
  data_step c (DataRead now) = Some c' →
  d_relay (ch_extra c') = d_relay (ch_extra c) ∨
  ∃ payload err owned, engine.Inject (d_relay (ch_extra c)) payload = Some (err, owned, d_relay (ch_extra c')).
Proof.
  unfold data_step, data_read. case_if; [intros [= <-]; by left|].
  destruct (ReadFrame (ch_reader c)) as [[frame|] r]; [|intros [= <-]; by left].
  unfold data_frame. case_if; [intros [= <-]; by left|]. case_if; [|case_if; [|case_if]].
  - unfold inject. case_if; [intros [= <-]; by left|]. cbn [ch_extra set_expected set_reader].
    destruct (engine.Inject _ _) as [[[err owned] relay]|] eqn:E; [|done]. cbn [mbind option_bind].
    destruct err; intros [= <-]; right; eauto.
  - intros [= <-]. left. match goal with |- context [pong ?k ?n ?p ?c] => pose proof (pong_same k n p c) as (_ & _ & -> & _) end. done.
  - intros [= <-]. left. match goal with |- context [ping ?p ?c] => pose proof (ping_same p c) as (_ & -> & _) end. done.
  - intros [= <-]. by left.
Qed.

(** The frame loop takes the next packet of the stream, or closes. *)
Lemma read_inbound c now c' packets e :
  ch_open c = true → 1 ≤ ch_expected c ≤ max_uint32 → Forall packet_ok packets →
  ch_reader c = mkReader (packet_stream (ch_expected c) packets) e →
  data_step c (DataRead now) = Some c' →
  (ch_open c' = false ∧ d_injected (ch_extra c') = d_injected (ch_extra c)) ∨
  ∃ p packets', packets = p :: packets' ∧
    d_injected (ch_extra c') = d_injected (ch_extra c) ++ [ip_packet p] ∧
    ch_expected c' = nextSequence (ch_expected c) ∧
    ch_reader c' = mkReader (packet_stream (ch_expected c') packets') e.
Proof.
  intros Ho Hq Hp Hr. unfold data_step, data_read. rewrite Ho, Hr. cbn [negb].
  destruct packets as [|p packets]; [intros [= <-]; by left|].
  apply Forall_cons in Hp as [Hp _]. rewrite packet_read by done.
  unfold data_frame. cbn [Sequence Type' Payload ch_expected set_reader]. rewrite Z.eqb_refl. cbn [negb].
  rewrite Z.eqb_refl. unfold inject. cbn [ch_extra set_expected set_reader].
  destruct Hp as [Hl [total Ht]]. destruct (engine.done (d_relay (ch_extra c))) eqn:Hd.
  - case_if; [intros [= <-]; by left|].
    destruct (engine.Inject_cases (d_relay (ch_extra c)) p) as [(err & Hn & _)|(t & _ & [(_ & err & ->)|(? & _)])];
      [by destruct (Hn total)| |congruence].
    intros [= <-]. left. cbn. by rewrite app_nil_r.
  - destruct (packet_inject (d_relay (ch_extra c)) p) as (Hz & relay' & -> & _); [by split; eauto|done|].
    rewrite (proj2 (Z.eqb_neq _ _) Hz). cbn [mbind option_bind option_list]. intros [= <-]. right. by exists p, packets.
Qed.

(** * Invariant *)

Definition ip_writes (ws : list (Type_ * list byte)) : list (list byte) :=
  omap (λ x, if x.1 =? TypeIPPacket then Some x.2 else None) ws.

Definition ip_frames (frames : list Frame) : list (list byte) :=
  omap (λ f, if Type' f =? TypeIPPacket then Some (Payload f) else None) frames.

(** The connection [c0] and the engine [s0] the plane started with, and the
    packets the device sends. *)
Section invariant.
Context (c0 : Chan Data) (s0 : Life) (packets : list (list byte)) (e : error).

(** The frame loop is in step with the device's stream; [k] packets have
    been injected. *)
Definition inbound (c : Chan Data) : Prop :=
  ∃ k, (k ≤ length packets)%nat ∧ d_injected (ch_extra c) = map ip_packet (take k packets) ∧
    (ch_open c = true → 1 ≤ ch_expected c ≤ max_uint32 ∧
       ch_reader c = mkReader (packet_stream (ch_expected c) (drop k packets)) e).

(** What the connection has sent is what the engine handed out. *)
Definition outbound (c : Chan Data) (received : list (list byte)) : Prop :=
  ∃ ws, sent c0 c ws ∧
    (ch_open c = true → Forall (λ x, beat_write x ∨ x.1 = TypeIPPacket) ws ∧ ip_writes ws = received).

Record plane_inv (em : list (list (list byte))) (p : Plane) : Prop := {
  pi_shared : d_relay (ch_extra (pl_chan p)) = lf_engine (pl_life p);
  pi_runs : ∃ evs, runs s0 evs (pl_life p) ∧ emitted evs = em;
  pi_tracker : tracker_ok (ch_tracker (pl_chan p));
  pi_outbound : outbound (pl_chan p) (lf_received (pl_life p));
  pi_inbound : inbound (pl_chan p);
}.

(** A round of the connection that hands over the packets of [ev]. *)
Lemma outbound_step c received ev c' :
  tracker_ok (ch_tracker c) → outbound c received → data_step c ev = Some c' →
  tracker_ok (ch_tracker c') ∧ outbound c' (received ++ outputs [ev]).
Proof.
  intros Hok (ws & Hs & Hw) E. destruct (data_step_spec c ev Hok) as (c1 & ws1 & E1 & Hok1 & Ho & Hs1 & Hw1).
  rewrite E1 in E. injection E as <-. split; [done|]. exists (ws ++ ws1). split; [by eapply sent_trans|].
  intros Hopen. destruct (Hw (Ho Hopen)) as [Hf <-], (Hw1 Hopen) as [Hf1 <-].
  split; [by apply Forall_app|]. unfold ip_writes. apply omap_app.
Qed.

Lemma inbound_other c ev c' :
  (∀ now, ev ≠ DataRead now) → inbound c → data_step c ev = Some c' → inbound c' ∧ ch_extra c' = ch_extra c.
Proof.
  intros Hne (k & Hk & Hi & Hr) E. destruct (data_step_other _ _ _ Hne E) as (H1 & H2 & H3 & H4).
  split; [|done]. exists k. rewrite H1, H2, H3. auto.
Qed.

Lemma inbound_read c now c' :
  Forall packet_ok packets → inbound c → data_step c (DataRead now) = Some c' → inbound c'.
Proof.
  intros Hp (k & Hk & Hi & Hr) E. destruct (ch_open c) eqn:Ho.
  2:{ unfold data_step in E. rewrite Ho in E. injection E as <-. exists k. by rewrite Ho. }
  destruct (Hr eq_refl) as [Hq Hrd].
  destruct (read_inbound _ _ _ _ _ Ho Hq (Forall_drop _ k _ Hp) Hrd E) as [[Hc Hd]|(p & rest & Hdrop & Hd & Hx & Hrd')].
  - exists k. rewrite Hc, Hd. done.
  - assert (packets !! k = Some p) as Hl by (by rewrite <-(Nat.add_0_r k), <-lookup_drop, Hdrop).
    exists (S k). pose proof (lookup_lt_Some _ _ _ Hl). split_and!; [lia| |intros _; split].
    + by rewrite Hd, Hi, (take_S_r _ _ _ Hl), map_app.
    + rewrite Hx. by apply nextSequence_range.
    + rewrite Hrd'. do 2 f_equal. apply (f_equal tail) in Hdrop. cbn in Hdrop. rewrite <-Hdrop.
      replace (S k) with (k + 1)%nat by lia. rewrite <-drop_drop. by destruct (drop k packets).
Qed.

Lemma group_done_received s : lf_received (group_done s) = lf_received s.
Proof. unfold group_done. cbn. case_if; [done|]. destruct (lf_closing s); try done. by case_if. Qed.

Lemma spawn_received k effects x s : lf_received (spawn k effects x s) = lf_received s.
Proof. unfold spawn. cbn. destruct (lf_closing s); try done. by destruct (flows_of k effects s). Qed.

(** A step of the engine other than handing a packet out. *)
Lemma received_step s ev s' : ev ≠ Receive → step s ev = Some s' → lf_received s' = lf_received s.
Proof.
  intros Hn E.
  destruct ev; cbn [step] in E; try done.
  - case_if in E as Eg; [|done]. by injection E as <-.
  - destruct (engine.Inject _ _) as [[[]]|]; [|done]. by injection E as <-.
  - destruct (engine.handleTCP _ _ _ _). injection E as <-. apply spawn_received.
  - destruct (engine.handleUDP _ _ _ _) as [[]]. injection E as <-. apply spawn_received.
  - unfold copier_step in E. destruct (lf_copier s); try done. destruct (lf_link s); [done|].
    destruct (engine.copy_output_round _ _ _) as [[[]]]; by injection E as <-.
  - unfold copier_step in E. destruct (lf_copier s); try done. destruct (lf_outputClosed s); [by injection E as <-|].
    case_decide; [|done]. by injection E as <-.
  - unfold copier_step in E. destruct (lf_copier s); try done; destruct (engine.done _); try done; by injection E as <-.
  - unfold copier_step in E. destruct (lf_copier s); try done. injection E as <-. by destruct (lf_outputClosed s).
  - unfold copier_step in E. destruct (lf_copier s); try done. injection E as <-. by rewrite group_done_received.
  - destruct (lf_flows s !! i) as [[t|]|] eqn:Hl; try (unfold flow_step in E; rewrite Hl in E; done).
    by destruct (bridge_flow_step _ _ _ _ _ _ Hl E) as (b & b' & _ & _ & _ & ->).
  - unfold flow_step in E. destruct (lf_flows s !! i) as [[[|[]]|]|]; try done. by injection E as <-.
  - unfold flow_step in E. destruct (lf_flows s !! i) as [[[|[]]|]|]; try done. by injection E as <-.
  - unfold flow_step in E. destruct (lf_flows s !! i) as [[t|]|]; try done.
    destruct (task_returned t); [|done]. injection E as <-. by rewrite group_done_received.
  - unfold close_step in E. destruct (lf_closing s); try done; by injection E as <-.
Qed.

Lemma runs_emit em s ev s' :
  (∃ evs, runs s0 evs s ∧ emitted evs = em) → step s ev = Some s' →
  ∃ evs, runs s0 evs s' ∧ emitted evs = em ++ emit_of ev.
Proof. intros (evs & Hr & <-) E. exists (evs ++ [ev]). split; [by econstructor|apply emitted_snoc]. Qed.

Lemma relay_step_inv em p ev s :
  plane_inv em p → ev ≠ Receive → step (pl_life p) ev = Some s →
  plane_inv (em ++ emit_of ev) (mkPlane (relay_of_life s (pl_chan p)) s (pl_forwarding p)).
Proof.
  intros [] Hn E. split; cbn [pl_chan pl_life pl_forwarding].
  - done.
  - by eapply runs_emit.
  - exact pi_tracker0.
  - rewrite (received_step _ _ _ Hn E). exact pi_outbound0.
  - exact pi_inbound0.
Qed.

Lemma forward_inv em p p' : plane_inv em p → forward_round p = Some p' → plane_inv em p'.
Proof.
  intros [] E. unfold forward_round in E. destruct (pl_forwarding p); [|done]. cbn [negb] in E.
  destruct (lf_output (pl_life p)) as [|packet output] eqn:Hl; [done|].
  destruct (step (pl_life p) Receive) as [s|] eqn:Es; [|done]. cbn [mbind option_bind] in E.
  destruct (data_step _ _) as [c|] eqn:Ec; [|done]. cbn [mbind option_bind] in E. injection E as <-.
  destruct (outbound_step _ _ _ _ pi_tracker0 pi_outbound0 Ec) as [Ht Ho].
  destruct (inbound_other _ (DataOutput packet) _ ltac:(done) pi_inbound0 Ec) as [Hi Hx].
  pose proof Es as Es'. cbn in Es'. rewrite Hl in Es'. injection Es' as Es'.
  split; cbn [pl_chan pl_life]; [by rewrite Hx, <-Es'| |done|by rewrite <-Es'|done].
  rewrite <-(app_nil_r em). exact (runs_emit _ _ _ _ pi_runs0 Es).
Qed.

Lemma frame_inv em p now c :
  Forall packet_ok packets → plane_inv em p → data_step (pl_chan p) (DataRead now) = Some c →
  plane_inv em (mkPlane c (life_of_relay c (pl_life p)) (pl_forwarding p)).
Proof.
  intros Hp [] E. destruct (outbound_step _ _ _ _ pi_tracker0 pi_outbound0 E) as [Ht Ho].
  pose proof (inbound_read _ _ _ Hp pi_inbound0 E) as Hi. split; cbn [pl_chan pl_life]; [done| |done| |done].
  - destruct (read_relay _ _ _ E) as [Hr|(payload & err & owned & Hr)]; rewrite pi_shared0 in Hr.
    + unfold life_of_relay. rewrite Hr. by destruct (pl_life p).
    + rewrite <-(app_nil_r em). apply (runs_emit _ _ (Injected payload) _ pi_runs0). cbn [step]. by rewrite Hr.
  - cbn [outputs omap list_omap] in Ho. by rewrite app_nil_r in Ho.
Qed.

Lemma plane_step_inv em p ev p' :
  Forall packet_ok packets → plane_inv em p → plane_step p ev = Some p' → plane_inv (em ++ plane_emit ev) p'.
Proof.
  intros Hp Hi E. destruct ev as [ev| | |now|now timeout]; cbn [plane_step] in E; cbn [plane_emit]; rewrite ?app_nil_r.
  - destruct ev; try discriminate E; (destruct (step (pl_life p) _) as [s|] eqn:Es; [|done]); injection E as <-;
      (eapply relay_step_inv; [exact Hi| |exact Es]; discriminate).
  - by eapply forward_inv.
  - unfold forward_end in E. destruct (lf_output (pl_life p)); [|done]. case_if in E as Ec; [|done]. injection E as <-.
    destruct Hi as [? ? ? (ws & Hs & _) (k & Hk & Hd & _)]. split; cbn; try done; [by exists ws|by exists k].
  - destruct (data_step _ _) as [c|] eqn:Ec; [|done]. injection E as <-. by eapply frame_inv.
  - destruct (data_step _ _) as [c|] eqn:Ec; [|done]. injection E as <-. destruct Hi.
    destruct (outbound_step _ _ _ _ pi_tracker0 pi_outbound0 Ec) as [Ht Ho].
    destruct (inbound_other _ (DataBeat now timeout) _ ltac:(done) pi_inbound0 Ec) as [Hin Hx].
    split; cbn [pl_chan pl_life]; [by rewrite Hx|done|done| |done].
    cbn [outputs omap list_omap] in Ho. by rewrite app_nil_r in Ho.
Qed.
End invariant.

Lemma plane_start_inv c0 s0 packets e :
  d_relay (ch_extra c0) = lf_engine s0 → d_injected (ch_extra c0) = [] → lf_received s0 = [] →
  tracker_ok (ch_tracker c0) → 1 ≤ ch_expected c0 ≤ max_uint32 →
  ch_reader c0 = mkReader (packet_stream (ch_expected c0) packets) e →
  plane_inv c0 s0 packets e [] (mkPlane c0 s0 true).
Proof.
  intros Hs Hi Hr Ht Hq Hrd. split; cbn [pl_chan pl_life]; [done|by exists []; split; [constructor|]|done| |].
  - exists []. rewrite Hr. split; [done|]. intros _. by split; [constructor|].
  - exists 0%nat. rewrite take_0, drop_0, Hi. split_and!; [lia|done|done].
Qed.

Lemma accepted_sized taken : Forall (λ p, zlen p < 2 ^ 32) (accepted taken).
Proof.
  apply Forall_forall. intros p [Hs _]%list_elem_of_filter. unfold sized, engine.maximumIPv4PacketLength in Hs. bool_to_prop. lia.
Qed.

(** C5: the data plane of a session.  For a data connection whose device sends
    [packets] and a new packet engine behind it, in every interleaving of the
    frame loop, the heartbeat, [writeRelayOutput], Netstack, the flows and
    [Close]: Netstack has been handed a prefix of the device's packets, in
    order, once each and cut to their IPv4 length; and while the connection is
    open, what it has sent decodes to a gap-free sequence of frames.  The
    packets of legal size that Netstack queued for the device are exactly, in
    order, the IP_PACKET payloads of these frames and then what the engine
    still holds: the output channel, the packet being sent and the link queue;
    only once the engine is closed may there also be packets given up or
    discarded, and before that nothing panics. *)
Theorem data_plane config o s0 c0 packets e evs p rest er :
  create config o = Ok s0 →
  d_relay (ch_extra c0) = lf_engine s0 → d_injected (ch_extra c0) = [] → tracker_ok (ch_tracker c0) →
  1 ≤ fw_sequence (ch_writer c0) ≤ max_uint32 → 1 ≤ ch_expected c0 ≤ max_uint32 →
  Forall packet_ok packets → ch_reader c0 = mkReader (packet_stream (ch_expected c0) packets) e →
  plane_runs (mkPlane c0 s0 true) evs p →
  let c := pl_chan p in let s := pl_life p in
  (∃ k, (k ≤ length packets)%nat ∧ d_injected (ch_extra c) = map ip_packet (take k packets)) ∧
  (ch_open c = true →
   ∃ bytes frames, w_out (fw_conn (ch_writer c)) = w_out (fw_conn (ch_writer c0)) ++ bytes ∧
     read_frames (length frames) (mkReader (bytes ++ rest) er) = Ok (frames, mkReader rest er) ∧
     check_sequences (fw_sequence (ch_writer c0)) frames = Some (fw_sequence (ch_writer c)) ∧
     accepted (plane_emitted evs) =
       ip_frames frames ++ lf_output s ++ sending (lf_copier s) ++ lf_dropped s ++
       accepted (lf_link s) ++ accepted (lf_discarded s)) ∧
  (engine.done (lf_engine s) = false → lf_dropped s = [] ∧ lf_discarded s = [] ∧ lf_panic s = false).
Proof.
  intros Hc Hs Hi Ht Hw Hq Hp Hrd Hr. apply create_start in Hc as (e0 & capacity & -> & Hd & _ & _).
  assert (plane_inv c0 (start e0 capacity) packets e (plane_emitted evs) p) as [].
  { induction Hr as [|evs p ev p' _ IH E]; [by apply plane_start_inv|].
    unfold plane_emitted. rewrite map_app, concat_app. cbn [map concat]. rewrite app_nil_r. by eapply plane_step_inv. }
  destruct pi_runs0 as (levs & Hruns & Hem). pose proof (life_runs_inv _ _ _ _ Hd Hruns) as Hl. rewrite Hem in Hl.
  cbv zeta. split_and!.
  - destruct pi_inbound0 as (k & ? & ? & _). eauto.
  - intros Ho. destruct pi_outbound0 as (ws & Hsent & Hws). destruct (Hws Ho) as [Hf Hx].
    pose proof (accepted_sized (plane_emitted evs)) as Ha. rewrite (li_packets _ _ _ Hl) in Ha |- *.
    unfold passed in *. rewrite <-!app_assoc in Ha |- *. apply Forall_app in Ha as [Ha _]. rewrite <-Hx in Ha |- *.
    destruct (sent_frames c0 (pl_chan p) ws rest er Hsent Ho Hw Hf Ha) as (bytes & frames & ? & ? & ? & Hip & _).
    exists bytes, frames. split_and!; [done..|]. unfold ip_frames, ip_writes. by rewrite Hip.
  - intros Hn. by destruct (open_engine _ _ _ Hl Hn) as (? & ? & ?).
Qed.
End plane.

(** ** A concrete session *)

#[local] Existing Instance engine.gvisor.

Definition sample_conn : Chan Data :=
  relay_of_life sample_start (sample_chan sample_packets).

Definition sample_rounds : list plane_event :=
  [FrameRound 10; Relay (Emit [[x45]; [x01]]); Relay CopierRead; Relay CopierSend; BeatRound 20 (15 * Second);
   Relay (Emit [[x46]]); Forward; FrameRound 30; Relay CopierRead; Relay (Emit [[x47]])].

Fixpoint plane_run (p : Plane) (evs : list plane_event) : option Plane :=
  match evs with [] => Some p | ev :: evs => p' ← plane_step p ev; plane_run p' evs end.

Lemma plane_run_runs p0 evs0 p evs p' :
  plane_runs p0 evs0 p → plane_run p evs = Some p' → plane_runs p0 (evs0 ++ evs) p'.
Proof.
  revert p evs0. induction evs as [|ev evs IH]; intros p evs0 Hr; cbn [plane_run]; [rewrite app_nil_r; by intros [= <-]|].
  destruct (plane_step p ev) as [p1|] eqn:E; [|done]. cbn. intros Hs. rewrite (app_assoc _ [ev] evs).
  eapply IH; [|exact Hs]. by econstructor.
Qed.

Definition sample_plane : Plane :=
  default (mkPlane sample_conn sample_start true) (plane_run (mkPlane sample_conn sample_start true) sample_rounds).

Lemma data_plane_witness :
  ch_open (pl_chan sample_plane) = true ∧
  (∃ k, (k ≤ 2)%nat ∧ d_injected (ch_extra (pl_chan sample_plane)) = map ip_packet (take k sample_packets)) ∧
  ∃ frames, accepted (plane_emitted sample_rounds) = ip_frames frames ++ [] ++ [[x46]] ++ [] ++ [[x47]] ++ [].
Proof.
  destruct (data_plane sample_life_config (mkNICOutcome None None None) sample_start sample_conn sample_packets
              (ESentinel EOF) sample_rounds sample_plane [] (ESentinel EOF)) as (Hin & Hout & _).
  - vm_compute. reflexivity.
  - reflexivity.
  - reflexivity.
  - by left.
  - vm_compute. split; discriminate.
  - vm_compute. split; discriminate.
  - constructor; [apply sample_packet_ok; vm_compute; discriminate|]. constructor; [|constructor].
    rewrite <-(app_nil_r engine.sample_packet). apply sample_packet_ok. vm_compute. discriminate.
  - reflexivity.
  - apply (plane_run_runs _ [] (mkPlane sample_conn sample_start true) sample_rounds); [constructor|].
    vm_compute. reflexivity.
  - assert (ch_open (pl_chan sample_plane) = true) as Ho by (vm_compute; reflexivity).
    destruct (Hout Ho) as (bytes & frames & _ & _ & _ & Ha).
    split_and!; [exact Ho|exact Hin|]. exists frames. rewrite Ha. vm_compute. reflexivity.
Defined.
End dataplane.
