(* ===== verification/Stop.v ===== *)
(** Stopping a control session (src/internal/daemon/server.go): [shutdown]
    sends STOP_REQUEST through the session's frame writer and waits for the
    frame loop to see STOP_ACK, or for its timer, while the loop and the
    heartbeat of the connection go on; then it closes the connection.

    The rounds of the loop and of the heartbeat are those of [Channel]; the
    wait is two more events. *)
From S2P Require Import Prelude Errors GoIO GoStrings GoOS GoNet Protocol State Engine Daemon Session Handshake Channel.
Import protocol daemon channel.

Module stop.

(** Where [shutdown] is with this connection. *)
Inductive phase := Serving | Waiting | Finished (acknowledged : bool).

Record Stopping := mkStopping { sp_chan : Chan bool; sp_phase : phase }.

Section stop.
Context `{JSON VPNStatusPayload, JSON ErrorPayload, JSON StopRequest}.
Variable mode : gostring.

(** [payload, _ := MarshalJSONPayload(...)]. *)
Definition stop_payload : list byte :=
  match MarshalJSONPayload (mkStopRequest (str "user_requested")) with Ok p => p | Err _ => [] end.

(** The write of STOP_REQUEST: errors are ignored, a closed connection takes
    nothing. *)
Definition request_stop (c : Chan bool) : Chan bool :=
  if negb (ch_open c) then c
  else
    set_writer (fw_Write (ch_writer c) TypeStopRequest stop_payload).2 c.

Inductive event :=
| Loop (now : Time) (check : gostring → option (state.VPNStatus * gostring))
| Beat (now : Time) (timeout : Duration)
| Request
| Acknowledged
| TimedOut.

(** [None]: the event cannot happen now. *)
Definition stop_step (s : Stopping) (ev : event) : option Stopping :=
  let c := sp_chan s in
  match ev with
  | Loop now check =>
      if ch_open c then Some (mkStopping (control_read mode check now c) (sp_phase s)) else None
  | Beat now timeout =>
      if ch_open c && streq mode session.vpn
      then Some (mkStopping (beat true now timeout c) (sp_phase s)) else None
  | Request =>
      match sp_phase s with
      | Serving => Some (mkStopping (request_stop c) Waiting)
      | _ => None
      end
  | Acknowledged =>
      match sp_phase s with
      | Waiting => if ch_extra c then Some (mkStopping (close c) (Finished true)) else None
      | _ => None
      end
  | TimedOut =>
      match sp_phase s with
      | Waiting => Some (mkStopping (close c) (Finished false))
      | _ => None
      end
  end.

(** Runs, extended at the end. *)
Inductive stop_steps (start : Stopping) : list event → Stopping → Prop :=
| stop_refl : stop_steps start [] start
| stop_snoc evs s ev s' : stop_steps start evs s → stop_step s ev = Some s' → stop_steps start (evs ++ [ev]) s'.

(** * The exchange *)

Lemma sendEstablishedError_extra code message (c : Chan bool) : ch_extra (sendEstablishedError code message c) = ch_extra c.
Proof. unfold sendEstablishedError. by destruct (MarshalJSONPayload _). Qed.

Lemma beat_extra {A} control now timeout (c : Chan A) : ch_extra (beat control now timeout c) = ch_extra c.
Proof.
  unfold beat, write_or_close. case_if; [done|]. destruct (heartbeat_tick _ _ _) as [[| |payload] h]; try done.
  by destruct (fw_Write _ _ _) as [[] w].
Qed.

Lemma request_stop_extra c : ch_extra (request_stop c) = ch_extra c.
Proof. unfold request_stop. by case_if. Qed.

(** Only a STOP_ACK in sequence sets the flag, and it does. *)
Lemma control_frame_extra check now frame c :
  ch_extra (control_frame mode check now frame c) =
    (if (Sequence frame =? ch_expected c) && (Type' frame =? TypeStopAck) then true else ch_extra c).
Proof.
  unfold control_frame, control_refuse. destruct (Z.eqb_spec (Sequence frame) (ch_expected c)); cbn [negb andb];
    [|apply (sendEstablishedError_extra _ _ c)].
  case_if; [done|]. case_if; [case_if; [done|]; by apply (pong_same true now (Payload frame) (set_expected _ c))|].
  case_if; [case_if; [done|]; by apply (ping_same (Payload frame) (set_expected _ c))|].
  case_if; [|case_if; [done|]; apply (sendEstablishedError_extra _ _ (set_expected _ c))].
  case_match; [done|]. apply (sendEstablishedError_extra _ _ (set_expected _ c)).
Qed.

(** The frame loop is about to read an acknowledgement. *)
Definition next_is_ack (c : Chan bool) : Prop :=
  ∃ frame r, ReadFrame (ch_reader c) = (Ok frame, r) ∧ Type' frame = TypeStopAck ∧ Sequence frame = ch_expected c.

Lemma control_read_extra check now c :
  (ch_extra c = true ∨ next_is_ack c) ↔ ch_extra (control_read mode check now c) = true.
Proof.
  unfold control_read, next_is_ack. destruct (ReadFrame (ch_reader c)) as [[frame|err] r] eqn:Er.
  - rewrite control_frame_extra. change (ch_expected (set_reader r c)) with (ch_expected c).
    change (ch_extra (set_reader r c)) with (ch_extra c). split.
    + intros [-> |(f & r' & [= <- <-] & Ht & Hs)]; [by case_if|]. by rewrite Ht, Hs, Z.eqb_refl.
    + case_if as E; [|by left]. intros _. right. bool_to_prop. eauto 6.
  - cbn. split; [|by left]. intros [?|(f & r' & ? & _)]; done.
Qed.

(** What holds between the start of serving and any later moment. *)
Record stop_inv (start s : Stopping) (evs : list event) : Prop := {
  si_acked : ch_extra (sp_chan s) = true → ∃ pre now check post s1,
    evs = pre ++ Loop now check :: post ∧ stop_steps start pre s1 ∧ next_is_ack (sp_chan s1);
  si_finished : ∀ b, sp_phase s = Finished b → ch_open (sp_chan s) = false ∧ (b = true → ch_extra (sp_chan s) = true);
}.

Lemma acked_later start evs s ev :
  stop_inv start s evs → ch_extra (sp_chan s) = true → ∃ pre now check post s1,
    evs ++ [ev] = pre ++ Loop now check :: post ∧ stop_steps start pre s1 ∧ next_is_ack (sp_chan s1).
Proof.
  intros Hi (pre & now & check & post & s1 & -> & Hr & Ha)%(si_acked _ _ _ Hi).
  exists pre, now, check, (post ++ [ev]), s1. split_and!; [|done|done]. by rewrite <-(assoc_L app).
Qed.

Lemma stop_steps_inv start evs s :
  sp_phase start = Serving → ch_extra (sp_chan start) = false →
  stop_steps start evs s → stop_inv start s evs.
Proof.
  intros Hp He. induction 1 as [|evs s ev s' Hs IH Hstep]; [split; [congruence|by rewrite Hp]|].
  pose proof (acked_later _ _ _ ev IH) as Hack. destruct IH as [_ I3]. unfold stop_step in Hstep.
  destruct ev as [now check|now timeout| | |].
  - case_if in Hstep as Eo; [|done]. injection Hstep as <-. split; cbn [sp_phase sp_chan].
    + intros [Ha|Ha]%control_read_extra; [by apply Hack|]. exists evs, now, check, [], s. done.
    + intros b Hb. destruct (I3 b Hb). congruence.
  - case_if in Hstep as Eo; [|done]. injection Hstep as <-. apply andb_true_iff in Eo as [Eo _].
    split; cbn [sp_phase sp_chan]; [by rewrite beat_extra|]. intros b Hb. destruct (I3 b Hb). congruence.
  - destruct (sp_phase s); try done. injection Hstep as <-. split; cbn [sp_phase sp_chan]; [by rewrite request_stop_extra|done].
  - destruct (sp_phase s); try done. case_if in Hstep as Ea; [|done]. injection Hstep as <-.
    by split; cbn [sp_phase sp_chan]; [auto|].
  - destruct (sp_phase s); try done. injection Hstep as <-. split; cbn [sp_phase sp_chan]; [auto|]. by intros b [= <-].
Qed.

(** * What is written *)

(** A sequence of writes, whatever their outcome. *)
Definition fw_run (w : frameWriter) (ws : list (Type_ * list byte)) : frameWriter :=
  foldl (λ w x, (fw_Write w x.1 x.2).2) w ws.

(** What the frame loop and the heartbeat write. *)
Definition ordinary (x : Type_ * list byte) : Prop :=
  beat_write x ∨ x.1 = TypeError ∧ zlen x.2 ≤ MaxControlPayload.

Definition stop_writes (ws : list (Type_ * list byte)) : list (list byte) :=
  omap (λ x, if x.1 =? TypeStopRequest then Some x.2 else None) ws.

Definition stop_requests (frames : list Frame) : list (list byte) :=
  omap (λ f, if Type' f =? TypeStopRequest then Some (Payload f) else None) frames.

(** [c'] follows [c] by ordinary writes. *)
Definition wrote (c c' : Chan bool) : Prop :=
  (∃ ws, ch_writer c' = fw_run (ch_writer c) ws ∧ Forall ordinary ws) ∧ tracker_ok (ch_tracker c').

Lemma wrote_nothing c c' : ch_writer c' = ch_writer c → tracker_ok (ch_tracker c') → wrote c c'.
Proof. intros Hw Ht. split; [|done]. by exists []. Qed.

Lemma wrote_one c c' t p :
  ch_writer c' = (fw_Write (ch_writer c) t p).2 → ordinary (t, p) → tracker_ok (ch_tracker c') → wrote c c'.
Proof. intros Hw Ho Ht. split; [|done]. exists [(t, p)]. split; [done|by apply Forall_singleton]. Qed.

Lemma write_or_close_writer {A} t p (c : Chan A) :
  ch_writer (write_or_close t p c) = (fw_Write (ch_writer c) t p).2 ∧ ch_tracker (write_or_close t p c) = ch_tracker c.
Proof. unfold write_or_close. by destruct (fw_Write _ _ _) as [[] w]. Qed.

Lemma beat_wrote now timeout c : tracker_ok (ch_tracker c) → wrote c (beat true now timeout c).
Proof.
  intros Hok. unfold beat. cbn [negb andb]. pose proof (begin_ok _ now timeout Hok) as Hb. unfold heartbeat_tick.
  destruct (begin (ch_tracker c) now timeout) as [[payload expired] h] eqn:E. cbn [snd] in Hb.
  destruct expired; [destruct payload; by apply wrote_nothing|]. destruct payload as [|x l]; [by apply wrote_nothing|].
  destruct (write_or_close_writer TypePing (x :: l) (set_tracker h c)) as [Hw Ht].
  eapply wrote_one; [exact Hw| |by rewrite Ht]. left. split; [by left|].
  revert E. unfold begin. case_if; [done|]. intros [= <- <- <-]. apply length_be_put8.
Qed.

Lemma refuse_wrote code message c : tracker_ok (ch_tracker c) → wrote c (control_refuse code message c).
Proof.
  intros Hok. unfold control_refuse, sendEstablishedError. destruct (MarshalJSONPayload _) as [p|] eqn:E; [|by apply wrote_nothing].
  eapply wrote_one; [reflexivity| |done]. right. split; [done|]. exact (handshake.MarshalJSONPayload_bound _ _ E).
Qed.

Lemma control_frame_wrote check now frame c :
  tracker_ok (ch_tracker c) → wrote c (control_frame mode check now frame c).
Proof.
  intros Hok. unfold control_frame. case_if; [by apply refuse_wrote|].
  set (c1 := set_expected _ c). case_if; [by apply wrote_nothing|]. case_if.
  { case_if; [by apply wrote_nothing|]. destruct (pong_same true now (Payload frame) c1) as (_ & Hw & _ & _ & _ & _ & Ht).
    by apply wrote_nothing; [|apply Ht]. }
  case_if.
  { case_if; [by apply wrote_nothing|]. unfold ping. case_if as E8; [by apply wrote_nothing|].
    destruct (write_or_close_writer TypePong (Payload frame) c1) as [Hw Ht].
    eapply wrote_one; [exact Hw| |by rewrite Ht]. left. bool_to_prop. by split; [right|]. }
  case_if; [|case_if; [by apply wrote_nothing|by apply (refuse_wrote _ _ c1)]].
  case_match; [by apply wrote_nothing|by apply (refuse_wrote _ _ c1)].
Qed.

Lemma control_read_wrote check now c : tracker_ok (ch_tracker c) → wrote c (control_read mode check now c).
Proof.
  intros Hok. unfold control_read. destruct (ReadFrame (ch_reader c)) as [[frame|err] r]; [|by apply wrote_nothing].
  by apply (control_frame_wrote check now frame (set_reader r c)).
Qed.

(** [shutdown] began while the connection was open. *)
Definition requested (start : Stopping) (evs : list event) : Prop :=
  ∃ before after s, evs = before ++ Request :: after ∧ stop_steps start before s ∧ ch_open (sp_chan s) = true.

Lemma stop_steps_unique start evs s s' : stop_steps start evs s → stop_steps start evs s' → s = s'.
Proof.
  intros Hs. revert s'. induction Hs as [|evs s ev s1 Hs IH E]; intros s' Hs'; inversion Hs' as [|evs' s2 ev' s3 Hs2 E2 Heq].
  - done.
  - by destruct evs'.
  - by destruct evs.
  - apply app_inj_tail in Heq as [-> ->]. rewrite (IH _ Hs2) in E. congruence.
Qed.

Lemma requested_snoc start evs ev s :
  stop_steps start evs s → requested start (evs ++ [ev]) →
  requested start evs ∨ ev = Request ∧ ch_open (sp_chan s) = true.
Proof.
  intros Hs (before & after & s1 & Heq & Hs1 & Ho).
  destruct after as [|x after _] using rev_ind.
  - apply app_inj_tail in Heq as [-> ->]. right. by rewrite (stop_steps_unique _ _ _ _ Hs Hs1).
  - rewrite app_comm_cons, app_assoc in Heq. apply app_inj_tail in Heq as [-> _]. left. by exists before, after, s1.
Qed.

Record stop_written (start s : Stopping) (evs : list event) : Prop := {
  sw_tracker : tracker_ok (ch_tracker (sp_chan s));
  sw_writes : ∃ ws, ch_writer (sp_chan s) = fw_run (ch_writer (sp_chan start)) ws ∧
    Forall (λ x, ordinary x ∨ x = (TypeStopRequest, stop_payload)) ws ∧
    (sp_phase s = Serving → stop_writes ws = []) ∧
    (stop_writes ws = [] ∨ stop_writes ws = [stop_payload]) ∧
    (requested start evs → stop_writes ws = [stop_payload]);
  sw_serving : sp_phase s = Serving → ¬ requested start evs;
}.

Lemma stop_writes_ordinary ws : Forall ordinary ws → stop_writes ws = [].
Proof.
  induction 1 as [|[t p] ws Hx _ IH]; [done|]. unfold stop_writes in *. cbn in *.
  destruct Hx as [[[Hx|Hx] _]|[Hx _]]; cbn in Hx; rewrite Hx; exact IH.
Qed.

Lemma stop_writes_app a b : stop_writes (a ++ b) = stop_writes a ++ stop_writes b.
Proof. apply omap_app. Qed.

(** A round of the frame loop or of the heartbeat, or a close. *)
Lemma ordinary_step start s evs ev c :
  stop_written start s evs → stop_steps start evs s → ev ≠ Request → wrote (sp_chan s) c →
  ∀ ph, (ph = Serving → sp_phase s = Serving) → stop_written start (mkStopping c ph) (evs ++ [ev]).
Proof.
  intros [Ht (ws & Hw & Hf & K1 & K2 & K3) Hs] Hr Hne [(ws' & Hw' & Hf') Ht'] ph Hph.
  assert (requested start (evs ++ [ev]) → requested start evs) as Hreq.
  { intros [?|[? _]]%(requested_snoc _ _ _ _ Hr); done. }
  split; cbn [sp_chan sp_phase]; [done| |by intros Hp Hx; apply Hs; auto].
  exists (ws ++ ws'). rewrite stop_writes_app, (stop_writes_ordinary _ Hf'), app_nil_r. split_and!; auto.
  - rewrite Hw', Hw. unfold fw_run. by rewrite foldl_app.
  - apply Forall_app. split; [done|]. eapply Forall_impl; [exact Hf'|]. by left.
Qed.

Lemma stop_steps_written start evs s :
  sp_phase start = Serving → tracker_ok (ch_tracker (sp_chan start)) →
  stop_steps start evs s → stop_written start s evs.
Proof.
  intros Hp Ht Hs. induction Hs as [|evs s ev s' Hs IH E].
  { assert (¬ requested start []) as Hn by (by intros (before & ? & ? & Hx & _); destruct before).
    split; [done| |done]. exists []. split_and!; try done. by left. }
  unfold stop_step in E. destruct ev as [now check|now timeout| | |].
  - case_if in E as Eo; [|done]. injection E as <-. eapply ordinary_step; [done..| |done]. apply control_read_wrote, IH.
  - case_if in E as Eo; [|done]. injection E as <-. eapply ordinary_step; [done..| |done]. apply beat_wrote, IH.
  - destruct (sp_phase s) eqn:Eph; try done. injection E as <-.
    destruct IH as [Hk (ws & Hw & Hf & K1 & _ & _) Hn]. specialize (K1 Eph). specialize (Hn Eph).
    unfold request_stop. destruct (ch_open (sp_chan s)) eqn:Eo; cbn [negb].
    + split; cbn [sp_chan sp_phase]; [done| |done]. exists (ws ++ [(TypeStopRequest, stop_payload)]).
      rewrite stop_writes_app, K1. split_and!; [|by apply Forall_app; split; [|by repeat constructor; right]|done|by right|done].
      cbn [ch_writer set_writer]. rewrite Hw. unfold fw_run. by rewrite foldl_app.
    + split; cbn [sp_chan sp_phase]; [done| |done]. exists ws. split_and!; [done|done|done|by left|].
      intros [?|[_ ?]]%(requested_snoc _ _ _ _ Hs); [done|congruence].
  - destruct (sp_phase s) eqn:Eph; try done. case_if in E as Ea; [|done]. injection E as <-.
    eapply ordinary_step; [done..| |done]. apply wrote_nothing; [done|]. apply IH.
  - destruct (sp_phase s) eqn:Eph; try done. injection E as <-.
    eapply ordinary_step; [done..| |done]. apply wrote_nothing; [done|]. apply IH.
Qed.

Lemma stop_payload_bound : zlen stop_payload ≤ MaxControlPayload.
Proof.
  unfold stop_payload. destruct (MarshalJSONPayload _) as [p|] eqn:E; [|done]. exact (handshake.MarshalJSONPayload_bound _ _ E).
Qed.

(** On a connection without write errors the writes decode to frames. *)
Lemma ordinary_valid q t p :
  1 ≤ q ≤ max_uint32 → ordinary (t, p) ∨ (t, p) = (TypeStopRequest, stop_payload) →
  zlen p < 2 ^ 32 ∧ validateFrame (mkFrame t 0 q p) = None.
Proof.
  intros Hq Hx.
  assert (knownType t = true ∧ t ≠ TypeIPPacket ∧ zlen p ≤ MaxControlPayload) as (Hk & Hn & Hp).
  { destruct Hx as [[[[Hx|Hx] Hl]|[Hx Hl]]|[= -> ->]]; cbn in *; subst; split_and!; try done;
      try (rewrite Hl; unfold MaxControlPayload; lia). apply stop_payload_bound. }
  assert (zlen p < 2 ^ 32) as Hp' by (unfold MaxControlPayload in Hp; lia). split; [done|].
  assert (Frame_wf (mkFrame t 0 q p)) as Hwf by (apply knownType_range in Hk; unfold max_uint32 in Hq; split; cbn; lia).
  rewrite validateFrame_header by done. apply validateHeader_None. split_and!; [done|done|cbn; lia|].
  apply validateLength_None. cbn. by rewrite (proj2 (Z.eqb_neq t TypeIPPacket)).
Qed.

Lemma fw_run_writes w ws :
  w_plan (fw_conn w) = [] → 1 ≤ fw_sequence w ≤ max_uint32 →
  Forall (λ x, ordinary x ∨ x = (TypeStopRequest, stop_payload)) ws →
  fw_writes w ws = (None, fw_run w ws) ∧ Forall (λ x, zlen x.2 < 2 ^ 32) ws.
Proof.
  intros Hpl Hq Hf. revert w Hpl Hq. induction Hf as [|[t p] ws Hx _ IH]; intros [[out plan] q] Hpl Hq; [done|].
  cbn in Hpl, Hq. subst plan. destruct (ordinary_valid q t p Hq Hx) as [Hl Hv]. cbn [fw_writes].
  unfold fw_run. cbn [foldl fst snd]. unfold fw_Write. cbn [fw_conn fw_sequence]. rewrite WriteFrame_plain by done.
  cbn [snd]. destruct (IH (mkFrameWriter (mkWriter (out ++ encode (mkFrame t 0 q p)) []) (nextSequence q)))
    as [Hw Hls]; [done|by apply nextSequence_range|]. split; [exact Hw|by constructor].
Qed.

Lemma numbered_length q ws : length (numbered q ws) = length ws.
Proof. revert q. induction ws as [|[t p] ws IH]; intros q; [done|]. cbn. by rewrite IH. Qed.

Lemma numbered_stops q ws : stop_requests (numbered q ws) = stop_writes ws.
Proof.
  revert q. induction ws as [|[t p] ws IH]; intros q; [done|]. cbn. unfold stop_requests, stop_writes in IH.
  by destruct (t =? TypeStopRequest); rewrite IH.
Qed.

(** The timer always ends the wait. *)
Lemma stop_can_end start evs s :
  stop_steps start evs s →
  ∃ more s' b, (length more ≤ 2)%nat ∧ stop_steps start (evs ++ more) s' ∧ sp_phase s' = Finished b.
Proof.
  intros Hs. destruct (sp_phase s) as [| |b] eqn:Eph.
  - exists [Request; TimedOut], (mkStopping (close (request_stop (sp_chan s))) (Finished false)), false.
    split_and!; [done| |done]. change [Request; TimedOut] with ([Request] ++ [TimedOut]). rewrite (assoc_L app).
    eapply stop_snoc; [eapply stop_snoc; [done|]|]; cbn [stop_step sp_phase]; [by rewrite Eph|reflexivity].
  - exists [TimedOut], (mkStopping (close (sp_chan s)) (Finished false)), false.
    split_and!; [cbn; lia| |done]. eapply stop_snoc; [done|]. cbn [stop_step]. by rewrite Eph.
  - exists [], s, b. split_and!; [cbn; lia|by rewrite app_nil_r|done].
Qed.

(** C13: stopping a session.  From the start of serving and in every
    interleaving of the frame loop, the heartbeat and [shutdown]:
    - on a connection that takes what is written, the bytes sent decode to a
      gap-free sequence of frames in which STOP_REQUEST occurs at most once,
      not before [shutdown] has begun, and exactly once, with its payload, when
      [shutdown] began while the connection was open;
    - the wait ends as acknowledged only if the loop read a STOP_ACK with the
      expected sequence number; when it has ended the connection is closed; a
      STOP_ACK that is next on the open connection ends the wait in two steps;
      and whatever the peer does, [shutdown] can always end in at most two
      steps, by its timer. *)
Theorem stop_handshake start evs s rest e :
  sp_phase start = Serving → ch_extra (sp_chan start) = false → tracker_ok (ch_tracker (sp_chan start)) →
  1 ≤ fw_sequence (ch_writer (sp_chan start)) ≤ max_uint32 → w_plan (fw_conn (ch_writer (sp_chan start))) = [] →
  stop_steps start evs s →
  (∃ bytes frames, w_out (fw_conn (ch_writer (sp_chan s))) = w_out (fw_conn (ch_writer (sp_chan start))) ++ bytes ∧
     read_frames (length frames) (mkReader (bytes ++ rest) e) = Ok (frames, mkReader rest e) ∧
     check_sequences (fw_sequence (ch_writer (sp_chan start))) frames = Some (fw_sequence (ch_writer (sp_chan s))) ∧
     (stop_requests frames = [] ∨ stop_requests frames = [stop_payload]) ∧
     (sp_phase s = Serving → stop_requests frames = []) ∧
     (requested start evs → stop_requests frames = [stop_payload])) ∧
  (∀ b, sp_phase s = Finished b → ch_open (sp_chan s) = false) ∧
  (sp_phase s = Finished true → ∃ pre now check post s1,
     evs = pre ++ Loop now check :: post ∧ stop_steps start pre s1 ∧ next_is_ack (sp_chan s1)) ∧
  (∀ now check, sp_phase s = Waiting → ch_open (sp_chan s) = true → next_is_ack (sp_chan s) →
     ∃ s', stop_steps start (evs ++ [Loop now check; Acknowledged]) s' ∧ sp_phase s' = Finished true) ∧
  ∃ more s' b, (length more ≤ 2)%nat ∧ stop_steps start (evs ++ more) s' ∧ sp_phase s' = Finished b.
Proof.
  intros Hp He Ht Hq Hpl Hs. pose proof (stop_steps_inv _ _ _ Hp He Hs) as [I2 I3].
  split_and!; [|by intros b []%I3|intros Hf; apply I2; by destruct (I3 true Hf); auto| |by eapply stop_can_end].
  - destruct (stop_steps_written _ _ _ Hp Ht Hs) as [_ (ws & Hw & Hf & K1 & K2 & K3) _].
    destruct (fw_run_writes _ _ Hpl Hq Hf) as [Hr Hl]. rewrite <-Hw in Hr.
    apply fw_writes_stream in Hr as (Hseq & bytes & Hb & Hread); [|done|done].
    exists bytes, (numbered (fw_sequence (ch_writer (sp_chan start))) ws).
    rewrite numbered_length, numbered_stops. split_and!; [done|apply Hread| |done|done|done]. by rewrite numbered_checked, Hseq.
  - intros now check Hw Ho Ha. set (c' := control_read mode check now (sp_chan s)).
    assert (ch_extra c' = true) as Ha' by (apply control_read_extra; by right).
    assert (stop_steps start (evs ++ [Loop now check]) (mkStopping c' (sp_phase s))) as Hread.
    { apply (stop_snoc _ _ s); [done|]. cbn [stop_step]. by rewrite Ho. }
    exists (mkStopping (close c') (Finished true)). split; [|done].
    change [Loop now check; Acknowledged] with ([Loop now check] ++ [Acknowledged]). rewrite (assoc_L app).
    apply (stop_snoc _ _ _ _ _ Hread). cbn [stop_step sp_phase sp_chan]. by rewrite Hw, Ha'.
Qed.

(** * Stopping a session that is still opening *)

(** A frame leaves in two writes, its header and its payload. *)
Inductive progress := Unsent | HeaderSent | Sent.

(** The next write of [WriteFrame] for a frame of which [p] is sent; [None]:
    nothing is left to do. *)
Definition write_part (conn : Writer) (frame : Frame) (p : progress) : option (progress * Writer) :=
  match p with
  | Unsent =>
      match validateFrame frame with
      | Some _ => Some (Sent, conn)
      | None =>
          match writeAll conn (frame_header frame) with
          | (Some _, conn) => Some (Sent, conn)
          | (None, conn) => Some (HeaderSent, conn)
          end
      end
  | HeaderSent => Some (Sent, (writeAll conn (Payload frame)).2)
  | Sent => None
  end.

(** The parts, uninterrupted, are [WriteFrame]. *)
Lemma write_part_WriteFrame conn frame :
  write_part conn frame Unsent = Some (Sent, (WriteFrame conn frame).2) ∨
  ∃ conn', write_part conn frame Unsent = Some (HeaderSent, conn') ∧
    write_part conn' frame HeaderSent = Some (Sent, (WriteFrame conn frame).2).
Proof.
  unfold WriteFrame, write_part. destruct (validateFrame frame); [by left|].
  destruct (writeAll conn (frame_header frame)) as [[err|] conn']; [by left|]. right. exists conn'. split; [done|].
  by destruct (writeAll conn' (Payload frame)) as [[err|] conn''].
Qed.

(** [handleControlConnection] has published the connection and its frame
    writer, which starts at sequence 2, and writes HELLO_ACK with sequence 1
    straight to the connection; [shutdown] may write STOP_REQUEST through the
    frame writer meanwhile.  The frame writer's lock does not cover the first. *)
Record Opening := mkOpening { op_conn : Writer; op_ack : progress; op_stop : progress }.

(** One write of HELLO_ACK, or of STOP_REQUEST. *)
Inductive opening_event := Ack | Stop.

Definition ack_frame (ack : list byte) : Frame := mkFrame TypeHelloAck 0 1 ack.
Definition stop_frame : Frame := mkFrame TypeStopRequest 0 2 stop_payload.

Definition opening_step (ack : list byte) (s : Opening) (ev : opening_event) : option Opening :=
  match ev with
  | Ack => '(p, conn) ← write_part (op_conn s) (ack_frame ack) (op_ack s); Some (mkOpening conn p (op_stop s))
  | Stop => '(p, conn) ← write_part (op_conn s) stop_frame (op_stop s); Some (mkOpening conn (op_ack s) p)
  end.

Fixpoint opening_run (ack : list byte) (s : Opening) (evs : list opening_event) : option Opening :=
  match evs with [] => Some s | ev :: evs => s' ← opening_step ack s ev; opening_run ack s' evs end.

Definition published : Opening := mkOpening (mkWriter [] []) Unsent Unsent.

(** What an event sends on a connection without write errors. *)
Definition part_bytes (frame : Frame) (p : progress) : list byte :=
  match p with Unsent => frame_header frame | HeaderSent => Payload frame | Sent => [] end.

Definition next_progress (p : progress) : progress :=
  match p with Unsent => HeaderSent | HeaderSent | Sent => Sent end.

Fixpoint sent_by (ack : list byte) (pa ps : progress) (evs : list opening_event) : list byte :=
  match evs with
  | [] => []
  | Ack :: evs => part_bytes (ack_frame ack) pa ++ sent_by ack (next_progress pa) ps evs
  | Stop :: evs => part_bytes stop_frame ps ++ sent_by ack pa (next_progress ps) evs
  end.

Lemma write_part_plain out frame p r :
  validateFrame frame = None → write_part (mkWriter out []) frame p = Some r →
  p ≠ Sent ∧ r = (next_progress p, mkWriter (out ++ part_bytes frame p) []).
Proof.
  intros Hv. destruct p; cbn [write_part next_progress part_bytes]; [rewrite Hv|..|done]; rewrite writeAll_plain; by intros [= <-].
Qed.

(** The schedules that send both frames. *)
Fixpoint schedule (pa ps : progress) (evs : list opening_event) : bool :=
  match evs, pa, ps with
  | [], Sent, Sent => true
  | [], _, _ => false
  | Ack :: evs, pa, ps => match pa with Sent => false | _ => schedule (next_progress pa) ps evs end
  | Stop :: evs, pa, ps => match ps with Sent => false | _ => schedule pa (next_progress ps) evs end
  end.

Lemma opening_run_sent ack out pa ps evs s :
  validateFrame (ack_frame ack) = None → validateFrame stop_frame = None →
  opening_run ack (mkOpening (mkWriter out []) pa ps) evs = Some s → op_ack s = Sent → op_stop s = Sent →
  schedule pa ps evs = true ∧ w_out (op_conn s) = out ++ sent_by ack pa ps evs.
Proof.
  intros Ha Hs. revert out pa ps. induction evs as [|ev evs IH]; intros out pa ps Hr Hpa Hps.
  { injection Hr as <-. cbn in *. subst. by rewrite app_nil_r. }
  cbn [opening_run] in Hr. apply bind_Some in Hr as (s1 & K1 & Hr). unfold opening_step in K1.
  destruct ev; apply bind_Some in K1 as ([p conn] & K1 & [= <-]); cbn [op_conn op_ack op_stop] in *;
    apply write_part_plain in K1 as [Hn [= -> ->]]; [|done| |done]; apply IH in Hr as [Hsch Ho]; [|done|done| |done|done];
    cbn [schedule sent_by]; rewrite Ho, <-app_assoc; (split; [|done]); by destruct pa, ps.
Qed.

Lemma schedules evs :
  schedule Unsent Unsent evs = true →
  evs = [Ack; Ack; Stop; Stop] ∨ evs = [Stop; Stop; Ack; Ack] ∨ (∃ evs', evs = Ack :: Stop :: evs') ∨ ∃ evs', evs = Stop :: Ack :: evs'.
Proof.
  intros Hs. destruct evs as [|[] [|[] evs]]; try done; eauto;
    destruct evs as [|[] [|[] [|[] evs]]]; try done; auto.
Qed.

Lemma control_frame_sound t q p :
  knownType t = true → t ≠ TypeIPPacket → zlen p ≤ MaxControlPayload → 1 ≤ q ≤ 2 →
  Frame_wf (mkFrame t 0 q p) ∧ validateFrame (mkFrame t 0 q p) = None.
Proof.
  intros Ht Hn Hp Hq. assert (zlen p < 2 ^ 32) as Hp' by (unfold MaxControlPayload in Hp; lia).
  assert (Frame_wf (mkFrame t 0 q p)) as Hwf by (apply knownType_range in Ht; split; cbn; lia).
  split; [done|]. rewrite validateFrame_header by done. apply validateHeader_None. split_and!; [done|done|cbn; lia|].
  apply validateLength_None. cbn. by rewrite (proj2 (Z.eqb_neq t TypeIPPacket)).
Qed.

(** Reading a frame takes its header from the front of the stream. *)
Lemma ReadFrame_front f g r data e :
  Frame_wf g → ReadFrame (mkReader (frame_header g ++ data) e) = (Ok f, r) →
  Type' f = Type' g ∧ Sequence f = Sequence g ∧ data = Payload f ++ r_data r.
Proof.
  intros Hg (Hf & _ & Hd)%ReadFrame_encoded. cbn [r_data] in Hd. unfold encode in Hd. rewrite <-app_assoc in Hd.
  apply app_inj_1 in Hd as [Hh ->]; [|by rewrite !length_frame_header].
  destruct (frame_header_fields f Hf) as (_ & _ & <- & _ & _ & <-), (frame_header_fields g Hg) as (_ & _ & <- & _ & _ & <-).
  by rewrite Hh.
Qed.

(** The first frame a peer reads, by the schedule. *)
Lemma first_frame ack evs rest e f r :
  Frame_wf (ack_frame ack) → validateFrame (ack_frame ack) = None → Frame_wf stop_frame → head ack = Some "{"%byte →
  schedule Unsent Unsent evs = true → ReadFrame (mkReader (sent_by ack Unsent Unsent evs ++ rest) e) = (Ok f, r) →
  evs = [Ack; Ack; Stop; Stop] ∧ f = ack_frame ack ∨
  (∃ evs', evs = Stop :: evs') ∧ Type' f = TypeStopRequest ∧ Sequence f = 2 ∨
  (∃ evs', evs = Ack :: Stop :: evs') ∧ Type' f = TypeHelloAck ∧ Payload f ≠ ack.
Proof.
  intros Hw1 Hv1 Hw2 Hb Hsch Hf. apply schedules in Hsch as [-> |[-> |[[evs' ->]|[evs' ->]]]];
    cbn [sent_by part_bytes next_progress] in Hf; rewrite <-?app_assoc in Hf.
  - left. split; [done|]. rewrite (app_assoc (frame_header (ack_frame ack))) in Hf.
    change (_ ++ Payload (ack_frame ack)) with (encode (ack_frame ack)) in Hf. rewrite ReadFrame_encode in Hf by done. congruence.
  - right; left. apply ReadFrame_front in Hf as (? & ? & _); eauto.
  - right; right. apply ReadFrame_front in Hf as (Ht & _ & Hd); [|done]. split_and!; [eauto|done|].
    intros Hp. rewrite Hp in Hd. destruct ack as [|x ack]; [done|]. injection Hb as ->. unfold frame_header in Hd. discriminate Hd.
  - right; left. apply ReadFrame_front in Hf as (? & ? & _); eauto.
Qed.

(** C14: HELLO_ACK against STOP_REQUEST.  A session is stopped while it is
    still opening; each of the two frames leaves in two writes, which the code
    does not order.  The peer's first frame is the HELLO_ACK exactly when both
    its writes came before those of STOP_REQUEST; the peer then reads both
    frames in sequence.  When both of STOP_REQUEST's came first, it reads them
    too, out of sequence.  A first frame that is not the HELLO_ACK is a
    STOP_REQUEST with sequence 2, or has HELLO_ACK's header with another
    payload, the STOP_REQUEST header having been written between the two. *)
Theorem ack_before_stop ack evs s rest e :
  zlen ack ≤ MaxControlPayload → head ack = Some "{"%byte → opening_run ack published evs = Some s →
  op_ack s = Sent → op_stop s = Sent →
  let stream := mkReader (w_out (op_conn s) ++ rest) e in
  (evs = [Ack; Ack; Stop; Stop] ↔ ∃ r, ReadFrame stream = (Ok (ack_frame ack), r)) ∧
  (evs = [Ack; Ack; Stop; Stop] →
     read_frames 2 stream = Ok ([ack_frame ack; stop_frame], mkReader rest e) ∧ check_sequences 1 [ack_frame ack; stop_frame] = Some 3) ∧
  (evs = [Stop; Stop; Ack; Ack] →
     read_frames 2 stream = Ok ([stop_frame; ack_frame ack], mkReader rest e) ∧ check_sequences 1 [stop_frame; ack_frame ack] = None) ∧
  (∀ f r, ReadFrame stream = (Ok f, r) →
     evs = [Ack; Ack; Stop; Stop] ∧ f = ack_frame ack ∨
     (∃ evs', evs = Stop :: evs') ∧ Type' f = TypeStopRequest ∧ Sequence f = 2 ∨
     (∃ evs', evs = Ack :: Stop :: evs') ∧ Type' f = TypeHelloAck ∧ Payload f ≠ ack).
Proof.
  intros Ha Hb Hr Hack Hstop stream.
  destruct (control_frame_sound TypeHelloAck 1 ack) as [Hw1 Hv1]; [done|done|done|lia|].
  destruct (control_frame_sound TypeStopRequest 2 stop_payload) as [Hw2 Hv2]; [done|done|apply stop_payload_bound|lia|].
  destruct (opening_run_sent ack [] Unsent Unsent evs s) as [Hsch Ho]; [done..|]. rewrite app_nil_l in Ho.
  pose proof (λ f r, first_frame ack evs rest e f r Hw1 Hv1 Hw2 Hb Hsch) as Hfirst.
  subst stream. rewrite Ho. clear Ho Hr.
  assert (∀ a b : Frame, Frame_wf a → validateFrame a = None → Frame_wf b → validateFrame b = None →
    read_frames 2 (mkReader ((frame_header a ++ Payload a ++ frame_header b ++ Payload b ++ []) ++ rest) e) = Ok ([a; b], mkReader rest e)) as Hread.
  { intros a b ? ? ? ?. rewrite app_nil_r, (app_assoc _ _ (_ ++ _)).
    change (frame_header a ++ Payload a) with (encode a). change (frame_header b ++ Payload b) with (encode b).
    rewrite <-app_assoc. cbn [read_frames]. by rewrite !ReadFrame_encode by done. }
  split_and!; [split| | |exact Hfirst].
  - intros ->. exists (mkReader (encode stop_frame ++ rest) e). cbn [sent_by part_bytes next_progress].
    rewrite app_nil_r, (app_assoc _ _ (_ ++ _)), <-app_assoc. by apply (ReadFrame_encode (ack_frame ack)).
  - intros [r [[? _]|[(_ & Ht & _)|(_ & _ & Hp)]]%Hfirst]; [done|discriminate Ht|by destruct Hp].
  - intros ->. split; [by apply Hread|done].
  - intros ->. split; [by apply Hread|done].
Qed.
End stop.

(** ** A concrete exchange *)

#[local] Instance sample_status_codec : JSON VPNStatusPayload :=
  {| json_Marshal _ := Ok []; json_Unmarshal _ := Ok (mkVPNStatusPayload [] []) |}.
#[local] Instance sample_error_codec : JSON ErrorPayload :=
  {| json_Marshal _ := Ok []; json_Unmarshal _ := Ok (mkErrorPayload [] [] true) |}.
#[local] Instance sample_stop_codec : JSON StopRequest :=
  {| json_Marshal _ := Ok (str "{}"); json_Unmarshal _ := Ok (mkStopRequest []) |}.

(** The peer answers STOP_ACK as its first frame. *)
Definition sample_session : Stopping :=
  mkStopping (mkChan (mkReader (encode (mkFrame TypeStopAck 0 2 [])) (ESentinel EOF)) 2
    (mkFrameWriter (mkWriter [] []) 2) newTracker (state.NewStarting 5 (str "device-1") 27183) true false) Serving.

Definition sample_waiting : Stopping :=
  default sample_session (stop_step session.vpn sample_session Request).

Lemma stop_handshake_witness :
  (∃ frames, read_frames (length frames) (mkReader (w_out (fw_conn (ch_writer (sp_chan sample_waiting))) ++ []) (ESentinel EOF)) =
               Ok (frames, mkReader [] (ESentinel EOF)) ∧ stop_requests frames = [str "{}"]) ∧
  ∃ s', stop_steps session.vpn sample_session ([Request] ++ [Loop 7 (λ _, None); Acknowledged]) s' ∧ sp_phase s' = Finished true.
Proof.
  assert (stop_steps session.vpn sample_session [Request] sample_waiting) as Hs.
  { apply (stop_snoc _ _ [] sample_session); [constructor|reflexivity]. }
  destruct (stop_handshake session.vpn sample_session [Request] sample_waiting [] (ESentinel EOF))
    as ((bytes & frames & Hb & Hr & _ & _ & _ & Hreq) & _ & _ & K2 & _).
  - reflexivity.
  - reflexivity.
  - left. reflexivity.
  - vm_compute. split; discriminate.
  - reflexivity.
  - exact Hs.
  - split.
    + exists frames. rewrite Hb. split; [exact Hr|]. apply Hreq. exists [], [], sample_session. split_and!; [reflexivity|constructor|reflexivity].
    + apply K2.
      * reflexivity.
      * reflexivity.
      * exists (mkFrame TypeStopAck 0 2 []). eexists. split; [vm_compute; reflexivity|split; reflexivity].
Defined.

(** STOP_REQUEST lands inside HELLO_ACK. *)
Lemma ack_before_stop_witness :
  ∃ s, opening_run (str "{}") published [Ack; Stop; Stop; Ack] = Some s ∧
    ¬ ∃ r, ReadFrame (mkReader (w_out (op_conn s) ++ []) (ESentinel EOF)) = (Ok (ack_frame (str "{}")), r).
Proof.
  destruct (opening_run (str "{}") published [Ack; Stop; Stop; Ack]) as [s|] eqn:E; [|vm_compute in E; discriminate E].
  destruct (ack_before_stop (str "{}") [Ack; Stop; Stop; Ack] s [] (ESentinel EOF)) as ([_ Hr] & _).
  - vm_compute. discriminate.
  - reflexivity.
  - exact E.
  - vm_compute in E. injection E as <-. reflexivity.
  - vm_compute in E. injection E as <-. reflexivity.
  - exists s. split; [reflexivity|]. intros Hx. apply Hr in Hx. discriminate Hx.
Defined.
End stop.
