(* ===== verification/Logging.v ===== *)
(** The size-bounded log writer (src/internal/logging/rotate.go).

    The handle is identified with its path: every operation that moves the
    file closes the handle first.  Faults of the file system come from
    [GoOS].  The same file is also the standard output and error of the daemon
    process (src/cmd/harmony-netbridge/main.go): what the Go runtime writes
    there is not counted by the writer, and not modelled. *)
From S2P Require Import Prelude Errors GoStrings GoOS GoPath.

Module logging.

Definition DefaultMaxBytes : Z := 5 * 1024 * 1024.

Record RotatingWriter := mkWriter {
  path : gostring;
  maxBytes : Z;
  file : bool;     (* the handle is open *)
  size : Z;
}.

Definition previous_path (p : gostring) : gostring := p ++ str ".1".

(** [os.OpenFile] with [O_CREATE|O_APPEND|O_WRONLY]. *)
Definition open_append (os : OS) (p : gostring) (perm : Z) : option error * OS :=
  match os_pop os with
  | (Some f, os) => (Some (flt_err f), os)
  | (None, os) =>
      (None, match os_fs os !! p with
             | Some _ => os
             | None => os_set os (<[p := mkFile Regular perm []]> (os_fs os))
             end)
  end.

Definition file_data (os : OS) (p : gostring) : list byte :=
  match os_fs os !! p with Some f => f_data f | None => [] end.

(** [file.Stat().Size()] *)
Definition file_size (os : OS) (p : gostring) : result error Z * OS :=
  match os_pop os with
  | (Some f, os) => (Err (flt_err f), os)
  | (None, os) => (Ok (zlen (file_data os p)), os)
  end.

(** [file.Close] *)
Definition file_close (os : OS) : option error * OS :=
  let '(f, os) := os_pop os in (flt_err <$> f, os).

(** [file.Write]: appends; a fault may let a part through. *)
Definition file_write (os : OS) (p : gostring) (payload : list byte) : Z * option error * OS :=
  let append os part := os_set os (put_data (os_fs os) p (file_data os p ++ part) perm600) in
  match os_pop os with
  | (None, os) => (zlen payload, None, append os payload)
  | (Some f, os) =>
      let part := take (default 0%nat (flt_part f)) payload in
      (zlen part, Some (flt_err f), append os part)
  end.

Definition open (os : OS) (w : RotatingWriter) : option error * OS * RotatingWriter :=
  match open_append os (path w) perm600 with
  | (Some err, os) => (Some (EWrapf (str "open log file") err), os, w)
  | (None, os) =>
      match os_Chmod os (path w) perm600 with
      | (Some err, os) =>
          let '(_, os) := file_close os in (Some (EWrapf (str "protect log file") err), os, w)
      | (None, os) =>
          match file_size os (path w) with
          | (Err err, os) =>
              let '(_, os) := file_close os in (Some (EWrapf (str "stat log file") err), os, w)
          | (Ok n, os) => (None, os, mkWriter (path w) (maxBytes w) true n)
          end
      end
  end.

Definition reopenAfterRotationError (rotationError : error) (os : OS) (w : RotatingWriter)
    : option error * OS * RotatingWriter :=
  match open os w with
  | (Some _, os, w) => (Some (EWrapf (str "reopen active log") rotationError), os, w)
  | (None, os, w) => (Some rotationError, os, w)
  end.

Definition rotate (os : OS) (w : RotatingWriter) : option error * OS * RotatingWriter :=
  let '(closeError, os) := file_close os in
  let w := mkWriter (path w) (maxBytes w) false (size w) in
  match closeError with
  | Some err => reopenAfterRotationError (EWrapf (str "close log before rotation") err) os w
  | None =>
      let previous := previous_path (path w) in
      let '(err, os) := os_Remove os previous in
      match err with
      | Some err =>
          if negb (errors_Is err ErrNotExist)
          then reopenAfterRotationError (EWrapf (str "remove previous log") err) os w
          else
            let '(err, os) := os_Rename os (path w) previous in
            match err with
            | Some err =>
                if negb (errors_Is err ErrNotExist)
                then reopenAfterRotationError (EWrapf (str "rotate log") err) os w
                else open os w
            | None => open os w
            end
      | None =>
          let '(err, os) := os_Rename os (path w) previous in
          match err with
          | Some err =>
              if negb (errors_Is err ErrNotExist)
              then reopenAfterRotationError (EWrapf (str "rotate log") err) os w
              else open os w
          | None => open os w
          end
      end
  end.

Definition Write (os : OS) (w : RotatingWriter) (payload : list byte)
    : Z * option error * OS * RotatingWriter :=
  if negb (file w) then (0, Some (ESentinel ErrOsClosed), os, w)
  else
    let write os w :=
      let '(written, err, os) := file_write os (path w) payload in
      (written, err, os, mkWriter (path w) (maxBytes w) (file w) (size w + written)) in
    if (0 <? size w) && (maxBytes w <? size w + zlen payload) then
      match rotate os w with
      | (Some err, os, w) => (0, Some err, os, w)
      | (None, os, w) => write os w
      end
    else write os w.

Definition Close (os : OS) (w : RotatingWriter) : option error * OS * RotatingWriter :=
  if negb (file w) then (None, os, w)
  else
    let '(err, os) := file_close os in
    (err, os, mkWriter (path w) (maxBytes w) false (size w)).

(** [OpenRotatingWriter] after its directory exists; [mkdir] is the outcome of
    [os.MkdirAll]. *)
Definition OpenRotatingWriter (mkdir : option error) (os : OS) (p : gostring) (limit : Z)
    : result error RotatingWriter * OS :=
  let limit := if limit <=? 0 then DefaultMaxBytes else limit in
  match mkdir with
  | Some err => (Err (EWrapf (str "create log directory") err), os)
  | None =>
      match open os (mkWriter (filepath.Clean p) limit false 0) with
      | (Some err, os, _) => (Err err, os)
      | (None, os, w) => (Ok w, os)
      end
  end.

(** * Faults *)

(** The environment's faults never pretend that a file is missing. *)
Definition real_faults (os : OS) : Prop :=
  Forall (λ f, ∀ x, f = Some x → errors_Is (flt_err x) ErrNotExist = false) (os_faults os).

Lemma os_pop_real os f os' :
  real_faults os → os_pop os = (f, os') →
  real_faults os' ∧ ∀ x, f = Some x → errors_Is (flt_err x) ErrNotExist = false.
Proof.
  unfold real_faults, os_pop. intros Hr. destruct (os_faults os) as [|g fs] eqn:Ef; intros [= <- <-]; [by rewrite Ef|].
  by apply Forall_cons in Hr as [? ?].
Qed.

(** A call pops one fault and otherwise touches the files only. *)
Ltac popped :=
  match goal with
  | Hr : real_faults ?os |- context [os_pop ?os] =>
      let f := fresh "f" in let os' := fresh "os" in let E := fresh "E" in let Hr' := fresh "Hr" in
      destruct (os_pop os) as [f os'] eqn:E; destruct (os_pop_real _ _ _ Hr E) as [Hr' _];
      destruct f; cbv beta iota; repeat case_match; intros; simplify_eq; exact Hr'
  end.

Lemma file_close_real os e os' : real_faults os → file_close os = (e, os') → real_faults os'.
Proof. intros Hr. unfold file_close. popped. Qed.
Lemma os_Remove_real os p e os' : real_faults os → os_Remove os p = (e, os') → real_faults os'.
Proof. intros Hr. unfold os_Remove. popped. Qed.
Lemma os_Rename_real os p q e os' : real_faults os → os_Rename os p q = (e, os') → real_faults os'.
Proof. intros Hr. unfold os_Rename. popped. Qed.
Lemma os_Chmod_real os p m e os' : real_faults os → os_Chmod os p m = (e, os') → real_faults os'.
Proof. intros Hr. unfold os_Chmod. popped. Qed.
Lemma open_append_real os p m e os' : real_faults os → open_append os p m = (e, os') → real_faults os'.
Proof. intros Hr. unfold open_append. popped. Qed.
Lemma file_size_real os p r os' : real_faults os → file_size os p = (r, os') → real_faults os'.
Proof. intros Hr. unfold file_size. popped. Qed.
Lemma file_write_real os p payload n e os' :
  real_faults os → file_write os p payload = (n, e, os') → real_faults os'.
Proof. intros Hr. unfold file_write. popped. Qed.

Lemma open_real os w e os' w' : real_faults os → open os w = (e, os', w') → real_faults os'.
Proof.
  intros Hr. unfold open. destruct (open_append _ _ _) as [[x|] os1] eqn:E1; apply (open_append_real _ _ _ _ _ Hr) in E1;
    [by intros [= <- <- <-]|].
  destruct (os_Chmod os1 _ _) as [[x|] os2] eqn:E2; apply (os_Chmod_real _ _ _ _ _ E1) in E2.
  { destruct (file_close os2) as [c os3] eqn:E3. intros [= <- <- <-]. by eapply file_close_real. }
  destruct (file_size os2 _) as [[n|x] os3] eqn:E3; apply (file_size_real _ _ _ _ E2) in E3; [by intros [= <- <- <-]|].
  destruct (file_close os3) as [c os4] eqn:E4. intros [= <- <- <-]. by eapply file_close_real.
Qed.

Lemma reopen_real err os w e os' w' :
  real_faults os → reopenAfterRotationError err os w = (e, os', w') → real_faults os'.
Proof.
  intros Hr. unfold reopenAfterRotationError.
  destruct (open os w) as [[[x|] os1] w1] eqn:E; intros [= <- <- <-]; by eapply open_real.
Qed.

(** A missing-file error of [os.Rename] is the truth. *)
Lemma os_Rename_missing os p q e os' :
  real_faults os → os_Rename os p q = (Some e, os') → errors_Is e ErrNotExist = true →
  os_fs os' !! p = None.
Proof.
  intros Hr. unfold os_Rename. destruct (os_pop os) as [f os1] eqn:E.
  destruct (os_pop_real _ _ _ Hr E) as [_ Hf]. destruct f as [f|].
  - intros [= <- <-]. rewrite Hf by done. done.
  - destruct (os_fs os1 !! p) eqn:Ep; [done|]. by intros [= <- <-].
Qed.

(** * The bound *)

(** Both files are within [bound], and an open handle knows the size. *)
Record log_inv (limit bound : Z) (os : OS) (w : RotatingWriter) : Prop := {
  li_real : real_faults os;
  li_limit : maxBytes w = limit;
  li_bound : limit ≤ bound;
  li_active : zlen (file_data os (path w)) ≤ bound;
  li_previous : zlen (file_data os (previous_path (path w))) ≤ bound;
  li_size : file w = true → size w = zlen (file_data os (path w));
}.

Lemma previous_ne p : previous_path p ≠ p.
Proof. unfold previous_path. intros E%(f_equal length). rewrite length_app in E. cbn in E. lia. Qed.

Lemma file_data_same os os' p : os_fs os' !! p = os_fs os !! p → file_data os' p = file_data os p.
Proof. unfold file_data. by intros ->. Qed.

Lemma file_close_fs os e os' : file_close os = (e, os') → os_fs os' = os_fs os.
Proof. unfold file_close. destruct (os_pop os) as [f os1] eqn:E. intros [= <- <-]. by apply os_pop_fs in E. Qed.

Lemma os_Chmod_data os p mode e os' q : os_Chmod os p mode = (e, os') → file_data os' q = file_data os q.
Proof.
  intros E. destruct (decide (q = p)) as [->|Hne]; [|by eapply file_data_same, os_Chmod_ne].
  revert E. unfold os_Chmod, file_data. destruct (os_pop os) as [[f|] os1] eqn:E1;
    apply os_pop_fs in E1; cbv beta iota; [intros [= <- <-]; by rewrite E1|].
  destruct (os_fs os1 !! p) eqn:E2; intros [= <- <-]; cbn; rewrite <-E1, E2; [by rewrite lookup_insert_eq|done].
Qed.

Lemma open_append_data os p perm e os' q : open_append os p perm = (e, os') → file_data os' q = file_data os q.
Proof.
  unfold open_append, file_data. destruct (os_pop os) as [[f|] os1] eqn:E1;
    apply os_pop_fs in E1; intros [= <- <-]; [by rewrite E1|]. rewrite <-E1.
  destruct (os_fs os1 !! p) eqn:E2; [done|]. cbn. destruct (decide (q = p)) as [->|Hne].
  - by rewrite lookup_insert_eq, E2.
  - by rewrite lookup_insert_ne.
Qed.

(** Opening changes no contents, and an opened handle knows the size. *)
Lemma open_spec os w e os' w' :
  open os w = (e, os', w') →
  (∀ q, file_data os' q = file_data os q) ∧ path w' = path w ∧ maxBytes w' = maxBytes w ∧
  (e = None → file w' = true ∧ size w' = zlen (file_data os' (path w))) ∧ (is_Some e → w' = w).
Proof.
  unfold open. destruct (open_append os (path w) perm600) as [[err|] os1] eqn:E1.
  { intros [= <- <- <-]. split_and!; try done. intros q. by eapply open_append_data. }
  destruct (os_Chmod os1 (path w) perm600) as [[err|] os2] eqn:E2.
  { destruct (file_close os2) as [c os3] eqn:E3. intros [= <- <- <-]. split_and!; try done. intros q.
    unfold file_data at 1. rewrite (file_close_fs _ _ _ E3). fold (file_data os2 q).
    rewrite (os_Chmod_data _ _ _ _ _ q E2). by eapply open_append_data. }
  unfold file_size. destruct (os_pop os2) as [[f|] os3] eqn:E3.
  { destruct (file_close os3) as [c os4] eqn:E4. intros [= <- <- <-]. split_and!; try done. intros q.
    apply os_pop_fs in E3. unfold file_data at 1. rewrite (file_close_fs _ _ _ E4), E3. fold (file_data os2 q).
    rewrite (os_Chmod_data _ _ _ _ _ q E2). by eapply open_append_data. }
  intros [= <- <- <-]. apply os_pop_fs in E3. split_and!; try done. intros q.
  unfold file_data at 1. rewrite E3. fold (file_data os2 q).
  rewrite (os_Chmod_data _ _ _ _ _ q E2). by eapply open_append_data.
Qed.

Lemma open_inv limit bound os w e os' w' :
  real_faults os → maxBytes w = limit → limit ≤ bound → zlen (file_data os (path w)) ≤ bound →
  zlen (file_data os (previous_path (path w))) ≤ bound → file w = false →
  open os w = (e, os', w') → log_inv limit bound os' w' ∧ path w' = path w.
Proof.
  intros Hrf Hm Hb Ha Hp Hf E. pose proof (open_real _ _ _ _ _ Hrf E). destruct (open_spec _ _ _ _ _ E) as (Hd & Hpath & Hmax & Hok & Herr).
  split; [|done]. split; rewrite ?Hpath, ?Hd; try done; [congruence|].
  intros Hfile. destruct e as [e|]; [rewrite Herr in Hfile by eauto; congruence|].
  rewrite <-Hd. by apply Hok.
Qed.

Lemma reopen_inv limit bound err os w e os' w' :
  real_faults os → maxBytes w = limit → limit ≤ bound → zlen (file_data os (path w)) ≤ bound →
  zlen (file_data os (previous_path (path w))) ≤ bound → file w = false →
  reopenAfterRotationError err os w = (e, os', w') →
  log_inv limit bound os' w' ∧ path w' = path w ∧ is_Some e.
Proof.
  intros Hrf Hm Hb Ha Hp Hf. unfold reopenAfterRotationError.
  destruct (open os w) as [[[x|] os1] w1] eqn:E; intros [= <- <- <-];
    (eapply open_inv in E as [? ?]; [|done..]); by eauto.
Qed.

(** The two moves of [rotate] keep both files within what they were. *)
Lemma Remove_data os p e os' q : os_Remove os p = (e, os') → zlen (file_data os' q) ≤ zlen (file_data os q).
Proof.
  intros E. destruct (decide (q = p)) as [->|Hne]; [|apply Z.eq_le_incl, f_equal; by eapply file_data_same, os_Remove_ne].
  revert E. unfold os_Remove, file_data. destruct (os_pop os) as [[f|] os1] eqn:E1;
    apply os_pop_fs in E1; cbv beta iota; [intros [= <- <-]; by rewrite E1|].
  destruct (os_fs os1 !! p) eqn:E2; intros [= <- <-]; cbn; rewrite <-E1, E2; [|done].
  rewrite lookup_delete_eq. apply zlen_nonneg.
Qed.

Lemma Rename_data bound os p q e os' :
  p ≠ q → zlen (file_data os p) ≤ bound → zlen (file_data os q) ≤ bound →
  os_Rename os p q = (e, os') →
  zlen (file_data os' p) ≤ bound ∧ zlen (file_data os' q) ≤ bound ∧ (e = None → file_data os' p = []).
Proof.
  intros Hne Hp Hq E. destruct e as [e|].
  - apply os_Rename_err in E. unfold file_data in *. by rewrite E.
  - apply os_Rename_ok in E as (f & Ef & E). unfold file_data in *. rewrite E, Ef in *.
    rewrite lookup_insert_eq, lookup_insert_ne by done. rewrite lookup_delete_eq. cbn.
    split_and!; try done. pose proof (zlen_nonneg (f_data f)). unfold zlen in *. cbn. lia.
Qed.

Lemma rotate_inv limit bound os w e os' w' :
  log_inv limit bound os w → file w = true → rotate os w = (e, os', w') →
  log_inv limit bound os' w' ∧ path w' = path w ∧ (e = None → file w' = true ∧ file_data os' (path w) = []).
Proof.
  intros [Hrf Hm Hb Ha Hp Hs] Hf. unfold rotate. destruct (file_close os) as [ce os1] eqn:Ec.
  pose proof (file_close_real _ _ _ Hrf Ec) as Hr1f. apply file_close_fs in Ec. assert (Hd : ∀ q, file_data os1 q = file_data os q) by (intros; unfold file_data; by rewrite Ec).
  set (w1 := mkWriter (path w) (maxBytes w) false (size w)).
  destruct ce as [ce|].
  { intros E. eapply (reopen_inv limit bound) in E as (? & ? & [? ->]); rewrite ?Hd; done. }
  change (path w1) with (path w). destruct (os_Remove os1 _) as [re os2] eqn:Er.
  pose proof (Remove_data _ _ _ _ (path w) Er) as Hr1. pose proof (Remove_data _ _ _ _ (previous_path (path w)) Er) as Hr2.
  rewrite Hd in Hr1, Hr2. pose proof (os_Remove_real _ _ _ _ Hr1f Er) as Hr2f.
  assert (Hmove : ∀ e os' w', (let '(err, os) := os_Rename os2 (path w) (previous_path (path w)) in
      match err with
      | Some err => if negb (errors_Is err ErrNotExist)
                    then reopenAfterRotationError (EWrapf (str "rotate log") err) os w1 else open os w1
      | None => open os w1
      end) = (e, os', w') →
    log_inv limit bound os' w' ∧ path w' = path w ∧ (e = None → file w' = true ∧ file_data os' (path w) = [])).
  { intros e0 os0 w0. destruct (os_Rename os2 _ _) as [ne os3] eqn:En.
    destruct (Rename_data bound os2 (path w) (previous_path (path w)) ne os3) as (Hn1 & Hn2 & Hn3);
      [exact (not_eq_sym (previous_ne (path w)))|lia|lia|done|].
    pose proof (os_Rename_real _ _ _ _ _ Hr2f En) as Hr3f.
    assert (Hopen : open os3 w1 = (e0, os0, w0) → file_data os3 (path w) = [] →
      log_inv limit bound os0 w0 ∧ path w0 = path w ∧ (e0 = None → file w0 = true ∧ file_data os0 (path w) = [])).
    { intros E Hnil. destruct (open_spec _ _ _ _ _ E) as (Hd0 & _ & _ & Hok & _).
      eapply (open_inv limit bound) in E as (? & ?); [|done..]. split_and!; [done..|].
      intros He. split; [by apply Hok|]. by rewrite Hd0. }
    destruct ne as [ne|]; [case_if as Em|]; intros E.
    - eapply (reopen_inv limit bound) in E as (? & ? & [? ->]); done.
    - apply Hopen; [done|]. apply negb_false_iff in Em.
      unfold file_data. by rewrite (os_Rename_missing _ _ _ _ _ Hr2f En Em).
    - apply Hopen; [done|]. by apply Hn3. }
  destruct re as [re|]; [case_if|]; [|apply Hmove..].
  intros E. destruct (reopen_inv limit bound (EWrapf (str "remove previous log") re) os2 w1 e os' w' Hr2f Hm Hb) as (? & ? & [? ->]);
    [etrans; [exact Hr1|done]|etrans; [exact Hr2|done]|done|exact E|done].
Qed.

Lemma file_write_data os p payload n e os' q :
  file_write os p payload = (n, e, os') →
  (q ≠ p → file_data os' q = file_data os q) ∧
  ∃ part, part `prefix_of` payload ∧ n = zlen part ∧ (e = None → part = payload) ∧
    file_data os' p = file_data os p ++ part.
Proof.
  unfold file_write. destruct (os_pop os) as [[f|] os1] eqn:E; apply os_pop_fs in E; intros [= <- <- <-];
    (split; [intros Hq; unfold file_data; cbn; by rewrite put_data_ne, E by done|]).
  - eexists. split_and!; [apply prefix_take|done|done|].
    unfold file_data at 1. cbn. rewrite put_data_eq. unfold file_data. rewrite E. by destruct (os_fs os !! p).
  - exists payload. split_and!; [done|done|done|].
    unfold file_data at 1. cbn. rewrite put_data_eq. unfold file_data. rewrite E. by destruct (os_fs os !! p).
Qed.

Lemma Write_spec limit bound os w payload n e os' w' :
  log_inv limit bound os w → zlen payload ≤ bound → Write os w payload = (n, e, os', w') →
  log_inv limit bound os' w' ∧ path w' = path w ∧
  (e = None → n = zlen payload ∧
     file_data os' (path w) =
       (if limit <? zlen (file_data os (path w)) + zlen payload then [] else file_data os (path w)) ++ payload).
Proof.
  intros Hi Hl. unfold Write. case_if as Ef; [intros [= <- <- <- <-]; by split_and!|]. apply negb_false_iff in Ef.
  assert (Hw : ∀ os1 w1, log_inv limit bound os1 w1 → file w1 = true → path w1 = path w →
    zlen (file_data os1 (path w)) + zlen payload ≤ bound →
    (let '(written, err, os) := file_write os1 (path w1) payload in
     (written, err, os, mkWriter (path w1) (maxBytes w1) (file w1) (size w1 + written))) = (n, e, os', w') →
    log_inv limit bound os' w' ∧ path w' = path w ∧
    (e = None → n = zlen payload ∧ file_data os' (path w) = file_data os1 (path w) ++ payload)).
  { intros os1 w1 [Hrf Hm Hb Ha Hp Hs] Hf1 Hpath Hfit.
    destruct (file_write os1 (path w1) payload) as [[n1 e1] os2] eqn:E. intros [= <- <- <- <-].
    pose proof (file_write_real _ _ _ _ _ _ Hrf E) as Hr2.
    destruct (file_write_data _ _ _ _ _ _ (previous_path (path w1)) E) as [Hother (part & [rest ->] & -> & He & Hdata)].
    rewrite zlen_app in Hfit. pose proof (zlen_nonneg rest). split_and!; [|done|].
    - split; cbn [maxBytes path file size]; [done|done|done| |by rewrite (Hother (previous_ne _))|].
      + rewrite Hdata, zlen_app, Hpath. lia.
      + intros _. rewrite Hs, Hdata, zlen_app by done. done.
    - intros Hn. rewrite <-(He Hn), <-Hpath, Hdata. done. }
  pose proof Hi as [Hrf Hm Hb Ha Hp Hs].
  pose proof (zlen_nonneg (file_data os (path w))). case_if as E; rewrite Hm, (Hs Ef) in E.
  - apply andb_true_iff in E as [E0 E1]. bool_to_prop. rewrite (proj2 (Z.ltb_lt _ _)) by done.
    destruct (rotate os w) as [[[err|] os1] w1] eqn:Er;
      destruct (rotate_inv _ _ _ _ _ _ _ Hi Ef Er) as (Hi1 & Hpath & Hok); [by intros [= <- <- <- <-]|].
    destruct (Hok eq_refl) as [Hf1 Hnil]. intros HW. apply Hw in HW; [|done..|by rewrite Hnil].
    by rewrite Hnil in HW.
  - intros HW. apply Hw in HW; [|done..|].
    + case_if as E1; [|done]. rewrite andb_true_r in E. bool_to_prop.
      destruct HW as (? & ? & HW). split_and!; [done..|]. intros He. destruct (HW He) as [? ->]. split; [done|].
      assert (file_data os (path w) = []) as ->; [|done]. apply length_zero_iff_nil. unfold zlen in *. lia.
    + apply andb_false_iff in E as [E|E]; bool_to_prop; lia.
Qed.

(** A batch of log lines. *)
Fixpoint write_lines (os : OS) (w : RotatingWriter) (lines : list (list byte)) : OS * RotatingWriter :=
  match lines with
  | [] => (os, w)
  | line :: lines => let '(_, _, os, w) := Write os w line in write_lines os w lines
  end.

Lemma write_lines_inv limit bound os w lines :
  log_inv limit bound os w → Forall (λ l, zlen l ≤ bound) lines →
  log_inv limit bound (write_lines os w lines).1 (write_lines os w lines).2 ∧ path (write_lines os w lines).2 = path w.
Proof.
  intros Hi Hl. revert os w Hi. induction Hl as [|l lines Hl1 _ IH]; intros os w Hi; [done|]. cbn [write_lines].
  destruct (Write os w l) as [[[n1 e1] os1] w1] eqn:E. destruct (Write_spec _ _ _ _ _ _ _ _ _ Hi Hl1 E) as (Hi1 & Hp1 & _).
  destruct (IH os1 w1 Hi1) as [? ?]. split; [done|congruence].
Qed.

(** The limit a writer is opened with. *)
Definition effective_limit (limit : Z) : Z := if limit <=? 0 then DefaultMaxBytes else limit.

(** The largest of the limit, the files found at the start and the lines. *)
Definition log_bound (os : OS) (p : gostring) (limit : Z) (lines : list (list byte)) : Z :=
  foldr Z.max (effective_limit limit)
    (zlen (file_data os p) :: zlen (file_data os (previous_path p)) :: map zlen lines).

Lemma foldr_max_ge x l : x ≤ foldr Z.max x l ∧ Forall (λ y, y ≤ foldr Z.max x l) l.
Proof.
  induction l as [|y l [IH1 IH2]]; cbn [foldr]; [split; [done|constructor]|]. split; [lia|]. constructor; [lia|].
  eapply Forall_impl; [exact IH2|]. cbn. lia.
Qed.

Lemma OpenRotatingWriter_inv mkdir os p limit w os' lines :
  real_faults os → OpenRotatingWriter mkdir os p limit = (Ok w, os') →
  let bound := log_bound os (filepath.Clean p) limit lines in
  log_inv (effective_limit limit) bound os' w ∧ path w = filepath.Clean p ∧ Forall (λ l, zlen l ≤ bound) lines.
Proof.
  intros Hr. unfold OpenRotatingWriter. fold (effective_limit limit). destruct mkdir; [done|].
  destruct (open os _) as [[[err|] os1] w1] eqn:E; [done|]. intros [= <- <-]. cbv zeta. unfold log_bound.
  set (l := _ :: _ :: map zlen lines). destruct (foldr_max_ge (effective_limit limit) l) as [Hlim Hall].
  set (bound := foldr Z.max (effective_limit limit) l) in *. clearbody bound. subst l.
  apply Forall_cons in Hall as [Ha [Hp Hl]%Forall_cons].
  eapply (open_inv (effective_limit limit) bound) in E as [Hi Hpath]; [|done..]. split_and!; [done|done|].
  exact (proj1 (List.Forall_map zlen (λ y, y ≤ bound) lines) Hl).
Qed.

(** C40: the log stays bounded.  A writer is opened on any files and given any
    lines, whatever calls fail (a fault does not claim that an existing file is
    missing).  After every line the active log and the one previous file are
    no larger than the limit, unless a line alone or a file found at the start
    was larger, and then no larger than that.  A line reported as written is
    complete at the end of the active log, after everything that was there
    unless the log had to be rotated because both exceed the limit. *)
Theorem log_bounded mkdir os p limit w os1 lines line n e os2 w2 :
  real_faults os → OpenRotatingWriter mkdir os p limit = (Ok w, os1) →
  Write (write_lines os1 w lines).1 (write_lines os1 w lines).2 line = (n, e, os2, w2) →
  let active := filepath.Clean p in
  let before := file_data (write_lines os1 w lines).1 active in
  let bound := log_bound os active limit (line :: lines) in
  zlen (file_data os2 active) ≤ bound ∧ zlen (file_data os2 (previous_path active)) ≤ bound ∧
  (e = None → n = zlen line ∧
     file_data os2 active = (if effective_limit limit <? zlen before + zlen line then [] else before) ++ line).
Proof.
  intros Hr Ho E. cbv zeta.
  destruct (OpenRotatingWriter_inv _ _ _ _ _ _ (line :: lines) Hr Ho) as (Hi & Hpath & [Hline Hl]%Forall_cons).
  destruct (write_lines_inv _ _ _ _ lines Hi Hl) as [Hi2 Hp].
  destruct (Write_spec _ _ _ _ _ _ _ _ _ Hi2 Hline E) as ([_ _ _ Ha Hpr _] & Hp2 & Hok).
  rewrite Hp2, Hp, Hpath in *. by split_and!.
Qed.

(** ** A concrete log *)

(** An active log of eight bytes; the disk is full for one write. *)
Definition sample_disk : OS :=
  mkOS {[str "/log" := mkFile Regular perm600 (str "12345678")]}
    [None; None; None; None; Some (mkFault (ENew (str "disk full")) (Some 2%nat)); None].

Definition sample_opened : result error RotatingWriter * OS := OpenRotatingWriter None sample_disk (str "/log") 10.

Definition sample_writer : RotatingWriter := mkWriter (str "/log") 10 true 8.

Lemma log_bounded_witness :
  let r := Write (write_lines sample_opened.2 sample_writer [str "a"; str "xyz"]).1
             (write_lines sample_opened.2 sample_writer [str "a"; str "xyz"]).2 (str "0123456") in
  zlen (file_data r.1.2 (str "/log")) ≤ 10 ∧ zlen (file_data r.1.2 (previous_path (str "/log"))) ≤ 10.
Proof.
  cbv zeta.
  destruct (Write (write_lines sample_opened.2 sample_writer [str "a"; str "xyz"]).1
             (write_lines sample_opened.2 sample_writer [str "a"; str "xyz"]).2 (str "0123456"))
    as [[[n e] os2] w2] eqn:E.
  destruct (log_bounded None sample_disk (str "/log") 10 sample_writer sample_opened.2
    [str "a"; str "xyz"] (str "0123456") n e os2 w2) as (H1 & H2 & _).
  - repeat constructor; intros x Hx; try discriminate Hx. injection Hx as <-. reflexivity.
  - vm_compute. reflexivity.
  - exact E.
  - split; [exact H1|exact H2].
Defined.
End logging.
