(* ===== verification/RuntimePath.v ===== *)
(** Per-user runtime and log paths (src/internal/runtimepath/paths.go). *)
From S2P Require Import Prelude Errors GoStrings GoOS GoPath.

Module runtimepath.

Definition maxUnixSocketPath : Z := 100.

Record Paths := mkPaths {
  RuntimeDir : gostring;
  ControlSocket : gostring;
  StateFile : gostring;
  CaptureDir : gostring;
  ProxyConfDir : gostring;
  LogDir : gostring;
  LogFile : gostring;
  ProxyLogFile : gostring;
}.

Definition FromRoots (runtimeDir logDir : gostring) : result error Paths :=
  let cacheRoot := filepath.Dir (filepath.Clean runtimeDir) in
  let paths := mkPaths
    (filepath.Clean runtimeDir)
    (filepath.Join [runtimeDir; str "control.sock"])
    (filepath.Join [runtimeDir; str "state.json"])
    (filepath.Join [cacheRoot; str "captures"])
    (filepath.Join [cacheRoot; str "mitmproxy"])
    (filepath.Clean logDir)
    (filepath.Join [logDir; str "harmony-netbridge.log"])
    (filepath.Join [logDir; str "mitmweb.log"]) in
  if maxUnixSocketPath <? zlen (ControlSocket paths) then
    Err (ENew (str "control socket path is too long for macOS: " ++ ControlSocket paths))
  else Ok paths.

(** [Default]: the two user directories come from the environment. *)
Definition Default (cacheDir homeDir : result error gostring) : result error Paths :=
  match cacheDir with
  | Err err => Err (EWrapf (str "resolve user cache directory") err)
  | Ok cacheDir =>
      match homeDir with
      | Err err => Err (EWrapf (str "resolve user home directory") err)
      | Ok homeDir =>
          FromRoots (filepath.Join [cacheDir; str "HarmonyNetBridge"; str "runtime"])
            (filepath.Join [homeDir; str "Library"; str "Logs"; str "HarmonyNetBridge"])
      end
  end.

(** The directories on the way to a path, the path itself last. *)
Definition ancestors (path : gostring) : list gostring :=
  filter (λ p, p ≠ []) (map (λ i, take i path)
    (filter (λ i, i = length path ∨ path !! i = Some filepath.slash) (seq 1 (length path)))).

(** [os.MkdirAll] *)
Fixpoint mkdir_each (fs : gmap gostring File) (perm : Z) (paths : list gostring)
    : option error * gmap gostring File :=
  match paths with
  | [] => (None, fs)
  | p :: paths =>
      match fs !! p with
      | None => mkdir_each (<[p := mkFile Directory perm []]> fs) perm paths
      | Some f =>
          match f_kind f with
          | Directory => mkdir_each fs perm paths
          | _ => (Some (ENew (str "not a directory")), fs)
          end
      end
  end.

Definition os_MkdirAll (os : OS) (path : gostring) (perm : Z) : option error * OS :=
  match os_pop os with
  | (Some f, os) => (Some (flt_err f), os)
  | (None, os) => let '(err, fs) := mkdir_each (os_fs os) perm (ancestors path) in (err, os_set os fs)
  end.

(** One directory of [Ensure]: created, then protected. *)
Definition ensure_directory (what : gostring) (os : OS) (directory : gostring) : option error * OS :=
  match os_MkdirAll os directory perm700 with
  | (Some err, os) => (Some (EWrapf (str "create " ++ what) err), os)
  | (None, os) =>
      match os_Chmod os directory perm700 with
      | (Some err, os) => (Some (EWrapf (str "protect " ++ what) err), os)
      | (None, os) => (None, os)
      end
  end.

Fixpoint ensure_all (os : OS) (directories : list (gostring * gostring)) : option error * OS :=
  match directories with
  | [] => (None, os)
  | (what, directory) :: directories =>
      match ensure_directory what os directory with
      | (Some err, os) => (Some err, os)
      | (None, os) => ensure_all os directories
      end
  end.

Definition owned_directories (p : Paths) : list (gostring * gostring) :=
  [(str "runtime directory", RuntimeDir p); (str "private cache directory", CaptureDir p);
   (str "private cache directory", ProxyConfDir p); (str "log directory", LogDir p)].

Definition Ensure (os : OS) (p : Paths) : option error * OS := ensure_all os (owned_directories p).

(** * Privacy *)

Definition private_dir (os : OS) (p : gostring) : Prop :=
  ∃ f, os_fs os !! p = Some f ∧ f_kind f = Directory ∧ f_mode f = perm700.

Lemma mkdir_each_keeps fs perm paths e fs' p f :
  mkdir_each fs perm paths = (e, fs') → fs !! p = Some f → fs' !! p = Some f.
Proof.
  revert fs. induction paths as [|q paths IH]; intros fs; cbn [mkdir_each]; [by intros [= _ <-]|].
  destruct (fs !! q) as [g|] eqn:Eq.
  - destruct (f_kind g); [by intros [= _ <-]|apply IH|by intros [= _ <-]].
  - intros E Hf. eapply IH; [exact E|]. rewrite lookup_insert_ne by congruence. done.
Qed.

Lemma mkdir_each_dir fs perm paths fs' p :
  mkdir_each fs perm paths = (None, fs') → p ∈ paths → ∃ f, fs' !! p = Some f ∧ f_kind f = Directory.
Proof.
  revert fs. induction paths as [|q paths IH]; intros fs; cbn [mkdir_each]; [set_solver|].
  intros E [->|Hin]%elem_of_cons.
  - destruct (fs !! q) as [g|] eqn:Eq.
    + destruct (f_kind g) eqn:Ek; [done| |done]. exists g. split; [|done]. by eapply mkdir_each_keeps.
    + eexists. split; [eapply mkdir_each_keeps; [exact E|apply lookup_insert_eq]|done].
  - destruct (fs !! q) as [g|]; [destruct (f_kind g); [done| |done]|]; by eapply IH.
Qed.

Lemma ancestors_self path : path ≠ [] → path ∈ ancestors path.
Proof.
  intros Hne. unfold ancestors. apply list_elem_of_filter. split; [done|].
  apply list_elem_of_In, in_map_iff. exists (length path). split; [by apply firstn_all|].
  apply list_elem_of_In, list_elem_of_filter. split; [by left|].
  apply list_elem_of_In, in_seq. destruct path; [done|]. cbn. lia.
Qed.

Lemma ensure_directory_ok what os d os' :
  d ≠ [] → ensure_directory what os d = (None, os') →
  private_dir os' d ∧ ∀ p, private_dir os p → private_dir os' p.
Proof.
  intros Hd. unfold ensure_directory, os_MkdirAll. destruct (os_pop os) as [[f|] os1] eqn:Ep;
    apply os_pop_fs in Ep; [done|]. cbv beta iota.
  destruct (mkdir_each (os_fs os1) perm700 (ancestors d)) as [[e|] fs] eqn:Em; [done|].
  destruct (os_Chmod _ d perm700) as [[e|] os2] eqn:Ec; [done|]. intros [= <-].
  pose proof Em as Hdir. apply mkdir_each_dir with (p := d) in Hdir as (g & Hg & Hk); [|by apply ancestors_self].
  apply os_Chmod_ok in Ec as (g' & Hg' & Efs). cbn in Hg', Efs. rewrite Hg in Hg'. injection Hg' as <-.
  assert (private_dir os2 d) as Hpd.
  { exists (mkFile (f_kind g) perm700 (f_data g)). by rewrite Efs, lookup_insert_eq. }
  split; [done|]. intros p (h & Hh & Hhk & Hhm). destruct (decide (p = d)) as [->|Hne]; [done|].
  exists h. rewrite Efs, lookup_insert_ne by done. split_and!; [|done..].
  eapply mkdir_each_keeps; [exact Em|]. by rewrite Ep.
Qed.

Lemma FromRoots_nonempty runtimeDir logDir p :
  FromRoots runtimeDir logDir = Ok p → Forall (λ d, d.2 ≠ []) (owned_directories p).
Proof.
  unfold FromRoots. cbv zeta. case_if; [done|]. intros [= <-]. unfold owned_directories. cbn [RuntimeDir CaptureDir ProxyConfDir LogDir].
  repeat (apply Forall_cons; split; cbn [snd]); [apply filepath.Clean_nonempty| | |apply filepath.Clean_nonempty|constructor];
    (eapply filepath.path_Join_nonempty; [apply list_elem_of_further, list_elem_of_here|done]).
Qed.

(** The daemon's directories are private.  When [Ensure] returns nil, the
    runtime, capture, proxy configuration and log directories all exist, are
    directories and have mode 0700, whatever existed before; and the control
    socket path accepted by [FromRoots] fits a Unix socket address. *)
Theorem Ensure_private runtimeDir logDir p os os' :
  FromRoots runtimeDir logDir = Ok p → Ensure os p = (None, os') →
  zlen (ControlSocket p) ≤ maxUnixSocketPath ∧
  private_dir os' (RuntimeDir p) ∧ private_dir os' (CaptureDir p) ∧
  private_dir os' (ProxyConfDir p) ∧ private_dir os' (LogDir p).
Proof.
  intros Hr HE. pose proof (FromRoots_nonempty _ _ _ Hr) as Hne.
  assert (Hall : ∀ ds os, Forall (λ d, d.2 ≠ []) ds → ensure_all os ds = (None, os') →
    Forall (λ d, private_dir os' d.2) ds ∧ ∀ p, private_dir os p → private_dir os' p).
  { clear. induction ds as [|[what d] ds IH]; intros os Hne; cbn [ensure_all]; [intros [= <-]; split; [constructor|done]|].
    apply Forall_cons in Hne as [Hd Hne]. destruct (ensure_directory what os d) as [[e|] os1] eqn:E; [done|].
    intros HE. apply ensure_directory_ok in E as [H1 H2]; [|done]. destruct (IH _ Hne HE) as [H3 H4].
    split; [constructor; [by apply H4|done]|auto]. }
  destruct (Hall _ _ Hne HE) as [Hf _]. repeat (apply Forall_cons in Hf as [? Hf]).
  split_and!; try done. revert Hr. unfold FromRoots. cbv zeta. case_if as E; [done|]. intros [= <-]. by bool_to_prop.
Qed.

Definition sample_paths : Paths :=
  match FromRoots (str "/Users/u/Library/Caches/HarmonyNetBridge/runtime") (str "/Users/u/Library/Logs/HarmonyNetBridge") with
  | Ok p => p
  | Err _ => mkPaths [] [] [] [] [] [] [] []
  end.

(** The log directory exists already, with a wider mode. *)
Definition sample_os : OS :=
  mkOS (list_to_map (map (λ d, (str d, mkFile Directory 493 []))
    ["/Users"; "/Users/u"; "/Users/u/Library"; "/Users/u/Library/Logs"; "/Users/u/Library/Logs/HarmonyNetBridge"]%string)) [].

Lemma Ensure_private_witness :
  (Ensure sample_os sample_paths).1 = None ∧
  zlen (ControlSocket sample_paths) ≤ maxUnixSocketPath ∧
  private_dir (Ensure sample_os sample_paths).2 (RuntimeDir sample_paths) ∧
  private_dir (Ensure sample_os sample_paths).2 (CaptureDir sample_paths) ∧
  private_dir (Ensure sample_os sample_paths).2 (ProxyConfDir sample_paths) ∧
  private_dir (Ensure sample_os sample_paths).2 (LogDir sample_paths).
Proof.
  assert ((Ensure sample_os sample_paths).1 = None) as E by (vm_compute; reflexivity). split; [exact E|].
  apply (Ensure_private (str "/Users/u/Library/Caches/HarmonyNetBridge/runtime")
           (str "/Users/u/Library/Logs/HarmonyNetBridge") sample_paths sample_os).
  - vm_compute. reflexivity.
  - destruct (Ensure sample_os sample_paths) as [e os'] eqn:Eq. cbn [fst snd] in *. by rewrite E.
Defined.
End runtimepath.
