(* ===== verification/ProxyFiles.v ===== *)
(** The files of the managed capture proxy (src/internal/proxy/session.go):
    [ensurePrivateDirectory], [protectOutputs] and the part of [Start] that
    creates the capture file and the log, on the file system of [GoOS].

    Captures hold decrypted traffic and the configuration directory holds the
    CA's private key, so what matters is the permission bits. *)
From S2P Require Import Prelude Errors GoStrings GoOS GoPath RuntimePath.
Import runtimepath.

Module proxyfiles.

(** * System calls *)

(** [os.OpenFile] with [O_CREATE|O_EXCL|O_WRONLY]. *)
Definition open_exclusive (os : OS) (path : gostring) (perm : Z) : option error * OS :=
  match os_pop os with
  | (Some f, os) => (Some (flt_err f), os)
  | (None, os) =>
      match os_fs os !! path with
      | Some _ => (Some (ESentinel ErrExist), os)
      | None => (None, os_set os (<[path := mkFile Regular perm []]> (os_fs os)))
      end
  end.

(** [os.OpenFile] with [O_CREATE|O_TRUNC|O_WRONLY]; a directory cannot be
    opened for writing. *)
Definition open_truncate (os : OS) (path : gostring) (perm : Z) : option error * OS :=
  match os_pop os with
  | (Some f, os) => (Some (flt_err f), os)
  | (None, os) =>
      if bool_decide (f_kind <$> os_fs os !! path = Some Directory) then (Some (ENew (str "is a directory")), os)
      else (None, os_set os (put_data (os_fs os) path [] perm))
  end.

(** A [Close] or another call that only succeeds or fails. *)
Definition os_call (os : OS) : option error * OS := let '(f, os) := os_pop os in (flt_err <$> f, os).

(** [os.ReadDir]: the names directly below a directory.  The order of the
    names only decides which of several failures is reported. *)
Definition dir_entry (dir : gostring) (x : gostring * File) : option (gostring * File) :=
  if HasPrefix x.1 (dir ++ [filepath.slash]) then
    let name := drop (length dir + 1) x.1 in
    if bool_decide (name ∈ [[]; str "."; str ".."]) || bool_decide (filepath.slash ∈ name) then None
    else Some (name, x.2)
  else None.

Definition os_ReadDir (os : OS) (dir : gostring) : result error (list (gostring * File)) * OS :=
  match os_pop os with
  | (Some f, os) => (Err (flt_err f), os)
  | (None, os) => (Ok (omap (dir_entry dir) (map_to_list (os_fs os))), os)
  end.

(** [os.Stat]: whether it fails. *)
Definition os_Stat (os : OS) (path : gostring) : option error * OS :=
  match os_pop os with
  | (Some f, os) => (Some (flt_err f), os)
  | (None, os) => (match os_fs os !! path with Some _ => None | None => Some (ESentinel ErrNotExist) end, os)
  end.

(** * The program's operations *)

Definition ensurePrivateDirectory (os : OS) (path : gostring) : option error * OS :=
  match os_MkdirAll os path perm700 with
  | (Some err, os) => (Some (EWrapf (str "create private proxy directory") err), os)
  | (None, os) =>
      match os_Chmod os path perm700 with
      | (Some err, os) => (Some (EWrapf (str "protect private proxy directory") err), os)
      | (None, os) => (None, os)
      end
  end.

Fixpoint ensure_directories (os : OS) (directories : list gostring) : option error * OS :=
  match directories with
  | [] => (None, os)
  | directory :: directories =>
      match ensurePrivateDirectory os directory with
      | (Some err, os) => (Some err, os)
      | (None, os) => ensure_directories os directories
      end
  end.

Definition protect_output (os : OS) (path : gostring) : option error * OS :=
  match os_Chmod os path perm600 with
  | (Some err, os) =>
      if negb (errors_Is err ErrNotExist) then (Some (EWrapf (str "protect proxy output") err), os) else (None, os)
  | (None, os) => (None, os)
  end.

Fixpoint protect_entries (os : OS) (confDir : gostring) (entries : list (gostring * File)) : option error * OS :=
  match entries with
  | [] => (None, os)
  | (name, file) :: entries =>
      if bool_decide (f_kind file = Regular) then
        match os_Chmod os (filepath.Join [confDir; name]) perm600 with
        | (Some err, os) => (Some (EWrapf (str "protect proxy certificate material") err), os)
        | (None, os) => protect_entries os confDir entries
        end
      else protect_entries os confDir entries
  end.

Definition protectOutputs (os : OS) (captureFile logFile confDir caCertificate : gostring) : option error * OS :=
  match protect_output os captureFile with
  | (Some err, os) => (Some err, os)
  | (None, os) =>
  match protect_output os logFile with
  | (Some err, os) => (Some err, os)
  | (None, os) =>
  match ensurePrivateDirectory os confDir with
  | (Some err, os) => (Some err, os)
  | (None, os) =>
  match os_ReadDir os confDir with
  | (Err err, os) => (Some (EWrapf (str "inspect proxy certificate directory") err), os)
  | (Ok entries, os) =>
  match protect_entries os confDir entries with
  | (Some err, os) => (Some err, os)
  | (None, os) =>
  match os_Stat os caCertificate with
  | (Some _, os) => (Some (ENew (str "mitmweb did not create its public CA certificate")), os)
  | (None, os) => (None, os)
  end end end end end end.

(** [Start] before the child runs: directories, capture file, log. *)
Definition prepareOutputs (os : OS) (captureFile confDir logFile : gostring) : option error * OS :=
  match ensure_directories os [filepath.Dir captureFile; confDir; filepath.Dir logFile] with
  | (Some err, os) => (Some err, os)
  | (None, os) =>
  match open_exclusive os captureFile perm600 with
  | (Some err, os) => (Some (EWrapf (str "create private capture file") err), os)
  | (None, os) =>
  match os_call os with
  | (Some err, os) => (Some (EWrapf (str "close private capture file") err), os)
  | (None, os) =>
  match open_truncate os logFile perm600 with
  | (Some err, os) => (Some (EWrapf (str "open mitmweb log") err), os)
  | (None, os) =>
  match os_Chmod os logFile perm600 with
  | (Some err, os) => let '(_, os) := os_call os in (Some (EWrapf (str "protect mitmweb log") err), os)
  | (None, os) => (None, os)
  end end end end end.

(** * Permissions *)

(** If there is a regular file at [p], only the owner can read it. *)
Definition owner_only (os : OS) (p : gostring) : Prop :=
  ∀ f, os_fs os !! p = Some f → f_kind f = Regular → f_mode f = perm600.

(** Injected faults do not claim that a file is missing. *)
Definition honest (os : OS) : Prop :=
  Forall (λ x, ∀ f, x = Some f → errors_Is (flt_err f) ErrNotExist = false) (os_faults os).

Lemma os_pop_honest os f os' :
  os_pop os = (f, os') → honest os →
  honest os' ∧ ∀ g, f = Some g → errors_Is (flt_err g) ErrNotExist = false.
Proof.
  unfold os_pop, honest. destruct (os_faults os) as [|x fs] eqn:E; intros [= <- <-]; [by rewrite E|].
  by intros [? ?]%Forall_cons.
Qed.

(** What a change of mode does to the file system. *)
Lemma os_Chmod_cases os p mode e os' :
  os_Chmod os p mode = (e, os') →
  (os_fs os' = os_fs os ∧ is_Some e) ∨
  (e = None ∧ ∃ f, os_fs os !! p = Some f ∧ os_fs os' = <[p := mkFile (f_kind f) mode (f_data f)]> (os_fs os)).
Proof.
  destruct e as [e|]; [|intros Hc; right; split; [done|by apply os_Chmod_ok]]. unfold os_Chmod.
  destruct (os_pop os) as [[f|] os1] eqn:E; apply os_pop_fs in E; [intros [= <- <-]; left; by eauto|].
  destruct (os_fs os1 !! p); intros [= <- <-]; left; by eauto.
Qed.

Lemma chmod_kinds os p mode e os' q f :
  os_Chmod os p mode = (e, os') → os_fs os' !! q = Some f →
  ∃ g, os_fs os !! q = Some g ∧ f_kind g = f_kind f.
Proof.
  intros [[E _]|(_ & g & Hg & E)]%os_Chmod_cases; rewrite E; [by eauto|]. destruct (decide (q = p)) as [->|Hne].
  - rewrite lookup_insert_eq. intros [= <-]. by eauto.
  - rewrite lookup_insert_ne by done. by eauto.
Qed.

Lemma chmod600_keeps os p e os' q :
  os_Chmod os p perm600 = (e, os') → owner_only os q → owner_only os' q.
Proof.
  intros [[E _]|(_ & g & Hg & E)]%os_Chmod_cases Hq f; rewrite E; [by apply Hq|].
  destruct (decide (q = p)) as [->|Hne].
  - rewrite lookup_insert_eq. by intros [= <-].
  - rewrite lookup_insert_ne by done. apply Hq.
Qed.

Lemma chmod600_sets os p os' : os_Chmod os p perm600 = (None, os') → owner_only os' p.
Proof.
  intros [[_ [? ?]]|(_ & g & Hg & E)]%os_Chmod_cases; [done|]. intros f. rewrite E, lookup_insert_eq. by intros [= <-].
Qed.

Lemma os_Chmod_honest os p mode e os' : os_Chmod os p mode = (e, os') → honest os → honest os'.
Proof.
  unfold os_Chmod. destruct (os_pop os) as [[f|] os1] eqn:E; intros Hc Hh;
    destruct (os_pop_honest _ _ _ E Hh) as [Hh1 _]; repeat case_match; by simplify_eq.
Qed.

Lemma protect_output_ok os p os' :
  honest os → protect_output os p = (None, os') →
  honest os' ∧ owner_only os' p ∧ ∀ q, owner_only os q → owner_only os' q.
Proof.
  intros Hh. unfold protect_output. destruct (os_Chmod os p perm600) as [e os1] eqn:E.
  pose proof (os_Chmod_honest _ _ _ _ _ E Hh) as Hh1.
  assert (∀ q, owner_only os q → owner_only os1 q) as Hk by (intros q; by eapply chmod600_keeps).
  destruct e as [err|]; [|intros [= <-]; eauto using chmod600_sets].
  case_if as Ei; [done|]. intros [= <-]. split_and!; [done| |done]. bool_to_prop.
  revert E. unfold os_Chmod. destruct (os_pop os) as [[f|] os2] eqn:Ep.
  - intros [= <- <-]. destruct (os_pop_honest _ _ _ Ep Hh) as [_ Hf]. rewrite (Hf f) in Ei; done.
  - destruct (os_fs os2 !! p) eqn:Ef; [done|]. intros [= <- <-] f. by rewrite Ef.
Qed.

(** ** Directories *)

Lemma mkdir_each_new fs perm paths e fs' p f :
  mkdir_each fs perm paths = (e, fs') → fs' !! p = Some f → fs !! p = Some f ∨ f_kind f = Directory.
Proof.
  revert fs. induction paths as [|q paths IH]; intros fs; cbn [mkdir_each]; [intros [= _ <-]; by left|].
  destruct (fs !! q) as [g|] eqn:Eq.
  - destruct (f_kind g); [intros [= _ <-]; by left|apply IH|intros [= _ <-]; by left].
  - intros E [Hf|?]%(IH _ E); [|by right]. destruct (decide (p = q)) as [->|Hne].
    + rewrite lookup_insert_eq in Hf. injection Hf as <-. by right.
    + rewrite lookup_insert_ne in Hf by done. by left.
Qed.

Lemma ensurePrivateDirectory_ok os d os' :
  d ≠ [] → ensurePrivateDirectory os d = (None, os') →
  private_dir os' d ∧ (∀ q, owner_only os q → owner_only os' q) ∧ (∀ q, private_dir os q → private_dir os' q).
Proof.
  intros Hd HE. assert (ensure_directory (str "private proxy directory") os d = (None, os')) as HE'.
  { revert HE. unfold ensurePrivateDirectory, ensure_directory.
    destruct (os_MkdirAll os d perm700) as [[?|] os1]; [done|]. by destruct (os_Chmod os1 d perm700) as [[?|] os2]. }
  destruct (ensure_directory_ok _ _ _ _ Hd HE') as [Hp Hk]. split_and!; [done| |done].
  intros q Hq f Hf Hr. destruct (decide (q = d)) as [->|Hne].
  { destruct Hp as (g & Hg & Hgk & _). rewrite Hf in Hg. injection Hg as <-. congruence. }
  revert HE. unfold ensurePrivateDirectory, os_MkdirAll. destruct (os_pop os) as [[?|] os1] eqn:Ep;
    apply os_pop_fs in Ep; [done|]. destruct (mkdir_each _ _ _) as [[?|] fs] eqn:Em; [done|].
  destruct (os_Chmod _ d perm700) as [[?|] os2] eqn:Ec; [done|]. intros [= <-].
  rewrite (os_Chmod_ne _ _ _ _ _ _ Ec Hne) in Hf. cbn in Hf.
  destruct (mkdir_each_new _ _ _ _ _ _ _ Em Hf) as [Hf'|?]; [|congruence].
  rewrite Ep in Hf'. by apply Hq.
Qed.

(** ** The configuration directory *)

Lemma ReadDir_entry os dir entries os' name f :
  os_ReadDir os dir = (Ok entries, os') → filepath.entry_name name →
  os_fs os !! (dir ++ filepath.slash :: name) = Some f → (name, f) ∈ entries.
Proof.
  unfold os_ReadDir. destruct (os_pop os) as [[?|] os1] eqn:Ep; apply os_pop_fs in Ep; [done|].
  intros [= <- _] (Hne & Hd & Hdd & Hs) Hf. apply list_elem_of_omap. rewrite <-Ep in Hf.
  exists (dir ++ filepath.slash :: name, f). split; [by apply elem_of_map_to_list|].
  unfold dir_entry. cbn [fst snd]. unfold HasPrefix.
  rewrite bool_decide_eq_true_2 by (exists name; by rewrite <-app_assoc).
  replace (drop (length dir + 1) (dir ++ filepath.slash :: name)) with name
    by (by rewrite <-drop_drop, drop_app_length).
  rewrite !bool_decide_eq_false_2 by set_solver. done.
Qed.

Lemma ReadDir_names os dir entries os' name f :
  os_ReadDir os dir = (Ok entries, os') → (name, f) ∈ entries → filepath.entry_name name.
Proof.
  unfold os_ReadDir. destruct (os_pop os) as [[?|] os1]; [done|]. intros [= <- _].
  intros ([p g] & _ & Hd)%list_elem_of_omap. revert Hd. unfold dir_entry. cbn [fst snd].
  case_if; [|done]. case_if as E; [done|]. intros [= <- <-]. bool_to_prop. unfold filepath.entry_name. set_solver.
Qed.

Lemma protect_entries_ok confDir entries os os' :
  filepath.IsAbs confDir = true → filepath.Clean confDir = confDir → confDir ≠ str "/" →
  Forall (λ x, filepath.entry_name x.1) entries →
  protect_entries os confDir entries = (None, os') →
  (∀ q, owner_only os q → owner_only os' q) ∧ os_fs os' !! confDir = os_fs os !! confDir ∧
  (∀ q f, os_fs os' !! q = Some f → ∃ g, os_fs os !! q = Some g ∧ f_kind g = f_kind f) ∧
  (∀ name f, (name, f) ∈ entries → f_kind f = Regular → owner_only os' (confDir ++ filepath.slash :: name)).
Proof.
  intros Ha Hc Hr. revert os. induction entries as [|[name file] entries IH]; intros os Hn; cbn [protect_entries].
  - intros [= <-]. split_and!; [done|done|by eauto|]. intros name f Hin. by apply not_elem_of_nil in Hin.
  - apply Forall_cons in Hn as [Hname Hn]. cbn in Hname. case_bool_decide as Hk.
    + rewrite (filepath.Join_entry _ _ Ha Hc Hr Hname).
      destruct (os_Chmod os _ perm600) as [[?|] os1] eqn:E; [done|]. intros (I1 & I2 & I3 & I4)%IH; [|done].
      split_and!.
      * intros q Hq. apply I1. by eapply chmod600_keeps.
      * rewrite I2. eapply os_Chmod_ne; [exact E|]. intros Heq. apply (f_equal length) in Heq.
        rewrite length_app in Heq. cbn in Heq. lia.
      * intros q f (g & Hg & <-)%I3. eapply chmod_kinds; [exact E|exact Hg].
      * intros n f [[= -> ->]|Hin]%elem_of_cons Hf; [|by eapply I4]. apply I1. by eapply chmod600_sets.
    + intros (I1 & I2 & I3 & I4)%IH; [|done]. split_and!; [done..|].
      intros n f [[= -> ->]|Hin]%elem_of_cons Hf; [done|by eapply I4].
Qed.

(** Success of [protectOutputs]: the capture, the log and every regular file
    of the configuration directory are readable by the owner only, the
    directory is private and the public certificate exists. *)
Lemma protectOutputs_ok os captureFile logFile confDir ca os' :
  honest os → filepath.IsAbs confDir = true → filepath.Clean confDir = confDir → confDir ≠ str "/" →
  protectOutputs os captureFile logFile confDir ca = (None, os') →
  owner_only os' captureFile ∧ owner_only os' logFile ∧ private_dir os' confDir ∧
  (∀ name, filepath.entry_name name → owner_only os' (confDir ++ filepath.slash :: name)) ∧
  is_Some (os_fs os' !! ca).
Proof.
  intros Hh Ha Hc Hr. unfold protectOutputs.
  destruct (protect_output os captureFile) as [[?|] os1] eqn:E1; [done|].
  apply protect_output_ok in E1 as (Hh1 & O1 & _); [|done].
  destruct (protect_output os1 logFile) as [[?|] os2] eqn:E2; [done|].
  apply protect_output_ok in E2 as (Hh2 & O2 & K2); [|done].
  destruct (ensurePrivateDirectory os2 confDir) as [[?|] os3] eqn:E3; [done|].
  apply ensurePrivateDirectory_ok in E3 as (P3 & K3 & _); [|by intros ->].
  destruct (os_ReadDir os3 confDir) as [[entries|?] os4] eqn:E4; [|done].
  assert (os_fs os4 = os_fs os3) as F4.
  { revert E4. unfold os_ReadDir. destruct (os_pop os3) as [[?|] ?] eqn:Ep; apply os_pop_fs in Ep; [done|]. by intros [= _ <-]. }
  destruct (protect_entries os4 confDir entries) as [[?|] os5] eqn:E5; [done|].
  apply protect_entries_ok in E5 as (K5 & D5 & T5 & O5); try done.
  2:{ apply Forall_forall. intros [name f] Hin. by eapply ReadDir_names. }
  unfold os_Stat. destruct (os_pop os5) as [[?|] os6] eqn:E6; apply os_pop_fs in E6; [done|].
  destruct (os_fs os6 !! ca) as [caFile|] eqn:Eca; [|done]. intros [= <-].
  assert (∀ q, owner_only os3 q → owner_only os6 q) as K.
  { intros q Hq f. rewrite E6. apply (K5 q). intros g. rewrite F4. apply Hq. }
  split_and!; [by apply K, K3, K2|by apply K, K3| | |by eexists].
  - destruct P3 as (g & Hg & ? & ?). exists g. by rewrite E6, D5, F4.
  - intros name Hname f Hf Hk. destruct (T5 (confDir ++ filepath.slash :: name) f) as (g & Hg & Hgk); [by rewrite <-E6|].
    rewrite F4 in Hg. eapply (O5 name g); [by eapply ReadDir_entry|congruence|by rewrite <-E6|done].
Qed.

(** ** Before the child starts *)

Lemma ensure_directories_ok directories os os' :
  Forall (λ d, d ≠ []) directories → ensure_directories os directories = (None, os') →
  Forall (private_dir os') directories.
Proof.
  assert (∀ ds os os', Forall (λ d, d ≠ []) ds → ensure_directories os ds = (None, os') →
    Forall (private_dir os') ds ∧ ∀ q, private_dir os q → private_dir os' q) as Hall.
  { clear. induction ds as [|d ds IH]; intros os os' Hne; cbn [ensure_directories]; [intros [= <-]; by split|].
    apply Forall_cons in Hne as [Hd Hne].
    destruct (ensurePrivateDirectory os d) as [[?|] os1] eqn:E; [done|]. intros [IHf IHk]%IH; [|done].
    apply ensurePrivateDirectory_ok in E as (P & _ & K); [|done]. split; [constructor; auto|auto]. }
  intros Hne HE. by destruct (Hall _ _ _ Hne HE).
Qed.

Lemma ensurePrivateDirectory_present os d os' p :
  ensurePrivateDirectory os d = (None, os') → is_Some (os_fs os !! p) → is_Some (os_fs os' !! p).
Proof.
  unfold ensurePrivateDirectory, os_MkdirAll. destruct (os_pop os) as [[?|] o1] eqn:Ep; apply os_pop_fs in Ep; [done|].
  destruct (mkdir_each _ _ _) as [[?|] fs] eqn:Em; [done|].
  destruct (os_Chmod _ d perm700) as [[?|] o2] eqn:Ec; [done|]. intros [= <-] [f Hf].
  rewrite <-Ep in Hf. pose proof (mkdir_each_keeps _ _ _ _ _ _ _ Em Hf) as Hf'.
  apply os_Chmod_ok in Ec as (g & Hg & ->). destruct (decide (p = d)) as [->|Hne].
  - rewrite lookup_insert_eq. by eexists.
  - rewrite lookup_insert_ne by done. by eexists.
Qed.

Lemma ensure_directories_present directories os os' p :
  ensure_directories os directories = (None, os') → is_Some (os_fs os !! p) → is_Some (os_fs os' !! p).
Proof.
  revert os. induction directories as [|d ds IH]; intros os; cbn [ensure_directories]; [by intros [= <-]|].
  destruct (ensurePrivateDirectory os d) as [[?|] o] eqn:E; [done|]. intros HE Hs.
  eapply IH; [exact HE|]. by eapply ensurePrivateDirectory_present.
Qed.

Lemma open_exclusive_ok os p os' :
  open_exclusive os p perm600 = (None, os') →
  os_fs os !! p = None ∧ os_fs os' = <[p := mkFile Regular perm600 []]> (os_fs os).
Proof.
  unfold open_exclusive. destruct (os_pop os) as [[?|] o] eqn:Ep; apply os_pop_fs in Ep; [done|].
  destruct (os_fs o !! p) eqn:Ef; [done|]. intros [= <-]. cbn. by rewrite <-Ep.
Qed.

Lemma open_truncate_ok os p perm os' :
  open_truncate os p perm = (None, os') →
  f_kind <$> os_fs os !! p ≠ Some Directory ∧ os_fs os' = put_data (os_fs os) p [] perm.
Proof.
  unfold open_truncate. destruct (os_pop os) as [[?|] o] eqn:Ep; apply os_pop_fs in Ep; [done|].
  case_bool_decide; [done|]. intros [= <-]. cbn. by rewrite <-Ep.
Qed.

Lemma os_call_fs os e os' : os_call os = (e, os') → os_fs os' = os_fs os.
Proof. unfold os_call. destruct (os_pop os) eqn:Ep. apply os_pop_fs in Ep. by intros [= _ <-]. Qed.

(** Success of [prepareOutputs]: the capture file did not exist before, it
    and the log are the owner's only, and the three directories private. *)
Lemma prepareOutputs_ok os captureFile confDir logFile os' :
  confDir ≠ [] → prepareOutputs os captureFile confDir logFile = (None, os') →
  os_fs os !! captureFile = None ∧ owner_only os' captureFile ∧ owner_only os' logFile ∧
  Forall (private_dir os') [filepath.Dir captureFile; confDir; filepath.Dir logFile].
Proof.
  intros Hc. unfold prepareOutputs.
  destruct (ensure_directories _ _) as [[?|] os1] eqn:E1; [done|].
  destruct (open_exclusive os1 captureFile perm600) as [[?|] os2] eqn:E2; [done|].
  destruct (os_call os2) as [[?|] os3] eqn:E3; [done|].
  destruct (open_truncate os3 logFile perm600) as [[?|] os4] eqn:E4; [done|].
  destruct (os_Chmod os4 logFile perm600) as [[?|] os5] eqn:E5; [by destruct (os_call os5)|]. intros [= <-].
  apply open_exclusive_ok in E2 as [N1 F2]. apply os_call_fs in E3 as F3. apply open_truncate_ok in E4 as [D4 F4].
  assert (owner_only os4 captureFile) as O4.
  { intros f. rewrite F4. destruct (decide (captureFile = logFile)) as [<-|Hne].
    - rewrite put_data_eq, F3, F2, lookup_insert_eq. by intros [= <-].
    - rewrite put_data_ne, F3, F2, lookup_insert_eq by done. by intros [= <-]. }
  assert (∀ q, private_dir os1 q → private_dir os5 q) as K.
  { intros q (f & Hf & Hk & Hm). assert (q ≠ captureFile) as Hq by (intros ->; congruence).
    assert (os_fs os3 !! q = Some f) as H3 by (by rewrite F3, F2, lookup_insert_ne).
    assert (q ≠ logFile) as Hl by (intros ->; rewrite H3 in D4; by rewrite <-Hk in D4).
    exists f. rewrite (os_Chmod_ne _ _ _ _ _ _ E5 Hl), F4, put_data_ne by done. done. }
  split_and!; [|by eapply chmod600_keeps|by eapply chmod600_sets|].
  - destruct (os_fs os !! captureFile) as [f|] eqn:Ef; [|done].
    destruct (ensure_directories_present _ _ _ captureFile E1) as [? ?]; [by eexists|congruence].
  - eapply Forall_impl; [eapply ensure_directories_ok; [|exact E1]|done].
    repeat (apply Forall_cons; split); [apply filepath.Clean_nonempty|done|apply filepath.Clean_nonempty|constructor].
Qed.
End proxyfiles.
