(* ===== verification/ProxySession.v ===== *)
(** The managed capture proxy (src/internal/proxy/session.go): configuration,
    the mitmweb command line, the life of the child process and the recovery
    of an orphan.

    [url.Parse], [exec.LookPath], the clock and the process table are
    arguments: each poll of a loop is one element of a list. *)
From S2P Require Import Prelude Errors GoStrings GoOS GoPath GoNet State Connect RuntimePath ProxyFiles.

Module proxysession.

Definition DefaultListenPort : Z := 8080.
Definition DefaultWebPort : Z := 8081.
Definition managedTCPTimeout : Z := 90.

Record Config := mkConfig {
  Executable : gostring;
  ListenPort : Z;
  WebPort : Z;
  OpenBrowser : bool;
  CaptureFile : gostring;
  ConfDir : gostring;
  LogFile : gostring;
  UpstreamURL : gostring;
  SSLInsecure : bool;
}.

(** * Configuration *)

(** What [url.Parse] gives. *)
Record URL := mkURL {
  u_Scheme : gostring; u_Hostname : gostring; u_hasUser : bool;
  u_Path : gostring; u_RawQuery : gostring; u_Fragment : gostring; u_ForceQuery : bool;
}.

Section config.
Variable url_Parse : gostring → result error URL.

Definition ValidateUpstreamURL (rawURL : gostring) : option error :=
  if streq rawURL [] then None
  else
    match url_Parse rawURL with
    | Err _ => Some (ENew (str "upstream must be an http:// or https:// URL with a host"))
    | Ok upstream =>
        if (negb (streq (u_Scheme upstream) (str "http")) && negb (streq (u_Scheme upstream) (str "https"))) ||
           streq (u_Hostname upstream) []
        then Some (ENew (str "upstream must be an http:// or https:// URL with a host"))
        else if u_hasUser upstream then Some (ENew (str "upstream URL must not contain credentials"))
        else if negb (streq (u_Path upstream) []) || negb (streq (u_RawQuery upstream) []) ||
                negb (streq (u_Fragment upstream) []) || u_ForceQuery upstream
        then Some (ENew (str "upstream URL must contain only a scheme, host, and optional port"))
        else None
    end.

(** [stat]: the executable's [os.Stat], directory flag and permission bits. *)
Definition validateConfig (config : Config) (stat : option (bool * Z)) : option error :=
  if negb (filepath.IsAbs (Executable config)) || negb (filepath.IsAbs (CaptureFile config)) ||
     negb (filepath.IsAbs (ConfDir config)) || negb (filepath.IsAbs (LogFile config))
  then Some (ENew (str "mitmweb executable and owned paths must be absolute"))
  else
    match ValidateUpstreamURL (UpstreamURL config) with
    | Some err => Some err
    | None =>
        if (ListenPort config <? 1) || (65535 <? ListenPort config) || (WebPort config <? 1) || (65535 <? WebPort config)
        then Some (ENew (str "mitmweb ports must be in 1...65535"))
        else if ListenPort config =? WebPort config
        then Some (ENew (str "mitmweb proxy and Web UI ports must differ"))
        else
          match stat with
          | Some (isDir, perm) =>
              if isDir || (Z.land perm 73 =? 0) then Some (ENew (str "mitmweb executable is not runnable")) else None
          | None => Some (ENew (str "mitmweb executable is not runnable"))
          end
    end.
End config.

Definition managedMode (upstreamURL : gostring) : gostring :=
  if streq upstreamURL [] then str "regular" else str "upstream:" ++ upstreamURL.

Definition managedArguments (config : Config) : list gostring :=
  let mode := if negb (streq (UpstreamURL config) []) then str "upstream:" ++ UpstreamURL config else str "regular" in
  [str "--mode"; mode; str "--listen-host"; str "127.0.0.1"; str "--listen-port"; Itoa (ListenPort config);
   str "--web-host"; str "127.0.0.1"; str "--web-port"; Itoa (WebPort config);
   str "--set"; str "tcp_timeout=" ++ Itoa managedTCPTimeout] ++
  (if OpenBrowser config then [str "--web-open-browser"] else [str "--no-web-open-browser"]) ++
  (if SSLInsecure config then [str "--set"; str "ssl_insecure=true"] else []) ++
  [str "--save-stream-file"; CaptureFile config; str "--set"; str "confdir=" ++ ConfDir config].

(** * Discovery and preflight *)

(** [Discover]: [environment] is the trimmed variable, [LookPath] and [Abs]
    the machine's. *)
Definition Discover (LookPath : gostring → option gostring) (Abs : gostring → option gostring)
    (explicit environment : gostring) : result error gostring :=
  let candidates :=
    if negb (streq explicit []) then [explicit]
    else if negb (streq (TrimSpace environment) []) then [TrimSpace environment]
    else [str "mitmweb"; str "/opt/homebrew/bin/mitmweb"; str "/usr/local/bin/mitmweb"] in
  let resolve candidate := resolved ← LookPath candidate; absolute ← Abs resolved; Some (filepath.Clean absolute) in
  match omap resolve candidates with
  | path :: _ => Ok path
  | [] => Err (ENew (str "mitmweb was not found; install mitmproxy with Homebrew or pass --mitmweb <path>"))
  end.

(** [NewCapturePath]: [random] is what [rand.Read] gave, [stamp] the
    formatted time. *)
Definition NewCapturePath (directory stamp : gostring) (random : result error (list byte)) : result error gostring :=
  match random with
  | Err err => Err (EWrapf (str "create capture filename") err)
  | Ok random =>
      Ok (filepath.Join [filepath.Clean directory;
            str "harmony-" ++ stamp ++ str "-" ++ hex_encode random ++ str ".mitm"])
  end.

(** [listen port] and [close port]: the errors of binding and releasing. *)
Fixpoint CheckLoopbackPorts (listen close : Z → option error) (ports : list Z) : option error :=
  match ports with
  | [] => None
  | port :: ports =>
      match listen port with
      | Some _ => Some (ENew (str "loopback port " ++ Itoa port ++ str " is already in use"))
      | None =>
          match close port with
          | Some err => Some (EWrapf (str "release loopback port " ++ Itoa port ++ str " preflight") err)
          | None => CheckLoopbackPorts listen close ports
          end
      end
  end.

(** * Recovery of an orphan *)

Inductive signal := SIGTERM | SIGKILL.

(** [processCommand]: what ps printed. *)
Definition processCommand (ps : result error gostring) : option gostring :=
  match ps with
  | Err _ => None
  | Ok payload => if streq (TrimSpace payload) [] then None else Some (TrimSpace payload)
  end.

Definition recovery_markers (previous : state.ProxySnapshot) : list gostring :=
  [state.Executable previous; str "--mode " ++ managedMode (state.UpstreamURL previous);
   str "--listen-port " ++ Itoa (state.ListenPort previous); str "--web-port " ++ Itoa (state.WebPort previous);
   str "--save-stream-file " ++ state.CaptureFile previous; str "confdir=" ++ state.ConfDir previous] ++
  (if state.SSLInsecure previous then [str "ssl_insecure=true"] else []).

Definition identified (command : gostring) (markers : list gostring) : bool :=
  forallb (λ marker, negb (streq marker []) && Contains command marker) markers.

(** A polling loop that ends when the process is gone. *)
Definition gone (polls : list (result error gostring)) : bool :=
  existsb (λ ps, bool_decide (processCommand ps = None)) polls.

Definition RecoverManaged (previous : state.ProxySnapshot) (ps : result error gostring) (found : bool)
    (polls killPolls : list (result error gostring)) (kill : option error) : option error * list signal :=
  if negb (state.Enabled previous) || (state.PID previous <=? 1) then (None, [])
  else
    match processCommand ps with
    | None => (None, [])
    | Some command =>
        if negb (identified command (recovery_markers previous)) then
          (Some (ENew (str "a recorded proxy process is still running but cannot be safely identified; stop it manually")), [])
        else if negb found then (None, [])
        else if gone polls then (None, [SIGTERM])
        else
          match kill with
          | Some err =>
              if negb (errors_Is err ErrProcessDone)
              then (Some (EWrapf (str "terminate orphaned mitmweb") err), [SIGTERM; SIGKILL])
              else if gone killPolls then (None, [SIGTERM; SIGKILL])
              else (Some (ENew (str "orphaned mitmweb did not exit after a bounded termination")), [SIGTERM; SIGKILL])
          | None =>
              if gone killPolls then (None, [SIGTERM; SIGKILL])
              else (Some (ENew (str "orphaned mitmweb did not exit after a bounded termination")), [SIGTERM; SIGKILL])
          end
    end.

(** * The child process *)

(** One round of [waitReady]: what it sees, in order. *)
Record Poll := mkPoll { p_exited : bool; p_proxy : bool; p_web : bool; p_caExists : bool }.

(** [waitReady] over the rounds that fit before the deadline. *)
Fixpoint waitReady (polls : list Poll) : option error :=
  match polls with
  | [] => Some (ENew (str "mitmweb did not become ready within 10 seconds; check the mitmweb log"))
  | poll :: polls =>
      if p_exited poll then
        Some (ENew (str "mitmweb exited before its loopback listeners became ready; check the mitmweb log"))
      else if p_proxy poll && p_web poll && p_caExists poll then None
      else waitReady polls
  end.

(** How the child ends once [Close] has sent SIGTERM: within [stopTimeout],
    or after the kill (whose error is [ce_kill]), or not at all; [ce_child] is
    what it does to the files before it is gone. *)
Record CloseEnv := mkCloseEnv {
  ce_inTime : bool; ce_kill : option error; ce_afterKill : bool; ce_child : OS → OS }.

Record Session := mkSession {
  s_config : Config;
  s_info : state.ProxySnapshot;
  s_dialer : connect.ConnectDialer;
  s_alive : bool;              (* the child runs; [done] is closed when it is not *)
  s_waitErr : option error;
  s_closing : bool;
  s_closed : bool;             (* closeOnce *)
}.

(** The child exits by itself: the goroutine [wait]. *)
Definition child_exit (err : option error) (s : Session) : Session :=
  if s_alive s
  then mkSession (s_config s) (s_info s) (s_dialer s) false err (s_closing s) (s_closed s)
  else s.

Definition protect (config : Config) (ca : gostring) (os : OS) : option error * OS :=
  proxyfiles.protectOutputs os (CaptureFile config) (LogFile config) (ConfDir config) ca.

(** [Close]: the error, the signals sent to the child, the session and the
    file system; [None]: it waits for ever for a child that even a kill did
    not end.  The files are protected last, when the child is gone. *)
Definition Close (env : CloseEnv) (waitErr : option error) (s : Session) (os : OS)
    : option (option error * list signal * Session * OS) :=
  if s_closed s then Some (None, [], s, os)
  else
    let s := mkSession (s_config s) (s_info s) (s_dialer s) (s_alive s) (s_waitErr s) true true in
    let finish err signals s os :=
      let '(_, os) := protect (s_config s) (state.CACertFile (s_info s)) os in Some (err, signals, s, os) in
    if negb (s_alive s) then finish None [SIGTERM] s os
    else if ce_inTime env then finish None [SIGTERM] (child_exit waitErr s) (ce_child env os)
    else if ce_afterKill env then finish (ce_kill env) [SIGTERM; SIGKILL] (child_exit waitErr s) (ce_child env os)
    else None.

Definition Err_ (s : Session) : option error := if s_closing s then None else s_waitErr s.

Definition Info (s : Session) : state.ProxySnapshot := s_info s.

(** What [Start] meets; [st_child] is what the child does to the files
    while [Start] waits for it.  The child goes on running; what it does to
    the files from [protectOutputs] on is not modelled (they are in directories
    only the owner can enter). *)
Record StartEnv := mkStartEnv {
  st_stat : option (bool * Z);
  st_ports : option error;             (* CheckLoopbackPorts *)
  st_start : result error Z;           (* the child's process id *)
  st_polls : list Poll;
  st_child : OS → OS;
  st_close : CloseEnv;
}.

Definition proxy_address (config : Config) : gostring := JoinHostPort (str "127.0.0.1") (Itoa (ListenPort config)).

Definition starting_info (config : Config) (pid : Z) : state.ProxySnapshot :=
  state.mkProxySnapshot true state.ProxyStarting pid (Executable config) (ListenPort config) (WebPort config)
    (OpenBrowser config) (CaptureFile config) (filepath.Join [ConfDir config; str "mitmproxy-ca-cert.cer"])
    (ConfDir config) (UpstreamURL config) (SSLInsecure config) connect.InterceptPorts.

(** [Start]: the session or the error, whether a child process is left
    running, and the file system.  [None]: it waits for ever in [Close]. *)
Definition Start (url_Parse : gostring → result error URL) (config : Config) (env : StartEnv) (os : OS)
    : option (result error Session * bool * OS) :=
  match validateConfig url_Parse config (st_stat env) with
  | Some err => Some (Err err, false, os)
  | None =>
  match st_ports env with
  | Some err => Some (Err err, false, os)
  | None =>
  match proxyfiles.prepareOutputs os (CaptureFile config) (ConfDir config) (LogFile config) with
  | (Some err, os) => Some (Err err, false, os)
  | (None, os) =>
  match st_start env with
  | Err err => Some (Err (EWrapf (str "start mitmweb") err), false, os)
  | Ok pid =>
  let os := st_child env os in
  match connect.NewConnectDialer (proxy_address config) connect.InterceptPorts with
  | Err err => Some (Err err, false, os)
  | Ok dialer =>
      let session := mkSession config (starting_info config pid) dialer true None false false in
      let abandon err os :=
        r ← Close (st_close env) None session os;
        let '(_, _, session, os) := r in Some (Err err, s_alive session, os) in
      match waitReady (st_polls env) with
      | Some err => abandon err os
      | None =>
          match protect config (state.CACertFile (s_info session)) os with
          | (Some err, os) => abandon err os
          | (None, os) =>
              Some (Ok (mkSession config (state.set_Status state.ProxyActive (s_info session)) dialer true None false false),
                    true, os)
          end
      end
  end end end end end.

(** * Recovery only touches its own process *)

Lemma identified_spec command markers :
  identified command markers = true ↔ Forall (λ m, m ≠ [] ∧ ∃ a b, command = a ++ m ++ b) markers.
Proof.
  unfold identified. rewrite forallb_forall, Forall_forall. split; intros Hm m Hin.
  - apply list_elem_of_In, Hm, andb_true_iff in Hin as [? ?]. bool_to_prop. split; [done|]. by apply Contains_spec.
  - apply list_elem_of_In, Hm in Hin as [? ?]. apply andb_true_iff. split; [by rewrite bool_decide_eq_false_2|].
    by apply Contains_spec.
Qed.

Lemma gone_spec polls : gone polls = true → ∃ p, p ∈ polls ∧ processCommand p = None.
Proof. unfold gone. intros (p & ? & ?)%existsb_exists. bool_to_prop. exists p. by rewrite list_elem_of_In. Qed.

(** Recovering an orphaned proxy.  A signal is sent only when the state
    file records an enabled proxy with a real process id and the live command
    line of that process contains every recorded marker; at most SIGTERM and
    then SIGKILL are sent.  Success is reported only when there was nothing
    to recover or the process was seen to be gone. *)
Theorem RecoverManaged_safe previous ps found polls killPolls kill :
  let '(err, signals) := RecoverManaged previous ps found polls killPolls kill in
  (signals ≠ [] → state.Enabled previous = true ∧ 1 < state.PID previous ∧ found = true ∧
     ∃ command, processCommand ps = Some command ∧
       Forall (λ m, m ≠ [] ∧ ∃ a b, command = a ++ m ++ b) (recovery_markers previous)) ∧
  (signals = [] ∨ signals = [SIGTERM] ∨ signals = [SIGTERM; SIGKILL]) ∧
  (err = None →
     state.Enabled previous = false ∨ state.PID previous ≤ 1 ∨ found = false ∨
     ∃ p, p ∈ ps :: polls ++ killPolls ∧ processCommand p = None).
Proof.
  unfold RecoverManaged. case_if as E1.
  { split_and!; [done|by left|]. intros _. apply orb_true_iff in E1 as [E1|E1]; bool_to_prop; [left|right; left]; done. }
  bool_to_prop. destruct (processCommand ps) as [command|] eqn:Ep.
  2:{ split_and!; [done|by left|]. intros _. do 3 right. exists ps. split; [apply list_elem_of_here|done]. }
  case_if as E2; [by split_and!; [|left|]|]. apply negb_false_iff, identified_spec in E2.
  destruct found; cbn [negb].
  2:{ split_and!; [done|by left|]. intros _. by do 2 right; left. }
  assert (Hs : ∀ signals : list signal, signals ≠ [] →
    state.Enabled previous = true ∧ 1 < state.PID previous ∧ true = true ∧
    ∃ command0, Some command = Some command0 ∧
      Forall (λ m, m ≠ [] ∧ ∃ a b, command0 = a ++ m ++ b) (recovery_markers previous)).
  { intros _ _. split_and!; [by destruct (state.Enabled previous)|lia|done|eauto]. }
  assert (Hg : ∀ l, gone l = true → l ⊆ ps :: polls ++ killPolls →
    state.Enabled previous = false ∨ state.PID previous ≤ 1 ∨ true = false ∨
    ∃ p, p ∈ ps :: polls ++ killPolls ∧ processCommand p = None).
  { intros l (p & Hin & Hp)%gone_spec Hsub. do 3 right. exists p. split; [by apply Hsub|done]. }
  case_if as E3; [split_and!; [apply Hs|by right; left|intros _; eapply Hg; [exact E3|set_solver]]|].
  destruct kill as [err|]; [case_if|]; [by split_and!; [apply Hs|right; right|]|..];
    (case_if as E4; split_and!; [apply Hs|by right; right|intros _; eapply Hg; [exact E4|set_solver]|apply Hs|by right; right|done]).
Qed.

(** * Its own process is recognised *)

Lemma Join_cons_cons a b l sep : Join (a :: b :: l) sep = a ++ sep ++ Join (b :: l) sep.
Proof. done. Qed.

Lemma Join_split l1 x l2 sep : ∃ a b, Join (l1 ++ x :: l2) sep = a ++ Join (x :: l2) sep ++ b.
Proof.
  induction l1 as [|y l1 (a & b & IH)]; [exists [], []; by rewrite app_nil_r|].
  exists (y ++ sep ++ a), b. cbn [app]. destruct (l1 ++ x :: l2) as [|z l] eqn:E; [by destruct l1|].
  rewrite Join_cons_cons, IH. by rewrite <-!app_assoc.
Qed.

Lemma Join_elem l1 x l2 sep : ∃ a b, Join (l1 ++ x :: l2) sep = a ++ x ++ b.
Proof.
  destruct (Join_split l1 x l2 sep) as (a & b & ->). destruct l2 as [|y l2]; [by exists a, b|].
  rewrite Join_cons_cons. eexists a, _. by rewrite <-!app_assoc.
Qed.

Lemma Join_pair l1 x y l2 sep : ∃ a b, Join (l1 ++ x :: y :: l2) sep = a ++ (x ++ sep ++ y) ++ b.
Proof.
  destruct (Join_split l1 x (y :: l2) sep) as (a & b & ->). rewrite Join_cons_cons.
  destruct l2 as [|z l2]; [exists a, b; by rewrite <-!app_assoc|].
  rewrite Join_cons_cons. eexists a, _. by rewrite <-!app_assoc.
Qed.

(** Two arguments next to each other, by position. *)
Lemma Join_at i x y l sep :
  l !! i = Some x → l !! S i = Some y → ∃ a b, Join l sep = a ++ (x ++ sep ++ y) ++ b.
Proof.
  intros Hx Hy. rewrite <-(take_drop_middle l i x Hx). rewrite <-(take_drop_middle (drop (S i) l) 0 y).
  - rewrite take_0. apply Join_pair.
  - by rewrite lookup_drop, Nat.add_0_r.
Qed.

Lemma Join_in i x l sep : l !! i = Some x → ∃ a b, Join l sep = a ++ x ++ b.
Proof. intros Hx. rewrite <-(take_drop_middle l i x Hx). apply Join_elem. Qed.

(** The command line of the managed process as ps shows it. *)
Definition command_line (config : Config) : gostring :=
  Join (Executable config :: managedArguments config) (str " ").

(** A crashed daemon's proxy is recognised.  The command line of every
    process [Start] launches contains all the markers the state file records
    for it, so the next daemon can identify and terminate it instead of
    refusing to start. *)
Theorem managed_process_identified config pid ps :
  Executable config ≠ [] → processCommand ps = Some (command_line config) →
  identified (command_line config) (recovery_markers (starting_info config pid)) = true ∧
  ∀ polls killPolls kill, 1 < pid →
    SIGTERM ∈ (RecoverManaged (starting_info config pid) ps true polls killPolls kill).2.
Proof.
  intros He Hps.
  assert (identified (command_line config) (recovery_markers (starting_info config pid)) = true) as Hid.
  { apply identified_spec. unfold command_line, recovery_markers, starting_info, managedArguments, managedMode.
    cbn [state.Executable state.UpstreamURL state.ListenPort state.WebPort state.CaptureFile state.ConfDir state.SSLInsecure].
    set (mode := if negb _ then _ else _).
    assert ((if streq (UpstreamURL config) [] then str "regular" else str "upstream:" ++ UpstreamURL config) = mode) as ->
      by (unfold mode; by case_if).
    apply Forall_app_2.
    - repeat (apply Forall_cons; split); [..|by apply Forall_nil]; (split; [done|]).
      + by apply (Join_in 0).
      + by apply (Join_at 1 (str "--mode") mode).
      + by apply (Join_at 5 (str "--listen-port") (Itoa (ListenPort config))).
      + by apply (Join_at 9 (str "--web-port") (Itoa (WebPort config))).
      + destruct (OpenBrowser config), (SSLInsecure config);
          first [by apply (Join_at 14 (str "--save-stream-file") (CaptureFile config))
                |by apply (Join_at 16 (str "--save-stream-file") (CaptureFile config))].
      + destruct (OpenBrowser config), (SSLInsecure config); first [by apply (Join_in 17)|by apply (Join_in 19)].
    - destruct (SSLInsecure config); [|by apply Forall_nil]. apply Forall_singleton. split; [done|].
      destruct (OpenBrowser config); by apply (Join_in 15). }
  split; [done|]. intros polls killPolls kill Hpid. unfold RecoverManaged.
  cbn [state.Enabled state.PID starting_info negb orb]. rewrite (proj2 (Z.leb_gt _ _)) by done.
  rewrite Hps, Hid. cbn [negb]. repeat case_match; apply list_elem_of_here.
Qed.

(** * Starting *)

(** A session that [Start] abandons has no child left. *)
Lemma abandoned env session err os (r : result error Session * bool * OS) :
  s_closed session = false → s_alive session = true →
  (x ← Close env None session os;
   let '(_, _, session, os) := x in Some (Err (A:=Session) err, s_alive session, os)) = Some r →
  r.1 = (Err err, false).
Proof.
  intros Hc Ha. unfold Close. rewrite Hc. cbn [s_alive s_config s_info].
  rewrite Ha. cbn [negb]. unfold child_exit. cbn [s_alive s_config s_info].
  destruct (ce_inTime env), (ce_afterKill env); try destruct (protect _ _ _) as [e os1]; cbn; by intros [= <-].
Qed.

(** The stages a successful [Start] went through. *)
Lemma Start_ok url_Parse config env os session alive os' :
  Start url_Parse config env os = Some (Ok session, alive, os') →
  ∃ pid dialer os1,
    validateConfig url_Parse config (st_stat env) = None ∧
    proxyfiles.prepareOutputs os (CaptureFile config) (ConfDir config) (LogFile config) = (None, os1) ∧
    st_start env = Ok pid ∧ connect.NewConnectDialer (proxy_address config) connect.InterceptPorts = Ok dialer ∧
    waitReady (st_polls env) = None ∧
    protect config (state.CACertFile (starting_info config pid)) (st_child env os1) = (None, os') ∧
    session = mkSession config (state.set_Status state.ProxyActive (starting_info config pid)) dialer true None false false ∧
    alive = true.
Proof.
  unfold Start. destruct (validateConfig _ _ _) as [?|] eqn:Ev; [done|]. destruct (st_ports env); [done|].
  destruct (proxyfiles.prepareOutputs _ _ _ _) as [[?|] os1] eqn:Ep; [done|].
  destruct (st_start env) as [pid|] eqn:Es; [|done]. destruct (connect.NewConnectDialer _ _) as [dialer|] eqn:Ed; [|done].
  destruct (waitReady (st_polls env)) eqn:Ew; [by intros ?%abandoned|]. cbn [s_info].
  destruct (protect _ _ _) as [[?|] os2] eqn:Epr; [by intros ?%abandoned|]. intros [= <- <- <-].
  exists pid, dialer, os1. by split_and!.
Qed.

(** The capture proxy is either ready or gone.  [Start] returns a session
    only after the configuration was validated and both loopback listeners and
    the CA certificate were seen; the session is ACTIVE, names its process and
    intercepts the web ports.  When it returns an error, no child process of
    its own is left running. *)
Theorem Start_spec url_Parse config env os r alive os' :
  Start url_Parse config env os = Some (r, alive, os') →
  match r with
  | Err _ => alive = false
  | Ok session =>
      alive = true ∧ validateConfig url_Parse config (st_stat env) = None ∧
      (∃ poll, poll ∈ st_polls env ∧ p_exited poll = false ∧ p_proxy poll = true ∧ p_web poll = true ∧ p_caExists poll = true) ∧
      Ok (state.PID (Info session)) = st_start env ∧ state.Status (Info session) = state.ProxyActive ∧
      state.ListenPort (Info session) = ListenPort config ∧
      connect.cd_proxyAddress (s_dialer session) = proxy_address config ∧
      (∀ p, connect.Intercepts (s_dialer session) p = bool_decide (p ∈ connect.InterceptPorts))
  end.
Proof.
  destruct r as [session|err].
  - intros (pid & dialer & os1 & Ev & _ & Es & Ed & Ew & _ & -> & ->)%Start_ok. split_and!; try done.
    + clear -Ew. induction (st_polls env) as [|poll polls IH]; [done|]. cbn [waitReady] in Ew.
      case_if in Ew as E1; [done|]. case_if in Ew as E2.
      * rewrite !andb_true_iff in E2. destruct E2 as [[? ?] ?]. exists poll. split; [apply list_elem_of_here|done].
      * destruct (IH Ew) as (q & ? & ?). exists q. split; [by apply list_elem_of_further|done].
    + revert Ed. unfold connect.NewConnectDialer. destruct (SplitHostPort _); [|done].
      cbn. by intros [= <-].
    + revert Ed. unfold connect.NewConnectDialer. destruct (SplitHostPort _); [|done].
      cbn. intros [= <-] q. unfold connect.Intercepts. cbn. apply bool_decide_ext. set_solver.
  - unfold Start. destruct (validateConfig _ _ _); [by intros [= _ <- _]|]. destruct (st_ports env); [by intros [= _ <- _]|].
    destruct (proxyfiles.prepareOutputs _ _ _ _) as [[?|] os1]; [by intros [= _ <- _]|].
    destruct (st_start env); [|by intros [= _ <- _]]. destruct (connect.NewConnectDialer _ _); [|by intros [= _ <- _]].
    destruct (waitReady (st_polls env)); [intros Ha; by apply abandoned in Ha as [= _ ->]|].
    destruct (protect _ _ _) as [[?|] os2]; [intros Ha; by apply abandoned in Ha as [= _ ->]|done].
Qed.

(** C37: captured traffic stays private.  When [Start] returns a session, the
    capture file did not exist before, and whatever mitmweb did to the files
    meanwhile, the capture, the log and every regular file in the
    configuration directory (the CA's private key among them) are readable by
    the owner only, the configuration directory has mode 0700, and the public
    certificate is there. *)
Theorem Start_private url_Parse config env os session alive os' :
  filepath.Clean (ConfDir config) = ConfDir config → ConfDir config ≠ str "/" →
  (∀ os, proxyfiles.honest (st_child env os)) →
  Start url_Parse config env os = Some (Ok session, alive, os') →
  os_fs os !! CaptureFile config = None ∧
  proxyfiles.owner_only os' (CaptureFile config) ∧ proxyfiles.owner_only os' (LogFile config) ∧
  runtimepath.private_dir os' (ConfDir config) ∧
  (∀ name, filepath.entry_name name → proxyfiles.owner_only os' (ConfDir config ++ filepath.slash :: name)) ∧
  is_Some (os_fs os' !! state.CACertFile (Info session)).
Proof.
  intros Hc Hr Hh (pid & dialer & os1 & Ev & Ep & _ & _ & _ & Epr & -> & _)%Start_ok.
  assert (filepath.IsAbs (ConfDir config) = true) as Ha.
  { revert Ev. unfold validateConfig. case_if as E; [done|]. intros _. by bool_to_prop. }
  apply proxyfiles.prepareOutputs_ok in Ep as (Hn & _); [|by intros E; rewrite E in Ha].
  split; [done|]. by apply proxyfiles.protectOutputs_ok in Epr.
Qed.

(** ** Concrete configuration *)

Definition sample_config : Config :=
  mkConfig (str "/opt/homebrew/bin/mitmweb") 8080 8081 false (str "/c/captures/harmony-1.mitm") (str "/c/mitmproxy")
    (str "/l/mitmweb.log") (str "http://10.0.0.1:3128") true.

Definition sample_parse (_ : gostring) : result error URL :=
  Ok (mkURL (str "http") (str "10.0.0.1") false [] [] [] false).

Lemma managed_process_identified_witness :
  identified (command_line sample_config) (recovery_markers (starting_info sample_config 77)) = true ∧
  ∀ polls killPolls kill, 1 < 77 →
    SIGTERM ∈ (RecoverManaged (starting_info sample_config 77) (Ok (command_line sample_config ++ [x0a])) true polls killPolls kill).2.
Proof.
  apply (managed_process_identified sample_config 77).
  - discriminate.
  - vm_compute. reflexivity.
Defined.

(** Markers match as substrings.  A state file that records listen port 808
    also identifies a process listening on port 8080. *)
Example recovery_prefix_match :
  let other := mkConfig (Executable sample_config) 808 8081 false (CaptureFile sample_config) (ConfDir sample_config)
    (LogFile sample_config) (UpstreamURL sample_config) true in
  identified (command_line sample_config) (recovery_markers (starting_info other 77)) = true.
Proof. vm_compute. reflexivity. Qed.

(** mitmweb creates its certificates, readable by everyone. *)
Definition sample_child (os : OS) : OS :=
  mkOS (<[str "/c/mitmproxy/mitmproxy-ca-cert.cer" := mkFile Regular 420 (str "PEM")]>
          (<[str "/c/mitmproxy/mitmproxy-ca.pem" := mkFile Regular 420 (str "KEY")]> (os_fs os))) [].

Definition sample_start_env : StartEnv :=
  mkStartEnv (Some (false, 493)) None (Ok 77)
    [mkPoll false true false false; mkPoll false true true true] sample_child (mkCloseEnv true None true id).

Definition sample_os : OS := mkOS ∅ [].

Definition started (r : option (result error Session * bool * OS)) : bool :=
  match r with Some (Ok _, _, _) => true | _ => false end.

Lemma sample_started : started (Start sample_parse sample_config sample_start_env sample_os) = true.
Proof. vm_compute. reflexivity. Qed.

Lemma Start_spec_witness :
  match Start sample_parse sample_config sample_start_env sample_os with
  | Some (Ok session, alive, _) => alive = true ∧ state.PID (Info session) = 77 ∧ state.Status (Info session) = state.ProxyActive
  | _ => False
  end.
Proof.
  pose proof sample_started as Hstarted. unfold started in Hstarted.
  destruct (Start _ _ _ _) as [[[[session|err] alive] os']|] eqn:E; [|discriminate Hstarted..].
  destruct (Start_spec sample_parse sample_config sample_start_env sample_os _ _ _ E) as (-> & _ & _ & Hpid & Hs & _).
  split; [reflexivity|]. split; [injection Hpid; auto|exact Hs].
Defined.

(** The private key ends up with mode 0600. *)
Lemma Start_private_witness :
  match Start sample_parse sample_config sample_start_env sample_os with
  | Some (Ok _, _, os') => proxyfiles.owner_only os' (str "/c/mitmproxy/mitmproxy-ca.pem")
  | _ => False
  end.
Proof.
  pose proof sample_started as Hstarted. unfold started in Hstarted.
  destruct (Start _ _ _ _) as [[[[session|err] alive] os']|] eqn:E; [|discriminate Hstarted..].
  destruct (Start_private sample_parse sample_config sample_start_env sample_os session alive os')
    as (_ & _ & _ & _ & Hf & _); [vm_compute; reflexivity|discriminate|intros os; constructor|exact E|].
  apply (Hf (str "mitmproxy-ca.pem")). unfold filepath.entry_name. decide_now.
Defined.
End proxysession.
