(* ===== verification/Cli.v ===== *)
(** The command line (src/cmd/harmony-netbridge/main.go): argument parsing, the
    arguments handed to the daemon process, the decisions of [startCommand],
    [statusCommand] and [stopCommand], and the exit codes.

    The machine is a record of answers per command; a polling loop is a list
    with one element per round before its deadline.  What is printed, and
    [run] itself, are in [Status]. *)
From S2P Require Import Prelude Errors GoStrings GoOS GoNet Protocol State Control Hdc Daemon ProxySession.

Module cli.

Record invocation := mkInvocation {
  command : gostring;
  hdcPath : gostring;
  deviceID : gostring;
  deviceLabel : gostring;
  devicePort : Z;
  mtu : Z;
  mtuSet : bool;
  proxyMode : bool;
  proxyPort : Z;
  proxyPortSet : bool;
  webPort : Z;
  webPortSet : bool;
  mitmwebPath : gostring;
  upstreamURL : gostring;
  sslInsecure : bool;
  captureFile : gostring;
  noOpenBrowser : bool;
  help : bool;
  version : bool;
}.
Definition set_command (v : gostring) (p : invocation) : invocation :=
  mkInvocation v (hdcPath p) (deviceID p) (deviceLabel p) (devicePort p) (mtu p) (mtuSet p)
    (proxyMode p) (proxyPort p) (proxyPortSet p) (webPort p) (webPortSet p) (mitmwebPath p)
    (upstreamURL p) (sslInsecure p) (captureFile p) (noOpenBrowser p) (help p) (version p).
Definition set_hdcPath (v : gostring) (p : invocation) : invocation :=
  mkInvocation (command p) v (deviceID p) (deviceLabel p) (devicePort p) (mtu p) (mtuSet p)
    (proxyMode p) (proxyPort p) (proxyPortSet p) (webPort p) (webPortSet p) (mitmwebPath p)
    (upstreamURL p) (sslInsecure p) (captureFile p) (noOpenBrowser p) (help p) (version p).
Definition set_deviceID (v : gostring) (p : invocation) : invocation :=
  mkInvocation (command p) (hdcPath p) v (deviceLabel p) (devicePort p) (mtu p) (mtuSet p)
    (proxyMode p) (proxyPort p) (proxyPortSet p) (webPort p) (webPortSet p) (mitmwebPath p)
    (upstreamURL p) (sslInsecure p) (captureFile p) (noOpenBrowser p) (help p) (version p).
Definition set_deviceLabel (v : gostring) (p : invocation) : invocation :=
  mkInvocation (command p) (hdcPath p) (deviceID p) v (devicePort p) (mtu p) (mtuSet p)
    (proxyMode p) (proxyPort p) (proxyPortSet p) (webPort p) (webPortSet p) (mitmwebPath p)
    (upstreamURL p) (sslInsecure p) (captureFile p) (noOpenBrowser p) (help p) (version p).
Definition set_devicePort (v : Z) (p : invocation) : invocation :=
  mkInvocation (command p) (hdcPath p) (deviceID p) (deviceLabel p) v (mtu p) (mtuSet p)
    (proxyMode p) (proxyPort p) (proxyPortSet p) (webPort p) (webPortSet p) (mitmwebPath p)
    (upstreamURL p) (sslInsecure p) (captureFile p) (noOpenBrowser p) (help p) (version p).
Definition set_mtu (v : Z) (p : invocation) : invocation :=
  mkInvocation (command p) (hdcPath p) (deviceID p) (deviceLabel p) (devicePort p) v (mtuSet p)
    (proxyMode p) (proxyPort p) (proxyPortSet p) (webPort p) (webPortSet p) (mitmwebPath p)
    (upstreamURL p) (sslInsecure p) (captureFile p) (noOpenBrowser p) (help p) (version p).
Definition set_mtuSet (v : bool) (p : invocation) : invocation :=
  mkInvocation (command p) (hdcPath p) (deviceID p) (deviceLabel p) (devicePort p) (mtu p) v
    (proxyMode p) (proxyPort p) (proxyPortSet p) (webPort p) (webPortSet p) (mitmwebPath p)
    (upstreamURL p) (sslInsecure p) (captureFile p) (noOpenBrowser p) (help p) (version p).
Definition set_proxyMode (v : bool) (p : invocation) : invocation :=
  mkInvocation (command p) (hdcPath p) (deviceID p) (deviceLabel p) (devicePort p) (mtu p)
    (mtuSet p) v (proxyPort p) (proxyPortSet p) (webPort p) (webPortSet p) (mitmwebPath p)
    (upstreamURL p) (sslInsecure p) (captureFile p) (noOpenBrowser p) (help p) (version p).
Definition set_proxyPort (v : Z) (p : invocation) : invocation :=
  mkInvocation (command p) (hdcPath p) (deviceID p) (deviceLabel p) (devicePort p) (mtu p)
    (mtuSet p) (proxyMode p) v (proxyPortSet p) (webPort p) (webPortSet p) (mitmwebPath p)
    (upstreamURL p) (sslInsecure p) (captureFile p) (noOpenBrowser p) (help p) (version p).
Definition set_proxyPortSet (v : bool) (p : invocation) : invocation :=
  mkInvocation (command p) (hdcPath p) (deviceID p) (deviceLabel p) (devicePort p) (mtu p)
    (mtuSet p) (proxyMode p) (proxyPort p) v (webPort p) (webPortSet p) (mitmwebPath p)
    (upstreamURL p) (sslInsecure p) (captureFile p) (noOpenBrowser p) (help p) (version p).
Definition set_webPort (v : Z) (p : invocation) : invocation :=
  mkInvocation (command p) (hdcPath p) (deviceID p) (deviceLabel p) (devicePort p) (mtu p)
    (mtuSet p) (proxyMode p) (proxyPort p) (proxyPortSet p) v (webPortSet p) (mitmwebPath p)
    (upstreamURL p) (sslInsecure p) (captureFile p) (noOpenBrowser p) (help p) (version p).
Definition set_webPortSet (v : bool) (p : invocation) : invocation :=
  mkInvocation (command p) (hdcPath p) (deviceID p) (deviceLabel p) (devicePort p) (mtu p)
    (mtuSet p) (proxyMode p) (proxyPort p) (proxyPortSet p) (webPort p) v (mitmwebPath p)
    (upstreamURL p) (sslInsecure p) (captureFile p) (noOpenBrowser p) (help p) (version p).
Definition set_mitmwebPath (v : gostring) (p : invocation) : invocation :=
  mkInvocation (command p) (hdcPath p) (deviceID p) (deviceLabel p) (devicePort p) (mtu p)
    (mtuSet p) (proxyMode p) (proxyPort p) (proxyPortSet p) (webPort p) (webPortSet p) v
    (upstreamURL p) (sslInsecure p) (captureFile p) (noOpenBrowser p) (help p) (version p).
Definition set_upstreamURL (v : gostring) (p : invocation) : invocation :=
  mkInvocation (command p) (hdcPath p) (deviceID p) (deviceLabel p) (devicePort p) (mtu p)
    (mtuSet p) (proxyMode p) (proxyPort p) (proxyPortSet p) (webPort p) (webPortSet p)
    (mitmwebPath p) v (sslInsecure p) (captureFile p) (noOpenBrowser p) (help p) (version p).
Definition set_sslInsecure (v : bool) (p : invocation) : invocation :=
  mkInvocation (command p) (hdcPath p) (deviceID p) (deviceLabel p) (devicePort p) (mtu p)
    (mtuSet p) (proxyMode p) (proxyPort p) (proxyPortSet p) (webPort p) (webPortSet p)
    (mitmwebPath p) (upstreamURL p) v (captureFile p) (noOpenBrowser p) (help p) (version p).
Definition set_captureFile (v : gostring) (p : invocation) : invocation :=
  mkInvocation (command p) (hdcPath p) (deviceID p) (deviceLabel p) (devicePort p) (mtu p)
    (mtuSet p) (proxyMode p) (proxyPort p) (proxyPortSet p) (webPort p) (webPortSet p)
    (mitmwebPath p) (upstreamURL p) (sslInsecure p) v (noOpenBrowser p) (help p) (version p).
Definition set_noOpenBrowser (v : bool) (p : invocation) : invocation :=
  mkInvocation (command p) (hdcPath p) (deviceID p) (deviceLabel p) (devicePort p) (mtu p)
    (mtuSet p) (proxyMode p) (proxyPort p) (proxyPortSet p) (webPort p) (webPortSet p)
    (mitmwebPath p) (upstreamURL p) (sslInsecure p) (captureFile p) v (help p) (version p).
Definition set_help (v : bool) (p : invocation) : invocation :=
  mkInvocation (command p) (hdcPath p) (deviceID p) (deviceLabel p) (devicePort p) (mtu p)
    (mtuSet p) (proxyMode p) (proxyPort p) (proxyPortSet p) (webPort p) (webPortSet p)
    (mitmwebPath p) (upstreamURL p) (sslInsecure p) (captureFile p) (noOpenBrowser p) v (version
    p).
Definition set_version (v : bool) (p : invocation) : invocation :=
  mkInvocation (command p) (hdcPath p) (deviceID p) (deviceLabel p) (devicePort p) (mtu p)
    (mtuSet p) (proxyMode p) (proxyPort p) (proxyPortSet p) (webPort p) (webPortSet p)
    (mitmwebPath p) (upstreamURL p) (sslInsecure p) (captureFile p) (noOpenBrowser p) (help p) v.

Definition initial_invocation : invocation :=
  mkInvocation [] [] [] [] daemon.DefaultDevicePort daemon.DefaultMTU false false
    proxysession.DefaultListenPort false proxysession.DefaultWebPort false [] [] false [] false false false.

(** * Parsing *)

Definition commands : list gostring := [str "start"; str "proxy"; str "status"; str "stop"; str "__daemon"].

Definition valued_options : list gostring :=
  [str "--hdc"; str "--device"; str "--device-label"; str "--device-port"; str "--mtu";
   str "--proxy-port"; str "--web-port"; str "--mitmweb"; str "--upstream"; str "--capture-file"].

Section parse.
Variable url_Parse : gostring → result error proxysession.URL.
(** [fmt]'s [%q] *)
Context `{Unicode}.

Definition parse_port (value : gostring) : option Z :=
  port ← Atoi value; if (port <? 1) || (65535 <? port) then None else Some port.

Definition parse_mtu (value : gostring) : option Z :=
  mtu ← Atoi value; if (mtu <? daemon.MinimumMTU) || (daemon.MaximumMTU <? mtu) then None else Some mtu.

Definition assignOption (parsed : invocation) (name value : gostring) : result error invocation :=
  if streq value [] then Err (ENew (name ++ str " cannot be empty"))
  else if streq name (str "--hdc") then Ok (set_hdcPath value parsed)
  else if streq name (str "--device") then Ok (set_deviceID value parsed)
  else if streq name (str "--device-label") then Ok (set_deviceLabel value parsed)
  else if streq name (str "--device-port") then
    match parse_port value with
    | None => Err (ENew (str "--device-port must be an integer in 1...65535"))
    | Some port => Ok (set_devicePort port parsed)
    end
  else if streq name (str "--mtu") then
    match parse_mtu value with
    | None => Err (ENew (str "--mtu must be an integer in " ++ Itoa daemon.MinimumMTU ++ str "..." ++ Itoa daemon.MaximumMTU))
    | Some mtu => Ok (set_mtuSet true (set_mtu mtu parsed))
    end
  else if streq name (str "--proxy-port") then
    match parse_port value with
    | None => Err (ENew (str "--proxy-port must be an integer in 1...65535"))
    | Some port => Ok (set_proxyPortSet true (set_proxyPort port parsed))
    end
  else if streq name (str "--web-port") then
    match parse_port value with
    | None => Err (ENew (str "--web-port must be an integer in 1...65535"))
    | Some port => Ok (set_webPortSet true (set_webPort port parsed))
    end
  else if streq name (str "--mitmweb") then Ok (set_mitmwebPath value parsed)
  else if streq name (str "--upstream") then
    match proxysession.ValidateUpstreamURL url_Parse value with
    | Some err => Err (EWrapf (str "--upstream") err)
    | None => Ok (set_upstreamURL value parsed)
    end
  else if streq name (str "--capture-file") then Ok (set_captureFile value parsed)
  else Ok parsed.

(** The argument loop. *)
Fixpoint parse_loop (parsed : invocation) (arguments : list gostring) : result error invocation :=
  match arguments with
  | [] => Ok parsed
  | argument :: rest =>
      if bool_decide (argument ∈ commands) then
        if negb (streq (command parsed) []) then
          Err (ENew (str "multiple commands were provided: " ++ command parsed ++ str " and " ++ argument))
        else parse_loop (set_command argument parsed) rest
      else if streq argument (str "--help") || streq argument (str "-h") then parse_loop (set_help true parsed) rest
      else if streq argument (str "--version") then parse_loop (set_version true parsed) rest
      else if streq argument (str "--proxy-mode") then parse_loop (set_proxyMode true parsed) rest
      else if streq argument (str "--ssl-insecure") then parse_loop (set_sslInsecure true parsed) rest
      else if streq argument (str "--no-open-browser") then parse_loop (set_noOpenBrowser true parsed) rest
      else if bool_decide (argument ∈ valued_options) then
        match rest with
        | [] => Err (ENew (argument ++ str " requires a value"))
        | value :: rest =>
            match assignOption parsed argument value with
            | Err err => Err err
            | Ok parsed => parse_loop parsed rest
            end
        end
      else
        let '(name, value, found) := Cut argument (str "=") in
        if found && bool_decide (name ∈ valued_options) then
          match assignOption parsed name value with
          | Err err => Err err
          | Ok parsed => parse_loop parsed rest
          end
        else Err (ENew (str "unknown argument " ++ Quote argument))
  end.

Definition finish_invocation (parsed : invocation) : result error invocation :=
  let cmd name := streq (command parsed) (str name) in
  if streq (command parsed) [] && negb (help parsed) && negb (version parsed) then
    Err (ENew (str "a command is required"))
  else if negb (cmd "__daemon"%string) && negb (streq (deviceLabel parsed) []) then
    Err (ENew (str "--device-label is an internal option"))
  else if negb (cmd "__daemon"%string) && (proxyMode parsed || negb (streq (captureFile parsed) [])) then
    Err (ENew (str "--proxy-mode and --capture-file are internal options"))
  else
    let parsed := if cmd "proxy"%string then set_proxyMode true parsed else parsed in
    if mtuSet parsed && negb (cmd "start"%string) && negb (cmd "proxy"%string) && negb (cmd "__daemon"%string) then
      Err (ENew (str "--mtu is only valid with start or proxy"))
    else
      let proxyOptionSet := proxyPortSet parsed || webPortSet parsed || negb (streq (mitmwebPath parsed) []) ||
        negb (streq (upstreamURL parsed) []) || sslInsecure parsed || noOpenBrowser parsed in
      if proxyOptionSet && negb (cmd "proxy"%string) && negb (cmd "__daemon"%string && proxyMode parsed) then
        Err (ENew (str "proxy options are only valid with proxy"))
      else if (proxyPort parsed =? webPort parsed) && (cmd "proxy"%string || proxyMode parsed) then
        Err (ENew (str "--proxy-port and --web-port must differ"))
      else Ok parsed.

Definition parseInvocation (arguments : list gostring) : result error invocation :=
  match parse_loop initial_invocation arguments with
  | Err err => Err err
  | Ok parsed => finish_invocation parsed
  end.
End parse.

(** * The daemon's arguments *)

Definition childArguments (parsed : invocation) (wantsProxy : bool) (hdcPath targetID targetLabel : gostring)
    : list gostring :=
  [str "__daemon"; str "--hdc"; hdcPath; str "--device"; targetID; str "--device-label"; targetLabel;
   str "--device-port"; Itoa (devicePort parsed); str "--mtu"; Itoa (mtu parsed)] ++
  if wantsProxy then
    [str "--proxy-mode"; str "--proxy-port"; Itoa (proxyPort parsed); str "--web-port"; Itoa (webPort parsed);
     str "--mitmweb"; mitmwebPath parsed; str "--capture-file"; captureFile parsed] ++
    (if negb (streq (upstreamURL parsed) []) then [str "--upstream"; upstreamURL parsed] else []) ++
    (if sslInsecure parsed then [str "--ssl-insecure"] else []) ++
    (if noOpenBrowser parsed then [str "--no-open-browser"] else [])
  else [].

(** * Failures and exit codes *)

Definition daemonFailure (snapshot : state.Snapshot) : error :=
  let code := if streq (state.LastErrorCode snapshot) [] then apperror.CodeDaemonUnavailable
              else state.LastErrorCode snapshot in
  let message := state.LastError snapshot in
  let message := if streq message [] then state.Message snapshot else message in
  let message := if streq message [] then str "the HarmonyNetBridge daemon stopped unexpectedly" else message in
  apperror.New code message.

(** [file]: what [state.ReadFile] gives. *)
Definition recentDaemonFailure (file : result error state.Snapshot) (notBefore : Time) : option error :=
  match file with
  | Err _ => None
  | Ok snapshot =>
      if negb (streq (state.Daemon snapshot) state.DaemonFailed) || (state.UpdatedAt snapshot <? notBefore) then None
      else Some (daemonFailure snapshot)
  end.

Definition exit_code (code : Code) : Z :=
  if bool_decide (code ∈ [apperror.CodeHDCNotFound; apperror.CodeNoDevice; apperror.CodeDeviceOffline;
                          apperror.CodeMultipleDevices; apperror.CodeDeviceNotFound]) then 3
  else if bool_decide (code ∈ [apperror.CodeDaemonRunning; apperror.CodeDaemonUnavailable;
                               apperror.CodePortConflict; apperror.CodeRPortFailed; apperror.CodeProxyUnavailable]) then 4
  else if bool_decide (code ∈ [apperror.CodeHandshakeTimeout; apperror.CodeVersionUnsupported;
                               apperror.CodeAppDisconnected]) then 5
  else 1.

(** [printError]: the text and the exit code. *)
Definition printError (err : error) : gostring * Z :=
  let '(code, message) := apperror.Details err in
  (str "[" ++ code ++ str "] " ++ message ++ [x0a], exit_code code).

(** * start and proxy *)

(** What [startCommand] prints on success. *)
Inductive notice := AlreadyRunning (s : state.Snapshot) | Started (s : state.Snapshot).

(** The answers of the machine: the daemon's status, hdc, the file system,
    the proxy preflight, the new process and the polls that follow, each with
    the state file at that moment. *)
Record StartInputs := mkStartInputs {
  si_status : result error control.Response;
  si_discover : gostring → result error gostring;      (* proxybridge.Discover *)
  si_hdc : result error gostring;                      (* hdc.Discover *)
  si_version : result error gostring;
  si_targets : result error (list hdc.Target);
  si_ensure : option error;
  si_previous : state.Snapshot;                        (* zero when unreadable *)
  si_ports : option error;                             (* CheckLoopbackPorts *)
  si_capture : result error gostring;                  (* NewCapturePath *)
  si_executable : option error;
  si_log : option error;
  si_chmod : option error;
  si_startedAt : Time;
  si_spawn : option error;
  si_release : option error;
  si_polls : list (result error control.Response * result error state.Snapshot);
  si_final : result error state.Snapshot;
}.

Section start.
Context `{Unicode}.
Variable Sum256 : list byte → list byte.
(** [err.Error()] *)
Variable Error : error → gostring.

Definition wants_proxy (parsed : invocation) : bool := streq (command parsed) (str "proxy") || proxyMode parsed.

(** A daemon already answers. *)
Definition join_running (parsed : invocation) (inputs : StartInputs) (running : state.Snapshot)
    : result error notice :=
  let proxy := state.Proxy running in
  let differs (text : string) := Err (apperror.New apperror.CodeDaemonRunning (str text)) in
  if streq (state.Daemon running) state.DaemonRunning then
    if negb (Bool.eqb (state.Enabled proxy) (wants_proxy parsed)) then
      differs "HarmonyNetBridge is already running in a different mode; stop it before switching modes"
    else if mtuSet parsed && negb (state.MTU running =? 0) && negb (state.MTU running =? mtu parsed) then
      Err (apperror.New apperror.CodeDaemonRunning
             (str "HarmonyNetBridge is already running with MTU " ++ Itoa (state.MTU running) ++
              str "; stop it before changing MTU"))
    else if wants_proxy parsed then
      let changed :=
        (proxyPortSet parsed && negb (state.ListenPort proxy =? proxyPort parsed)) ||
        (webPortSet parsed && negb (state.WebPort proxy =? webPort parsed)) ||
        (noOpenBrowser parsed && state.OpenBrowser proxy) ||
        negb (streq (state.UpstreamURL proxy) (upstreamURL parsed)) ||
        negb (Bool.eqb (state.SSLInsecure proxy) (sslInsecure parsed)) in
      let resolved :=
        if negb (streq (mitmwebPath parsed) []) then
          match si_discover inputs (mitmwebPath parsed) with
          | Err err => Err (apperror.Wrap apperror.CodeProxyUnavailable (Error err) (Some err))
          | Ok path => Ok (changed || negb (streq path (state.Executable proxy)))
          end
        else Ok changed in
      match resolved with
      | Err err => Err err
      | Ok true => differs "HarmonyNetBridge is already running with different proxy options; stop it before changing them"
      | Ok false => Ok (AlreadyRunning running)
      end
    else Ok (AlreadyRunning running)
  else if streq (state.Daemon running) state.DaemonFailed then Err (daemonFailure running)
  else differs "a HarmonyNetBridge daemon is already starting or stopping".

(** Proxy preflight: the executable and the capture file of the session. *)
Definition prepare_proxy (parsed : invocation) (inputs : StartInputs) : result error invocation :=
  match si_discover inputs (mitmwebPath parsed) with
  | Err err => Err (apperror.Wrap apperror.CodeProxyUnavailable (Error err) (Some err))
  | Ok path =>
      let parsed := set_mitmwebPath path parsed in
      let previous := state.Proxy (si_previous inputs) in
      let mayRecoverOwnedProxy := state.Enabled previous && (state.ListenPort previous =? proxyPort parsed) &&
        (state.WebPort previous =? webPort parsed) in
      let ports := if mayRecoverOwnedProxy then None else si_ports inputs in
      match ports with
      | Some err => Err (apperror.Wrap apperror.CodePortConflict (Error err) (Some err))
      | None =>
          match si_capture inputs with
          | Err err => Err (apperror.Wrap apperror.CodeProxyUnavailable
                              (str "a private capture filename could not be created") (Some err))
          | Ok captureFile => Ok (set_captureFile captureFile parsed)
          end
      end
  end.

(** The polls after the child was started. *)
Fixpoint await_running (startedAt : Time) (polls : list (result error control.Response * result error state.Snapshot))
    (final : result error state.Snapshot) : result error notice :=
  match polls with
  | [] =>
      match recentDaemonFailure final startedAt with
      | Some err => Err err
      | None => Err (apperror.New apperror.CodeDaemonUnavailable
                       (str "the daemon did not become ready within 10 seconds. Check ~/Library/Logs/HarmonyNetBridge/harmony-netbridge.log"))
      end
  | (response, file) :: polls =>
      let next :=
        match recentDaemonFailure file startedAt with
        | Some err => Err err
        | None => await_running startedAt polls final
        end in
      match response with
      | Ok response =>
          if control.OK response then
            if streq (state.Daemon (control.State response)) state.DaemonRunning then Ok (Started (control.State response))
            else if streq (state.Daemon (control.State response)) state.DaemonFailed
            then Err (daemonFailure (control.State response))
            else next
          else next
      | Err _ => next
      end
  end.

(** [startCommand] when no daemon answers. *)
Definition start_new (parsed : invocation) (inputs : StartInputs) : result error notice * list (list gostring) :=
  let fails err := (Err err, []) in
  match si_hdc inputs with
  | Err err => fails err
  | Ok hdcPath =>
  let versionFailed err := fails (apperror.Wrap apperror.CodeHDCNotFound (str "hdc was found but its version check failed") err) in
  match si_version inputs with
  | Err err => versionFailed (Some err)
  | Ok versionOutput =>
  if streq (TrimSpace versionOutput) [] then versionFailed None
  else
  match si_targets inputs with
  | Err err => fails (apperror.Wrap apperror.CodeNoDevice (str "hdc could not list Harmony devices") (Some err))
  | Ok targets =>
  match hdc.SelectTarget targets (deviceID parsed) with
  | Err err => fails err
  | Ok target =>
  match si_ensure inputs with
  | Some err => fails err
  | None =>
  match (if wants_proxy parsed then prepare_proxy parsed inputs else Ok parsed) with
  | Err err => fails err
  | Ok parsed =>
  match si_executable inputs with
  | Some err => fails (EWrapf (str "resolve harmony-netbridge executable") err)
  | None =>
  match si_log inputs with
  | Some err => fails (EWrapf (str "open daemon bootstrap log") err)
  | None =>
  match si_chmod inputs with
  | Some err => fails (EWrapf (str "protect daemon bootstrap log") err)
  | None =>
  let arguments := childArguments parsed (wants_proxy parsed) hdcPath (hdc.ID target) (hdc.RedactedName Sum256 target) in
  match si_spawn inputs with
  | Some err => fails (EWrapf (str "start HarmonyNetBridge daemon") err)
  | None =>
  match si_release inputs with
  | Some err => (Err (EWrapf (str "release HarmonyNetBridge daemon process") err), [arguments])
  | None => (await_running (si_startedAt inputs) (si_polls inputs) (si_final inputs), [arguments])
  end end end end end end end end end end end.

(** [startCommand]: its result and the argument vectors of the processes it
    started. *)
Definition startCommand (parsed : invocation) (inputs : StartInputs) : result error notice * list (list gostring) :=
  match si_status inputs with
  | Ok response =>
      if control.OK response then (join_running parsed inputs (control.State response), [])
      else start_new parsed inputs
  | Err _ => start_new parsed inputs
  end.
End start.

(** * status and stop *)

Definition statusCommand (call : result error control.Response) (now : Time) : result error state.Snapshot :=
  match call with
  | Err err => if control.IsUnavailable (Some err) then Ok (state.Stopped now) else Err err
  | Ok response =>
      if negb (control.OK response) then Err (apperror.New (control.ErrorCode response) (control.Error response))
      else Ok (control.State response)
  end.

Inductive stop_notice := AlreadyStopped | Stopped.

(** The polls of [stopCommand] before its deadline, each with the state file. *)
Fixpoint await_stopped (requestedAt : Time) (polls : list (option error * result error state.Snapshot))
    : result error stop_notice :=
  match polls with
  | [] => Err (apperror.New apperror.CodeDaemonUnavailable (str "the daemon did not stop within 8 seconds"))
  | (callErr, file) :: polls =>
      if control.IsUnavailable callErr then
        match recentDaemonFailure file requestedAt with
        | Some err => Err err
        | None => Ok Stopped
        end
      else await_stopped requestedAt polls
  end.

Definition stopCommand (requestedAt : Time) (call : result error control.Response)
    (polls : list (option error * result error state.Snapshot)) : result error stop_notice :=
  match call with
  | Err err => if control.IsUnavailable (Some err) then Ok AlreadyStopped else Err err
  | Ok response =>
      if negb (control.OK response) then Err (apperror.New (control.ErrorCode response) (control.Error response))
      else await_stopped requestedAt polls
  end.

(** * The daemon process *)

(** [daemonCommand] up to [Server.Run]: the daemon's configuration, given the
    outcomes of [Paths.Ensure] and of opening the log. *)
Definition daemonCommand (Sum256 : list byte → list byte) (parsed : invocation) (ensure log : option error)
    : result error daemon.Config :=
  if streq (hdcPath parsed) [] || streq (deviceID parsed) [] || streq (deviceLabel parsed) [] then
    Err (ENew (str "internal daemon arguments are incomplete"))
  else if proxyMode parsed && (streq (mitmwebPath parsed) [] || streq (captureFile parsed) []) then
    Err (ENew (str "internal proxy daemon arguments are incomplete"))
  else
    match ensure with
    | Some err => Err err
    | None =>
        match log with
        | Some err => Err err
        | None =>
            daemon.New Sum256 (daemon.mkConfig (deviceID parsed) (deviceLabel parsed) (devicePort parsed) (mtu parsed)
              true true 0 0 0 0 (proxyMode parsed) true)
        end
    end.

(** The configuration the proxy factory of [daemonCommand] starts with;
    [confDir] and [logFile] come from [runtimepath.Paths]. *)
Definition proxyConfig (parsed : invocation) (confDir logFile : gostring) : proxysession.Config :=
  {| proxysession.Executable := mitmwebPath parsed;
     proxysession.ListenPort := proxyPort parsed;
     proxysession.WebPort := webPort parsed;
     proxysession.OpenBrowser := negb (noOpenBrowser parsed);
     proxysession.CaptureFile := captureFile parsed;
     proxysession.ConfDir := confDir;
     proxysession.LogFile := logFile;
     proxysession.UpstreamURL := upstreamURL parsed;
     proxysession.SSLInsecure := sslInsecure parsed |}.

(** * What parsing accepts *)

Definition port_ok (p : Z) : Prop := 1 ≤ p ≤ 65535.

(** The numbers of an invocation are in range at every point of the loop. *)
Record in_range_inv (p : invocation) : Prop := {
  ir_port : port_ok (devicePort p);
  ir_mtu : daemon.MinimumMTU ≤ mtu p ≤ daemon.MaximumMTU;
  ir_proxy : port_ok (proxyPort p);
  ir_web : port_ok (webPort p);
  ir_command : command p = [] ∨ command p ∈ commands;
}.

Section parse_props.
Variable url_Parse : gostring → result error proxysession.URL.
Context `{Unicode}.

Lemma parse_port_ok value port : parse_port value = Some port → port_ok port.
Proof.
  unfold parse_port, port_ok. destruct (Atoi value) as [n|]; cbn [mbind option_bind]; [|done].
  case_if as E; [done|]. intros [= <-]. rewrite orb_false_iff, !Z.ltb_ge in E. lia.
Qed.

Lemma parse_mtu_ok value m : parse_mtu value = Some m → daemon.MinimumMTU ≤ m ≤ daemon.MaximumMTU.
Proof.
  unfold parse_mtu. destruct (Atoi value) as [n|]; cbn [mbind option_bind]; [|done].
  case_if as E; [done|]. intros [= <-]. rewrite orb_false_iff, !Z.ltb_ge in E. lia.
Qed.

Lemma assignOption_inv parsed name value parsed' :
  in_range_inv parsed → assignOption url_Parse parsed name value = Ok parsed' → in_range_inv parsed'.
Proof.
  intros [H1 H2 H3 H4 H5]. unfold assignOption.
  repeat (case_if; [
    try match goal with
    | |- context [parse_port value] => destruct (parse_port value) eqn:E; [apply parse_port_ok in E|]
    | |- context [parse_mtu value] => destruct (parse_mtu value) eqn:E; [apply parse_mtu_ok in E|]
    | |- context [proxysession.ValidateUpstreamURL url_Parse value] =>
        destruct (proxysession.ValidateUpstreamURL url_Parse value)
    end; first [done|intros [= <-]; by split]|]).
  intros [= <-]. by split.
Qed.

Lemma assignOption_upstream parsed name value parsed' :
  proxysession.ValidateUpstreamURL url_Parse (upstreamURL parsed) = None →
  assignOption url_Parse parsed name value = Ok parsed' →
  proxysession.ValidateUpstreamURL url_Parse (upstreamURL parsed') = None.
Proof.
  intros Hu. unfold assignOption.
  repeat (case_if; [
    try match goal with
    | |- context [parse_port value] => destruct (parse_port value)
    | |- context [parse_mtu value] => destruct (parse_mtu value)
    | |- context [proxysession.ValidateUpstreamURL url_Parse value] =>
        destruct (proxysession.ValidateUpstreamURL url_Parse value) eqn:?
    end; first [done|by intros [= <-]]|]).
  by intros [= <-].
Qed.

(** What the commands, the flags and the assignments preserve, the loop does. *)
Lemma parse_loop_preserves (P : invocation → Prop) :
  (∀ c p, c ∈ commands → P p → P (set_command c p)) →
  (∀ p, P p → P (set_help true p) ∧ P (set_version true p) ∧ P (set_proxyMode true p) ∧
              P (set_sslInsecure true p) ∧ P (set_noOpenBrowser true p)) →
  (∀ p name value p', P p → assignOption url_Parse p name value = Ok p' → P p') →
  ∀ arguments parsed parsed', P parsed → parse_loop url_Parse parsed arguments = Ok parsed' → P parsed'.
Proof.
  intros Hc Hf Ha arguments. induction arguments as [arguments IH] using (induction_ltof1 _ (@length gostring)).
  unfold ltof in IH. intros parsed parsed' Hi. destruct (Hf _ Hi) as (? & ? & ? & ? & ?).
  destruct arguments as [|argument rest]; cbn [parse_loop]; [by intros [= <-]|].
  case_if as Ec; [case_if; [done|]; apply IH; [cbn; lia|]; bool_to_prop; by apply Hc|].
  do 5 (case_if; [apply IH; [cbn; lia|]; done|]).
  case_if.
  - destruct rest as [|value rest]; [done|]. destruct (assignOption _ _ _ _) as [p|] eqn:E; [|done].
    apply IH; [cbn; lia|]. by apply (Ha parsed _ _ _ Hi E).
  - destruct (Cut _ _) as [[name value] found]. case_if; [|done].
    destruct (assignOption _ _ _ _) as [p|] eqn:E; [|done]. apply IH; [cbn; lia|]. by apply (Ha parsed _ _ _ Hi E).
Qed.

Lemma parse_loop_inv arguments parsed parsed' :
  in_range_inv parsed → parse_loop url_Parse parsed arguments = Ok parsed' → in_range_inv parsed'.
Proof.
  apply parse_loop_preserves; [| |exact assignOption_inv].
  - intros c p Hc []. split; try done. by right.
  - intros p []. split_and!; by split.
Qed.

Lemma finish_invocation_upstream p p' : finish_invocation p = Ok p' → upstreamURL p' = upstreamURL p.
Proof.
  unfold finish_invocation. cbv zeta. do 3 (case_if; [done|]).
  do 3 (match goal with |- (if ?b then Err _ else _) = _ → _ => destruct b end; [done|]). intros [= <-]. by case_if.
Qed.

Lemma parseInvocation_upstream arguments p :
  parseInvocation url_Parse arguments = Ok p → proxysession.ValidateUpstreamURL url_Parse (upstreamURL p) = None.
Proof.
  unfold parseInvocation. destruct (parse_loop _ _ _) as [p0|] eqn:E; [|done]. intros ->%finish_invocation_upstream.
  revert E. apply (parse_loop_preserves (λ p, proxysession.ValidateUpstreamURL url_Parse (upstreamURL p) = None));
    [done|done|exact assignOption_upstream|done].
Qed.

Lemma initial_in_range : in_range_inv initial_invocation.
Proof. split; cbn; unfold port_ok, daemon.MinimumMTU, daemon.MaximumMTU; try (vm_compute; split; discriminate). by left. Qed.

(** What the command line accepts.  An accepted invocation has a known
    command (or asks for help or the version), all its ports and the MTU in
    range, the internal options only with the internal command, proxy options
    only in proxy mode, and two different ports in proxy mode. *)
Theorem parseInvocation_sound arguments p :
  parseInvocation url_Parse arguments = Ok p →
  (command p ∈ commands ∨ command p = [] ∧ (help p = true ∨ version p = true)) ∧
  port_ok (devicePort p) ∧ port_ok (proxyPort p) ∧ port_ok (webPort p) ∧
  daemon.MinimumMTU ≤ mtu p ≤ daemon.MaximumMTU ∧
  (command p ≠ str "__daemon" → deviceLabel p = [] ∧ captureFile p = [] ∧
     (proxyMode p = true → command p = str "proxy")) ∧
  (command p = str "proxy" → proxyMode p = true) ∧
  (proxyMode p = false → mitmwebPath p = [] ∧ upstreamURL p = [] ∧ sslInsecure p = false ∧ noOpenBrowser p = false) ∧
  (proxyMode p = true → proxyPort p ≠ webPort p).
Proof.
  unfold parseInvocation. destruct (parse_loop _ _ _) as [p0|] eqn:E; [|done].
  apply parse_loop_inv in E as [H1 H2 H3 H4 H5]; [|apply initial_in_range].
  unfold finish_invocation. cbv zeta. case_if as E1; [done|]. case_if as E2; [done|]. case_if as E3; [done|].
  set (p1 := if streq (command p0) (str "proxy") then set_proxyMode true p0 else p0).
  assert (Hsame : command p1 = command p0 ∧ devicePort p1 = devicePort p0 ∧ mtu p1 = mtu p0 ∧
    proxyPort p1 = proxyPort p0 ∧ webPort p1 = webPort p0 ∧ deviceLabel p1 = deviceLabel p0 ∧
    captureFile p1 = captureFile p0 ∧ help p1 = help p0 ∧ version p1 = version p0 ∧
    (command p0 = str "proxy" → proxyMode p1 = true) ∧ (command p0 ≠ str "proxy" → proxyMode p1 = proxyMode p0)).
  { unfold p1. destruct (decide (command p0 = str "proxy")) as [Hp|Hp];
      [rewrite (bool_decide_eq_true_2 _ Hp)|rewrite (bool_decide_eq_false_2 _ Hp)];
      split_and!; try reflexivity; clear -Hp; tauto. }
  destruct Hsame as (S1 & S2 & S3 & S4 & S5 & S6 & S7 & S8 & S9 & S10 & S11).
  case_if as E4; [done|]. case_if as E5; [done|]. case_if as E6; [done|]. intros [= <-].
  rewrite S1, S2, S3, S4, S5, S6, S7, S8, S9 in *.
  assert (Hd : command p0 ≠ str "__daemon" → deviceLabel p0 = [] ∧ captureFile p0 = [] ∧ proxyMode p0 = false).
  { intros Hne. rewrite bool_decide_eq_false_2 in E2, E3 by done. cbn [negb andb] in E2, E3.
    apply orb_false_iff in E3 as [? ?]. bool_to_prop. by split_and!. }
  destruct H2 as [H2 H2']. split_and!; try done; try apply H1; try apply H3; try apply H4.
  - destruct H5 as [H5|H5]; [|by left]. right. split; [done|]. rewrite bool_decide_eq_true_2 in E1 by done.
    destruct (help p0); [by left|]. destruct (version p0); [by right|done].
  - intros Hne. destruct (Hd Hne) as (-> & -> & Hm). split_and!; try done. intros Hp.
    destruct (decide (command p0 = str "proxy")) as [|Hn]; [done|]. rewrite S11 in Hp by done. congruence.
  - intros Hm. assert (command p0 ≠ str "proxy") as Hn by (intros Hc; rewrite S10 in Hm by done; done).
    rewrite Hm, andb_false_r, (bool_decide_eq_false_2 (_ = str "proxy")), !andb_true_r in E5 by done.
    rewrite !orb_false_iff in E5. destruct E5 as [[[[[_ _] ?] ?] ?] ?]. bool_to_prop. by split_and!.
  - intros Hm Heq. rewrite Hm, orb_true_r, andb_true_r in E6. bool_to_prop. done.
Qed.

(** * The daemon gets what the user asked for *)

Lemma parse_flag_proxy p rest :
  parse_loop url_Parse p (str "--proxy-mode" :: rest) = parse_loop url_Parse (set_proxyMode true p) rest.
Proof. cbn [parse_loop]. literals. reflexivity. Qed.
Lemma parse_flag_insecure p rest :
  parse_loop url_Parse p (str "--ssl-insecure" :: rest) = parse_loop url_Parse (set_sslInsecure true p) rest.
Proof. cbn [parse_loop]. literals. reflexivity. Qed.
Lemma parse_flag_browser p rest :
  parse_loop url_Parse p (str "--no-open-browser" :: rest) = parse_loop url_Parse (set_noOpenBrowser true p) rest.
Proof. cbn [parse_loop]. literals. reflexivity. Qed.
Lemma parse_flag_daemon p rest :
  command p = [] → parse_loop url_Parse p (str "__daemon" :: rest) = parse_loop url_Parse (set_command (str "__daemon") p) rest.
Proof. intros Hc. cbn [parse_loop]. rewrite Hc. literals. reflexivity. Qed.

Lemma parse_valued p name value rest p' :
  name ∈ valued_options → assignOption url_Parse p name value = Ok p' →
  parse_loop url_Parse p (name :: value :: rest) = parse_loop url_Parse p' rest.
Proof.
  intros Hin Ha. cbn [parse_loop]. rewrite Ha.
  assert (forallb (λ n, negb (bool_decide (n ∈ commands)) && negb (streq n (str "--help") || streq n (str "-h")) &&
    negb (streq n (str "--version")) && negb (streq n (str "--proxy-mode")) && negb (streq n (str "--ssl-insecure")) &&
    negb (streq n (str "--no-open-browser"))) valued_options = true) as Hv by (vm_compute; reflexivity).
  rewrite forallb_forall in Hv. specialize (Hv name (proj1 (list_elem_of_In _ _) Hin)).
  rewrite !andb_true_iff in Hv. destruct Hv as [[[[[H1 H2] H3] H4] H5] H6].
  apply negb_true_iff in H1, H2, H3, H4, H5, H6. rewrite H1, H2, H3, H4, H5, H6.
  by rewrite bool_decide_eq_true_2.
Qed.

Lemma Itoa_nonempty n : Itoa n ≠ [].
Proof.
  unfold Itoa. case_if; [done|]. destruct (utoa_spec n) as (Hne & _); [bool_to_prop; lia|]. done.
Qed.

Lemma parse_port_Itoa port : port_ok port → parse_port (Itoa port) = Some port.
Proof.
  unfold port_ok. intros Hp. unfold parse_port. rewrite Atoi_Itoa by (unfold min_int64, max_int64; lia). cbn [mbind option_bind].
  rewrite (proj2 (orb_false_iff _ _)); [done|]. rewrite !Z.ltb_ge. lia.
Qed.

Lemma parse_mtu_Itoa m : daemon.MinimumMTU ≤ m ≤ daemon.MaximumMTU → parse_mtu (Itoa m) = Some m.
Proof.
  unfold daemon.MinimumMTU, daemon.MaximumMTU. intros Hp. unfold parse_mtu, daemon.MinimumMTU, daemon.MaximumMTU.
  rewrite Atoi_Itoa by (unfold min_int64, max_int64; lia). cbn [mbind option_bind].
  rewrite (proj2 (orb_false_iff _ _)); [done|]. rewrite !Z.ltb_ge. lia.
Qed.

Ltac option_listed := decide_now.
Ltac assigned :=
  unfold assignOption; rewrite (bool_decide_eq_false_2 (_ = [])) by assumption; literals; cbv iota; try reflexivity.

Lemma parse_hdc p v rest :
  v ≠ [] → parse_loop url_Parse p (str "--hdc" :: v :: rest) = parse_loop url_Parse (set_hdcPath v p) rest.
Proof. intros Hv. apply parse_valued; [option_listed|]. assigned. Qed.
Lemma parse_device p v rest :
  v ≠ [] → parse_loop url_Parse p (str "--device" :: v :: rest) = parse_loop url_Parse (set_deviceID v p) rest.
Proof. intros Hv. apply parse_valued; [option_listed|]. assigned. Qed.
Lemma parse_device_label p v rest :
  v ≠ [] → parse_loop url_Parse p (str "--device-label" :: v :: rest) = parse_loop url_Parse (set_deviceLabel v p) rest.
Proof. intros Hv. apply parse_valued; [option_listed|]. assigned. Qed.
Lemma parse_mitmweb p v rest :
  v ≠ [] → parse_loop url_Parse p (str "--mitmweb" :: v :: rest) = parse_loop url_Parse (set_mitmwebPath v p) rest.
Proof. intros Hv. apply parse_valued; [option_listed|]. assigned. Qed.
Lemma parse_capture_file p v rest :
  v ≠ [] → parse_loop url_Parse p (str "--capture-file" :: v :: rest) = parse_loop url_Parse (set_captureFile v p) rest.
Proof. intros Hv. apply parse_valued; [option_listed|]. assigned. Qed.
Lemma parse_device_port p n rest :
  port_ok n → parse_loop url_Parse p (str "--device-port" :: Itoa n :: rest) = parse_loop url_Parse (set_devicePort n p) rest.
Proof. intros Hn. pose proof (Itoa_nonempty n) as Hv. apply parse_valued; [option_listed|]. assigned. by rewrite parse_port_Itoa. Qed.
Lemma parse_proxy_port p n rest :
  port_ok n → parse_loop url_Parse p (str "--proxy-port" :: Itoa n :: rest) = parse_loop url_Parse (set_proxyPortSet true (set_proxyPort n p)) rest.
Proof. intros Hn. pose proof (Itoa_nonempty n) as Hv. apply parse_valued; [option_listed|]. assigned. by rewrite parse_port_Itoa. Qed.
Lemma parse_web_port p n rest :
  port_ok n → parse_loop url_Parse p (str "--web-port" :: Itoa n :: rest) = parse_loop url_Parse (set_webPortSet true (set_webPort n p)) rest.
Proof. intros Hn. pose proof (Itoa_nonempty n) as Hv. apply parse_valued; [option_listed|]. assigned. by rewrite parse_port_Itoa. Qed.
Lemma parse_mtu_option p n rest :
  daemon.MinimumMTU ≤ n ≤ daemon.MaximumMTU →
  parse_loop url_Parse p (str "--mtu" :: Itoa n :: rest) = parse_loop url_Parse (set_mtuSet true (set_mtu n p)) rest.
Proof. intros Hn. pose proof (Itoa_nonempty n) as Hv. apply parse_valued; [option_listed|]. assigned. by rewrite parse_mtu_Itoa. Qed.
Lemma parse_upstream p v rest :
  v ≠ [] → proxysession.ValidateUpstreamURL url_Parse v = None →
  parse_loop url_Parse p (str "--upstream" :: v :: rest) = parse_loop url_Parse (set_upstreamURL v p) rest.
Proof. intros Hv Hu. apply parse_valued; [option_listed|]. assigned. by rewrite Hu. Qed.

(** The options of the proxy as [startCommand] prepared them. *)
Record proxy_ready (parsed : invocation) : Prop := {
  pr_proxy : port_ok (proxyPort parsed);
  pr_web : port_ok (webPort parsed);
  pr_differ : proxyPort parsed ≠ webPort parsed;
  pr_mitmweb : mitmwebPath parsed ≠ [];
  pr_capture : captureFile parsed ≠ [];
  pr_upstream : proxysession.ValidateUpstreamURL url_Parse (upstreamURL parsed) = None;
}.

(** What the daemon process must come to see. *)
Definition daemon_invocation (parsed : invocation) (wantsProxy : bool) (hdcPath targetID label : gostring) : invocation :=
  mkInvocation (str "__daemon") hdcPath targetID label (devicePort parsed) (mtu parsed) true wantsProxy
    (if wantsProxy then proxyPort parsed else proxysession.DefaultListenPort) wantsProxy
    (if wantsProxy then webPort parsed else proxysession.DefaultWebPort) wantsProxy
    (if wantsProxy then mitmwebPath parsed else []) (if wantsProxy then upstreamURL parsed else [])
    (wantsProxy && sslInsecure parsed) (if wantsProxy then captureFile parsed else [])
    (wantsProxy && noOpenBrowser parsed) false false.

Lemma parse_upstream_option parsed p rest :
  upstreamURL p = [] → proxysession.ValidateUpstreamURL url_Parse (upstreamURL parsed) = None →
  parse_loop url_Parse p
    ((if negb (streq (upstreamURL parsed) []) then [str "--upstream"; upstreamURL parsed] else []) ++ rest) =
  parse_loop url_Parse (set_upstreamURL (upstreamURL parsed) p) rest.
Proof.
  intros Hp Hu. case_bool_decide as E; cbn [negb app]; [|by apply parse_upstream].
  rewrite E. destruct p. cbn in Hp. by subst.
Qed.

(** The daemon process runs with what the user chose.  Parsing the
    argument vector [startCommand] builds gives back exactly the chosen
    device, port and MTU and, in proxy mode, the proxy's ports, executable,
    capture file, upstream and flags, for every such choice. *)
Theorem childArguments_roundtrip parsed (wantsProxy : bool) hdcPath targetID label :
  hdcPath ≠ [] → targetID ≠ [] → label ≠ [] → port_ok (devicePort parsed) →
  daemon.MinimumMTU ≤ mtu parsed ≤ daemon.MaximumMTU →
  (wantsProxy = true → proxy_ready parsed) →
  parseInvocation url_Parse (childArguments parsed wantsProxy hdcPath targetID label) =
    Ok (daemon_invocation parsed wantsProxy hdcPath targetID label).
Proof.
  intros H1 H2 H3 H4 H5 Hpr. unfold parseInvocation, childArguments. cbn [app].
  rewrite parse_flag_daemon, parse_hdc, parse_device, parse_device_label, parse_device_port, parse_mtu_option by done.
  destruct wantsProxy.
  - destruct (Hpr eq_refl) as [P1 P2 P3 P4 P5 P6]. cbn [app].
    rewrite parse_flag_proxy, parse_proxy_port, parse_web_port, parse_mitmweb, parse_capture_file by done.
    rewrite parse_upstream_option by done.
    assert (∃ p, parse_loop url_Parse (set_upstreamURL (upstreamURL parsed) (set_captureFile (captureFile parsed)
      (set_mitmwebPath (mitmwebPath parsed) (set_webPortSet true (set_webPort (webPort parsed)
      (set_proxyPortSet true (set_proxyPort (proxyPort parsed) (set_proxyMode true (set_mtuSet true (set_mtu (mtu parsed)
      (set_devicePort (devicePort parsed) (set_deviceLabel label (set_deviceID targetID (set_hdcPath hdcPath
      (set_command (str "__daemon") initial_invocation)))))))))))))))
      ((if sslInsecure parsed then [str "--ssl-insecure"] else []) ++
       (if noOpenBrowser parsed then [str "--no-open-browser"] else [])) = Ok p ∧
      p = daemon_invocation parsed true hdcPath targetID label) as (p & -> & ->).
    { eexists. split; [|reflexivity]. unfold daemon_invocation. destruct (sslInsecure parsed), (noOpenBrowser parsed);
        cbn [app andb]; rewrite ?parse_flag_insecure, ?parse_flag_browser; reflexivity. }
    unfold finish_invocation, daemon_invocation. cbn [command deviceLabel proxyMode captureFile help version mtuSet
      proxyPortSet webPortSet proxyPort webPort]. literals. cbn [negb andb orb]. cbv iota.
    cbn [negb andb orb mtuSet proxyMode proxyPort webPort proxyPortSet webPortSet].
    rewrite (proj2 (Z.eqb_neq _ _) P3). reflexivity.
  - cbn [parse_loop]. unfold finish_invocation. cbn. literals. reflexivity.
Qed.
End parse_props.

(** * start *)

Section start_props.
Context `{Unicode}.
Variable Sum256 : list byte → list byte.
Variable Error : error → gostring.

Lemma await_running_ok startedAt polls final n :
  await_running startedAt polls final = Ok n →
  ∃ s, n = Started s ∧ state.Daemon s = state.DaemonRunning ∧
    ∃ response file, (Ok response, file) ∈ polls ∧ control.OK response = true ∧ control.State response = s.
Proof.
  induction polls as [|[response file] polls IH]; cbn [await_running]; [by case_match|].
  assert (Hnext : match recentDaemonFailure file startedAt with
    | Some err => Err err | None => await_running startedAt polls final end = Ok n →
    ∃ s, n = Started s ∧ state.Daemon s = state.DaemonRunning ∧
      ∃ response0 file0, (Ok response0, file0) ∈ (response, file) :: polls ∧ control.OK response0 = true ∧ control.State response0 = s).
  { case_match; [done|]. intros (s & ? & ? & r0 & f0 & ? & ?)%IH. exists s. split_and!; try done.
    exists r0, f0. split; [by apply list_elem_of_further|done]. }
  destruct response as [response|]; [|done]. destruct (control.OK response) eqn:Eo; [|done].
  case_bool_decide as Er; [|by case_bool_decide].
  intros [= <-]. exists (control.State response). split_and!; try done. exists response, file.
  split; [apply list_elem_of_here|done].
Qed.

Lemma join_running_ok parsed inputs running n :
  join_running Error parsed inputs running = Ok n →
  n = AlreadyRunning running ∧ state.Daemon running = state.DaemonRunning ∧
  state.Enabled (state.Proxy running) = wants_proxy parsed.
Proof.
  unfold join_running. cbv zeta. case_bool_decide as Er; [|by case_bool_decide].
  case_if as Em; [done|]. apply negb_false_iff, eqb_prop in Em. case_if; [done|]. case_if.
  - destruct (if negb (streq (mitmwebPath parsed) []) then _ else _) as [[]|]; [done| |done]. by intros [= <-].
  - by intros [= <-].
Qed.

Lemma prepare_proxy_same parsed inputs p :
  prepare_proxy Error parsed inputs = Ok p →
  wants_proxy p = wants_proxy parsed ∧ devicePort p = devicePort parsed ∧ mtu p = mtu parsed ∧
  proxyPort p = proxyPort parsed ∧ webPort p = webPort parsed ∧ upstreamURL p = upstreamURL parsed ∧
  sslInsecure p = sslInsecure parsed ∧ noOpenBrowser p = noOpenBrowser parsed ∧
  si_discover inputs (mitmwebPath parsed) = Ok (mitmwebPath p) ∧ si_capture inputs = Ok (captureFile p).
Proof.
  unfold prepare_proxy. destruct (si_discover _ _) as [path|]; [|done]. cbv zeta.
  destruct (match _ with true => None | false => si_ports inputs end) as [e|]; [done|].
  destruct (si_capture inputs); [|done].
  intros [= <-]. by split_and!.
Qed.

(** What holds of the processes started for [parsed]. *)
Definition spawn_ok (parsed : invocation) (inputs : StartInputs) (arguments : list gostring) : Prop :=
  ∃ hdcPath targets target p,
    si_hdc inputs = Ok hdcPath ∧ si_targets inputs = Ok targets ∧
    hdc.SelectTarget targets (deviceID parsed) = Ok target ∧
    arguments = childArguments p (wants_proxy parsed) hdcPath (hdc.ID target) (hdc.RedactedName Sum256 target) ∧
    devicePort p = devicePort parsed ∧ mtu p = mtu parsed ∧ proxyPort p = proxyPort parsed ∧ webPort p = webPort parsed ∧
    upstreamURL p = upstreamURL parsed ∧ sslInsecure p = sslInsecure parsed ∧ noOpenBrowser p = noOpenBrowser parsed ∧
    (wants_proxy parsed = true →
       si_discover inputs (mitmwebPath parsed) = Ok (mitmwebPath p) ∧ si_capture inputs = Ok (captureFile p)).

Definition new_ok (parsed : invocation) (inputs : StartInputs) (o : result error notice * list (list gostring)) : Prop :=
  (length o.2 ≤ 1)%nat ∧ (∀ arguments, arguments ∈ o.2 → spawn_ok parsed inputs arguments) ∧
  (∀ n, o.1 = Ok n → ∃ s, n = Started s ∧ state.Daemon s = state.DaemonRunning ∧ length o.2 = 1%nat).

Lemma new_ok_fail parsed inputs err : new_ok parsed inputs (Err err, []).
Proof. split_and!; [cbn; lia|set_solver|done]. Qed.

Lemma start_new_ok parsed inputs : new_ok parsed inputs (start_new Sum256 Error parsed inputs).
Proof.
  unfold start_new. destruct (si_hdc inputs) as [hdcPath|e] eqn:Eh; [|apply new_ok_fail].
  destruct (si_version inputs) as [v|e]; [|apply new_ok_fail]. case_if; [apply new_ok_fail|].
  destruct (si_targets inputs) as [targets|e] eqn:Ets; [|apply new_ok_fail].
  destruct (hdc.SelectTarget targets (deviceID parsed)) as [target|e] eqn:Et; [|apply new_ok_fail].
  destruct (si_ensure inputs); [apply new_ok_fail|].
  destruct (if wants_proxy parsed then _ else _) as [p|e] eqn:Epp; [|apply new_ok_fail].
  assert (wants_proxy p = wants_proxy parsed ∧ devicePort p = devicePort parsed ∧ mtu p = mtu parsed ∧
    proxyPort p = proxyPort parsed ∧ webPort p = webPort parsed ∧ upstreamURL p = upstreamURL parsed ∧
    sslInsecure p = sslInsecure parsed ∧ noOpenBrowser p = noOpenBrowser parsed ∧
    (wants_proxy parsed = true →
       si_discover inputs (mitmwebPath parsed) = Ok (mitmwebPath p) ∧ si_capture inputs = Ok (captureFile p))) as (Hw & Hsame).
  { destruct (wants_proxy parsed) eqn:Ew; [|injection Epp as <-; by rewrite Ew].
    apply prepare_proxy_same in Epp. rewrite Ew in Epp. clear -Epp. tauto. }
  destruct (si_executable inputs); [apply new_ok_fail|]. destruct (si_log inputs); [apply new_ok_fail|].
  destruct (si_chmod inputs); [apply new_ok_fail|]. destruct (si_spawn inputs); [apply new_ok_fail|].
  rewrite Hw. assert (Hargs : ∀ arguments,
    arguments ∈ [childArguments p (wants_proxy parsed) hdcPath (hdc.ID target) (hdc.RedactedName Sum256 target)] →
    spawn_ok parsed inputs arguments).
  { intros arguments ->%list_elem_of_singleton. exists hdcPath, targets, target, p. by split_and!; try apply Hsame. }
  destruct (si_release inputs); (split_and!; [cbn; lia|exact Hargs|]); [done|].
  intros n (s & -> & ? & _)%await_running_ok. eauto.
Qed.

(** At most one daemon.  When a daemon answers, [startCommand] starts no
    process, and reports success only if the running daemon is RUNNING in the
    requested mode.  Otherwise it starts at most one process, for the one
    device [SelectTarget] allows and with the requested settings, and reports
    success only after the daemon itself answered that it is RUNNING. *)
Theorem startCommand_spec parsed inputs :
  let '(r, spawned) := startCommand Sum256 Error parsed inputs in
  (∀ response, si_status inputs = Ok response → control.OK response = true → spawned = []) ∧
  (length spawned ≤ 1)%nat ∧
  (∀ arguments, arguments ∈ spawned → spawn_ok parsed inputs arguments) ∧
  (∀ n, r = Ok n →
     (∃ s, n = AlreadyRunning s ∧ state.Daemon s = state.DaemonRunning ∧
        state.Enabled (state.Proxy s) = wants_proxy parsed ∧ spawned = []) ∨
     (∃ s, n = Started s ∧ state.Daemon s = state.DaemonRunning ∧ length spawned = 1%nat)).
Proof.
  destruct (start_new_ok parsed inputs) as (H1 & H2 & H3).
  unfold startCommand. destruct (si_status inputs) as [response|e].
  - destruct (control.OK response) eqn:Eo.
    + split_and!; [done|cbn; lia|set_solver|]. intros n (-> & ? & ?)%join_running_ok. left. eauto 6.
    + destruct (start_new Sum256 Error parsed inputs) as [r spawned].
      split_and!; [intros ? [= <-]; congruence|done|exact H2|]. intros n Hn%H3. by right.
  - destruct (start_new Sum256 Error parsed inputs) as [r spawned].
    split_and!; [done|done|exact H2|]. intros n Hn%H3. by right.
Qed.
End start_props.

(** ** Concrete command lines *)

#[local] Existing Instance ascii_unicode.

Definition sample_arguments : list gostring :=
  [str "--mtu=1300"; str "proxy"; str "--web-port"; str "9091"; str "--no-open-browser"].

Definition sample_invocation : invocation :=
  match parseInvocation proxysession.sample_parse sample_arguments with Ok p => p | Err _ => initial_invocation end.

Lemma parseInvocation_sound_witness :
  command sample_invocation = str "proxy" ∧ mtu sample_invocation = 1300 ∧ webPort sample_invocation = 9091 ∧
  (proxyMode sample_invocation = true → proxyPort sample_invocation ≠ webPort sample_invocation).
Proof.
  split; [reflexivity|]. split; [reflexivity|]. split; [reflexivity|].
  apply (parseInvocation_sound proxysession.sample_parse sample_arguments sample_invocation). vm_compute. reflexivity.
Defined.

Definition sample_prepared : invocation :=
  set_captureFile (str "/c/harmony-1.mitm") (set_mitmwebPath (str "/opt/homebrew/bin/mitmweb") sample_invocation).

Lemma childArguments_roundtrip_witness :
  parseInvocation proxysession.sample_parse
    (childArguments sample_prepared true (str "/usr/bin/hdc") (str "ABC 123=x") (str "device-1")) =
  Ok (daemon_invocation sample_prepared true (str "/usr/bin/hdc") (str "ABC 123=x") (str "device-1")).
Proof.
  apply (childArguments_roundtrip proxysession.sample_parse sample_prepared true).
  - discriminate.
  - discriminate.
  - discriminate.
  - vm_compute. split; discriminate.
  - vm_compute. split; discriminate.
  - intros _. split; [vm_compute; split; discriminate|vm_compute; split; discriminate| | | |]; vm_compute; congruence.
Defined.
End cli.
