(* ===== verification/Status.v ===== *)
(** What the command line prints and returns
    (src/cmd/harmony-netbridge/main.go): [printStatus] with [formatBytes] and
    [formatDuration], and [run] from the arguments to the exit code.

    A float64 that holds an integer, or such an integer divided by a power of
    1024, is kept as the exact fraction it is; the rounding of the conversion
    from uint64 and of [%.1f] is written out. *)
From S2P Require Import Prelude Errors GoStrings GoOS GoNet Protocol State Control Hdc Daemon GoPath ProxySession Cli.

Module status.

(** * Numbers *)

(** [a / b] rounded to the nearest integer, ties to even. *)
Definition round_half_even (a b : Z) : Z :=
  let q := a / b in
  let r := a mod b in
  if 2 * r <? b then q
  else if b <? 2 * r then q + 1
  else if Z.even q then q else q + 1.

(** [float64(v)] of a uint64: 53 significant bits. *)
Definition float64_of (v : Z) : Z :=
  if v <? 2 ^ 53 then v
  else let ulp := 2 ^ (Z.log2 v - 52) in round_half_even v ulp * ulp.

(** [%.1f] of the non-negative fraction [a / b]. *)
Definition format_tenths (a b : Z) : gostring :=
  let tenths := round_half_even (10 * a) b in
  Itoa (tenths / 10) ++ str "." ++ Itoa (tenths mod 10).

Definition units : list gostring := [str "KiB"; str "MiB"; str "GiB"; str "TiB"].

(** The loop of [formatBytes]: [amount] is the fraction [a / b], and there are
    [rounds] units above [unitIndex].  The final [b] and index. *)
Fixpoint scale (rounds : nat) (a b unitIndex : Z) : Z * Z :=
  match rounds with
  | O => (b, unitIndex)
  | S rounds => if 1024 * b <=? a then scale rounds a (1024 * b) (unitIndex + 1) else (b, unitIndex)
  end.

(** [None]: the index into [units] is out of range. *)
Definition formatBytes (value : Z) : option gostring :=
  if value <? 1024 then Some (Itoa value ++ str " B")
  else
    let amount := float64_of value in
    let '(b, unitIndex) := scale (length units) amount 1 (-1) in
    unit ← (if unitIndex <? 0 then None else units !! Z.to_nat unitIndex);
    Some (format_tenths amount b ++ str " " ++ unit).

(** [Duration.Round(time.Second)] of a non-negative duration. *)
Definition round_seconds (d : Duration) : Duration :=
  let r := d mod Second in
  if 2 * r <? Second then d - r
  else if d + Second - r <=? max_int64 then d + Second - r else max_int64.

(** The fraction in [Duration.String]: [n] decimal digits of [v] without
    trailing zeros. *)
Fixpoint format_fraction (n : nat) (v : Z) (print : bool) (acc : gostring) : gostring :=
  match n with
  | O => if print then chr "." :: acc else acc
  | S n =>
      let print := print || negb (v mod 10 =? 0) in
      format_fraction n (v / 10) print (if print then z2b (48 + v mod 10) :: acc else acc)
  end.

(** [Duration.String] of zero or of at least one second. *)
Definition duration_String (d : Duration) : gostring :=
  let s := d / Second in
  let m := s / 60 in
  let h := m / 60 in
  (if 0 <? m then (if 0 <? h then Itoa h ++ str "h" else []) ++ Itoa (m mod 60) ++ str "m" else []) ++
  Itoa (s mod 60) ++ format_fraction 9 (d mod Second) false [] ++ str "s".

Definition formatDuration (duration : Duration) : gostring :=
  duration_String (round_seconds (if duration <? 0 then 0 else duration)).

(** * The status lines *)

(** A printed line: its label with the padding, and the rest. *)
Record Row := mkRow { r_label : gostring; r_text : gostring }.

Definition row (label : string) (text : gostring) : Row := mkRow (str label) text.

Definition rows_if (b : bool) (rows : list Row) : list Row := if b then rows else [].

Definition shown_device (snapshot : state.Snapshot) : gostring :=
  if streq (state.Device snapshot) [] then str "None"
  else str "Harmony device (" ++ state.Device snapshot ++ str ")".

Definition shown_message (snapshot : state.Snapshot) : gostring :=
  if streq (state.Message snapshot) [] then str "No status message" else state.Message snapshot.

Definition proxy_rows (proxy : state.ProxySnapshot) : list Row :=
  [row "Proxy:     " (state.Status proxy ++ str " (HTTP/HTTPS TCP)")] ++
  rows_if (0 <? state.WebPort proxy)
    [if state.OpenBrowser proxy
     then row "Proxy UI:  " (str "opened by mitmweb on 127.0.0.1:" ++ Itoa (state.WebPort proxy))
     else row "Proxy UI:  " (str "loopback 127.0.0.1:" ++ Itoa (state.WebPort proxy) ++ str " (browser launch disabled)")] ++
  rows_if (negb (streq (state.CaptureFile proxy) [])) [row "Capture:   " (state.CaptureFile proxy)] ++
  rows_if (negb (streq (state.CACertFile proxy) []))
    [row "HTTPS CA:  " (str "App downloads from " ++ state.CACertFile proxy ++ str " (system confirmation required)")] ++
  rows_if (state.SSLInsecure proxy) [row "TLS verify: " (str "DISABLED for mitmweb upstream connections")].

Definition heartbeat_rows (snapshot : state.Snapshot) : list Row :=
  if IsZero (state.ControlHeartbeatAt snapshot) && IsZero (state.DataHeartbeatAt snapshot) then
    rows_if (streq (state.Transport snapshot) state.TransportDataConnected) [row "Heartbeat: " (str "waiting")]
  else
    [row "Heartbeat: " (str "control " ++ Itoa (state.ControlRTTMillis snapshot) ++ str " ms / data " ++
                        Itoa (state.DataRTTMillis snapshot) ++ str " ms")].

Definition traffic_rows (snapshot : state.Snapshot) : option (list Row) :=
  let relay := state.Relay snapshot in
  if (0 <? state.PacketsFromDevice relay) || (0 <? state.PacketsToDevice relay) then
    fromDevice ← formatBytes (state.BytesFromDevice relay);
    toDevice ← formatBytes (state.BytesToDevice relay);
    Some ([row "Traffic:   " (str "device→Mac " ++ fromDevice ++ str " (" ++ Itoa (state.PacketsFromDevice relay) ++
                              str " packets) / Mac→device " ++ toDevice ++ str " (" ++ Itoa (state.PacketsToDevice relay) ++
                              str " packets)");
           row "Flows:     " (str "TCP " ++ Itoa (state.TCPFlows relay) ++ str " / UDP " ++ Itoa (state.UDPFlows relay) ++
                              str " / DNS " ++ Itoa (state.DNSQueries relay))] ++
          rows_if (state.Enabled (state.Proxy snapshot))
            [row "Intercept: " (str "proxied TCP " ++ Itoa (state.ProxyTCPFlows relay) ++ str " / QUIC fallbacks " ++
                                Itoa (state.BlockedQUICFlows relay))])
  else Some [].

(** [now] is the clock [time.Since] reads. *)
Definition status_rows (now : Time) (snapshot : state.Snapshot) : option (list Row) :=
  traffic ← traffic_rows snapshot;
  Some ([row "Daemon:    " (state.Daemon snapshot);
         row "Device:    " (shown_device snapshot);
         row "Transport: " (state.Transport snapshot);
         row "VPN:       " (state.VPN snapshot)] ++
        rows_if (0 <? state.MTU snapshot) [row "MTU:       " (Itoa (state.MTU snapshot))] ++
        rows_if (state.Enabled (state.Proxy snapshot)) (proxy_rows (state.Proxy snapshot)) ++
        rows_if (streq (state.Daemon snapshot) state.DaemonRunning && negb (IsZero (state.StartedAt snapshot)))
          [row "Uptime:    " (formatDuration (time_Sub now (state.StartedAt snapshot)))] ++
        heartbeat_rows snapshot ++ traffic ++
        rows_if (0 <? state.Reconnects snapshot) [row "Reconnects: " (Itoa (state.Reconnects snapshot))] ++
        [row "Message:   " (shown_message snapshot)]).

Definition print_row (r : Row) : gostring := r_label r ++ r_text r ++ [x0a].

(** [None]: a panic. *)
Definition printStatus (now : Time) (snapshot : state.Snapshot) : option gostring :=
  rows ← status_rows now snapshot;
  Some (concat (map print_row rows)).

Example printStatus_stopped :
  printStatus 0 (state.Stopped 0) =
  Some (str "Daemon:    STOPPED" ++ [x0a] ++ str "Device:    None" ++ [x0a] ++ str "Transport: NO_DEVICE" ++ [x0a] ++
        str "VPN:       STOPPED" ++ [x0a] ++ str "Message:   HarmonyNetBridge is stopped" ++ [x0a]).
Proof. vm_compute. reflexivity. Qed.

Example format_samples :
  formatBytes 1023 = Some (str "1023 B") ∧ formatBytes 1536 = Some (str "1.5 KiB") ∧
  formatBytes 1048575 = Some (str "1024.0 KiB") ∧ formatBytes (2 ^ 64 - 1) = Some (str "16777216.0 TiB") ∧
  formatDuration (3723 * Second + 500000000) = str "1h2m4s" ∧ formatDuration (-5) = str "0s" ∧
  formatDuration max_int64 = str "2562047h47m16.854775807s".
Proof. vm_compute. done. Qed.

(** * Accuracy of the numbers *)

Lemma round_half_even_near a b : 0 < b → 2 * Z.abs (round_half_even a b * b - a) ≤ b.
Proof.
  intros Hb. unfold round_half_even. pose proof (Z.mod_pos_bound a b Hb). pose proof (Z.div_mod a b).
  repeat case_if_auto; bool_to_prop; nia.
Qed.

Lemma round_half_even_nonneg a b : 0 ≤ a → 0 < b → 0 ≤ round_half_even a b.
Proof.
  intros Ha Hb. unfold round_half_even. pose proof (Z.div_pos a b Ha Hb). repeat case_if_auto; lia.
Qed.

Lemma float64_of_small v : v < 2 ^ 53 → float64_of v = v.
Proof. intros H. unfold float64_of. by rewrite (proj2 (Z.ltb_lt _ _)). Qed.

Lemma float64_of_large v :
  2 ^ 53 ≤ v → 2 ^ 53 ≤ float64_of v ∧ 2 * Z.abs (float64_of v - v) ≤ 2 ^ (Z.log2 v - 52).
Proof.
  intros Hs. unfold float64_of. rewrite (proj2 (Z.ltb_ge _ _)) by done. cbv zeta.
  assert (Hl : 53 ≤ Z.log2 v) by (apply Z.log2_le_pow2; lia).
  pose proof (Z.log2_spec v ltac:(lia)) as [Hlow _].
  set (e := Z.log2 v - 52) in *. assert (0 < 2 ^ e) by (apply Z.pow_pos_nonneg; lia).
  split; [|by apply round_half_even_near].
  replace (Z.log2 v) with (52 + e) in Hlow by lia. rewrite Z.pow_add_r in Hlow by lia.
  assert (2 ^ 52 ≤ v / 2 ^ e) by (apply Z.div_le_lower_bound; lia).
  assert (2 ^ 52 ≤ round_half_even v (2 ^ e)) by (unfold round_half_even; repeat case_if_auto; lia).
  assert (2 ≤ 2 ^ e) by (change 2 with (2 ^ 1) at 1; apply Z.pow_le_mono_r; lia).
  change (2 ^ 53) with (2 ^ 52 * 2). nia.
Qed.

Lemma float64_of_ge v : 1024 ≤ v → 1024 ≤ float64_of v.
Proof.
  intros Hv. destruct (Z.lt_ge_cases v (2 ^ 53)); [by rewrite float64_of_small|].
  pose proof (float64_of_large v). lia.
Qed.

Lemma float64_of_near v : 2 ^ 53 ≤ v < 2 ^ 64 → Z.abs (float64_of v - v) ≤ 2 ^ 10.
Proof.
  intros Hv. destruct (float64_of_large v ltac:(lia)) as [_ H].
  assert (Z.log2 v < 64) by (apply Z.log2_lt_pow2; lia).
  pose proof (Z.pow_le_mono_r 2 (Z.log2 v - 52) 11 ltac:(lia) ltac:(lia)). lia.
Qed.

Lemma scale_spec rounds a b i :
  ∃ k : nat, scale rounds a b i = (1024 ^ Z.of_nat k * b, i + Z.of_nat k) ∧ (k ≤ rounds)%nat ∧
    ((0 < k)%nat → 1024 ^ Z.of_nat k * b ≤ a) ∧ ((k < rounds)%nat → a < 1024 * (1024 ^ Z.of_nat k * b)).
Proof.
  revert b i. induction rounds as [|rounds IH]; intros b i; cbn [scale].
  - exists O. split_and!; [f_equal; lia|lia..].
  - destruct (Z.leb_spec (1024 * b) a) as [E|E]; [|exists O; split_and!; [f_equal; lia|lia..]].
    destruct (IH (1024 * b) (i + 1)) as (k & -> & Hk & H1 & H2). exists (S k).
    rewrite Nat2Z.inj_succ, Z.pow_succ_r by lia.
    replace (1024 * 1024 ^ Z.of_nat k * b) with (1024 ^ Z.of_nat k * (1024 * b)) by lia.
    split_and!; [f_equal; lia|lia| |intros; apply H2; lia].
    intros _. destruct k; [cbn; lia|]. apply H1. lia.
Qed.

(** The unit and the tenths printed for a count of at least 1 KiB. *)
Lemma formatBytes_scaled v :
  1024 ≤ v → ∃ (k : nat) unit tenths,
    units !! k = Some unit ∧
    formatBytes v = Some (Itoa (tenths / 10) ++ str "." ++ Itoa (tenths mod 10) ++ str " " ++ unit) ∧
    let one := 1024 ^ (Z.of_nat k + 1) in
    one ≤ float64_of v ∧ ((k < 3)%nat → float64_of v < 1024 * one) ∧
    2 * Z.abs (tenths * one - 10 * float64_of v) ≤ one.
Proof.
  intros Hs. pose proof (float64_of_ge v Hs). unfold formatBytes. rewrite (proj2 (Z.ltb_ge _ _)) by done.
  destruct (scale_spec (length units) (float64_of v) 1 (-1)) as (k & -> & Hk & H1 & H2).
  change (length units) with 4%nat in *. rewrite Z.mul_1_r in *.
  destruct k as [|k]; [specialize (H2 ltac:(lia)); change (1024 ^ Z.of_nat 0) with 1 in H2; lia|].
  rewrite (proj2 (Z.ltb_ge _ _)) by lia. replace (Z.to_nat (-1 + Z.of_nat (S k))) with k by lia.
  destruct (units !! k) as [unit|] eqn:Eu; [|apply lookup_ge_None in Eu; change (length units) with 4%nat in Eu; lia].
  exists k, unit, (round_half_even (10 * float64_of v) (1024 ^ Z.of_nat (S k))).
  replace (Z.of_nat (S k)) with (Z.of_nat k + 1) in * by lia.
  split_and!; [done|unfold format_tenths; cbn [mbind option_bind]; by rewrite <-!(assoc_L app)|apply H1; lia|intros; apply H2; lia|].
  apply round_half_even_near, Z.pow_pos_nonneg; lia.
Qed.

Lemma formatBytes_total v : ∃ text, formatBytes v = Some text.
Proof.
  destruct (Z.lt_ge_cases v 1024) as [Hs|Hs].
  - unfold formatBytes. rewrite (proj2 (Z.ltb_lt _ _)) by done. eauto.
  - destruct (formatBytes_scaled v Hs) as (k & unit & tenths & _ & -> & _). eauto.
Qed.

(** Byte counts are shown correctly rounded.  [formatBytes] never indexes
    past its units; below 1 KiB it prints the exact count, and otherwise a
    number with one decimal and the largest unit not above the count (the
    float64 of the count), which is within half a tenth of that unit of the
    true value, plus at most 1024 bytes lost in the conversion to float64
    when the count needs more than 53 bits. *)
Theorem formatBytes_accurate v :
  0 ≤ v < 2 ^ 64 →
  if v <? 1024 then formatBytes v = Some (Itoa v ++ str " B")
  else ∃ (k : nat) unit tenths,
    units !! k = Some unit ∧
    formatBytes v = Some (Itoa (tenths / 10) ++ str "." ++ Itoa (tenths mod 10) ++ str " " ++ unit) ∧
    let one := 1024 ^ (Z.of_nat k + 1) in
    one ≤ float64_of v ∧ ((k < 3)%nat → v < 1024 * one) ∧ 10 ≤ tenths ∧
    2 * Z.abs (tenths * one - 10 * v) ≤ one + (if v <? 2 ^ 53 then 0 else 20 * 1024).
Proof.
  intros Hv. destruct (Z.ltb_spec v 1024) as [Hs|Hs]; [unfold formatBytes; by rewrite (proj2 (Z.ltb_lt _ _))|].
  destruct (formatBytes_scaled v Hs) as (k & unit & tenths & Hu & Hf & H1 & H2 & Hn). exists k, unit, tenths.
  split_and!; [done|done|]. cbv zeta in *. set (one := 1024 ^ (Z.of_nat k + 1)) in *.
  assert (0 < one) by (apply Z.pow_pos_nonneg; lia).
  assert (10 ≤ tenths).
  { destruct (Z.le_gt_cases 10 tenths) as [|Ht]; [done|].
    assert (tenths * one ≤ 9 * one) by (apply Z.mul_le_mono_nonneg_r; lia). lia. }
  destruct (Z.ltb_spec v (2 ^ 53)) as [Hl|Hl]; [rewrite float64_of_small in * by done; lia|].
  pose proof (float64_of_near v ltac:(lia)). split_and!; [done| |done|lia].
  intros Hk3. assert (one ≤ 1024 ^ 3) by (apply Z.pow_le_mono_r; lia). pose proof (float64_of_large v). lia.
Qed.

(** * The printed status tells the state *)

(** Without a line feed. *)
Definition clean (s : gostring) : Prop := x0a ∉ s.

Lemma clean_app s t : clean s → clean t → clean (s ++ t).
Proof. unfold clean. rewrite elem_of_app. tauto. Qed.

Lemma clean_cons b s : b ≠ x0a → clean s → clean (b :: s).
Proof. unfold clean. intros ??. by intros [?|?]%elem_of_cons. Qed.

Lemma clean_Itoa n : clean (Itoa n).
Proof.
  unfold Itoa. case_if as E; bool_to_prop.
  - apply clean_cons; [done|]. rewrite <-Itoa_nonneg by lia. by apply Itoa_no_byte; [lia|].
  - rewrite <-Itoa_nonneg by lia. by apply Itoa_no_byte; [lia|].
Qed.

Create HintDb clean discriminated.
#[local] Hint Resolve clean_app clean_Itoa : clean.
#[local] Hint Extern 3 (clean (str _)) => decide_now : clean.
#[local] Hint Extern 3 (clean []) => decide_now : clean.
#[local] Hint Extern 3 (clean (_ :: _)) => (apply clean_cons; [discriminate|]) : clean.
#[local] Hint Extern 2 (clean (if ?b then _ else _)) => destruct b : clean.

Lemma clean_fraction n v print acc : clean acc → clean (format_fraction n v print acc).
Proof.
  revert v print acc. induction n as [|n IH]; intros v print acc Ha; cbn [format_fraction].
  - case_if; [by apply clean_cons|done].
  - apply IH. case_if; [|done]. apply clean_cons; [|done]. intros E%(f_equal b2z).
    pose proof (Z.mod_pos_bound v 10 ltac:(lia)). rewrite b2z_z2b, Z.mod_small in E by lia.
    change (b2z x0a) with 10 in E. lia.
Qed.

Lemma clean_formatDuration d : clean (formatDuration d).
Proof. unfold formatDuration, duration_String. cbv zeta. auto 10 using clean_fraction with clean. Qed.

Lemma clean_formatBytes v text : formatBytes v = Some text → clean text.
Proof.
  unfold formatBytes. case_if; [intros [= <-]; auto with clean|].
  destruct (scale _ _ _ _) as [b i]. intros (unit & Hu & [= <-])%bind_Some. case_if in Hu as E; [done|].
  assert (clean unit) as Hc.
  { apply list_elem_of_lookup_2 in Hu. assert (Forall clean units) as Hf by decide_now.
    rewrite Forall_forall in Hf. by apply Hf. }
  unfold format_tenths. auto 10 with clean.
Qed.
#[local] Hint Resolve clean_formatDuration clean_formatBytes : clean.

(** The strings of a snapshot that are printed are single lines. *)
Record printable (s : state.Snapshot) : Prop := {
  pr_Daemon : clean (state.Daemon s);
  pr_Device : clean (state.Device s);
  pr_Transport : clean (state.Transport s);
  pr_VPN : clean (state.VPN s);
  pr_Message : clean (state.Message s);
  pr_Status : clean (state.Status (state.Proxy s));
  pr_CaptureFile : clean (state.CaptureFile (state.Proxy s));
  pr_CACertFile : clean (state.CACertFile (state.Proxy s));
}.

Definition labels : list gostring :=
  map str ["Daemon:    "; "Device:    "; "Transport: "; "VPN:       "; "MTU:       "; "Proxy:     "; "Proxy UI:  ";
           "Capture:   "; "HTTPS CA:  "; "TLS verify: "; "Uptime:    "; "Heartbeat: "; "Traffic:   "; "Flows:     ";
           "Intercept: "; "Reconnects: "; "Message:   "].

Definition row_ok (r : Row) : Prop := r_label r ∈ labels ∧ clean (r_text r).

Lemma row_ok_intro label text : bool_decide (str label ∈ labels) = true → clean text → row_ok (row label text).
Proof. intros ?%bool_decide_eq_true ?. by split. Qed.

Lemma rows_if_ok b rows : (b = true → Forall row_ok rows) → Forall row_ok (rows_if b rows).
Proof. destruct b; cbn [rows_if]; [auto|constructor]. Qed.

#[local] Ltac row_ok_tac :=
  repeat first
    [ assumption | apply Forall_nil_2 | apply Forall_app_2 | apply Forall_cons_2
    | apply rows_if_ok; intros _ | apply row_ok_intro; [vm_compute; reflexivity|] ];
  auto 12 using pr_Daemon, pr_Device, pr_Transport, pr_VPN, pr_Message, pr_Status, pr_CaptureFile, pr_CACertFile with clean.

Lemma proxy_rows_ok s : printable s → Forall row_ok (proxy_rows (state.Proxy s)).
Proof. intros Hp. unfold proxy_rows. destruct (state.OpenBrowser _); row_ok_tac. Qed.

Lemma heartbeat_rows_ok s : Forall row_ok (heartbeat_rows s).
Proof. unfold heartbeat_rows. case_if; row_ok_tac. Qed.

Lemma traffic_rows_ok s rows : traffic_rows s = Some rows → Forall row_ok rows.
Proof.
  unfold traffic_rows. case_if; [|intros [= <-]; constructor].
  intros (a & Ha & (b & Hb & <-%(inj Some))%bind_Some)%bind_Some. apply clean_formatBytes in Ha, Hb. row_ok_tac.
Qed.

Lemma status_rows_ok now s rows : printable s → status_rows now s = Some rows → Forall row_ok rows.
Proof.
  intros Hp (traffic & Ht%traffic_rows_ok & <-%(inj Some))%bind_Some.
  pose proof (proxy_rows_ok s Hp). pose proof (heartbeat_rows_ok s). unfold shown_device, shown_message. row_ok_tac.
Qed.

(** No label is a proper prefix of another. *)
Lemma labels_prefix_free : Forall (λ a, Forall (λ b, a `prefix_of` b → a = b) labels) labels.
Proof. decide_now. Qed.

Lemma row_inj r1 r2 : row_ok r1 → row_ok r2 → r_label r1 ++ r_text r1 = r_label r2 ++ r_text r2 → r1 = r2.
Proof.
  destruct r1 as [l1 t1], r2 as [l2 t2]. intros [H1 _] [H2 _]. cbn in *. intros E.
  pose proof labels_prefix_free as Hf. rewrite Forall_forall in Hf.
  assert (l1 = l2) as <-.
  { destruct (prefix_weak_total l1 l2 (l1 ++ t1)) as [Hp|Hp]; [by apply prefix_app_r|rewrite E; by apply prefix_app_r| |].
    - pose proof (Hf _ H1) as Hg. rewrite Forall_forall in Hg. by apply Hg.
    - symmetry. pose proof (Hf _ H2) as Hg. rewrite Forall_forall in Hg. by apply Hg. }
  f_equal. by eapply app_inv_head.
Qed.

Lemma Split_rows rows :
  Forall row_ok rows →
  Split (concat (map print_row rows)) x0a = map (λ r, r_label r ++ r_text r) rows ++ [[]].
Proof.
  induction 1 as [|[label text] rows [Hl Ht] _ IH]; [done|]. cbn [map concat app]. unfold print_row at 1. cbn [r_label r_text].
  rewrite <-!(assoc_L app). cbn [app]. rewrite (assoc_L app), Split_app; [by rewrite IH|].
  apply clean_app; [|done]. cbn in Hl.
  assert (Forall clean labels) as Hc by decide_now.
  rewrite Forall_forall in Hc. by apply Hc.
Qed.

Lemma print_rows_inj rows rows' :
  Forall row_ok rows → Forall row_ok rows' →
  concat (map print_row rows) = concat (map print_row rows') → rows = rows'.
Proof.
  intros H H' E. apply (f_equal (λ t, Split t x0a)) in E. rewrite !Split_rows in E by done.
  apply app_inv_tail in E. revert rows' H' E. induction H as [|r rows Hr _ IH]; intros [|r' rows'] H' E; try done.
  cbn [map] in E. injection E as Er E. apply Forall_cons in H' as [Hr' H'].
  f_equal; [by apply row_inj|by apply IH].
Qed.

(** The texts printed under a label. *)
Definition texts (label : string) (rows : list Row) : list gostring :=
  omap (λ r, if streq (r_label r) (str label) then Some (r_text r) else None) rows.

Lemma texts_app label a b : texts label (a ++ b) = texts label a ++ texts label b.
Proof. apply omap_app. Qed.

Lemma texts_if label b rows : texts label (rows_if b rows) = if b then texts label rows else [].
Proof. by destruct b. Qed.

Lemma texts_row label l t rows :
  texts label (row l t :: rows) = (if streq (str l) (str label) then [t] else []) ++ texts label rows.
Proof. unfold texts. cbn [omap list_omap r_label row]. by case_if. Qed.

Lemma texts_ite label (b : bool) x y : texts label (if b then x else y) = if b then texts label x else texts label y.
Proof. by destruct b. Qed.

Lemma texts_nil label : texts label [] = [].
Proof. done. Qed.

Lemma if_nil {A} (b : bool) : (if b then [] else []) = @nil A.
Proof. by destruct b. Qed.

#[local] Ltac texts_tac :=
  repeat (rewrite ?texts_app, ?texts_if, ?texts_ite, ?texts_row, ?texts_nil); literals; cbn [app];
  rewrite ?if_nil; cbn [app]; rewrite ?app_nil_r; try done.

Lemma texts_traffic s rows :
  traffic_rows s = Some rows → ∀ label, label ∈ ["Daemon:    "; "Device:    "; "Transport: "; "VPN:       "; "MTU:       "; "Proxy:     "; "Reconnects: "; "Message:   "] →
  texts label rows = [].
Proof.
  unfold traffic_rows. case_if; [|by intros [= <-]].
  intros (a & _ & (b & _ & <-%(inj Some))%bind_Some)%bind_Some label Hl.
  repeat (apply elem_of_cons in Hl as [->|Hl]; [texts_tac|]). by apply elem_of_nil in Hl.
Qed.

(** What the lines that matter hold. *)
Lemma texts_status now s rows :
  status_rows now s = Some rows →
  texts "Daemon:    " rows = [state.Daemon s] ∧ texts "Device:    " rows = [shown_device s] ∧
  texts "Transport: " rows = [state.Transport s] ∧ texts "VPN:       " rows = [state.VPN s] ∧
  texts "Message:   " rows = [shown_message s] ∧
  texts "MTU:       " rows = (if 0 <? state.MTU s then [Itoa (state.MTU s)] else []) ∧
  texts "Reconnects: " rows = (if 0 <? state.Reconnects s then [Itoa (state.Reconnects s)] else []) ∧
  texts "Proxy:     " rows =
    (if state.Enabled (state.Proxy s) then [state.Status (state.Proxy s) ++ str " (HTTP/HTTPS TCP)"] else []).
Proof.
  intros (traffic & Ht & <-%(inj Some))%bind_Some. pose proof (texts_traffic _ _ Ht) as Hn. clear Ht.
  unfold heartbeat_rows, proxy_rows. destruct (state.OpenBrowser _);
  split_and!; rewrite !texts_app, Hn by decide_now; texts_tac.
Qed.

Lemma status_rows_total now s : ∃ rows, status_rows now s = Some rows.
Proof.
  unfold status_rows, traffic_rows. case_if; [|eauto].
  destruct (formatBytes_total (state.BytesFromDevice (state.Relay s))) as [a ->],
    (formatBytes_total (state.BytesToDevice (state.Relay s))) as [b ->]. cbn [mbind option_bind]. eauto.
Qed.

Lemma printStatus_total now s : ∃ text, printStatus now s = Some text.
Proof. unfold printStatus. destruct (status_rows_total now s) as [rows ->]. cbn [mbind option_bind]. eauto. Qed.

Lemma Itoa_inj_nonneg m n : 0 ≤ m → 0 ≤ n → Itoa m = Itoa n → m = n.
Proof.
  intros Hm Hn. rewrite !Itoa_nonneg by done. intros E.
  pose proof (parse_digits_utoa m Hm) as H. rewrite E, parse_digits_utoa in H by done. congruence.
Qed.

Lemma shown_number_inj m n :
  (if 0 <? m then [Itoa m] else []) = (if 0 <? n then [Itoa n] else []) → Z.max 0 m = Z.max 0 n.
Proof.
  destruct (Z.ltb_spec 0 m), (Z.ltb_spec 0 n); try done; [|lia]. intros [= E%Itoa_inj_nonneg]; lia.
Qed.

Lemma shown_device_inj s s' : shown_device s = shown_device s' → state.Device s = state.Device s'.
Proof.
  unfold shown_device. case_bool_decide as E; case_bool_decide as E'; [congruence|done|done|].
  intros H%app_inv_head%app_inv_tail. done.
Qed.

(** The printed status tells the state.  [printStatus] always
    returns, and two snapshots whose strings are
    single lines print the same text only if they agree on the daemon, device,
    transport and VPN states, on the message shown, on whether and in which
    status the proxy runs, and on a positive MTU and reconnect count. *)
Theorem printStatus_faithful now s :
  ∃ text, printStatus now s = Some text ∧
    ∀ now' s', printable s → printable s' → printStatus now' s' = Some text →
      state.Daemon s' = state.Daemon s ∧ state.Device s' = state.Device s ∧
      state.Transport s' = state.Transport s ∧ state.VPN s' = state.VPN s ∧ shown_message s' = shown_message s ∧
      Z.max 0 (state.MTU s') = Z.max 0 (state.MTU s) ∧
      Z.max 0 (state.Reconnects s') = Z.max 0 (state.Reconnects s) ∧
      state.Enabled (state.Proxy s') = state.Enabled (state.Proxy s) ∧
      (state.Enabled (state.Proxy s) = true → state.Status (state.Proxy s') = state.Status (state.Proxy s)).
Proof.
  destruct (status_rows_total now s) as [rows Hr].
  unfold printStatus. rewrite Hr. cbn [mbind option_bind]. eexists. split; [done|].
  intros now' s' Hp Hp' (rows' & Hr' & E%(inj Some))%bind_Some.
  apply print_rows_inj in E; [|by apply (status_rows_ok now' s')|by apply (status_rows_ok now s)]. subst rows'.
  apply texts_status in Hr as (H1 & H2 & H3 & H4 & H5 & H6 & H7 & H8).
  apply texts_status in Hr' as (G1 & G2 & G3 & G4 & G5 & G6 & G7 & G8).
  rewrite H1 in G1. rewrite H2 in G2. rewrite H3 in G3. rewrite H4 in G4. rewrite H5 in G5.
  rewrite H6 in G6. rewrite H7 in G7. rewrite H8 in G8.
  assert (∀ a b : gostring, [a] = [b] → b = a) as Hinj by congruence.
  apply Hinj in G1, G2, G3, G4, G5. apply shown_device_inj in G2. apply eq_sym, shown_number_inj in G6, G7.
  split_and!; try done.
  - by destruct (state.Enabled (state.Proxy s)), (state.Enabled (state.Proxy s')).
  - intros He. rewrite He in G8. destruct (state.Enabled (state.Proxy s')); [|done].
    apply Hinj, app_inv_tail in G8. done.
Qed.

(** * [run] *)

(** src/internal/version/version.go; release builds may set both. *)
Record Build := mkBuild { Version : gostring; Commit : gostring }.
Definition default_build : Build := mkBuild (str "0.4.0-dev") (str "unknown").

Definition usage_lines : list gostring := map str
  ["HarmonyNetBridge Phase 4";
   "";
   "Usage:";
   "  harmony-netbridge [--hdc <path>] [--device <target>] [--mtu <bytes>] start";
   "  harmony-netbridge [--hdc <path>] [--device <target>] [--mtu <bytes>] proxy";
   "  harmony-netbridge status";
   "  harmony-netbridge stop";
   "";
   "Commands:";
   "  start    Start the per-user bridge daemon and USB packet relay";
   "  proxy    Start the VPN relay plus a managed mitmweb capture session";
   "  status   Read live daemon, transport, and VPN state";
   "  stop     Stop the daemon and remove only its owned hdc mapping";
   "";
   "Options:";
   "  --hdc <path>       Explicit hdc executable (also HARMONY_NETBRIDGE_HDC)";
   "  --device <target>  Select one target when multiple devices are Connected";
   "  --mtu <bytes>      VPN MTU in 576...1500 (default 1400)";
   "  --mitmweb <path>   Explicit mitmweb executable (also HARMONY_NETBRIDGE_MITMWEB)";
   "  --upstream <URL>   Route mitmweb through an HTTP(S) upstream proxy";
   "  --ssl-insecure     Disable mitmweb upstream TLS certificate verification";
   "  --proxy-port <n>   Loopback proxy port (default 8080)";
   "  --web-port <n>     Loopback mitmweb UI port (default 8081)";
   "  --no-open-browser  Do not let mitmweb open its authenticated Web UI";
   "  --version          Print the CLI version";
   "  -h, --help         Show this help"].

Definition println (s : gostring) : gostring := s ++ [x0a].

Definition printUsage : gostring := concat (map println usage_lines).

(** The answers of the machine to one invocation: [runtimepath.Default], what
    [startCommand], [statusCommand] and [stopCommand] meet, and for the daemon
    process the outcome of its preparations and of [Server.Run], which returns
    when it has been told to stop or has failed. *)
Record RunInputs := mkRunInputs {
  ri_paths : option error;
  ri_start : cli.StartInputs;
  ri_call : result error control.Response;
  ri_now : Time;
  ri_polls : list (option error * result error state.Snapshot);
  ri_ensure : option error;
  ri_log : option error;
  ri_serve : daemon.Config → option error;
}.

(** Exit code, standard output, standard error, and the argument vectors of
    the daemon processes started, that is of the program started again with
    the command [__daemon].  The hdc commands of [start] and what a daemon
    runs in turn (hdc, mitmweb) are not among them. *)
Record Outcome := mkOutcome {
  o_code : Z;
  o_stdout : gostring;
  o_stderr : gostring;
  o_daemons : list (list gostring);
}.

Section run.
Context `{Unicode}.
Variable url_Parse : gostring → result error proxysession.URL.
Variable Sum256 : list byte → list byte.
(** [err.Error()] *)
Variable Error : error → gostring.
Variable build : Build.

(** What a command prints on success; the outer [None] is a panic. *)
Definition print_notice (now : Time) (n : cli.notice) : option gostring :=
  match n with
  | cli.AlreadyRunning s => text ← printStatus now s; Some (println (str "HarmonyNetBridge is already running.") ++ text)
  | cli.Started s => text ← printStatus now s; Some (println (str "HarmonyNetBridge started.") ++ text)
  end.

Definition print_stop (n : cli.stop_notice) : gostring :=
  match n with
  | cli.AlreadyStopped => println (str "HarmonyNetBridge is already stopped.")
  | cli.Stopped => println (str "HarmonyNetBridge stopped.")
  end.

(** The command's output or error, and the daemons it started. *)
Definition dispatch (parsed : cli.invocation) (inputs : RunInputs)
    : option (result error gostring * list (list gostring)) :=
  let command := cli.command parsed in
  if streq command (str "start") || streq command (str "proxy") then
    let '(r, spawned) := cli.startCommand Sum256 Error parsed (ri_start inputs) in
    match r with
    | Err err => Some (Err err, spawned)
    | Ok n => text ← print_notice (ri_now inputs) n; Some (Ok text, spawned)
    end
  else if streq command (str "status") then
    match cli.statusCommand (ri_call inputs) (ri_now inputs) with
    | Err err => Some (Err err, [])
    | Ok snapshot => text ← printStatus (ri_now inputs) snapshot; Some (Ok text, [])
    end
  else if streq command (str "stop") then
    match cli.stopCommand (ri_now inputs) (ri_call inputs) (ri_polls inputs) with
    | Err err => Some (Err err, [])
    | Ok n => Some (Ok (print_stop n), [])
    end
  else if streq command (str "__daemon") then
    match cli.daemonCommand Sum256 parsed (ri_ensure inputs) (ri_log inputs) with
    | Err err => Some (Err err, [])
    | Ok config =>
        match ri_serve inputs config with
        | Some err => Some (Err err, [])
        | None => Some (Ok [], [])
        end
    end
  else Some (Err (ENew (str "a command is required")), []).

Definition run (arguments : list gostring) (inputs : RunInputs) : option Outcome :=
  match cli.parseInvocation url_Parse arguments with
  | Err err => Some (mkOutcome 2 [] (str "Error: " ++ Error err ++ [x0a; x0a] ++ printUsage) [])
  | Ok parsed =>
      if cli.help parsed then Some (mkOutcome 0 printUsage [] [])
      else if cli.version parsed then
        Some (mkOutcome 0 (println (str "harmony-netbridge " ++ Version build ++ str " (" ++ Commit build ++ str ")")) [] [])
      else
        match ri_paths inputs with
        | Some err => let '(text, code) := cli.printError err in Some (mkOutcome code [] text [])
        | None =>
            '(r, spawned) ← dispatch parsed inputs;
            Some (match r with
                  | Err err => let '(text, code) := cli.printError err in mkOutcome code [] text spawned
                  | Ok text => mkOutcome 0 text [] spawned
                  end)
        end
  end.

#[local] Ltac finish := do 2 eexists; split_and!; [reflexivity|done|done].

Lemma dispatch_total parsed inputs :
  ∃ r spawned, dispatch parsed inputs = Some (r, spawned) ∧
    (spawned ≠ [] → cli.command parsed = str "start" ∨ cli.command parsed = str "proxy") ∧
    spawned = (if streq (cli.command parsed) (str "start") || streq (cli.command parsed) (str "proxy")
               then (cli.startCommand Sum256 Error parsed (ri_start inputs)).2 else []).
Proof.
  unfold dispatch. cbv zeta. case_if as Ec.
  - apply orb_true_iff in Ec. rewrite !bool_decide_eq_true in Ec.
    destruct (cli.startCommand Sum256 Error parsed (ri_start inputs)) as [[n|err] spawned]; [|finish].
    assert (∃ text, print_notice (ri_now inputs) n = Some text) as [text ->].
    { destruct n as [s|s]; cbn [print_notice]; destruct (printStatus_total (ri_now inputs) s) as [text ->];
        cbn [mbind option_bind]; eauto. }
    cbn [mbind option_bind]. finish.
  - case_if; [|case_if; [|case_if]]; [| | |finish].
    + destruct (cli.statusCommand _ _) as [s|err]; [|finish].
      destruct (printStatus_total (ri_now inputs) s) as [text ->]. cbn [mbind option_bind]. finish.
    + destruct (cli.stopCommand _ _ _); finish.
    + destruct (cli.daemonCommand _ _ _ _) as [config|]; [|finish]. destruct (ri_serve inputs config); finish.
Qed.

Lemma exit_code_range code : cli.exit_code code ∈ [1; 3; 4; 5].
Proof. unfold cli.exit_code. repeat case_if_auto; set_solver. Qed.

Lemma printError_outcome err : (cli.printError err).1 ≠ [] ∧ (cli.printError err).2 ∈ [1; 3; 4; 5].
Proof. unfold cli.printError. destruct (apperror.Details err) as [code message]. split; [done|apply exit_code_range]. Qed.

(** C38: the exit code tells what happened.  Whatever the arguments and the
    answers of the machine, no branch of [run] panics or is left without an
    outcome.  It exits 0 with nothing on standard error, or with a non-zero
    code in 1..5, a diagnostic on standard error and nothing on standard
    output; the code is 2 exactly when the arguments are not understood.  A
    daemon is started only by the start and proxy commands, at most one, and
    never for a help or version request. *)
Theorem run_outcome arguments inputs :
  ∃ o, run arguments inputs = Some o ∧
    (o_code o = 0 ∧ o_stderr o = [] ∨ o_code o ∈ [1; 2; 3; 4; 5] ∧ o_stdout o = [] ∧ o_stderr o ≠ []) ∧
    (o_code o = 2 ↔ ∃ err, cli.parseInvocation url_Parse arguments = Err err) ∧
    (length (o_daemons o) ≤ 1)%nat ∧
    (o_daemons o ≠ [] → ∃ parsed, cli.parseInvocation url_Parse arguments = Ok parsed ∧
       cli.help parsed = false ∧ cli.version parsed = false ∧
       (cli.command parsed = str "start" ∨ cli.command parsed = str "proxy")).
Proof.
  assert (∀ c, c ∈ [1; 3; 4; 5] → c ∈ [1; 2; 3; 4; 5] ∧ c ≠ 2) as Hcode by (intros c; rewrite !elem_of_cons, elem_of_nil; lia).
  unfold run. destruct (cli.parseInvocation url_Parse arguments) as [parsed|err] eqn:Ep.
  2: { eexists. split; [reflexivity|]. cbn [o_code o_stdout o_stderr o_daemons]. 
       split_and!; [right; split_and!; [set_solver|done|done]|by split; eauto|cbn; lia|done]. }
  assert (¬ ∃ err, Ok parsed = @Err error cli.invocation err) as Hok by (by intros [err ?]).
  destruct (cli.help parsed) eqn:Eh; [|destruct (cli.version parsed) eqn:Ev].
  1-2: (eexists; split; [reflexivity|]; cbn [o_code o_stdout o_stderr o_daemons];
        split_and!; [by left|done|cbn; lia|done]).
  destruct (ri_paths inputs) as [err|].
  { pose proof (printError_outcome err) as [H1 [H2 H3]%Hcode]. destruct (cli.printError err) as [text code]. cbn in H1, H2, H3.
    eexists. split; [reflexivity|]. cbn [o_code o_stdout o_stderr o_daemons]. split_and!; [by right|done|cbn; lia|done]. }
  destruct (dispatch_total parsed inputs) as (r & spawned & -> & Hs & He). cbn [mbind option_bind].
  assert (length spawned ≤ 1)%nat as Hl.
  { subst spawned. case_if; [|cbn; lia]. pose proof (cli.startCommand_spec Sum256 Error parsed (ri_start inputs)) as Hc.
    destruct (cli.startCommand _ _ _ _) as [r' sp]. apply Hc. }
  destruct r as [text|err].
  - eexists. split; [reflexivity|]. cbn [o_code o_stdout o_stderr o_daemons]. split_and!; [by left|done|done|eauto 6].
  - pose proof (printError_outcome err) as [H1 [H2 H3]%Hcode]. destruct (cli.printError err) as [text code]. cbn in H1, H2, H3.
    eexists. split; [reflexivity|]. cbn [o_code o_stdout o_stderr o_daemons]. split_and!; [by right|done|done|eauto 6].
Qed.

(** The strings the machine answers with are not empty: the paths that
    [hdc.Discover], [proxy.Discover] and [NewCapturePath] return, and the
    target ids [hdc list targets] prints. *)
Record answers_ok (inputs : cli.StartInputs) : Prop := {
  an_hdc : ∀ path, cli.si_hdc inputs = Ok path → path ≠ [];
  an_targets : ∀ targets t, cli.si_targets inputs = Ok targets → t ∈ targets → hdc.ID t ≠ [];
  an_discover : ∀ explicit path, cli.si_discover inputs explicit = Ok path → path ≠ [];
  an_capture : ∀ path, cli.si_capture inputs = Ok path → path ≠ [];
}.

Lemma run_spawned arguments inputs o child :
  run arguments inputs = Some o → child ∈ o_daemons o →
  ∃ parsed, cli.parseInvocation url_Parse arguments = Ok parsed ∧ cli.spawn_ok Sum256 parsed (ri_start inputs) child.
Proof.
  unfold run. destruct (cli.parseInvocation url_Parse arguments) as [parsed|err] eqn:Ep; [|intros [= <-]; set_solver].
  destruct (cli.help parsed); [intros [= <-]; set_solver|]. destruct (cli.version parsed); [intros [= <-]; set_solver|].
  destruct (ri_paths inputs) as [err|]; [destruct (cli.printError err); intros [= <-]; set_solver|].
  destruct (dispatch_total parsed inputs) as (r & spawned & -> & _ & He). cbn [mbind option_bind].
  intros Ho%(inj Some) Hin. exists parsed. split; [done|].
  assert (child ∈ spawned) as Hc by (revert Hin; subst o; destruct r as [|err]; [done|by destruct (cli.printError err)]).
  subst spawned. case_if in Hc as E; [|set_solver]. pose proof (cli.startCommand_spec Sum256 Error parsed (ri_start inputs)) as Hs.
  destruct (cli.startCommand _ _ _ _) as [r' sp]. by apply Hs.
Qed.

Lemma daemonCommand_child parsed wantsProxy hdcPath targetID label :
  hdcPath ≠ [] → targetID ≠ [] → label ≠ [] → cli.port_ok (cli.devicePort parsed) →
  daemon.MinimumMTU ≤ cli.mtu parsed ≤ daemon.MaximumMTU →
  (wantsProxy = true → cli.proxy_ready url_Parse parsed) →
  ∃ config, cli.daemonCommand Sum256 (cli.daemon_invocation parsed wantsProxy hdcPath targetID label) None None = Ok config ∧
    daemon.DeviceID config = targetID ∧ daemon.cfg_DevicePort config = cli.devicePort parsed ∧
    daemon.cfg_MTU config = cli.mtu parsed ∧ daemon.hasProxyFactory config = wantsProxy.
Proof.
  intros H1 H2 H3 [H4 H4'] H5 Hp. unfold cli.daemonCommand, cli.daemon_invocation. cbn [cli.hdcPath cli.deviceID cli.deviceLabel
    cli.proxyMode cli.mitmwebPath cli.captureFile cli.devicePort cli.mtu].
  rewrite (bool_decide_eq_false_2 _ H1), (bool_decide_eq_false_2 _ H2), (bool_decide_eq_false_2 _ H3). cbn [orb].
  assert ((wantsProxy && (streq (if wantsProxy then cli.mitmwebPath parsed else []) [] ||
                          streq (if wantsProxy then cli.captureFile parsed else []) [])) = false) as ->.
  { destruct wantsProxy; [|done]. destruct (Hp eq_refl). by rewrite !bool_decide_eq_false_2. }
  unfold daemon.New. cbn. rewrite (bool_decide_eq_false_2 _ H2), (bool_decide_eq_false_2 _ H3).
  unfold daemon.MinimumMTU, daemon.MaximumMTU in *.
  rewrite (proj2 (Z.eqb_neq (cli.devicePort parsed) 0)), (proj2 (Z.eqb_neq (cli.mtu parsed) 0)) by lia.
  rewrite (proj2 (Z.ltb_ge (cli.devicePort parsed) 1)), (proj2 (Z.ltb_ge 65535 (cli.devicePort parsed))),
    (proj2 (Z.ltb_ge (cli.mtu parsed) _)), (proj2 (Z.ltb_ge _ (cli.mtu parsed))) by lia.
  cbn [orb]. eexists. by split_and!.
Qed.

(** C24: what the user asked for is what the daemon runs with.  Whatever process
    [run] starts for the user's arguments, the same program, given that
    process's arguments, parses them as a daemon invocation for the device
    that [SelectTarget] chose, and builds a configuration with the user's
    device port, MTU and mode; in proxy mode the proxy gets the user's ports,
    upstream, flags and the new capture file, and that proxy configuration is
    valid whenever its paths are absolute and the executable is runnable. *)
Theorem spawned_daemon arguments inputs o child :
  answers_ok (ri_start inputs) → run arguments inputs = Some o → child ∈ o_daemons o →
  ∃ parsed p targets target config,
    cli.parseInvocation url_Parse arguments = Ok parsed ∧
    cli.si_targets (ri_start inputs) = Ok targets ∧ hdc.SelectTarget targets (cli.deviceID parsed) = Ok target ∧
    cli.parseInvocation url_Parse child = Ok p ∧ cli.command p = str "__daemon" ∧
    cli.daemonCommand Sum256 p None None = Ok config ∧
    daemon.DeviceID config = hdc.ID target ∧ daemon.cfg_DevicePort config = cli.devicePort parsed ∧
    daemon.cfg_MTU config = cli.mtu parsed ∧ daemon.hasProxyFactory config = cli.wants_proxy parsed ∧
    (cli.wants_proxy parsed = true → ∀ confDir logFile perm,
       let proxy := cli.proxyConfig p confDir logFile in
       proxysession.ListenPort proxy = cli.proxyPort parsed ∧ proxysession.WebPort proxy = cli.webPort parsed ∧
       proxysession.UpstreamURL proxy = cli.upstreamURL parsed ∧ proxysession.SSLInsecure proxy = cli.sslInsecure parsed ∧
       proxysession.OpenBrowser proxy = negb (cli.noOpenBrowser parsed) ∧
       cli.si_capture (ri_start inputs) = Ok (proxysession.CaptureFile proxy) ∧
       (filepath.IsAbs (proxysession.Executable proxy) = true → filepath.IsAbs (proxysession.CaptureFile proxy) = true →
        filepath.IsAbs confDir = true → filepath.IsAbs logFile = true → Z.land perm 73 ≠ 0 →
        proxysession.validateConfig url_Parse proxy (Some (false, perm)) = None)).
Proof.
  intros [A1 A2 A3 A4] Hr Hin. destruct (run_spawned _ _ _ _ Hr Hin) as (parsed & Hp & Hs).
  destruct Hs as (hdcPath & targets & target & q & Hh & Ht & Hsel & -> & E1 & E2 & E3 & E4 & E5 & E6 & E7 & E8).
  pose proof (cli.parseInvocation_sound _ _ _ Hp) as (Hc & P1 & P2 & P3 & P4 & _ & P5 & _ & P6).
  pose proof (cli.parseInvocation_upstream _ _ _ Hp) as Hu.
  assert (cli.wants_proxy parsed = true → cli.proxyPort parsed ≠ cli.webPort parsed) as Hne.
  { unfold cli.wants_proxy. intros [Hw%bool_decide_eq_true|Hw]%orb_true_iff; auto. }
  assert (cli.wants_proxy parsed = true → cli.proxy_ready url_Parse q) as Hq.
  { intros Hw. destruct (E8 Hw) as [D1 D2]. split; rewrite ?E3, ?E4, ?E5; eauto. }
  assert (H1 : hdcPath ≠ []) by eauto.
  assert (H2 : hdc.ID target ≠ []) by eauto using hdc.SelectTarget_elem.
  assert (H3 : hdc.RedactedName Sum256 target ≠ []).
  { unfold hdc.RedactedName, hdc.RedactTarget. by case_if. }
  rewrite <-E1 in P1. rewrite <-E2 in P4.
  destruct (daemonCommand_child q (cli.wants_proxy parsed) _ _ _ H1 H2 H3 P1 P4 Hq) as (config & Hd & G1 & G2 & G3 & G4).
  exists parsed, (cli.daemon_invocation q (cli.wants_proxy parsed) hdcPath (hdc.ID target) (hdc.RedactedName Sum256 target)),
    targets, target, config.
  rewrite cli.childArguments_roundtrip by done. split_and!; try done; [congruence|congruence|].
  intros Hw confDir logFile perm. destruct (Hq Hw) as [Q1 Q2 Q3 Q4 Q5 Q6]. destruct (E8 Hw) as [D1 D2].
  unfold cli.daemon_invocation. rewrite Hw. cbn [andb]. cbv zeta. unfold cli.proxyConfig; cbn -[filepath.IsAbs proxysession.validateConfig].
  split_and!; try done; [congruence|]. intros I1 I2 I3 I4 I5. unfold cli.port_ok in *.
  unfold proxysession.validateConfig; cbn -[filepath.IsAbs proxysession.ValidateUpstreamURL].
  rewrite I1, I2, I3, I4, Q6. cbn [negb orb].
  rewrite (proj2 (Z.ltb_ge (cli.proxyPort q) 1)), (proj2 (Z.ltb_ge 65535 (cli.proxyPort q))),
    (proj2 (Z.ltb_ge (cli.webPort q) 1)), (proj2 (Z.ltb_ge 65535 (cli.webPort q))) by lia. cbn [orb].
  by rewrite (proj2 (Z.eqb_neq _ _) Q3), (proj2 (Z.eqb_neq _ _) I5).
Qed.
End run.

(** ** Concrete invocations *)

Lemma formatBytes_accurate_witness :
  ∃ (k : nat) unit tenths,
    units !! k = Some unit ∧
    formatBytes 123456789 = Some (Itoa (tenths / 10) ++ str "." ++ Itoa (tenths mod 10) ++ str " " ++ unit) ∧
    let one := 1024 ^ (Z.of_nat k + 1) in
    one ≤ float64_of 123456789 ∧ ((k < 3)%nat → 123456789 < 1024 * one) ∧ 10 ≤ tenths ∧
    2 * Z.abs (tenths * one - 10 * 123456789) ≤ one + (if 123456789 <? 2 ^ 53 then 0 else 20 * 1024).
Proof. apply (formatBytes_accurate 123456789). split; [discriminate|reflexivity]. Defined.

#[local] Existing Instance ascii_unicode.

(** A proxy start on a machine with one device; the daemon is RUNNING at the
    second poll. *)
Definition sample_running : state.Snapshot := state.set_Daemon state.DaemonRunning (state.NewStarting 5 (str "device-01") 27183).

Definition sample_start : cli.StartInputs :=
  {| cli.si_status := Err (ENew (str "no daemon"));
     cli.si_discover _ := Ok (str "/opt/homebrew/bin/mitmweb");
     cli.si_hdc := Ok (str "/usr/local/bin/hdc");
     cli.si_version := Ok (str "Ver: 3.1.0");
     cli.si_targets := Ok [hdc.mkTarget (str "ABC123") (str "USB") (str "Connected") (str "localhost")];
     cli.si_ensure := None;
     cli.si_previous := state.zeroSnapshot;
     cli.si_ports := None;
     cli.si_capture := Ok (str "/c/harmony-1.mitm");
     cli.si_executable := None; cli.si_log := None; cli.si_chmod := None;
     cli.si_startedAt := 4; cli.si_spawn := None; cli.si_release := None;
     cli.si_polls := [(Err (ENew (str "no daemon")), Err (ENew (str "no file")));
                      (Ok (control.mkResponse true sample_running [] []), Err (ENew (str "no file")))];
     cli.si_final := Err (ENew (str "no file")) |}.

Definition sample_inputs : RunInputs :=
  mkRunInputs None sample_start (Err (ENew (str "no daemon"))) 9 [] None None (λ _, None).

Definition sample_run : option Outcome :=
  run proxysession.sample_parse (λ _, repeat x2a 32) (λ _, []) default_build
    [str "proxy"; str "--mtu"; str "1300"] sample_inputs.

Definition sample_child : list gostring :=
  match sample_run with Some o => default [] (head (o_daemons o)) | None => [] end.

Definition sample_outcome : Outcome :=
  match sample_run with Some o => o | None => mkOutcome 99 [] [] [] end.

Lemma sample_answers : answers_ok sample_start.
Proof.
  split.
  - intros path [= <-]. discriminate.
  - intros targets t [= <-] ->%list_elem_of_singleton. discriminate.
  - intros _ path [= <-]. discriminate.
  - intros path [= <-]. discriminate.
Qed.

Lemma spawned_daemon_witness :
  ∃ parsed p config,
    cli.parseInvocation proxysession.sample_parse [str "proxy"; str "--mtu"; str "1300"] = Ok parsed ∧
    cli.parseInvocation proxysession.sample_parse sample_child = Ok p ∧
    cli.daemonCommand (λ _, repeat x2a 32) p None None = Ok config ∧
    daemon.cfg_MTU config = cli.mtu parsed ∧ daemon.hasProxyFactory config = cli.wants_proxy parsed.
Proof.
  destruct (spawned_daemon proxysession.sample_parse (λ _, repeat x2a 32) (λ _, []) default_build
    [str "proxy"; str "--mtu"; str "1300"] sample_inputs sample_outcome sample_child sample_answers)
    as (parsed & p & targets & target & config & H1 & _ & _ & H2 & _ & H3 & _ & _ & H4 & H5 & _).
  - vm_compute. reflexivity.
  - decide_now.
  - exists parsed, p, config. exact (conj H1 (conj H2 (conj H3 (conj H4 H5)))).
Defined.

Example sample_exit : o_code sample_outcome = 0 ∧ length (o_daemons sample_outcome) = 1%nat ∧ o_stderr sample_outcome = [].
Proof. vm_compute. done. Qed.
End status.
