(* ===== verification/EndToEnd.v ===== *)
(** The CLI and the daemon together over the control socket: the request of
    src/cmd/harmony-netbridge/main.go ([callDaemon]) written and read by
    src/internal/control/control.go, answered by [handleControl] of
    src/internal/daemon/server.go, read back and acted on by [statusCommand]
    and [stopCommand]. *)
From S2P Require Import Prelude Errors GoIO GoStrings GoOS GoNet Protocol State Control Hdc Daemon Session Run ProxySession Cli.

Module endtoend.

Section endtoend.
Context `{protocol.JSON control.Request, protocol.JSON control.Response}.

(** One accepted control connection of the daemon: the request is read, the
    response written; the error of the write is ignored. *)
Definition serve_control (now : Time) (refresh : state.Snapshot → state.Snapshot) (reader : Reader)
    (writer : Writer) (snap : state.Snapshot) : Writer * state.Snapshot * bool :=
  let '(response, snap, stop) := run.handleControl now refresh (control.Read reader) snap in
  ((control.Write writer response).2, snap, stop).

(** [callDaemon] against that daemon.  [out] is the CLI's sending direction,
    with whatever short writes it shows; [lost] is the error that ends the
    daemon's answer; the daemon's side has no write failures. *)
Definition callDaemon (now : Time) (refresh : state.Snapshot → state.Snapshot) (command : gostring)
    (out : Writer) (lost : error) (snap : state.Snapshot)
    : result error control.Response * state.Snapshot * bool :=
  let request := control.mkRequest command in
  let sent := drop (length (w_out out)) (w_out (control.Write out request).2) in
  let '(answer, snap', stop) := serve_control now refresh (mkReader sent lost) (mkWriter [] []) snap in
  (control.Call (Ok (out, mkReader (w_out answer) lost)) request, snap', stop).

(** A message the codec carries and the bound admits. *)
Definition deliverable {A} `{protocol.JSON A} (v : A) : Prop :=
  control.json_line_ok v ∧ ∃ payload, protocol.json_Marshal v = Ok payload ∧ zlen payload + 1 ≤ control.maxMessageBytes.

Lemma deliverable_Write {A} `{protocol.JSON A} (v : A) out :
  deliverable v → ∃ sent, control.Write (mkWriter out []) v = (None, mkWriter (out ++ sent) []) ∧
    ∀ rest e, control.Read (mkReader (sent ++ rest) e) = Ok v.
Proof.
  intros [Hj (payload & Hm & Hb)].
  assert (control.Write (mkWriter out []) v = (None, mkWriter (out ++ payload ++ [control.newline]) [])) as Hw.
  { unfold control.Write. rewrite Hm, (proj2 (Z.ltb_ge _ _)) by lia. apply writeAll_plain. }
  exists (payload ++ [control.newline]). split; [done|]. intros rest e.
  destruct (control.Write_Read _ _ _ rest e Hj Hw) as (sent & Hs & _ & Hr). cbn in Hs.
  apply app_inv_head in Hs. by subst.
Qed.

(** What the request makes of the snapshot, and the answer. *)
Lemma callDaemon_response now refresh command out out' lost snap response snap' stop :
  control.json_line_ok (control.mkRequest command) →
  control.Write out (control.mkRequest command) = (None, out') →
  run.handleControl now refresh (Ok (control.mkRequest command)) snap = (response, snap', stop) →
  deliverable response →
  callDaemon now refresh command out lost snap = (Ok response, snap', stop).
Proof.
  intros Hj Hw Hh Hd. destruct (control.Write_Read _ _ _ [] lost Hj Hw) as (sent & Hs & _ & Hr).
  rewrite app_nil_r in Hr. unfold callDaemon, serve_control. rewrite Hw. cbn [snd]. rewrite Hs, drop_app_length, Hr, Hh.
  destruct (deliverable_Write response [] Hd) as (answer & -> & Ha). cbn [w_out app snd].
  unfold control.Call. rewrite Hw. specialize (Ha [] lost). rewrite app_nil_r in Ha. by rewrite Ha.
Qed.

(** C23: the CLI shows and changes the daemon's own state.  When request and
    response fit the protocol, [status] prints exactly the snapshot the
    daemon holds after refreshing its counters and changes nothing else;
    [stop] makes the daemon publish STOPPING and stop, and the CLI then waits
    for it to go; any other command is refused by the daemon with an error
    the CLI reports, and leaves the daemon as it was. *)
Theorem control_end_to_end now clock refresh command out out' lost snap polls :
  control.json_line_ok (control.mkRequest command) →
  control.Write out (control.mkRequest command) = (None, out') →
  (∀ response snap' stop, run.handleControl now refresh (Ok (control.mkRequest command)) snap = (response, snap', stop) →
     deliverable response) →
  let '(call, snap', stop) := callDaemon now refresh command out lost snap in
  (command = control.CommandStatus →
     cli.statusCommand call clock = Ok (refresh snap) ∧ snap' = refresh snap ∧ stop = false) ∧
  (command = control.CommandStop →
     cli.stopCommand clock call polls = cli.await_stopped clock polls ∧
     state.Daemon snap' = state.DaemonStopping ∧ stop = true) ∧
  (command ≠ control.CommandStatus → command ≠ control.CommandStop →
     cli.statusCommand call clock = Err (apperror.New apperror.CodeInternal (str "unknown daemon control command")) ∧
     snap' = snap ∧ stop = false).
Proof.
  intros Hj Hw Hd. destruct (run.handleControl now refresh (Ok (control.mkRequest command)) snap)
    as [[response snap'] stop] eqn:Hh.
  rewrite (callDaemon_response _ _ _ _ _ _ _ _ _ _ Hj Hw Hh (Hd _ _ _ eq_refl)).
  unfold run.handleControl in Hh. cbn [control.Command] in Hh. split_and!.
  - intros ->. rewrite bool_decide_eq_true_2 in Hh by done. by injection Hh as <- <- <-.
  - intros ->. rewrite bool_decide_eq_false_2, bool_decide_eq_true_2 in Hh by done. by injection Hh as <- <- <-.
  - intros H1 H2. rewrite !bool_decide_eq_false_2 in Hh by done. by injection Hh as <- <- <-.
Qed.
End endtoend.

(** ** Concrete calls *)

Definition sample_snapshot : state.Snapshot := state.NewStarting 0 (str "device-01") 27183.

(** A response codec for the one snapshot of the sample. *)
#[local] Instance sample_Response : protocol.JSON control.Response := {|
  protocol.json_Marshal _ := Ok (str "OK");
  protocol.json_Unmarshal _ := Ok (control.mkResponse true sample_snapshot [] []);
|}.
#[local] Instance sample_Request : protocol.JSON control.Request := control.word_codec.

Lemma control_end_to_end_witness :
  let '(call, snap', stop) :=
    callDaemon 7 (λ snap, snap) control.CommandStatus (mkWriter [] [(3%nat, None)]) (ESentinel EOF) sample_snapshot in
  cli.statusCommand call 9 = Ok sample_snapshot ∧ snap' = sample_snapshot ∧ stop = false.
Proof.
  pose proof (control_end_to_end 7 9 (λ snap, snap) control.CommandStatus (mkWriter [] [(3%nat, None)])
    (mkWriter (str "status" ++ [x0a]) []) (ESentinel EOF) sample_snapshot []) as Hc.
  destruct (callDaemon _ _ _ _ _ _) as [[call snap'] stop]. apply Hc.
  - intros payload [= <-]. split; [vm_compute; set_solver|reflexivity].
  - vm_compute. reflexivity.
  - intros response snap2 stop2 Hh. vm_compute in Hh. injection Hh as <- _ _. split.
    + intros payload [= <-]. split; [vm_compute; set_solver|reflexivity].
    + exists (str "OK"). split; [reflexivity|vm_compute; discriminate].
  - reflexivity.
Defined.
End endtoend.
